(* ===== verification/_CoqProject ===== *)
-Q . S2P
Prelude.v
CLib.v
CharDev.v
CharDevInit.v
CharDevTest.v
HelloModule.v
MemTrack.v
Sys.v
TcpServer.v
TcpClient.v
TcpEcho.v
Pthread.v
MainThread.v
ThreadCounter.v
Ring.v
ThreadQueue.v
ThreadSem.v
ThreadCond2.v
ThreadRw.v
ThreadBasic.v
ThreadMain.v
Shm.v
Debug.v
Uart.v
Gpio.v
Files.v
FileIO.v
Signal.v
SignalDemo.v
SignalCaught.v
SignalMain.v
Pipes.v
Mq.v
Udp.v
Timers.v
MemMap.v
Processes.v
