(* ===== verification/Prelude.v ===== *)
(** * A verification library for the embedded Linux demo project

    The repository is a set of small C programs, one directory per subject.
    They share no code; each is modelled by its own file of this library, on
    top of a common prelude and of models of the C and POSIX facilities the
    programs use.

    ** How programs are modelled

    - Sequential code is a function in the state monad [ST] of this file:
      explicit state passing, with [None] for what has no meaning in C or in
      the kernel (an access outside an object, releasing what is not held).
      "The code never goes wrong" is therefore part of every statement that
      says a call returns [Some].  [st_wp] is its total-correctness
      predicate.  src/13_debugging, whose subject is undefined behaviour,
      has a monad of its own in which the kind of fault is a value.
    - Concurrent code is a partial step function, one C statement per step
      (an unprotected [x++] is two: a read and a write), and a schedule is a
      list of actions; [run step sched s] executes an interleaving, and the
      theorems quantify over all of them.  Signals, lost signals and spurious
      wake-ups of condition variables are scheduler actions.
    - What the kernel or a library answers to a call is an argument of the
      model (a field of an environment record, or of the input sequence), so
      every error path is reachable; what is assumed of an answer (a new
      descriptor is not in use, [recv] returns at most what was asked for, a
      block from [malloc] is fresh) is a named hypothesis with a witness.
    - Machine integers are [Z] with the wrap-around written out ([wrapU],
      [wrapS]); buffers are byte lists with bounds-checked access (CLib.v).

    ** The files

    - Prelude.v: machine integers, list slices, schedules and their invariant,
      measure and simulation principles, the [ST] monad and its
      weakest-precondition rules, tactics.
    - CLib.v: bytes and strings, [itoa], [strtol] with its range and [atoi]
      cut to an [int], [printf]-style formatting, [snprintf], bounds-checked [memcpy], [memmove], [strncpy].
    - CharDev.v, CharDevInit.v, CharDevTest.v: src/10_device_driver.  The
      driver's file operations over device, open files, user memory (the
      class [UserMem]) and kernel log; module load with its goto unwinding
      and unload; the test program on top of the driver.  Theorems: any
      sequence of system calls refines a bounded byte queue (C1), no byte is
      lost, duplicated or reordered (C2), every failure during load releases
      exactly what was acquired (C3), what the test program prints between
      load and unload, whatever call of the load fails (C4).
    - HelloModule.v: src/09_kernel_module.  Parameters, load and unload (C18);
      reading the /proc file in pieces over the kernel's seq_file library, the
      class [SeqFile] (C19), of which [SeqFileOk] assumes that a first read of
      at least one byte makes the text and that it is kept for the next.
    - MemTrack.v: src/05_memory, Demo 5.  The allocation records as a linked
      list in a heap, which may hold other things too, walked through a
      pointer to a pointer; refinement to the list of live allocations, unless
      the unchecked [malloc] of a record fails, which crashes (C20), the leak
      report (C21).
    - Sys.v: a process's descriptor table and output streams, shared by the
      socket programs.
    - TcpServer.v, TcpClient.v: src/07_networking.  The epoll server with its
      event loop (C23, C25), the port it binds and the epoll calls it does not
      check, the client's connect loop and conversation
      (C26, C27).  TcpEcho.v: the two programs talking to each other over a
      connection that may cut the streams anywhere (C24).
    - Pthread.v: mutexes, semaphores, read-write locks, and the reasoning
      about critical sections the thread demos share.
    - MainThread.v: the main thread of a demo, which creates and joins the
      threads under [CHECK], and functions that run threads in general: [proc],
      the interface [proc_ok] (bounded, never stuck, output as promised, no
      thread left on return, failures reported, nothing destroyed while a
      thread can use it), sequencing ([pseq]); the
      class [WorkersOk] is what the threads of a demo promise to its main
      thread.
    - ThreadCounter.v, Ring.v, ThreadQueue.v, ThreadSem.v, ThreadCond2.v,
      ThreadRw.v, ThreadBasic.v: src/02_threads/thread_demo.c, one file per
      demo (Ring.v: the ring buffer two of them use).  Each has a safety
      theorem (no lost update, first-in first-out, a legal history of a counter
      or a register, ...) and a theorem [proc_ok] of the demo (C5 to C17).
      ThreadMain.v: [main], the demos one after the other, from the demos'
      [proc_ok] (C22).
    - Shm.v: src/03_ipc/shm_demo.c.  Set-up with its failures, the two
      processes and clean-up (C28).
    - Debug.v: src/13_debugging/debug_demo.c.  Every menu entry runs into
      exactly the fault it announces, or, when a [malloc] fails, into the use
      of NULL (C29).
    - Uart.v, Gpio.v: src/16_uart and src/15_gpio.  The line settings bit by
      bit and the session on every path (C30); handles, driven values, the
      watchdog protocol and the exact output (C31).
    - Files.v: descriptors, files, pipes and epoll instances of one process,
      the kernel under the single-process I/O programs.  FileIO.v:
      src/06_file_io.  What is written is what is read back, and what sendfile
      leaves in the second file, on every failure of a checked call (C34).
    - Signal.v: masks, pending signals and dispositions, with handlers that
      may run and nest at every statement, over the state of Files.v.
      SignalDemo.v, SignalCaught.v, SignalMain.v: src/04_signals.  The program;
      its handlers under any arrival of signals (C32); the whole program
      undisturbed (C33).
    - Pipes.v, Mq.v: the other programs of src/03_ipc.  Two processes over a
      pipe and over a FIFO, with the ends they leave open (C35; a regular file
      in the FIFO's place is modelled too); message queues with priorities, received in
      the stable order by priority, and two processes over one (C36).
    - Udp.v: src/07_networking/udp_demo.c.  Client and server over a network
      that delays, reorders and loses, with sockets that may not have been
      made, bound or connected (C37).
    - Timers.v: src/08_timers.  Clock arithmetic, signal-counting loops and
      timerfd under expirations at any point (C38).
    - MemMap.v: src/05_memory, Demos 1 to 4 and [main].  Mappings with their
      protection, file mappings, aligned allocations, and Demo 5 of MemTrack.v
      on the same heap, where its leak stays (C39).
    - Processes.v: src/01_processes.  Waiting and polling parents, vfork and a
      shared memory object; the children a part leaves uncollected are passed
      to the next, where [wait(NULL)] may collect them (C40).

    ** Bounds and fuel

    Loops over a list in the heap take one more than the number of heap cells
    as fuel, which is proved to be enough; loops with a known trip count take
    it; the drain of a pipe takes one more than the bytes in all pipes, and the
    delivery of pending signals and the interrupted sleeps one more than the
    signals that can still arrive.  Running out of fuel is stuck, so the
    theorems that a call returns [Some] include termination.  Loop bounds and
    thread counts that are constants of the source (4 threads of 100000
    iterations, 10 items, 100 iterations, 5 messages, 4 datagrams) are
    parameters of the models, and the lemmas hold for every value of them;
    queue capacities are those of the source.  A schedule's length is bounded
    by a measure of its start ([run_measure], [run_within]), plus a cost per
    event of the environment where the program cannot prevent it ([run_cost]:
    spurious wake-ups, expirations, timeouts).

    ** What is not modelled

    Sleeps only suggest an order: every order is considered instead.  The
    kernel's seq_file library, libc's messages and the text of [%p] and [%f] are
    parameters.  Memory is sequentially consistent.  Standard output is line
    buffered, as on a terminal: what two processes print is two sequences of
    lines (redirected to a file, what the parent had buffered at [fork] would
    appear twice).  A call whose result the source ignores is taken to do its
    work, except the sends of the TCP programs, the epoll calls of the server,
    the sockets of the UDP program, the [malloc]s of MemTrack.v and Debug.v
    and the writes to the serial line and the watchdog, which may fail or
    take less.  In the thread demos the line about a failed call and the
    [exit] after it are one step.  A timer expires at any time while it runs;
    its interval and value only say whether it does.  The program mq_send that src/03_ipc/mq_demo.c executes is not in the
    repository; what it sends is an argument.  Shell scripts, build files and
    notes are outside the scope. *)

From stdpp Require Export base gmap sets list strings relations numbers list_numbers.
From Stdlib Require Export ZArith Lia.

Local Open Scope Z_scope.

(** ** Machine integers

    A w-bit integer is a [Z]; the wrap-around of C's unsigned types (and of
    the kernel's [-fno-strict-overflow] signed types) is written out. *)

Definition wrapU (w z : Z) : Z := z mod 2 ^ w.

Definition wrapS (w z : Z) : Z := (z + 2 ^ (w - 1)) mod 2 ^ w - 2 ^ (w - 1).

Declare Scope c_scope.
Delimit Scope c_scope with c.

Notation "'size_t!' z" := (wrapU 64 z) (at level 10, z at level 9) : c_scope.
Notation "'loff_t!' z" := (wrapS 64 z) (at level 10, z at level 9) : c_scope.
Notation "'int!' z" := (wrapS 32 z) (at level 10, z at level 9) : c_scope.
Open Scope c_scope.

Lemma wrapU_range w z : 0 <= w -> 0 <= wrapU w z < 2 ^ w.
Proof. intros. apply Z.mod_pos_bound. lia. Qed.

Lemma wrapU_small w z : 0 <= z < 2 ^ w -> wrapU w z = z.
Proof. apply Z.mod_small. Qed.

Lemma wrapS_small w z : 0 < w -> - 2 ^ (w - 1) <= z < 2 ^ (w - 1) -> wrapS w z = z.
Proof.
  intros Hw Hz. unfold wrapS.
  assert (2 ^ w = 2 * 2 ^ (w - 1)) by (rewrite <- Z.pow_succ_r by lia; f_equal; lia).
  rewrite Z.mod_small; lia.
Qed.

Lemma wrapS_range w z : 0 < w -> - 2 ^ (w - 1) <= wrapS w z < 2 ^ (w - 1).
Proof.
  intros Hw. unfold wrapS.
  assert (2 ^ w = 2 * 2 ^ (w - 1)) by (rewrite <- Z.pow_succ_r by lia; f_equal; lia).
  pose proof (Z.mod_pos_bound (z + 2 ^ (w - 1)) (2 ^ w)). lia.
Qed.

Lemma wrapU_add_l w a b : wrapU w (wrapU w a + b) = wrapU w (a + b).
Proof. unfold wrapU. apply Zplus_mod_idemp_l. Qed.

Lemma wrapU_sub_l w a b : wrapU w (wrapU w a - b) = wrapU w (a - b).
Proof. unfold wrapU. apply Zminus_mod_idemp_l. Qed.

(** ** Lists indexed by C integers *)

Definition lenZ {A} (l : list A) : Z := Z.of_nat (length l).
Definition takeZ {A} (n : Z) (l : list A) : list A := take (Z.to_nat n) l.
Definition dropZ {A} (n : Z) (l : list A) : list A := drop (Z.to_nat n) l.

Section list_lemmas.
Context {A : Type}.
Implicit Types l k : list A.

Lemma lenZ_nonneg l : 0 <= lenZ l.
Proof. unfold lenZ. lia. Qed.

Lemma lenZ_app l k : lenZ (l ++ k) = lenZ l + lenZ k.
Proof. unfold lenZ. rewrite length_app. lia. Qed.

Lemma lenZ_takeZ n l : 0 <= n <= lenZ l -> lenZ (takeZ n l) = n.
Proof. unfold lenZ, takeZ. rewrite length_take. lia. Qed.

Lemma lenZ_takeZ_min n l : 0 <= n -> lenZ (takeZ n l) = Z.min n (lenZ l).
Proof. unfold lenZ, takeZ. rewrite length_take. lia. Qed.

Lemma lenZ_dropZ n l : 0 <= n <= lenZ l -> lenZ (dropZ n l) = lenZ l - n.
Proof. unfold lenZ, dropZ. rewrite length_drop. lia. Qed.

Lemma takeZ_dropZ n l : takeZ n l ++ dropZ n l = l.
Proof. apply take_drop. Qed.

Lemma takeZ_app_exact l k n : n = lenZ l -> takeZ n (l ++ k) = l.
Proof.
  intros ->. unfold takeZ, lenZ. rewrite Nat2Z.id. apply take_app_length.
Qed.

Lemma takeZ_all n l : lenZ l <= n -> takeZ n l = l.
Proof. unfold takeZ, lenZ. intros. apply take_ge. lia. Qed.

Lemma takeZ_takeZ n m l : takeZ n (takeZ m l) = takeZ (Z.min n m) l.
Proof. unfold takeZ. rewrite take_take. f_equal. lia. Qed.

Lemma takeZ_takeZ_le n m l : n <= m -> takeZ n (takeZ m l) = takeZ n l.
Proof. intros. rewrite takeZ_takeZ. f_equal. lia. Qed.

Lemma takeZ_0 l : takeZ 0 l = [].
Proof. done. Qed.

Lemma dropZ_0 l : dropZ 0 l = l.
Proof. done. Qed.

Lemma takeZ_dropZ_comm n m l :
  0 <= n -> 0 <= m -> dropZ n (takeZ (n + m) l) = takeZ m (dropZ n l).
Proof.
  intros. unfold takeZ, dropZ. rewrite take_drop_commute. do 2 f_equal. lia.
Qed.

Lemma lenZ_replicate n (x : A) : lenZ (replicate n x) = Z.of_nat n.
Proof. unfold lenZ. by rewrite length_replicate. Qed.

Lemma lenZ_zero_inv l : lenZ l = 0 -> l = [].
Proof. unfold lenZ. destruct l; simpl; [done | lia]. Qed.
End list_lemmas.

Create Rewrite HintDb c_len.
#[export] Hint Rewrite @lenZ_app @lenZ_replicate : c_len.
(** Side conditions may speak of the length of a nested slice. *)
Ltac len_side := solve [lia | rewrite lenZ_dropZ by lia; lia | rewrite lenZ_takeZ by lia; lia].
#[export] Hint Rewrite @lenZ_takeZ @lenZ_dropZ using len_side : c_len.

(** [len] normalises list lengths and closes the arithmetic. *)
Ltac len := autorewrite with c_len in *; try lia.

(** ** Transition systems with an explicit scheduler

    A concurrent or event-driven component is a partial step function
    [step : action -> state -> option state]; a schedule is a list of
    actions, so that an interleaving is a value one can run. *)
Section machine.
Context {A S : Type} (step : A -> S -> option S).

Fixpoint run (sched : list A) (s : S) : option S :=
  match sched with
  | [] => Some s
  | a :: sched => match step a s with Some s' => run sched s' | None => None end
  end.

(** The schedule that always takes the first enabled action of [acts]. *)
Fixpoint greedy (acts : list A) (fuel : nat) (s : S) : list A :=
  match fuel with
  | O => []
  | Datatypes.S fuel =>
      match list_find (fun a => is_Some (step a s)) acts with
      | Some (_, a) => a :: from_option (greedy acts fuel) [] (step a s)
      | None => []
      end
  end.

Definition reachable (s0 s : S) : Prop := exists sched, run sched s0 = Some s.

Lemma run_app l1 l2 s s1 :
  run l1 s = Some s1 -> run (l1 ++ l2) s = run l2 s1.
Proof.
  revert s. induction l1 as [|a l1 IH]; intros s; simpl; [congruence|].
  destruct (step a s); [apply IH | done].
Qed.

Lemma run_snoc_inv l a s s2 :
  run (l ++ [a]) s = Some s2 -> exists s1, run l s = Some s1 /\ step a s1 = Some s2.
Proof.
  revert s. induction l as [|b l IH]; intros s; simpl.
  - destruct (step a s) as [s'|] eqn:E; [|done]. intros [= <-]. eauto.
  - destruct (step b s); [apply IH | done].
Qed.

(** Induction on a schedule from its end, for properties of what was
    scheduled as well as of the state. *)
Lemma run_trace_ind (Q : list A -> S -> Prop) s0 :
  Q [] s0 ->
  (forall l s a s', run l s0 = Some s -> Q l s -> step a s = Some s' -> Q (l ++ [a]) s') ->
  forall sched s, run sched s0 = Some s -> Q sched s.
Proof.
  intros H0 Hs sched. induction sched as [|a sched IH] using rev_ind; intros s Hrun.
  - simpl in Hrun. by simplify_eq.
  - apply run_snoc_inv in Hrun as (s1 & H1 & Ha). eauto.
Qed.

Lemma run_invariant (I : S -> Prop) :
  (forall a s s', I s -> step a s = Some s' -> I s') ->
  forall sched s s', I s -> run sched s = Some s' -> I s'.
Proof.
  intros Hstep sched. induction sched as [|a sched IH]; simpl; intros s s' Hs Hrun.
  - by simplify_eq.
  - destruct (step a s) as [s1|] eqn:E; [|done]. eauto.
Qed.

(** If every step decreases a measure, a schedule cannot be longer than the
    measure of its start. *)
Lemma run_measure (I : S -> Prop) (m : S -> nat) :
  (forall a s s', I s -> step a s = Some s' -> I s' /\ (m s' < m s)%nat) ->
  forall sched s s', I s -> run sched s = Some s' -> (length sched + m s' <= m s)%nat.
Proof.
  intros Hstep sched. induction sched as [|a sched IH]; simpl; intros s s' Hs Hrun.
  - simplify_eq. lia.
  - destruct (step a s) as [s1|] eqn:E; [|done].
    destruct (Hstep _ _ _ Hs E) as [Hs1 Hm].
    specialize (IH _ _ Hs1 Hrun). lia.
Qed.

(** The same for the schedules whose actions satisfy [ok]. *)
Lemma run_within (I : S -> Prop) (m : S -> nat) (ok : A -> Prop) :
  (forall a s s', I s -> ok a -> step a s = Some s' -> I s' /\ (m s' < m s)%nat) ->
  forall sched s s', I s -> Forall ok sched -> run sched s = Some s' -> I s' /\ (length sched + m s' <= m s)%nat.
Proof.
  intros Hstep sched. induction sched as [|a sched IH]; simpl; intros s s' Hs Hok Hrun.
  - by simplify_eq.
  - apply Forall_cons in Hok as [Ha Hok]. destruct (step a s) as [s1|] eqn:E; [|done].
    destruct (Hstep _ _ _ Hs Ha E) as [Hs1 Hm].
    destruct (IH _ _ Hs1 Hok Hrun). split; [done|lia].
Qed.

(** Steps may put back what they cost: a schedule is bounded by the measure
    of its start and the costs of its actions. *)
Lemma run_cost (I : S -> Prop) (m : S -> nat) (cost : A -> nat) :
  (forall a s s', I s -> step a s = Some s' -> I s' /\ (m s' < m s + cost a)%nat) ->
  forall sched s s', I s -> run sched s = Some s' ->
  I s' /\ (length sched + m s' <= m s + sum_list_with cost sched)%nat.
Proof.
  intros Hstep sched. induction sched as [|a sched IH]; simpl; intros s s' Hs Hrun.
  - simplify_eq. split; [done|lia].
  - destruct (step a s) as [s1|] eqn:E; [|done].
    destruct (Hstep _ _ _ Hs E) as [Hs1 Hm].
    destruct (IH _ _ Hs1 Hrun). split; [done|lia].
Qed.

(** If from every state of the invariant that is not final some step
    decreases a measure, a final state can be reached. *)
Lemma run_can_finish (I final : S -> Prop) (m : S -> nat) :
  (forall s, I s -> final s \/ exists a s', step a s = Some s' /\ I s' /\ (m s' < m s)%nat) ->
  forall s, I s -> exists sched s', run sched s = Some s' /\ final s'.
Proof.
  intros Hprog s. remember (m s) as n eqn:En. revert s En.
  induction (lt_wf n) as [n _ IH]. intros s -> Hs.
  destruct (Hprog s Hs) as [Hf | (a & s1 & Ha & Hs1 & Hlt)].
  - by exists [], s.
  - destruct (IH _ Hlt s1 eq_refl Hs1) as (sched & s' & Hrun & Hf).
    exists (a :: sched), s'. simpl. by rewrite Ha.
Qed.
End machine.

(** Functional simulation between two transition systems: each concrete step
    is matched by a (possibly empty) list of abstract steps. *)
Section simulation.
Context {A S B T : Type} (cstep : A -> S -> option S) (astep : B -> T -> option T).
Context (I : S -> Prop) (abs : S -> T).

Lemma run_simulation :
  (forall a s s', I s -> cstep a s = Some s' ->
     I s' /\ exists bs, run astep bs (abs s) = Some (abs s')) ->
  forall sched s s', I s -> run cstep sched s = Some s' ->
  exists bs, run astep bs (abs s) = Some (abs s').
Proof.
  intros Hsim sched. induction sched as [|a sched IH]; simpl; intros s s' Hs Hrun.
  - simplify_eq. by exists [].
  - destruct (cstep a s) as [s1|] eqn:E; [|done].
    destruct (Hsim _ _ _ Hs E) as [Hs1 [bs1 H1]].
    destruct (IH _ _ Hs1 Hrun) as [bs2 H2].
    exists (bs1 ++ bs2). by rewrite (run_app _ _ _ _ _ H1).
Qed.
End simulation.

(** ** Stateful code that may go wrong

    [ST S A] threads a state; [None] is undefined behaviour, an oops or a
    self-deadlock: anything after which the C program has no meaning. *)
Definition ST (S A : Type) : Type := S -> option (A * S).

#[export] Instance ST_ret S : MRet (ST S) := fun A a s => Some (a, s).
#[export] Instance ST_bind S : MBind (ST S) := fun A B k c s =>
  match c s with Some (a, s') => k a s' | None => None end.
Definition st_stuck {S A} : ST S A := fun _ => None.
Definition st_get {S} : ST S S := fun s => Some (s, s).
Definition st_modify {S} (f : S -> S) : ST S unit := fun s => Some (tt, f s).

Lemma st_bind_run {S A B} (m : ST S A) (k : A -> ST S B) s a s' :
  m s = Some (a, s') -> (m ≫= k) s = k a s'.
Proof. intros Hm. unfold mbind, ST_bind. by rewrite Hm. Qed.

(** Total correctness: [m] returns from [s], in a state that satisfies [Q]. *)
Definition st_wp {S A} (m : ST S A) (Q : A -> S -> Prop) (s : S) : Prop :=
  match m s with Some (a, s') => Q a s' | None => False end.

Lemma wp_ret {S A} (a : A) (Q : A -> S -> Prop) s : Q a s -> st_wp (mret a) Q s.
Proof. done. Qed.

Lemma wp_bind {S A B} (m : ST S A) (k : A -> ST S B) (Q : B -> S -> Prop) s :
  st_wp m (fun a => st_wp (k a) Q) s -> st_wp (m ≫= k) Q s.
Proof. unfold st_wp, mbind, ST_bind. by destruct (m s) as [[a s']|]. Qed.

Lemma wp_mono {S A} (m : ST S A) (Q R : A -> S -> Prop) s :
  st_wp m Q s -> (forall a s', Q a s' -> R a s') -> st_wp m R s.
Proof. unfold st_wp. destruct (m s) as [[a s']|]; eauto. Qed.

Lemma wp_get {S} (Q : S -> S -> Prop) s : Q s s -> st_wp st_get Q s.
Proof. done. Qed.

Lemma wp_modify {S} (f : S -> S) (Q : unit -> S -> Prop) s : Q tt (f s) -> st_wp (st_modify f) Q s.
Proof. done. Qed.

Lemma wp_run {S A} (m : ST S A) (Q : A -> S -> Prop) s :
  st_wp m Q s <-> exists a s', m s = Some (a, s') /\ Q a s'.
Proof. unfold st_wp. destruct (m s) as [[a s']|]; naive_solver. Qed.

(** ** Automation *)

(** Split the boolean tests of the code into their propositions. *)
Ltac zbool :=
  repeat match goal with
  | H : (_ =? _) = true |- _ => apply Z.eqb_eq in H
  | H : (_ =? _) = false |- _ => apply Z.eqb_neq in H
  | H : (_ <? _) = true |- _ => apply Z.ltb_lt in H
  | H : (_ <? _) = false |- _ => apply Z.ltb_ge in H
  | H : (_ <=? _) = true |- _ => apply Z.leb_le in H
  | H : (_ <=? _) = false |- _ => apply Z.leb_gt in H
  | H : (_ && _)%bool = true |- _ => apply andb_true_iff in H as [? ?]
  | H : (_ || _)%bool = false |- _ => apply orb_false_iff in H as [? ?]
  | H : negb _ = true |- _ => apply negb_true_iff in H
  | H : negb _ = false |- _ => apply negb_false_iff in H
  end.

(** Case analysis on the first test or match of the goal, recording it. *)
Ltac case_test :=
  match goal with
  | |- context [if ?b then _ else _] => let E := fresh "E" in destruct b eqn:E
  end.

Ltac case_test_in H :=
  match type of H with
  | context [if ?b then _ else _] => let E := fresh "E" in destruct b eqn:E
  | context [match ?b with _ => _ end] => let E := fresh "E" in destruct b eqn:E
  end.

(** Run a step function's case analysis to the end, discarding stuck cases. *)
Ltac inv_step H :=
  repeat (case_test_in H; simplify_eq/=); simplify_eq/=; zbool.

(** Decide a closed proposition by computation. *)
Ltac by_decision :=
  match goal with
  | |- ?P => refine (bool_decide_unpack P _); vm_compute; exact I
  end.

(** Walk a program statement by statement. *)
Ltac wp_step :=
  lazymatch goal with
  | |- st_wp (_ ≫= _) _ _ => apply wp_bind
  | |- st_wp (mret _) _ _ => apply wp_ret
  | |- st_wp st_get _ _ => apply wp_get
  | |- st_wp (st_modify _) _ _ => apply wp_modify
  end; cbv beta.
