(* ===== verification/CLib.v ===== *)
(** * The C library functions the demos use

    Bytes, C strings, decimal conversion, [printf]-style formatting, and the
    buffer primitives [memmove], [memset] and [strncpy], on lists of bytes.
    A store outside its buffer is [None]: undefined behaviour. *)

From Stdlib.Strings Require Export Byte.
From Stdlib Require Import String Ascii.
From S2P Require Import Prelude.

Local Open Scope Z_scope.

Abbreviation bytes := (list byte).

#[export] Instance byte_eq_dec : EqDecision byte := Byte.byte_eq_dec.
#[export] Instance byte_inhabited : Inhabited byte := populate x00.

(** A string literal of the source, without its terminating NUL. *)
Definition bs (s : string) : bytes := String.list_byte_of_string s.

Definition Z_of_byte (b : byte) : Z := Z.of_N (Byte.to_N b).
Definition byte_of_Z (z : Z) : byte := default x00 (Byte.of_N (Z.to_N (wrapU 8 z))).

Lemma Z_of_byte_range b : 0 <= Z_of_byte b < 256.
Proof. unfold Z_of_byte. pose proof (Byte.to_N_bounded b). lia. Qed.

Lemma byte_of_Z_of_byte b : byte_of_Z (Z_of_byte b) = b.
Proof.
  unfold byte_of_Z. rewrite wrapU_small by apply Z_of_byte_range.
  unfold Z_of_byte. by rewrite N2Z.id, Byte.of_to_N.
Qed.

Lemma Z_of_byte_of_Z z : Z_of_byte (byte_of_Z z) = wrapU 8 z.
Proof.
  unfold byte_of_Z. pose proof (wrapU_range 8 z ltac:(lia)) as Hr.
  destruct (Byte.of_N _) as [b|] eqn:E; simpl.
  - unfold Z_of_byte. rewrite (Byte.to_of_N _ E). lia.
  - apply Byte.of_N_None_iff in E. lia.
Qed.

(** ** Little-endian [int] *)

Definition le32 (z : Z) : bytes :=
  let u := wrapU 32 z in
  [byte_of_Z u; byte_of_Z (Z.shiftr u 8); byte_of_Z (Z.shiftr u 16); byte_of_Z (Z.shiftr u 24)].

Definition le32_decode (l : bytes) : Z :=
  match l with
  | [b0; b1; b2; b3] =>
      int! (Z_of_byte b0 + 256 * Z_of_byte b1 + 65536 * Z_of_byte b2
            + 16777216 * Z_of_byte b3)
  | _ => 0
  end.

Lemma le32_roundtrip z : - 2 ^ 31 <= z < 2 ^ 31 -> le32_decode (le32 z) = z.
Proof.
  intros Hz. unfold le32, le32_decode.
  rewrite !Z_of_byte_of_Z, !Z.shiftr_div_pow2 by lia.
  unfold wrapU, wrapS. change (2 ^ 8) with 256. change (2 ^ 32) with 4294967296 in *.
  change (2 ^ 16) with 65536. change (2 ^ 24) with 16777216.
  change (2 ^ (32 - 1)) with 2147483648. change (2 ^ 31) with 2147483648 in *.
  Z.div_mod_to_equations. lia.
Qed.

(** ** C strings *)

Definition NUL : byte := x00.

(** The bytes before the first NUL: what [%s] prints and [strlen] counts. *)
Fixpoint cstr (l : bytes) : bytes :=
  match l with
  | [] => []
  | b :: l => if decide (b = NUL) then [] else b :: cstr l
  end.

Definition strlen (l : bytes) : Z := lenZ (cstr l).

Definition no_nul (l : bytes) : bool := bool_decide (Forall (fun b => b <> NUL) l).

Lemma cstr_no_nul l : Forall (fun b => b <> NUL) l -> cstr l = l.
Proof. induction 1; simpl; [done|]. case_decide; [done|]. by f_equal. Qed.

Lemma cstr_app_nul l k : Forall (fun b => b <> NUL) l -> cstr (l ++ NUL :: k) = l.
Proof. induction 1; simpl; [done|]. case_decide; [done|]. by f_equal. Qed.

(** A terminator behind [l] does not change the string at its start. *)
Lemma cstr_nul l k : cstr (l ++ NUL :: k) = cstr l.
Proof. induction l as [|b l IH]; simpl; [done|]. case_decide; [done|]. by rewrite IH. Qed.

Lemma cstr_Forall l : Forall (fun b => b <> NUL) (cstr l).
Proof. induction l; simpl; [constructor|]. case_decide; by constructor. Qed.

Lemma cstr_prefix l : exists k, l = cstr l ++ k.
Proof.
  induction l as [|b l [k IH]]; simpl; [by exists []|].
  case_decide; [by exists (b :: l)|]. exists k. simpl. by f_equal.
Qed.

Lemma lenZ_cstr_le l : lenZ (cstr l) <= lenZ l.
Proof.
  destruct (cstr_prefix l) as [k Hk]. rewrite Hk at 2. rewrite lenZ_app.
  pose proof (lenZ_nonneg k). lia.
Qed.

(** ** Decimal conversion: [%d], [%ld], [%zd], [%u] and [atoi] *)

Definition digit (d : Z) : byte := byte_of_Z (48 + d).

Fixpoint utoa_go (fuel : nat) (n : Z) (acc : bytes) : bytes :=
  match fuel with
  | O => acc
  | S fuel =>
      let acc := digit (n mod 10) :: acc in
      if n <? 10 then acc else utoa_go fuel (n / 10) acc
  end.

Definition utoa (n : Z) : bytes := utoa_go (S (Z.to_nat (Z.log2 n))) n [].

Definition itoa (z : Z) : bytes :=
  if z <? 0 then x2d :: utoa (- z) else utoa z.

Definition digit_val (b : byte) : option Z :=
  let v := Z_of_byte b - 48 in
  if (0 <=? v) && (v <=? 9) then Some v else None.

Fixpoint atoi_digits (acc : Z) (l : bytes) : Z :=
  match l with
  | [] => acc
  | b :: l => match digit_val b with
              | Some v => atoi_digits (10 * acc + v) l
              | None => acc
              end
  end.

Definition isspace (b : byte) : bool :=
  let c := Z_of_byte b in (c =? 32) || ((9 <=? c) && (c <=? 13)).

(** The number at the start of a text, blanks and a sign before it. *)
Fixpoint number (l : bytes) : Z :=
  match l with
  | [] => 0
  | b :: l' =>
      if isspace b then number l'
      else if decide (b = x2d) then - atoi_digits 0 l'
      else if decide (b = x2b) then atoi_digits 0 l'
      else atoi_digits 0 l
  end.

(** [strtol(l, NULL, 10)] stops at the bounds of the 64-bit [long]; [atoi] is
    its conversion to [int], as the C library does it (the standard leaves a
    number outside [int] undefined). *)
Definition strtol (l : bytes) : Z := Z.max (- 2 ^ 63) (Z.min (2 ^ 63 - 1) (number l)).
Definition atoi (l : bytes) : Z := wrapS 32 (strtol l).

Lemma digit_val_digit d : 0 <= d <= 9 -> digit_val (digit d) = Some d.
Proof.
  intros Hd. unfold digit_val, digit.
  rewrite Z_of_byte_of_Z, wrapU_small by lia.
  replace (48 + d - 48) with d by lia.
  destruct (0 <=? d) eqn:E1, (d <=? 9) eqn:E2; zbool; (done || lia).
Qed.

Lemma atoi_digits_utoa_go fuel n acc k :
  0 <= n -> n < 2 ^ Z.of_nat fuel ->
  exists a, atoi_digits k (utoa_go fuel n acc) = atoi_digits (k * a + n) acc /\ 0 < a.
Proof.
  revert n acc k. induction fuel as [|fuel IH]; intros n acc k Hn Hf.
  - simpl in Hf. exists 1. simpl. split; [f_equal; lia | lia].
  - simpl utoa_go. destruct (n <? 10) eqn:E; zbool.
    + exists 10. simpl. rewrite Z.mod_small by lia.
      rewrite digit_val_digit by lia. split; [f_equal; lia | lia].
    + assert (0 <= n mod 10 < 10) by (apply Z.mod_pos_bound; lia).
      assert (n = 10 * (n / 10) + n mod 10) by (apply Z.div_mod; lia).
      destruct (IH (n / 10) (digit (n mod 10) :: acc) k) as (a & Ha & Hpos);
        [apply Z.div_pos; lia|..].
      { rewrite Nat2Z.inj_succ, Z.pow_succ_r in Hf by lia. nia. }
      exists (10 * a). rewrite Ha. simpl. rewrite digit_val_digit by lia.
      split; [f_equal; nia | lia].
Qed.

Lemma atoi_digits_utoa n : 0 <= n -> atoi_digits 0 (utoa n) = n.
Proof.
  intros Hn. unfold utoa.
  destruct (atoi_digits_utoa_go (S (Z.to_nat (Z.log2 n))) n [] 0 Hn) as (a & -> & _).
  - rewrite Nat2Z.inj_succ, Z2Nat.id by apply Z.log2_nonneg.
    destruct (decide (n = 0)) as [->|]; [by simpl|]. apply Z.log2_spec. lia.
  - simpl. lia.
Qed.

Lemma Z_of_digit d : 0 <= d <= 9 -> Z_of_byte (digit d) = 48 + d.
Proof. intros. unfold digit. rewrite Z_of_byte_of_Z, wrapU_small; lia. Qed.

Definition is_digit (b : byte) : Prop := 48 <= Z_of_byte b <= 57.

Lemma utoa_go_digits fuel n acc :
  0 <= n -> Forall is_digit acc -> Forall is_digit (utoa_go fuel n acc).
Proof.
  revert n acc. induction fuel as [|fuel IH]; intros n acc Hn Hacc; simpl; [done|].
  assert (0 <= n mod 10 < 10) by (apply Z.mod_pos_bound; lia).
  assert (Forall is_digit (digit (n mod 10) :: acc)).
  { constructor; [|done]. unfold is_digit. rewrite Z_of_digit; lia. }
  case_match; [done|]. apply IH; [apply Z.div_pos; lia | done].
Qed.

Lemma utoa_digits n : 0 <= n -> Forall is_digit (utoa n).
Proof. intros. by apply utoa_go_digits. Qed.

Lemma digit_not_nul b : is_digit b -> b <> NUL.
Proof. unfold is_digit. intros H ->. change (Z_of_byte NUL) with 0 in H. lia. Qed.

Lemma utoa_no_nul n : 0 <= n -> Forall (fun b => b <> NUL) (utoa n).
Proof.
  intros. eapply Forall_impl; [by apply utoa_digits|]. exact digit_not_nul.
Qed.

Lemma itoa_no_nul z : Forall (fun b => b <> NUL) (itoa z).
Proof.
  unfold itoa. case_test; zbool; [constructor; [done|]|]; apply utoa_no_nul; lia.
Qed.

(** A number below 10^k has at most k digits. *)
Lemma utoa_go_length fuel n acc k :
  0 <= n < 10 ^ (Z.of_nat (S k)) -> (length (utoa_go fuel n acc) <= length acc + S k)%nat.
Proof.
  revert n acc k. induction fuel as [|fuel IH]; intros n acc k Hn; cbn [utoa_go]; [lia|].
  destruct (n <? 10) eqn:E; [cbn [length]; lia|]. apply Z.ltb_ge in E.
  destruct k as [|k]; [change (10 ^ Z.of_nat 1) with 10 in Hn; lia|].
  etrans; [apply (IH _ _ k)|cbn [length]; lia].
  rewrite (Nat2Z.inj_succ (S k)), Z.pow_succ_r in Hn by lia.
  split; [apply Z.div_pos; lia|apply Z.div_lt_upper_bound; lia].
Qed.

Lemma itoa_length z k : 0 <= z < 10 ^ (Z.of_nat (S k)) -> lenZ (itoa z) <= Z.of_nat (S k).
Proof.
  intros Hz. unfold itoa. rewrite (proj2 (Z.ltb_ge _ _)) by lia. unfold lenZ, utoa.
  pose proof (utoa_go_length (S (Z.to_nat (Z.log2 z))) z [] k Hz) as H. cbn [length] in H. lia.
Qed.

Lemma number_cons_digit b l : is_digit b -> number (b :: l) = atoi_digits 0 (b :: l).
Proof.
  intros Hb. unfold is_digit in Hb. unfold number, isspace; fold number.
  assert (Z_of_byte b <> 45) by lia. assert (Z_of_byte b <> 43) by lia.
  destruct (Z_of_byte b =? 32) eqn:E1; zbool; [lia|].
  destruct (9 <=? Z_of_byte b) eqn:E2, (Z_of_byte b <=? 13) eqn:E3; zbool; simpl; try lia;
    (destruct (decide (b = x2d)) as [->|]; [done|]);
    (destruct (decide (b = x2b)) as [->|]; [done|]); done.
Qed.

Lemma utoa_nonempty n : utoa n <> [].
Proof.
  unfold utoa. assert (forall f m b l, utoa_go f m (b :: l) <> []) as H.
  { induction f as [|f IH]; intros; simpl; [done|]. case_match; [done | apply IH]. }
  simpl. case_match; [done | apply H].
Qed.

(** Printing a number and parsing it back gives the number. *)
Lemma number_itoa z : number (itoa z) = z.
Proof.
  unfold itoa. case_test; zbool.
  - change (number (x2d :: utoa (- z))) with (- atoi_digits 0 (utoa (- z))).
    rewrite atoi_digits_utoa; lia.
  - pose proof (utoa_digits z E) as Hd. pose proof (utoa_nonempty z).
    pose proof (atoi_digits_utoa z E) as Hz.
    destruct (utoa z) as [|b l]; [done|]. inversion Hd; subst.
    by rewrite number_cons_digit.
Qed.

(** An [int] is read back. *)
Lemma atoi_itoa z : - 2 ^ 31 <= z < 2 ^ 31 -> atoi (itoa z) = z.
Proof. intros H. unfold atoi, strtol. rewrite number_itoa, wrapS_small; lia. Qed.

(** Beyond it the number wraps around, and beyond [long] it is -1 or 0. *)
Example atoi_wraps :
  atoi (bs "4294967297") = 1 /\ atoi (bs "99999999999999999999") = -1 /\
  atoi (bs "-99999999999999999999") = 0.
Proof. by vm_compute. Qed.

(** ** [printf]-style formatting

    A format string with its arguments is the list of its pieces, in order. *)
Inductive fmt :=
| FLit (s : string)              (* literal text *)
| FD (z : Z)                     (* %d %ld %zd %u %zu *)
| FS (s : bytes)                 (* %s: the buffer up to its NUL *)
| FSn (n : Z) (s : bytes)        (* %.*s: at most n bytes of it *)
| FRaw (s : bytes).              (* a rendering the platform chooses: %p *)

Definition fmt_piece (p : fmt) : bytes :=
  match p with
  | FLit s => bs s
  | FD z => itoa z
  | FS s => cstr s
  | FSn n s => cstr (takeZ n s)
  | FRaw s => s
  end.

Fixpoint format (f : list fmt) : bytes :=
  match f with
  | [] => []
  | p :: f => fmt_piece p ++ format f
  end.

(** The banner the demos print before each part: [separator]. *)
Definition rule : string := "══════════════════════════════════════════".
Definition separator (title : string) : list fmt :=
  [FRaw [x0a]; FLit rule; FRaw [x0a]; FLit "  "; FLit title; FRaw [x0a]; FLit rule; FRaw [x0a]].

(** The line [perror(who)] prints, with the text of errno. *)
Definition perror_line (who : string) (text : bytes) : bytes :=
  format [FLit who; FLit ": "; FS text; FRaw [x0a]].

Lemma format_app f g : format (f ++ g) = format f ++ format g.
Proof. induction f as [|p f IH]; simpl; [done|]. by rewrite IH, (assoc_L (++)). Qed.

(** [snprintf(buf, size, ...)]: the length the whole text would have, and the
    bytes stored at [buf], at most [size] with the terminating NUL. *)
Definition snprintf (size : Z) (f : list fmt) : Z * bytes :=
  let out := format f in
  (lenZ out, if size <=? 0 then [] else takeZ (size - 1) out ++ [NUL]).

Lemma snprintf_bound size f : 0 <= size -> lenZ (snprintf size f).2 <= size.
Proof.
  intros Hs. unfold snprintf; simpl. case_test; zbool; [unfold lenZ; simpl; lia|].
  rewrite lenZ_app, lenZ_takeZ_min by lia.
  change (lenZ [NUL]) with 1. lia.
Qed.

Lemma snprintf_fits size f :
  lenZ (format f) < size -> (snprintf size f).2 = format f ++ [NUL].
Proof.
  intros Hs. pose proof (lenZ_nonneg (format f)). unfold snprintf; simpl.
  destruct (size <=? 0) eqn:E; zbool; [lia|].
  by rewrite takeZ_all by lia.
Qed.

(** The string stored is shorter than the buffer. *)
Lemma snprintf_cstr size f : 0 < size -> lenZ (cstr (snprintf size f).2) < size.
Proof.
  intros Hs. unfold snprintf. cbn [snd]. rewrite (proj2 (Z.leb_gt _ _)) by done. rewrite cstr_nul.
  pose proof (lenZ_cstr_le (takeZ (size - 1) (format f))) as H. rewrite lenZ_takeZ_min in H by lia. lia.
Qed.

(** ** Buffers *)

(** [memcpy(buf + off, src, |src|)] into an array: out of bounds is undefined. *)
Definition store_bytes (buf : bytes) (off : Z) (src : bytes) : option bytes :=
  if (0 <=? off) && (off + lenZ src <=? lenZ buf)
  then Some (takeZ off buf ++ src ++ dropZ (off + lenZ src) buf)
  else None.

(** The [n] bytes at [buf + off]. *)
Definition load_bytes (buf : bytes) (off n : Z) : option bytes :=
  if (0 <=? off) && (0 <=? n) && (off + n <=? lenZ buf)
  then Some (takeZ n (dropZ off buf))
  else None.

Definition memmove (buf : bytes) (dst src n : Z) : option bytes :=
  match load_bytes buf src n with
  | Some l => store_bytes buf dst l
  | None => None
  end.

Definition memset (buf : bytes) (c : byte) (n : Z) : option bytes :=
  store_bytes buf 0 (replicate (Z.to_nat n) c).

(** [strncpy(buf + off, src, n)]: exactly [n] bytes, padded with NULs. *)
Definition strncpy (buf : bytes) (off : Z) (src : bytes) (n : Z) : option bytes :=
  let s := takeZ n (cstr src) in
  store_bytes buf off (s ++ replicate (Z.to_nat (n - lenZ s)) NUL).

Lemma store_bytes_Some buf off src :
  0 <= off -> off + lenZ src <= lenZ buf ->
  store_bytes buf off src = Some (takeZ off buf ++ src ++ dropZ (off + lenZ src) buf).
Proof.
  intros. unfold store_bytes.
  destruct (0 <=? off) eqn:?, (off + lenZ src <=? lenZ buf) eqn:?; zbool; (done || lia).
Qed.

Lemma load_bytes_Some buf off n :
  0 <= off -> 0 <= n -> off + n <= lenZ buf ->
  load_bytes buf off n = Some (takeZ n (dropZ off buf)).
Proof.
  intros. unfold load_bytes.
  destruct (0 <=? off) eqn:?, (0 <=? n) eqn:?, (off + n <=? lenZ buf) eqn:?; zbool; (done || lia).
Qed.

Lemma store_bytes_length buf off src buf' :
  store_bytes buf off src = Some buf' -> lenZ buf' = lenZ buf.
Proof.
  unfold store_bytes. intros H. pose proof (lenZ_nonneg src). inv_step H. len.
Qed.

(** Storing below offset [off + |src|] determines that prefix. *)
Lemma takeZ_store buf off src buf' :
  store_bytes buf off src = Some buf' ->
  takeZ (off + lenZ src) buf' = takeZ off buf ++ src.
Proof.
  unfold store_bytes. intros H. pose proof (lenZ_nonneg src). inv_step H.
  rewrite (assoc_L (++)). apply takeZ_app_exact. len.
Qed.

(** Received bytes and their terminator in an array of [n] bytes. *)
Lemma store_terminated buf l n :
  lenZ buf = n -> lenZ l <= n - 1 ->
  exists b, (store_bytes buf 0 l ≫= fun b => store_bytes b (lenZ l) [NUL]) = Some b /\
    lenZ b = n /\ cstr b = cstr l.
Proof.
  intros Hb Hl. pose proof (lenZ_nonneg l). rewrite store_bytes_Some by lia. cbn [mbind option_bind].
  set (b := takeZ 0 buf ++ l ++ dropZ (0 + lenZ l) buf).
  assert (Hlb : lenZ b = n) by (unfold b; rewrite takeZ_0, app_nil_l; len).
  destruct (store_bytes b (lenZ l) [NUL]) as [b2|] eqn:E2.
  2: { rewrite store_bytes_Some in E2; [done|lia|change (lenZ [NUL]) with 1; lia]. }
  exists b2. split; [done|]. split; [by rewrite (store_bytes_length _ _ _ _ E2)|].
  pose proof (takeZ_store _ _ _ _ E2) as Ht. change (lenZ [NUL]) with 1 in Ht.
  rewrite <- (takeZ_dropZ (lenZ l + 1) b2), Ht. unfold b. rewrite takeZ_0, app_nil_l.
  rewrite takeZ_app_exact, <- (assoc_L (++)) by done. apply cstr_nul.
Qed.

(** Storing at or above [off] leaves the prefix below it alone. *)
Lemma takeZ_store_below buf off src buf' n :
  store_bytes buf off src = Some buf' -> n <= off -> takeZ n buf' = takeZ n buf.
Proof.
  intros H Hn. pose proof (takeZ_store _ _ _ _ H) as E. pose proof (lenZ_nonneg src).
  assert (Hoff : 0 <= off /\ off + lenZ src <= lenZ buf).
  { unfold store_bytes in H. inv_step H. lia. }
  apply (f_equal (takeZ n)) in E. rewrite takeZ_takeZ, Z.min_l in E by lia.
  rewrite E. unfold takeZ. rewrite take_app_le by (rewrite length_take; unfold lenZ in *; lia).
  rewrite take_take. f_equal. lia.
Qed.
