(* ===== verification/CharDev.v ===== *)
(** * The character device driver: its file operations

    src/10_device_driver/chardev.c, the handlers of [chardev_fops].  The
    device keeps a 4096-byte buffer under a mutex; [read] takes from its
    front, [write] appends at its end, [ioctl] resets it, reports its fill
    level and sets the echo flag.  [copy_to_user] and [copy_from_user] belong
    to the kernel: they are the operations of the class [UserMem], and what
    the driver relies on is the class [UserMemOk].

    The contract is [fifo_call], a byte queue of at most [BUF_SIZE] bytes;
    [syscalls_refine] shows that every sequence of system calls returns what
    the queue returns, whatever the user memory does. *)

From S2P Require Import Prelude CLib.

Local Open Scope Z_scope.

(** ** Constants *)

Definition BUF_SIZE : Z := 4096.

Definition EFAULT : Z := 14.
Definition ENOMEM : Z := 12.
Definition ENOTTY : Z := 25.
Definition ENOSPC : Z := 28.
Definition ESPIPE : Z := 29.

(** The ioctl encoding of <linux/ioctl.h>: direction, argument size, type, number. *)
Definition IOC (dir type nr size : Z) : Z :=
  Z.lor (Z.lor (Z.shiftl dir 30) (Z.shiftl size 16)) (Z.lor (Z.shiftl type 8) nr).

Definition CHARDEV_MAGIC : Z := 67. (* 'C' *)
Definition CHARDEV_RESET : Z := IOC 0 CHARDEV_MAGIC 0 0.
Definition CHARDEV_GSIZE : Z := IOC 2 CHARDEV_MAGIC 1 4.
Definition CHARDEV_SECHO : Z := IOC 1 CHARDEV_MAGIC 2 4.

(** ** User memory, as the kernel gives access to it *)

Class UserMem (U : Type) := {
  (* bytes not copied, and the user memory afterwards *)
  copy_to_user : U -> Z -> bytes -> Z * U;
  (* bytes not copied, and the [n] bytes stored at the kernel destination *)
  copy_from_user : U -> Z -> Z -> Z * bytes;
}.

(** What <linux/uaccess.h> documents: [copy_from_user] fills the whole kernel
    destination (with zeros where it could not read), and after a complete
    [copy_to_user] the bytes can be read back. *)
Class UserMemOk (U : Type) `{UserMem U} : Prop := {
  copy_from_user_length : forall u a n, 0 <= n -> lenZ (copy_from_user u a n).2 = n;
  copy_to_user_read_back : forall u a l,
    (copy_to_user u a l).1 = 0 ->
    copy_from_user (copy_to_user u a l).2 a (lenZ l) = (0, l);
}.

(** ** Device and file state *)

Record chardev_data := mk_chardev_data {
  lock : bool;        (* the mutex is held *)
  buf : bytes;        (* the kmalloc'ed array *)
  buf_len : Z;        (* size_t: bytes currently in the buffer *)
  rd_pos : Z;         (* loff_t *)
  echo : Z;           (* int *)
}.

(** The driver has the one static device [g_dev]. *)
Inductive devptr := G_DEV.

Record inode := { i_cdev : devptr }.

Record file := mk_file {
  private_data : option devptr;
  f_pos : Z;
}.

Inductive klevel := KERN_INFO | KERN_ERR.

Record kstate (U : Type) := mk_kstate {
  k_dev : chardev_data;
  k_files : gmap Z file;
  k_user : U;
  k_log : list (klevel * bytes);
}.
Arguments mk_kstate {U}.
Arguments k_dev {U}.
Arguments k_files {U}.
Arguments k_user {U}.
Arguments k_log {U}.

Section handlers.
Context {U : Type} `{UserMem U}.

Definition mod_dev (f : chardev_data -> chardev_data) : ST (kstate U) unit :=
  st_modify (fun k => mk_kstate (f (k_dev k)) (k_files k) (k_user k) (k_log k)).

Definition set_lock (b : bool) (d : chardev_data) : chardev_data :=
  mk_chardev_data b (buf d) (buf_len d) (rd_pos d) (echo d).
Definition set_buf (b : bytes) (d : chardev_data) : chardev_data :=
  mk_chardev_data (lock d) b (buf_len d) (rd_pos d) (echo d).
Definition set_buf_len (n : Z) (d : chardev_data) : chardev_data :=
  mk_chardev_data (lock d) (buf d) n (rd_pos d) (echo d).
Definition set_echo (e : Z) (d : chardev_data) : chardev_data :=
  mk_chardev_data (lock d) (buf d) (buf_len d) (rd_pos d) e.

(** Locking a held mutex from the same task never returns; unlocking a free
    one is an error: both are stuck. *)
Definition mutex_lock : ST (kstate U) unit :=
  k ← st_get; if lock (k_dev k) then st_stuck else mod_dev (set_lock true).
Definition mutex_unlock : ST (kstate U) unit :=
  k ← st_get; if lock (k_dev k) then mod_dev (set_lock false) else st_stuck.

Definition printk (lvl : klevel) (f : list fmt) : ST (kstate U) unit :=
  st_modify (fun k =>
    mk_kstate (k_dev k) (k_files k) (k_user k) (k_log k ++ [(lvl, format f)])).

(** [filp->private_data], dereferenced: a NULL pointer is an oops. *)
Definition file_dev (filp : Z) : ST (kstate U) devptr :=
  k ← st_get;
  match k_files k !! filp with
  | Some (mk_file (Some p) _) => mret p
  | _ => st_stuck
  end.

(** [*ppos += n] *)
Definition add_pos (filp n : Z) : ST (kstate U) unit :=
  st_modify (fun k =>
    mk_kstate (k_dev k)
      (alter (fun f => mk_file (private_data f) (loff_t! (f_pos f + n))) filp (k_files k))
      (k_user k) (k_log k)).

Definition from_option_st {A} (o : option A) : ST (kstate U) A :=
  match o with Some a => mret a | None => st_stuck end.

Definition do_copy_to_user (a : Z) (l : bytes) : ST (kstate U) Z :=
  k ← st_get;
  let '(r, u) := copy_to_user (k_user k) a l in
  st_modify (fun k => mk_kstate (k_dev k) (k_files k) u (k_log k)) ;; mret r.

Definition do_copy_from_user (a n : Z) : ST (kstate U) (Z * bytes) :=
  k ← st_get; mret (copy_from_user (k_user k) a n).

(** ** open, release *)

Definition chardev_open (pid : Z) (ino : inode) (filp : Z) : ST (kstate U) Z :=
  let dev := i_cdev ino in
  st_modify (fun k =>
    mk_kstate (k_dev k)
      (alter (fun f => mk_file (Some dev) (f_pos f)) filp (k_files k))
      (k_user k) (k_log k)) ;;
  printk KERN_INFO [FLit "[chardev] open() — PID "; FD pid; FRaw [x0a]] ;;
  mret 0.

Definition chardev_release (ino : inode) (filp : Z) : ST (kstate U) Z :=
  printk KERN_INFO [FLit "[chardev] release()"; FRaw [x0a]] ;;
  mret 0.

(** ** read *)

Definition chardev_read (filp ubuf count : Z) : ST (kstate U) Z :=
  _ ← file_dev filp;
  mutex_lock ;;
  k ← st_get;
  let dev := k_dev k in
  if buf_len dev =? 0 then
    mutex_unlock ;; mret 0
  else
    let n := Z.min count (buf_len dev) in
    src ← from_option_st (load_bytes (buf dev) 0 n);
    r ← do_copy_to_user ubuf src;
    if negb (r =? 0) then
      mutex_unlock ;; mret (- EFAULT)
    else
      b ← from_option_st (memmove (buf dev) 0 n (size_t! (buf_len dev - n)));
      mod_dev (set_buf b) ;;
      mod_dev (set_buf_len (size_t! (buf_len dev - n))) ;;
      add_pos filp n ;;
      printk KERN_INFO [FLit "[chardev] read() "; FD n; FLit " bytes"; FRaw [x0a]] ;;
      mutex_unlock ;;
      mret n.

(** ** write *)

Definition chardev_write (filp ubuf count : Z) : ST (kstate U) Z :=
  _ ← file_dev filp;
  mutex_lock ;;
  k ← st_get;
  let dev := k_dev k in
  let space := size_t! (BUF_SIZE - buf_len dev) in
  if space =? 0 then
    mutex_unlock ;; mret (- ENOSPC)
  else
    let n := Z.min count space in
    rd ← do_copy_from_user ubuf n;
    b ← from_option_st (store_bytes (buf dev) (buf_len dev) (snd rd));
    mod_dev (set_buf b) ;;
    if negb (fst rd =? 0) then
      mutex_unlock ;; mret (- EFAULT)
    else
      let len := size_t! (buf_len dev + n) in
      mod_dev (set_buf_len len) ;;
      add_pos filp n ;;
      (if negb (echo dev =? 0) then
         printk KERN_INFO
           [FLit "[chardev] write() "; FD n; FLit " bytes: "; FRaw [x22];
            FSn (int! n) (dropZ (len - n) b); FRaw [x22; x0a]]
       else
         printk KERN_INFO [FLit "[chardev] write() "; FD n; FLit " bytes"; FRaw [x0a]]) ;;
      mutex_unlock ;;
      mret n.

(** ** llseek *)

Definition chardev_llseek (filp offset whence : Z) : ST (kstate U) Z := mret (- ESPIPE).

(** ** ioctl *)

Definition chardev_ioctl (filp cmd arg : Z) : ST (kstate U) Z :=
  _ ← file_dev filp;
  if cmd =? CHARDEV_RESET then
    mutex_lock ;;
    mod_dev (set_buf_len 0) ;;
    k ← st_get;
    b ← from_option_st (memset (buf (k_dev k)) NUL BUF_SIZE);
    mod_dev (set_buf b) ;;
    mutex_unlock ;;
    printk KERN_INFO [FLit "[chardev] ioctl RESET"; FRaw [x0a]] ;;
    mret 0
  else if cmd =? CHARDEV_GSIZE then
    mutex_lock ;;
    k ← st_get;
    let val := int! (buf_len (k_dev k)) in
    mutex_unlock ;;
    r ← do_copy_to_user arg (le32 val);
    if negb (r =? 0) then mret (- EFAULT) else mret 0
  else if cmd =? CHARDEV_SECHO then
    rd ← do_copy_from_user arg 4;
    if negb (fst rd =? 0) then mret (- EFAULT)
    else
      let val := le32_decode (snd rd) in
      mutex_lock ;;
      mod_dev (set_echo val) ;;
      mutex_unlock ;;
      printk KERN_INFO [FLit "[chardev] ioctl SECHO = "; FD val; FRaw [x0a]] ;;
      mret 0
  else
    mret (- ENOTTY).

(** ** The file_operations table, as the system calls reach it *)

Inductive call :=
| CRead (filp ubuf count : Z)
| CWrite (filp ubuf count : Z)
| CLlseek (filp offset whence : Z)
| CIoctl (filp cmd arg : Z).

Definition chardev_fops (c : call) : ST (kstate U) Z :=
  match c with
  | CRead filp ubuf count => chardev_read filp ubuf count
  | CWrite filp ubuf count => chardev_write filp ubuf count
  | CLlseek filp offset whence => chardev_llseek filp offset whence
  | CIoctl filp cmd arg => chardev_ioctl filp cmd arg
  end.

(** A sequence of system calls, in the order the mutex serialises them, with
    their return values. *)
Fixpoint syscalls (cs : list call) : ST (kstate U) (list Z) :=
  match cs with
  | [] => mret []
  | c :: cs => r ← chardev_fops c; rs ← syscalls cs; mret (r :: rs)
  end.

End handlers.

(** ** The contract: a bounded byte queue *)

Record fifo := mk_fifo { q : bytes; q_echo : Z }.

Section contract.
Context {U : Type} `{UserMem U}.

(** What a call returns, the queue afterwards and the user memory afterwards. *)
Definition fifo_call (c : call) (s : fifo) (u : U) : Z * fifo * U :=
  match c with
  | CRead _ ubuf count =>
      if lenZ (q s) =? 0 then (0, s, u)
      else
        let n := Z.min count (lenZ (q s)) in
        let '(r, u') := copy_to_user u ubuf (takeZ n (q s)) in
        if r =? 0 then (n, mk_fifo (dropZ n (q s)) (q_echo s), u') else (- EFAULT, s, u')
  | CWrite _ ubuf count =>
      if lenZ (q s) =? BUF_SIZE then (- ENOSPC, s, u)
      else
        let n := Z.min count (BUF_SIZE - lenZ (q s)) in
        let '(r, data) := copy_from_user u ubuf n in
        if r =? 0 then (n, mk_fifo (q s ++ data) (q_echo s), u) else (- EFAULT, s, u)
  | CLlseek _ _ _ => (- ESPIPE, s, u)
  | CIoctl _ cmd arg =>
      if cmd =? CHARDEV_RESET then (0, mk_fifo [] (q_echo s), u)
      else if cmd =? CHARDEV_GSIZE then
        let '(r, u') := copy_to_user u arg (le32 (lenZ (q s))) in
        (if r =? 0 then 0 else - EFAULT, s, u')
      else if cmd =? CHARDEV_SECHO then
        let '(r, data) := copy_from_user u arg 4 in
        if r =? 0 then (0, mk_fifo (q s) (le32_decode data), u) else (- EFAULT, s, u)
      else (- ENOTTY, s, u)
  end.

(** The bytes a successful write took from user memory [u], and those a
    successful read left in user memory [u]. *)
Definition accepted (u : U) (c : call) (r : Z) : bytes :=
  match c with
  | CWrite _ ubuf _ => if 0 <? r then snd (copy_from_user u ubuf r) else []
  | _ => []
  end.

Definition delivered (u : U) (c : call) (r : Z) : bytes :=
  match c with
  | CRead _ ubuf _ => if 0 <? r then snd (copy_from_user u ubuf r) else []
  | _ => []
  end.

(** A sequence of calls with the bytes that went in and the bytes that came out. *)
Fixpoint transfer (cs : list call) : ST (kstate U) (bytes * bytes) :=
  match cs with
  | [] => mret ([], [])
  | c :: cs =>
      k ← st_get;
      r ← chardev_fops c;
      k' ← st_get;
      io ← transfer cs;
      mret (accepted (k_user k) c r ++ fst io, delivered (k_user k') c r ++ snd io)
  end.

Definition is_reset (c : call) : bool :=
  match c with CIoctl _ cmd _ => cmd =? CHARDEV_RESET | _ => false end.

Fixpoint fifo_calls (cs : list call) (s : fifo) (u : U) : list Z * fifo * U :=
  match cs with
  | [] => ([], s, u)
  | c :: cs =>
      let '(r, s1, u1) := fifo_call c s u in
      let '(rs, s2, u2) := fifo_calls cs s1 u1 in (r :: rs, s2, u2)
  end.

(** ** Well-formed device states *)

Record wf (k : kstate U) : Prop := {
  wf_lock : lock (k_dev k) = false;
  wf_size : lenZ (buf (k_dev k)) = BUF_SIZE;
  wf_len : 0 <= buf_len (k_dev k) <= BUF_SIZE;
}.

Definition opened (k : kstate U) (filp : Z) : Prop :=
  exists pos, k_files k !! filp = Some (mk_file (Some G_DEV) pos).

Definition call_file (c : call) : Z :=
  match c with
  | CRead f _ _ | CWrite f _ _ | CLlseek f _ _ | CIoctl f _ _ => f
  end.

(** A [size_t] count. *)
Definition call_range (c : call) : Prop :=
  match c with
  | CRead _ _ n | CWrite _ _ n => 0 <= n < 2 ^ 64
  | _ => True
  end.

Definition call_ok (k : kstate U) (c : call) : Prop := opened k (call_file c) /\ call_range c.

Definition abs (k : kstate U) : fifo :=
  mk_fifo (takeZ (buf_len (k_dev k)) (buf (k_dev k))) (echo (k_dev k)).

Lemma abs_length k : wf k -> lenZ (q (abs k)) = buf_len (k_dev k).
Proof. intros [_ Hs Hl]. simpl. apply lenZ_takeZ. lia. Qed.

(** A call's outcome matches the queue's, and the state stays usable. *)
Definition refines_call (c : call) (k : kstate U) : Prop :=
  exists r k',
    chardev_fops c k = Some (r, k') /\ wf k' /\
    (forall f, opened k f -> opened k' f) /\
    (r, abs k', k_user k') = fifo_call c (abs k) (k_user k).
End contract.

(** Symbolic execution of the handlers' monad. *)
Ltac st_unfold :=
  cbv beta iota zeta delta
    [mbind mret ST_bind ST_ret st_get st_modify st_stuck from_option_st
     mutex_lock mutex_unlock mod_dev printk add_pos file_dev
     do_copy_to_user do_copy_from_user set_lock set_buf set_buf_len set_echo
     k_dev k_files k_user k_log lock buf buf_len rd_pos echo
     private_data f_pos fst snd].

Section refinement.
Context {U : Type} `{UserMemOk U}.
Implicit Types k : kstate U.

Lemma opened_alter (files : gmap Z file) (f0 n f : Z) :
  (exists pos, files !! f = Some (mk_file (Some G_DEV) pos)) ->
  exists pos,
    alter (fun f => mk_file (private_data f) (loff_t! (f_pos f + n))) f0 files !! f
    = Some (mk_file (Some G_DEV) pos).
Proof.
  intros [pos Hf]. rewrite lookup_alter. case_decide; subst; rewrite Hf; simpl; eauto.
Qed.

Lemma read_refines filp ubuf count k :
  wf k -> call_ok k (CRead filp ubuf count) -> refines_call (CRead filp ubuf count) k.
Proof.
  destruct k as [[l b n p e] files u log].
  intros [Hl Hs Hn] [[pos Hf] Hc]; simpl in *; subst l.
  unfold refines_call, chardev_fops, chardev_read, fifo_call, abs, opened; simpl.
  st_unfold. rewrite Hf, lenZ_takeZ by lia.
  destruct (n =? 0) eqn:E0; zbool.
  { do 2 eexists. split_and!; [reflexivity|by split|done|]. simpl. by subst n. }
  rewrite load_bytes_Some by lia. change (dropZ 0 b) with b.
  rewrite takeZ_takeZ_le by lia.
  destruct (copy_to_user u ubuf (takeZ (Z.min count n) b)) as [r u'] eqn:Ecp.
  destruct (r =? 0) eqn:Er; simpl; zbool.
  2:{ do 2 eexists. split_and!; [reflexivity|by split|done|done]. }
  set (m := Z.min count n) in *. assert (0 <= m <= n) by lia.
  rewrite (wrapU_small 64 (n - m)) by (unfold BUF_SIZE in *; lia).
  unfold memmove. rewrite load_bytes_Some by lia.
  assert (Hlen : lenZ (takeZ (n - m) (dropZ m b)) = n - m) by len.
  rewrite store_bytes_Some by (rewrite ?Hlen; lia).
  do 2 eexists. split_and!; [reflexivity|..].
  - split; cbn [k_dev lock buf buf_len]; [done| |lia]. len.
  - intros f. apply opened_alter.
  - simpl. f_equal. f_equal. f_equal.
    rewrite takeZ_app_exact by (by rewrite Hlen).
    rewrite <- takeZ_dropZ_comm by lia. do 2 f_equal. lia.
Qed.

Lemma write_refines filp ubuf count k :
  wf k -> call_ok k (CWrite filp ubuf count) -> refines_call (CWrite filp ubuf count) k.
Proof.
  destruct k as [[l b n p e] files u log].
  intros [Hl Hs Hn] [[pos Hf] Hc]; simpl in *; subst l.
  unfold refines_call, chardev_fops, chardev_write, fifo_call, abs, opened; simpl.
  st_unfold. rewrite Hf, lenZ_takeZ by lia.
  rewrite (wrapU_small 64 (BUF_SIZE - n)) by (unfold BUF_SIZE in *; lia).
  replace (BUF_SIZE - n =? 0) with (n =? BUF_SIZE)
    by (destruct (n =? BUF_SIZE) eqn:?, (BUF_SIZE - n =? 0) eqn:?; zbool; lia).
  destruct (n =? BUF_SIZE) eqn:E0; zbool.
  { do 2 eexists. split_and!; [reflexivity|by split|done|done]. }
  set (m := Z.min count (BUF_SIZE - n)) in *. assert (0 <= m <= BUF_SIZE - n) by lia.
  pose proof (copy_from_user_length u ubuf m ltac:(lia)) as Hd.
  destruct (copy_from_user u ubuf m) as [r data] eqn:Ecp; simpl in Hd |- *.
  destruct (store_bytes b n data) as [b'|] eqn:Est;
    [|rewrite store_bytes_Some in Est by lia; done].
  pose proof (store_bytes_length _ _ _ _ Est) as Hb'.
  pose proof (takeZ_store _ _ _ _ Est) as Ht.
  destruct (r =? 0) eqn:Er; simpl; zbool.
  2:{ do 2 eexists. split_and!; [reflexivity| |done|].
      - split; simpl; lia.
      - simpl. by rewrite (takeZ_store_below _ _ _ _ n Est) by lia. }
  rewrite (wrapU_small 64 (n + m)) by (unfold BUF_SIZE in *; lia).
  destruct (e =? 0); simpl; do 2 eexists;
    (split_and!; [reflexivity| split; simpl; lia | intros f; apply opened_alter |]);
    simpl; by rewrite <- Ht, Hd.
Qed.

Lemma ioctl_refines filp cmd arg k :
  wf k -> call_ok k (CIoctl filp cmd arg) -> refines_call (CIoctl filp cmd arg) k.
Proof.
  destruct k as [[l b n p e] files u log].
  intros [Hl Hs Hn] [[pos Hf] _]; simpl in *; subst l.
  unfold refines_call, chardev_fops, chardev_ioctl, fifo_call, abs, opened; simpl.
  st_unfold. rewrite Hf, lenZ_takeZ by lia.
  destruct (cmd =? CHARDEV_RESET).
  { unfold memset. rewrite store_bytes_Some by (rewrite ?lenZ_replicate; unfold BUF_SIZE in *; lia).
    do 2 eexists. split_and!; [reflexivity| |done|done].
    split; cbn [k_dev lock buf buf_len]; [done| |unfold BUF_SIZE; lia]. len. }
  destruct (cmd =? CHARDEV_GSIZE).
  { rewrite (wrapS_small 32 n) by (unfold BUF_SIZE in *; lia).
    destruct (copy_to_user u arg (le32 n)) as [r u'].
    destruct (r =? 0); simpl; do 2 eexists; (split_and!; [reflexivity|by split|done|done]). }
  destruct (cmd =? CHARDEV_SECHO).
  2:{ do 2 eexists. split_and!; [reflexivity|by split|done|done]. }
  destruct (copy_from_user u arg 4) as [r data].
  destruct (r =? 0); simpl; do 2 eexists; (split_and!; [reflexivity|by split|done|done]).
Qed.

(** Every handler returns (it is never stuck), leaves the mutex free and
    agrees with the queue. *)
Lemma call_refines c k : wf k -> call_ok k c -> refines_call c k.
Proof.
  destruct c; [apply read_refines | apply write_refines | | apply ioctl_refines].
  intros Hwf _. do 2 eexists. split_and!; [reflexivity|done|done|done].
Qed.

Lemma calls_ok_mono k k' cs :
  (forall f, opened k f -> opened k' f) -> Forall (call_ok k) cs -> Forall (call_ok k') cs.
Proof. intros Hf Hcs. eapply Forall_impl; [exact Hcs|]. intros c [Ho Hr]. split; auto. Qed.

(** C1: any sequence of read, write, llseek and ioctl calls on open files of a
    well-formed device returns normally (no oops, no self-deadlock), with
    exactly the results, the final contents and the final user memory of a
    byte queue bounded by 4096 bytes; the device stays well formed, so the
    mutex is free after every call, on every error branch. *)
Theorem syscalls_refine cs k :
  wf k -> Forall (call_ok k) cs ->
  exists rs k', syscalls cs k = Some (rs, k') /\ wf k' /\
    (rs, abs k', k_user k') = fifo_calls cs (abs k) (k_user k).
Proof.
  revert k. induction cs as [|c cs IH]; intros k Hwf Hcs.
  - by exists [], k.
  - inversion Hcs as [|? ? Hc Hcs']; subst.
    destruct (call_refines c k Hwf Hc) as (r & k1 & Hr & Hwf1 & Hop & Habs).
    destruct (IH k1 Hwf1 (calls_ok_mono _ _ _ Hop Hcs')) as (rs & k2 & Hrs & Hwf2 & Habs2).
    exists (r :: rs), k2. simpl. rewrite <- Habs, <- Habs2.
    unfold mbind, ST_bind. rewrite Hr, Hrs. done.
Qed.

(** One call of the queue, without a reset: what is queued before plus what
    goes in is what comes out plus what is queued after. *)
Lemma fifo_call_stream c s u r s' u' :
  fifo_call c s u = (r, s', u') -> lenZ (q s) <= BUF_SIZE -> call_range c -> is_reset c = false ->
  q s ++ accepted u c r = delivered u' c r ++ q s'.
Proof.
  intros Hcall Hmax Hrange Hrst. pose proof (lenZ_nonneg (q s)) as Hq.
  destruct c as [f ub n|f ub n|f o w|f cmd arg]; simpl in *; unfold accepted, delivered.
  - destruct (lenZ (q s) =? 0); [simplify_eq; by rewrite app_nil_r|].
    remember (Z.min n (lenZ (q s))) as m eqn:Hm.
    pose proof (copy_to_user_read_back u ub (takeZ m (q s))) as Hrb.
    destruct (copy_to_user u ub (takeZ m (q s))) as [e u1]; simpl in Hrb.
    destruct (e =? 0) eqn:Ee; zbool; injection Hcall as <- <- <-; rewrite app_nil_r; [|done].
    simpl. destruct (0 <? m) eqn:Em; zbool.
    + rewrite lenZ_takeZ in Hrb by lia. rewrite Hrb by done. simpl. by rewrite takeZ_dropZ.
    + assert (m = 0) as -> by lia. done.
  - destruct (lenZ (q s) =? BUF_SIZE) eqn:Ef; [simplify_eq; by rewrite app_nil_r|].
    remember (Z.min n (BUF_SIZE - lenZ (q s))) as m eqn:Hm.
    pose proof (copy_from_user_length u ub m ltac:(lia)) as Hl.
    destruct (copy_from_user u ub m) as [e data] eqn:Ecp; simpl in Hl.
    destruct (e =? 0) eqn:Ee; zbool; injection Hcall as <- <- <-; [|by rewrite app_nil_r].
    simpl. destruct (0 <? m) eqn:Em; zbool; [by rewrite Ecp|].
    by rewrite (lenZ_zero_inv data) by lia.
  - simplify_eq. by rewrite app_nil_r.
  - rewrite Hrst in Hcall. rewrite app_nil_r. by inv_step Hcall.
Qed.

(** C2: nothing is lost, duplicated or reordered: over any sequence of calls
    without a reset, the bytes queued before followed by the bytes the writes
    accepted are the bytes the reads delivered followed by the bytes still
    queued.  Failing calls (full buffer, faulting user pointer) take part and
    transfer nothing. *)
Theorem chardev_stream cs k :
  wf k -> Forall (call_ok k) cs -> Forall (fun c => is_reset c = false) cs ->
  exists i o k', transfer cs k = Some ((i, o), k') /\
    q (abs k) ++ i = o ++ q (abs k').
Proof.
  revert k. induction cs as [|c cs IH]; intros k Hwf Hcs Hrst.
  - exists [], [], k. split; [done|]. by rewrite app_nil_r.
  - inversion Hcs as [|? ? Hc Hcs']; inversion Hrst as [|? ? Hr0 Hrst']; subst.
    destruct (call_refines c k Hwf Hc) as (r & k1 & Hr & Hwf1 & Hop & Habs).
    destruct (IH k1 Hwf1 (calls_ok_mono _ _ _ Hop Hcs') Hrst') as (i & o & k2 & Ht & Hio).
    do 3 eexists. split.
    + simpl. unfold mbind, ST_bind, st_get. rewrite Hr, Ht. reflexivity.
    + symmetry in Habs. apply fifo_call_stream in Habs;
        [|rewrite abs_length; [apply Hwf|done]|apply Hc|done].
      cbn [fst snd]. by rewrite (assoc_L (++)), Habs, <- !(assoc_L (++)), Hio.
Qed.
End refinement.

(** ** A user address space

    Mapped addresses hold a byte; a copy stops at the first unmapped one.
    This is the instance the executable examples run on. *)
Definition umem := gmap Z byte.

Fixpoint uput (u : gmap Z byte) (a : Z) (l : bytes) : Z * gmap Z byte :=
  match l with
  | [] => (0, u)
  | b :: l' => match u !! a with
               | None => (lenZ l, u)
               | Some _ => uput (<[a := b]> u) (a + 1) l'
               end
  end.

Fixpoint uget (u : gmap Z byte) (a : Z) (n : nat) : Z * bytes :=
  match n with
  | O => (0, [])
  | S n' => match u !! a with
            | None => (Z.of_nat n, replicate n NUL)
            | Some b => let '(r, l) := uget u (a + 1) n' in (r, b :: l)
            end
  end.

#[export] Instance umem_UserMem : UserMem umem := {
  copy_to_user := uput;
  copy_from_user := fun u a n => uget u a (Z.to_nat n);
}.

Lemma uget_length u a n : length (uget u a n).2 = n.
Proof.
  revert a. induction n as [|n IH]; intros a; simpl; [done|].
  destruct (u !! a); simpl; [|by rewrite length_replicate].
  specialize (IH (a + 1)). destruct (uget u (a + 1) n). simpl in *. lia.
Qed.

Lemma uput_below u a l r u' b : uput u a l = (r, u') -> b < a -> u' !! b = u !! b.
Proof.
  revert u a. induction l as [|x l IH]; intros u a Hp Hb; simpl in Hp.
  - by simplify_eq.
  - destruct (u !! a); [|by simplify_eq].
    rewrite (IH _ _ Hp) by lia. by rewrite lookup_insert_ne by lia.
Qed.

Lemma uput_read_back u a l u' : uput u a l = (0, u') -> uget u' a (length l) = (0, l).
Proof.
  revert u a. induction l as [|x l IH]; intros u a Hp; simpl in Hp; [done|].
  destruct (u !! a) eqn:E; [|unfold lenZ in Hp; simpl in Hp; simplify_eq; lia].
  simpl. rewrite (uput_below _ _ _ _ _ a Hp) by lia.
  rewrite lookup_insert_eq. by rewrite (IH _ _ Hp).
Qed.

#[export] Instance umem_UserMemOk : UserMemOk umem.
Proof.
  split.
  - intros u a n Hn. simpl. unfold lenZ. rewrite uget_length. lia.
  - intros u a l Hr. simpl in *. destruct (uput u a l) as [r u'] eqn:E. simpl in *. subst r.
    unfold lenZ. rewrite Nat2Z.id. by apply (uput_read_back u).
Qed.

(** ** Witnesses *)

(** A device whose buffer holds [l], open as file 3, and a user process with
    [n] mapped bytes at address 1000 that hold [data] and then zeros. *)
Definition dev_with (l : bytes) : chardev_data :=
  mk_chardev_data false (l ++ replicate (4096 - length l) NUL) (lenZ l) 0 1.

Definition user_with (n : nat) (data : bytes) : umem :=
  (uput (list_to_map (imap (fun i _ => (1000 + Z.of_nat i, NUL)) (replicate n tt))) 1000 data).2.

Definition kstate_with (l data : bytes) : kstate umem :=
  mk_kstate (dev_with l) {[ 3 := mk_file (Some G_DEV) 0 ]} (user_with 32 data) [].

(** Write 5 bytes, read 3, read past the end, fault, full-size write that
    faults, unknown ioctl, reset. *)
Definition demo_calls : list call :=
  [CWrite 3 1000 5; CRead 3 1010 3; CRead 3 1010 100; CRead 3 0 1; CWrite 3 0 5000;
   CIoctl 3 77 0; CLlseek 3 0 0].

Lemma kstate_with_wf : wf (kstate_with (bs "ab") (bs "hello")).
Proof. split; vm_compute; (done || split; discriminate). Qed.

Lemma demo_calls_ok : Forall (call_ok (kstate_with (bs "ab") (bs "hello"))) demo_calls.
Proof.
  repeat (constructor; [split; [by exists 0 | vm_compute; try done; split; (discriminate || done)]|]).
  constructor.
Qed.

Lemma syscalls_refine_witness :
  exists rs k',
    syscalls demo_calls (kstate_with (bs "ab") (bs "hello")) = Some (rs, k') /\ wf k' /\
    (rs, abs k', k_user k')
    = fifo_calls demo_calls (abs (kstate_with (bs "ab") (bs "hello"))) (user_with 32 (bs "hello")).
Proof. exact (syscalls_refine _ _ kstate_with_wf demo_calls_ok). Defined.

Lemma chardev_stream_witness :
  exists i o k',
    transfer demo_calls (kstate_with (bs "ab") (bs "hello")) = Some ((i, o), k') /\
    q (abs (kstate_with (bs "ab") (bs "hello"))) ++ i = o ++ q (abs k').
Proof.
  apply (chardev_stream _ _ kstate_with_wf demo_calls_ok).
  repeat (constructor; [reflexivity|]). constructor.
Defined.

(** The same calls, evaluated: seven queued bytes, three and four of them read,
    end of file, a fault, a fault, and the error codes. *)
Example demo_calls_results :
  fmap fst (syscalls demo_calls (kstate_with (bs "ab") (bs "hello")))
  = Some [5; 3; 4; 0; - EFAULT; - ENOTTY; - ESPIPE].
Proof. vm_compute. reflexivity. Qed.
