(* ===== verification/CharDevInit.v ===== *)
(** * The character device driver: module load and unload

    src/10_device_driver/chardev.c, [chardev_init] and [chardev_exit].  The
    kernel calls that register the device are not part of the driver: what
    each of them returned is a field of [init_env].  The state records which
    kernel resources the module holds; releasing one it does not hold is
    stuck. *)

From S2P Require Import Prelude CLib CharDev.

Local Open Scope Z_scope.

Definition DRIVER_NAME : string := "mychardev".
Definition DEVICE_NAME : string := "mychardev0".
Definition NUM_DEVICES : Z := 1.

(** Kernel resources, with the arguments they were registered under. *)
Inductive resource :=
| RRegion (devno count : Z) (name : string)
| RBuf
| RCdev (devno count : Z)
| RClass (name : string)
| RDevice (devno : Z) (name : string).

#[export] Instance resource_eq_dec : EqDecision resource.
Proof. solve_decision. Defined.

(** What the kernel answered. *)
Record init_env := {
  e_alloc_chrdev_region : Z;      (* 0 or a negative error *)
  e_devno : Z;                    (* the region it assigned *)
  e_kmalloc : option bytes;       (* the (uninitialised) block, or NULL *)
  e_cdev_add : Z;                 (* 0 or a negative error *)
  e_class_create : Z;             (* PTR_ERR of the pointer, 0 for a valid one *)
  e_device_create : Z;
}.

Definition MINORBITS : Z := 20.
Definition MAJOR (dev : Z) : Z := Z.shiftr dev MINORBITS.
Definition MINOR (dev : Z) : Z := Z.land dev (2 ^ MINORBITS - 1).

(** [IS_ERR]: the top 4095 addresses, that is the values -4095 .. -1. *)
Definition IS_ERR (p : Z) : bool := (- 4095 <=? p) && (p <? 0).

Record mstate := mk_mstate {
  g_dev : chardev_data;
  g_devno : Z;
  cdev_ready : bool;                       (* [cdev_init] has run *)
  held : list resource;                    (* most recent first *)
  m_log : list (klevel * bytes);
}.

Definition set_g_dev (f : chardev_data -> chardev_data) : ST mstate unit :=
  st_modify (fun m => mk_mstate (f (g_dev m)) (g_devno m) (cdev_ready m) (held m) (m_log m)).
Definition set_g_devno (d : Z) : ST mstate unit :=
  st_modify (fun m => mk_mstate (g_dev m) d (cdev_ready m) (held m) (m_log m)).
Definition cdev_init : ST mstate unit :=
  st_modify (fun m => mk_mstate (g_dev m) (g_devno m) true (held m) (m_log m)).
Definition m_printk (lvl : klevel) (f : list fmt) : ST mstate unit :=
  st_modify (fun m =>
    mk_mstate (g_dev m) (g_devno m) (cdev_ready m) (held m) (m_log m ++ [(lvl, format f)])).

Definition acquire (r : resource) : ST mstate unit :=
  st_modify (fun m => mk_mstate (g_dev m) (g_devno m) (cdev_ready m) (r :: held m) (m_log m)).

Definition release (r : resource) : ST mstate unit :=
  m ← st_get;
  match list_find (fun x => x = r) (held m) with
  | Some (i, _) =>
      st_modify (fun m =>
        mk_mstate (g_dev m) (g_devno m) (cdev_ready m) (delete i (held m)) (m_log m))
  | None => st_stuck
  end.

(** Adding a cdev that was never initialised would register garbage. *)
Definition cdev_add (devno : Z) : ST mstate unit :=
  m ← st_get; if cdev_ready m then acquire (RCdev devno NUM_DEVICES) else st_stuck.

(** ** chardev_init and its unwinding labels *)

Definition err_chrdev (ret : Z) : ST mstate Z :=
  m ← st_get;
  release (RRegion (g_devno m) NUM_DEVICES DRIVER_NAME) ;; mret ret.
Definition err_buf (ret : Z) : ST mstate Z :=
  release RBuf ;; err_chrdev ret.
Definition err_cdev (ret : Z) : ST mstate Z :=
  m ← st_get;
  release (RCdev (g_devno m) NUM_DEVICES) ;; err_buf ret.
Definition err_class (ret : Z) : ST mstate Z :=
  release (RClass DRIVER_NAME) ;; err_cdev ret.

Definition chardev_init (e : init_env) : ST mstate Z :=
  let ret := e_alloc_chrdev_region e in
  if ret <? 0 then
    m_printk KERN_ERR [FLit "[chardev] alloc_chrdev_region failed: "; FD ret; FRaw [x0a]] ;;
    mret ret
  else
  set_g_devno (e_devno e) ;;
  acquire (RRegion (e_devno e) NUM_DEVICES DRIVER_NAME) ;;
  m_printk KERN_INFO
    [FLit "[chardev] major="; FD (MAJOR (e_devno e)); FLit " minor="; FD (MINOR (e_devno e));
     FRaw [x0a]] ;;
  cdev_init ;;
  set_g_dev (set_lock false) ;;
  match e_kmalloc e with
  | None => err_chrdev (- ENOMEM)
  | Some block =>
      acquire RBuf ;;
      set_g_dev (set_buf block) ;;
      set_g_dev (set_buf_len 0) ;;
      set_g_dev (set_echo 1) ;;
      let ret := e_cdev_add e in
      if ret <? 0 then
        m_printk KERN_ERR [FLit "[chardev] cdev_add failed"; FRaw [x0a]] ;; err_buf ret
      else
      cdev_add (e_devno e) ;;
      if IS_ERR (e_class_create e) then err_cdev (e_class_create e)
      else
      acquire (RClass DRIVER_NAME) ;;
      if IS_ERR (e_device_create e) then
        m_printk KERN_ERR [FLit "[chardev] device_create failed"; FRaw [x0a]] ;;
        err_class (- ENOMEM)
      else
      acquire (RDevice (e_devno e) DEVICE_NAME) ;;
      m_printk KERN_INFO
        [FLit "[chardev] Loaded — /dev/"; FLit DEVICE_NAME; FLit " ready"; FRaw [x0a]] ;;
      mret 0
  end.

Definition chardev_exit : ST mstate unit :=
  m ← st_get;
  release (RDevice (g_devno m) DEVICE_NAME) ;;
  release (RClass DRIVER_NAME) ;;
  release (RCdev (g_devno m) NUM_DEVICES) ;;
  release RBuf ;;
  release (RRegion (g_devno m) NUM_DEVICES DRIVER_NAME) ;;
  m_printk KERN_INFO [FLit "[chardev] Unloaded"; FRaw [x0a]].

(** ** What loading promises *)

(** The kernel's answers are documented ones: a non-positive return code, a
    block of the size asked for. *)
Record env_ok (e : init_env) : Prop := {
  env_alloc : e_alloc_chrdev_region e <= 0;
  env_cdev : e_cdev_add e <= 0;
  env_kmalloc : forall b, e_kmalloc e = Some b -> lenZ b = BUF_SIZE;
  env_class : e_class_create e = 0 \/ IS_ERR (e_class_create e) = true;
  env_device : e_device_create e = 0 \/ IS_ERR (e_device_create e) = true;
}.

(** The return value: the error of the first call that failed, or -ENOMEM when
    that was [kmalloc] or [device_create], whose own error is dropped. *)
Definition init_result (e : init_env) : Z :=
  if e_alloc_chrdev_region e <? 0 then e_alloc_chrdev_region e
  else match e_kmalloc e with
       | None => - ENOMEM
       | Some _ =>
           if e_cdev_add e <? 0 then e_cdev_add e
           else if IS_ERR (e_class_create e) then e_class_create e
           else if IS_ERR (e_device_create e) then - ENOMEM
           else 0
       end.

Definition loaded (e : init_env) : list resource :=
  [RDevice (e_devno e) DEVICE_NAME; RClass DRIVER_NAME; RCdev (e_devno e) NUM_DEVICES; RBuf;
   RRegion (e_devno e) NUM_DEVICES DRIVER_NAME].

(** Before the module runs: static storage is zero, nothing is held. *)
Definition unloaded : mstate :=
  mk_mstate (mk_chardev_data false [] 0 0 0) 0 false [] [].

Lemma release_head r l g d c log :
  release r (mk_mstate g d c (r :: l) log) = Some (tt, mk_mstate g d c l log).
Proof.
  unfold release, mbind, ST_bind, st_get, st_modify; cbn [held list_find].
  rewrite decide_True by done. done.
Qed.

Ltac init_unfold :=
  cbv beta iota zeta delta
    [mbind mret ST_bind ST_ret st_get st_modify st_stuck set_g_dev set_g_devno cdev_init
     m_printk acquire cdev_add set_lock set_buf set_buf_len set_echo
     CharDevInit.g_dev g_devno cdev_ready held m_log lock buf buf_len rd_pos echo].

(** Unloading releases what loading acquired, whatever became of the device. *)
Lemma exit_releases e m :
  held m = loaded e -> g_devno m = e_devno e ->
  exists m', chardev_exit m = Some (tt, m') /\ held m' = [].
Proof.
  destruct m as [g d c h log]. simpl. intros -> ->.
  unfold chardev_exit, loaded. init_unfold. rewrite !release_head. by eexists.
Qed.

Lemma init_spec e :
  env_ok e ->
  exists m', chardev_init e unloaded = Some (init_result e, m') /\
    if init_result e =? 0
    then held m' = loaded e /\ g_devno m' = e_devno e /\
         lock (g_dev m') = false /\ lenZ (buf (g_dev m')) = BUF_SIZE /\
         buf_len (g_dev m') = 0 /\ echo (g_dev m') = 1
    else init_result e < 0 /\ held m' = [].
Proof.
  intros [Ha Hc Hk Hcl Hd].
  unfold chardev_init, init_result, err_class, err_cdev, err_buf, err_chrdev, unloaded.
  destruct (e_alloc_chrdev_region e <? 0) eqn:E1; zbool.
  { init_unfold. eexists. split; [reflexivity|]. case_test; zbool; [lia|done]. }
  destruct (e_kmalloc e) as [b|] eqn:E2; init_unfold; [|rewrite release_head; eexists; done].
  specialize (Hk b eq_refl).
  destruct (e_cdev_add e <? 0) eqn:E3; zbool.
  { rewrite !release_head. eexists. split; [reflexivity|]. case_test; zbool; [lia|done]. }
  destruct (IS_ERR (e_class_create e)) eqn:E4.
  { rewrite !release_head. eexists. split; [reflexivity|].
    unfold IS_ERR in E4. zbool. case_test; zbool; [lia|done]. }
  destruct (IS_ERR (e_device_create e)) eqn:E5; [rewrite !release_head; eexists; done|].
  eexists. split; [reflexivity|]. rewrite Z.eqb_refl. by split_and!.
Qed.

(** C3: whatever kernel call fails, loading the module returns that call's
    error (or -ENOMEM), a negative number, with every resource acquired before
    released again, each exactly once and none that was not held; when none
    fails it returns 0 holding exactly the five resources, with a free mutex,
    an empty 4096-byte buffer and echo on, and unloading releases them all. *)
Theorem init_unwinds e :
  env_ok e ->
  exists m', chardev_init e unloaded = Some (init_result e, m') /\
    if init_result e =? 0
    then held m' = loaded e /\
         lock (g_dev m') = false /\ lenZ (buf (g_dev m')) = BUF_SIZE /\
         buf_len (g_dev m') = 0 /\ echo (g_dev m') = 1 /\
         exists m'', chardev_exit m' = Some (tt, m'') /\ held m'' = []
    else init_result e < 0 /\ held m' = [].
Proof.
  intros He. destruct (init_spec e He) as (m' & Hrun & Hm). exists m'. split; [done|].
  destruct (init_result e =? 0); [|done]. destruct Hm as (Hh & Hd & Hm).
  destruct (exit_releases e m' Hh Hd) as (m'' & Hx). naive_solver.
Qed.

Definition env_good : init_env :=
  {| e_alloc_chrdev_region := 0; e_devno := Z.shiftl 240 20;
     e_kmalloc := Some (replicate 4096 xff);
     e_cdev_add := 0; e_class_create := 0; e_device_create := 0 |}.

Lemma init_unwinds_witness :
  exists m', chardev_init env_good unloaded = Some (0, m') /\
    held m' = loaded env_good /\
    lock (g_dev m') = false /\ lenZ (buf (g_dev m')) = BUF_SIZE /\
    buf_len (g_dev m') = 0 /\ echo (g_dev m') = 1 /\
    exists m'', chardev_exit m' = Some (tt, m'') /\ held m'' = [].
Proof.
  apply (init_unwinds env_good).
  split; simpl; try lia.
  intros b [= <-]. vm_compute. reflexivity.
Defined.

(** A class_create failure with -ENOSPC: the code comes through, nothing is kept. *)
Example init_class_fails :
  fmap (fun p => (fst p, held (snd p)))
    (chardev_init {| e_alloc_chrdev_region := 0; e_devno := 0;
                     e_kmalloc := Some (replicate 4096 xff); e_cdev_add := 0;
                     e_class_create := - ENOSPC; e_device_create := 0 |} unloaded)
  = Some (- ENOSPC, []).
Proof. vm_compute. reflexivity. Qed.
