(* ===== verification/CharDevTest.v ===== *)
(** * The driver's user-space test program

    src/10_device_driver/test/device_driver_test.c, run against the driver's
    handlers between loading and unloading the module.  Its variables live in
    the user memory the driver copies from and to; its proofs use the contract
    [fifo_call] and what loading promises, never the handlers' bodies. *)

From S2P Require Import Prelude CLib CharDev CharDevInit.

Local Open Scope Z_scope.

(** The stack frame and literals of [main], as addresses. *)
Definition A_HELLO : Z := 16.  (* the literal "hello" *)
Definition A_H : Z := 22.      (* the literal "h" *)
Definition A_SIZE : Z := 24.   (* int size *)
Definition A_BUF : Z := 28.    (* char buf[16] *)
Definition A_VAL : Z := 44.    (* int val *)

Definition DEVICE : string := "/dev/mychardev0".

(** The node udev makes for a device the module has registered. *)
Definition node (r : resource) : option string :=
  match r with RDevice _ name => Some ("/dev/" +:+ name) | _ => None end.

Definition nodes (l : list resource) : list string := omap node l.

(** A process: the kernel's state and what it has printed. *)
Record proc := mk_proc { p_k : kstate umem; p_out : list bytes; p_err : list bytes }.

Definition printf (f : list fmt) : ST proc unit :=
  st_modify (fun p => mk_proc (p_k p) (p_out p ++ [format f]) (p_err p)).

(** [text] is the C library's text for errno. *)
Definition perror (what : string) (text : bytes) : ST proc unit :=
  st_modify (fun p => mk_proc (p_k p) (p_out p) (p_err p ++ [perror_line what text])).

(** A user-space store: an unmapped address is a segmentation fault. *)
Definition ustore (a : Z) (l : bytes) : ST proc unit := fun p =>
  let k := p_k p in
  match uput (k_user k) a l with
  | (0, u) => Some (tt, mk_proc (mk_kstate (k_dev k) (k_files k) u (k_log k)) (p_out p) (p_err p))
  | _ => None
  end.

Definition uload (a n : Z) : ST proc bytes := fun p =>
  match uget (k_user (p_k p)) a (Z.to_nat n) with
  | (0, l) => Some (l, p)
  | _ => None
  end.

(** A system call: the C library turns a negative result into -1. *)
Definition sys (c : call) : ST proc Z := fun p =>
  match chardev_fops c (p_k p) with
  | Some (r, k) => Some (if r <? 0 then -1 else r, mk_proc k (p_out p) (p_err p))
  | None => None
  end.

(** [open]: without the node, or with no descriptor to give out ([fd]
    negative), it fails; else the kernel allocates the file and calls the
    driver's [open]. *)
Definition sys_open (path : string) (devs : list string) (pid fd : Z) : ST proc Z := fun p =>
  if negb (bool_decide (path ∈ devs)) || (fd <? 0) then Some (-1, p)
  else
    let k := p_k p in
    let k := mk_kstate (k_dev k) (<[fd := mk_file None 0]> (k_files k)) (k_user k) (k_log k) in
    match chardev_open pid {| i_cdev := G_DEV |} fd k with
    | Some (_, k) => Some (fd, mk_proc k (p_out p) (p_err p))
    | None => None
    end.

Definition sys_close (fd : Z) : ST proc Z := fun p =>
  match chardev_release {| i_cdev := G_DEV |} fd (p_k p) with
  | Some (_, k) =>
      Some (0, mk_proc (mk_kstate (k_dev k) (delete fd (k_files k)) (k_user k) (k_log k)) (p_out p) (p_err p))
  | None => None
  end.

(** [buf[n] = c] for the local array [char buf[16]]. *)
Definition buf_store (n : Z) (c : byte) : ST proc unit :=
  if (0 <=? n) && (n <? 16) then ustore (A_BUF + n) [c] else st_stuck.

Definition main (devs : list string) (pid fd0 : Z) (text : bytes) : ST proc Z :=
  fd ← sys_open DEVICE devs pid fd0;
  if fd <? 0 then perror "open" text ;; mret (-1)
  else
    _ ← sys (CWrite fd A_HELLO 5);
    _ ← sys (CIoctl fd CHARDEV_GSIZE A_SIZE);
    size ← uload A_SIZE 4;
    printf [FLit "buf_len = "; FD (le32_decode size); FRaw [x0a]] ;;
    n ← sys (CRead fd A_BUF 16);
    buf_store n NUL ;;
    b ← uload A_BUF 16;
    printf [FLit "read returned size "; FD (int! n); FLit ", content: "; FRaw [x22]; FS b;
            FRaw [x22; x0a]] ;;
    _ ← sys (CWrite fd A_H 1);
    ustore A_VAL (le32 0) ;;
    _ ← sys (CIoctl fd CHARDEV_SECHO A_VAL);
    _ ← sys (CIoctl fd CHARDEV_RESET 0);
    _ ← sys (CIoctl fd CHARDEV_GSIZE A_SIZE);
    size ← uload A_SIZE 4;
    printf [FLit "after reset buf_len = "; FD (le32_decode size); FRaw [x0a]] ;;
    _ ← sys_close fd;
    mret 0.

(** The process image: the literals in place, the rest mapped. *)
Definition image : umem := Eval vm_compute in
  (uput (list_to_map (imap (fun i _ => (A_HELLO + Z.of_nat i, NUL)) (replicate 32 tt)))
     A_HELLO (bs "hello" ++ [NUL] ++ bs "h")).2.

Definition boot (d : chardev_data) : proc := mk_proc (mk_kstate d ∅ image []) [] [].

(** Load the module, run the program, unload the module if it was loaded: the
    program's result and what it printed. *)
Definition session (e : init_env) (pid fd : Z) (text : bytes) :
    ST mstate (Z * list bytes * list bytes) :=
  ret ← chardev_init e;
  m ← st_get;
  match main (nodes (held m)) pid fd text (boot (g_dev m)) with
  | Some (r, p) =>
      set_g_dev (fun _ => k_dev (p_k p)) ;;
      (if ret <? 0 then mret tt else chardev_exit) ;;
      mret (r, p_out p, p_err p)
  | None => st_stuck
  end.

(** ** Stepping through the driver by its contract *)

(** The process has file [fd] open on a well-formed device that holds [s], with
    user memory [u], and has printed [out]. *)
Definition dev_at (fd : Z) (s : fifo) (u : umem) (out : list bytes) (p : proc) : Prop :=
  wf (p_k p) /\ opened (p_k p) fd /\ abs (p_k p) = s /\ k_user (p_k p) = u /\
  p_out p = out /\ p_err p = [].

Lemma sys_step c fd s u out p r s' u' :
  dev_at fd s u out p -> call_file c = fd -> call_range c -> fifo_call c s u = (r, s', u') ->
  exists p', sys c p = Some (if r <? 0 then -1 else r, p') /\ dev_at fd s' u' out p'.
Proof.
  intros (Hwf & Ho & <- & <- & Hout & Herr) Hf Hr Hcall.
  destruct (call_refines c (p_k p) Hwf) as (r0 & k' & Hrun & Hwf' & Hop & Habs);
    [by split; [rewrite Hf|]|].
  rewrite Hcall in Habs. simplify_eq.
  unfold sys. rewrite Hrun. eexists. split; [reflexivity|]. split_and!; auto.
Qed.

Lemma ustore_step a l fd s u out p u' :
  dev_at fd s u out p -> uput u a l = (0, u') ->
  exists p', ustore a l p = Some (tt, p') /\ dev_at fd s u' out p'.
Proof.
  destruct p as [[d files u0 log] o er]. intros (Hwf & Ho & Habs & Hu & Hout & Herr) Hput.
  simpl in Hu. subst u0. unfold ustore. simpl. rewrite Hput.
  eexists. split; [reflexivity|].
  destruct Hwf. split_and!; [by split|done..].
Qed.

Lemma uload_step a n fd s u out p l :
  dev_at fd s u out p -> uget u a (Z.to_nat n) = (0, l) -> uload a n p = Some (l, p).
Proof. intros (_ & _ & _ & Hu & _) Hget. unfold uload. by rewrite Hu, Hget. Qed.

Lemma printf_step f fd s u out p :
  dev_at fd s u out p ->
  exists p', printf f p = Some (tt, p') /\ dev_at fd s u (out ++ [format f]) p'.
Proof.
  intros (Hwf & Ho & Hs & Hu & <- & Herr). eexists. split; [reflexivity|]. by split_and!.
Qed.

Lemma open_step devs pid fd d :
  DEVICE ∈ devs -> 0 <= fd -> lock d = false -> lenZ (buf d) = BUF_SIZE ->
  0 <= buf_len d <= BUF_SIZE ->
  exists p', sys_open DEVICE devs pid fd (boot d) = Some (fd, p') /\
    dev_at fd (mk_fifo (takeZ (buf_len d) (buf d)) (echo d)) image [] p'.
Proof.
  intros Hdev Hfd Hl Hs Hn. unfold sys_open. rewrite bool_decide_true by done. simpl.
  destruct (fd <? 0) eqn:E; zbool; [lia|].
  eexists. split; [reflexivity|].
  split_and!; [by split| |done..].
  exists 0. simpl. by rewrite lookup_alter_eq, lookup_insert_eq.
Qed.

(** Evaluate a closed left-hand side. *)
Ltac veval :=
  lazymatch goal with
  | |- ?x = _ => let v := eval vm_compute in x in
                 transitivity v; [vm_compute; reflexivity | reflexivity]
  end.

(** Run the next system call, store, load or print of [main] against the contract. *)
Ltac next_sys :=
  cbv beta iota zeta;
  lazymatch goal with
  | H : dev_at _ _ _ _ ?p |- context [@mbind _ _ _ _ _ ?m ?p] =>
      let p' := fresh "p" in let Hrun := fresh in let H' := fresh "Hat" in
      lazymatch m with
      | sys ?c =>
          edestruct (sys_step c) as (p' & Hrun & H');
          [ exact H | reflexivity | vm_compute; (done || split; (discriminate || done)) | veval
          | clear H ]
      | ustore ?a ?l =>
          edestruct (ustore_step a l) as (p' & Hrun & H'); [ exact H | veval | clear H ]
      | printf ?f =>
          destruct (printf_step f _ _ _ _ _ H) as (p' & Hrun & H'); clear H
      | uload ?a ?n =>
          eassert (uload a n p = Some (_, p)) as Hrun
            by (eapply (uload_step a n); [exact H | veval])
      end;
      rewrite (st_bind_run _ _ _ _ _ Hrun); clear Hrun
  end.

(** What the program prints on a freshly loaded device. *)
Definition expected_out : list bytes :=
  [format [FLit "buf_len = 5"; FRaw [x0a]];
   format [FLit "read returned size 5, content: "; FRaw [x22]; FLit "hello"; FRaw [x22; x0a]];
   format [FLit "after reset buf_len = 0"; FRaw [x0a]]].

Lemma main_spec devs pid fd text d :
  DEVICE ∈ devs -> 0 <= fd -> lock d = false -> lenZ (buf d) = BUF_SIZE -> buf_len d = 0 ->
  exists p', main devs pid fd text (boot d) = Some (0, p') /\
    p_out p' = expected_out /\ p_err p' = [].
Proof.
  intros Hdev Hfd Hl Hs Hn. destruct (open_step devs pid fd d) as (p & Hopen & Hat);
    [done..|unfold BUF_SIZE; lia|].
  rewrite Hn, takeZ_0 in Hat.
  unfold main. unfold mbind at 1, ST_bind at 1. rewrite Hopen.
  destruct (fd <? 0) eqn:E; zbool; [lia|].
  do 5 next_sys. change (buf_store _ NUL) with (ustore (A_BUF + 5) [NUL]).
  do 9 next_sys.
  eexists. split; [reflexivity|]. simpl p_out. simpl p_err.
  match goal with H : dev_at _ _ _ _ _ |- _ => destruct H as (_ & _ & _ & _ & -> & ->) end.
  vm_compute. done.
Qed.

Lemma main_no_device devs pid fd text d :
  DEVICE ∉ devs \/ fd < 0 ->
  main devs pid fd text (boot d) =
    Some (-1, mk_proc (mk_kstate d ∅ image []) [] [perror_line "open" text]).
Proof.
  intros H. unfold main, sys_open, mbind at 1, ST_bind at 1.
  replace (_ || _) with true; [done|]. symmetry. apply orb_true_iff.
  destruct H; [left; by rewrite bool_decide_false | right; by apply Z.ltb_lt].
Qed.

(** The node of a loaded module is the one the program opens. *)
Lemma loaded_node e : DEVICE ∈ nodes (loaded e).
Proof. by left. Qed.

(** C4: load the module, run the test program, unload it.  Whatever call of
    the load fails, the program finds no device, reports it and returns -1.  On
    a loaded module, given a descriptor, it runs to the end and prints a fill
    level of 5, the five bytes it wrote (its comment expects end of file from
    that read), and a fill level of 0 after the reset.  No kernel resource is
    left either way. *)
Theorem test_session e pid fd text :
  env_ok e ->
  exists m', held m' = [] /\
    session e pid fd text unloaded =
      Some (if (init_result e =? 0) && (0 <=? fd) then (0, expected_out, [])
            else (-1, [], [perror_line "open" text]), m').
Proof.
  intros He. destruct (init_spec e He) as (m & Hrun & Hm).
  unfold session, mbind, ST_bind, st_get. rewrite Hrun.
  destruct (init_result e =? 0) eqn:E; zbool.
  - rewrite E. destruct Hm as (Hh & Hd & Hl & Hs & Hn & _). rewrite Hh. cbn [andb].
    assert (exists r p, main (nodes (loaded e)) pid fd text (boot (g_dev m)) = Some (r, p) /\
              (r, p_out p, p_err p) = if 0 <=? fd then (0, expected_out, [])
                                      else (-1, [], [perror_line "open" text]))
      as (r & p & -> & Hp).
    { destruct (0 <=? fd) eqn:Ef; zbool.
      - destruct (main_spec (nodes (loaded e)) pid fd text (g_dev m)) as (p & Hp & Ho & Hr);
          [apply loaded_node|done..|]. exists 0, p. by rewrite Ho, Hr.
      - rewrite main_no_device by (right; lia). eauto. }
    destruct (exit_releases e (mk_mstate (k_dev (p_k p)) (g_devno m) (cdev_ready m) (held m)
                (m_log m)) Hh Hd) as (m' & Hx & Hfree).
    exists m'. split; [done|]. unfold set_g_dev, st_modify. change (0 <? 0) with false.
    cbv beta iota. rewrite Hx. unfold mret, ST_ret.
    by rewrite Hp.
  - destruct Hm as [Hlt Hh]. rewrite Hh, main_no_device by (left; apply not_elem_of_nil).
    unfold set_g_dev, st_modify. simpl. case_test; zbool; [|lia].
    eexists. by split; [|reflexivity].
Qed.

Lemma test_session_witness :
  exists m', held m' = [] /\
    session env_good 77 3 [] unloaded = Some ((0, expected_out, []), m').
Proof.
  apply (test_session env_good 77 3 []). split; simpl; try lia.
  intros b [= <-]. vm_compute. reflexivity.
Defined.

(** With eleven bytes already queued the read fills all of [buf], and the store
    of the terminating NUL is one past its end. *)
Example test_main_overflow :
  main [DEVICE] 77 3 [] (boot (dev_with (replicate 11 x41))) = None.
Proof. vm_compute. reflexivity. Qed.
