(* ===== verification/HelloModule.v ===== *)
(** * The hello kernel module

    src/09_kernel_module/hello_module.c: the module parameters, [hello_init],
    [hello_exit], [hello_seq_show], [hello_proc_open] and the operations of the
    proc file.  The kernel's answers ([proc_create], [kmalloc]), its version,
    the text it prints for [%p] and its seq_file library (the class [SeqFile],
    with the behaviour the module relies on as [SeqFileOk]) are parameters.
    The proc entry and the buffer are resources: releasing one that is not held
    is stuck. *)

From S2P Require Import Prelude CLib CharDev.

Local Open Scope Z_scope.

Definition PROC_NAME : string := "hello_module".

Inductive resource := RProc | RKmem.

#[export] Instance hello_resource_eq_dec : EqDecision resource.
Proof. solve_decision. Defined.

(** Module parameters, the two static pointers, what is held and the log. *)
Record hstate := mk_hstate {
  name : bytes;
  count : Z;                     (* int, writable through sysfs *)
  proc_entry : bool;             (* the pointer is not NULL *)
  kmem_buf : option bytes;
  h_held : list resource;
  h_log : list (klevel * bytes);
}.

(** What the kernel answered, and its [%p] text for the buffer. *)
Record hello_env := {
  e_proc_create : bool;
  e_kmalloc : option bytes;      (* the uninitialised 64-byte block, or NULL *)
  e_ptr : bytes;
}.

Definition h_set_proc (p : bool) : ST hstate unit :=
  st_modify (fun h => mk_hstate (name h) (count h) p (kmem_buf h) (h_held h) (h_log h)).
Definition h_set_buf (b : option bytes) : ST hstate unit :=
  st_modify (fun h => mk_hstate (name h) (count h) (proc_entry h) b (h_held h) (h_log h)).
Definition h_set_held (l : list resource) : ST hstate unit :=
  st_modify (fun h => mk_hstate (name h) (count h) (proc_entry h) (kmem_buf h) l (h_log h)).
Definition h_printk (lvl : klevel) (f : list fmt) : ST hstate unit :=
  st_modify (fun h => mk_hstate (name h) (count h) (proc_entry h) (kmem_buf h) (h_held h)
                        (h_log h ++ [(lvl, format f)])).

Definition h_acquire (r : resource) : ST hstate unit :=
  h ← st_get; h_set_held (r :: h_held h).
Definition h_release (r : resource) : ST hstate unit :=
  h ← st_get;
  match list_find (fun x => x = r) (h_held h) with
  | Some (i, _) => h_set_held (delete i (h_held h))
  | None => st_stuck
  end.

(** [proc_remove] and [kfree] ignore NULL; otherwise the entry or block must
    be held. *)
Definition proc_remove : ST hstate unit :=
  h ← st_get; if proc_entry h then h_release RProc else mret tt.
Definition kfree_buf : ST hstate unit :=
  h ← st_get; match kmem_buf h with Some _ => h_release RKmem | None => mret tt end.

Definition hello_init (e : hello_env) : ST hstate Z :=
  h ← st_get;
  h_printk KERN_INFO [FLit "[hello_module] Loading — name="; FS (name h); FLit " count=";
                      FD (count h); FRaw [x0a]] ;;
  h_set_proc (e_proc_create e) ;;
  if negb (e_proc_create e) then
    h_printk KERN_ERR [FLit "[hello_module] Failed to create /proc/"; FLit PROC_NAME; FRaw [x0a]] ;;
    mret (- ENOMEM)
  else
  h_acquire RProc ;;
  h_printk KERN_INFO [FLit "[hello_module] Created /proc/"; FLit PROC_NAME; FRaw [x0a]] ;;
  match e_kmalloc e with
  | None =>
      h_set_buf None ;;
      h_printk KERN_ERR [FLit "[hello_module] kmalloc failed!"; FRaw [x0a]] ;;
      proc_remove ;;
      mret (- ENOMEM)
  | Some block =>
      h_acquire RKmem ;;
      match store_bytes block 0 (snprintf 64 [FLit "kmalloc buffer at "; FRaw (e_ptr e)]).2 with
      | None => st_stuck
      | Some b =>
          h_set_buf (Some b) ;;
          h_printk KERN_INFO [FLit "[hello_module] "; FS b; FRaw [x0a]] ;;
          h_printk KERN_INFO [FLit "[hello_module] Module loaded successfully ✓"; FRaw [x0a]] ;;
          mret 0
      end
  end.

Definition hello_exit : ST hstate unit :=
  proc_remove ;;
  kfree_buf ;;
  h_printk KERN_INFO [FLit "[hello_module] Unloaded. Goodbye!"; FRaw [x0a]].

(** [static char *name = "World"; static int count = 3;], [module_param]: what
    insmod was given, or the defaults. *)
Definition module_params (nm : option bytes) (cnt : option Z) : hstate :=
  mk_hstate (default (bs "World") nm) (default 3 cnt) false None [] [].

(** [module_init(hello_init)], [module_exit(hello_exit)]. *)
Definition insmod (e : hello_env) (nm : option bytes) (cnt : option Z) : option (Z * hstate) :=
  hello_init e (module_params nm cnt).
Definition rmmod : ST hstate unit := hello_exit.

(** The parameter [count] has mode 0644: it can be written while the module is
    loaded; [name] has mode 0444. *)
Definition set_count (c : Z) (h : hstate) : hstate :=
  mk_hstate (name h) c (proc_entry h) (kmem_buf h) (h_held h) (h_log h).

(** ** The /proc text *)

Definition greeting (nm : bytes) (i : Z) : bytes :=
  format [FLit "  ["; FD (int! (i + 1)); FLit "] Hello, "; FS nm; FLit "!"; FRaw [x0a]].

(** The [for] loop from [i], with the iterations left as fuel. *)
Fixpoint greetings (fuel : nat) (nm : bytes) (cnt i : Z) : bytes :=
  match fuel with
  | O => []
  | S fuel => if i <? cnt then greeting nm i ++ greetings fuel nm cnt (int! (i + 1)) else []
  end.

Definition hello_seq_show (major patch sub : Z) (h : hstate) : Z * bytes :=
  (0,
   format [FLit "=== Hello Module ==="; FRaw [x0a]] ++
   format [FLit "Linux version: "; FD major; FLit "."; FD patch; FLit "."; FD sub; FRaw [x0a]] ++
   format [FLit "Parameter name : "; FS (name h); FRaw [x0a]] ++
   format [FLit "Parameter count: "; FD (count h); FRaw [x0a]] ++
   format [FRaw [x0a]; FLit "Greetings:"; FRaw [x0a]] ++
   greetings (S (Z.to_nat (count h))) (name h) (count h) 0).

(** ** The /proc file

    The kernel's seq_file library: an open file, and what reading does with
    the [show] function it was opened with.  [None] is -ENOMEM. *)
Class SeqFile := {
  file : Type;
  single_open : (hstate -> Z * bytes) -> option file;
  seq_read : file -> Z -> hstate -> option bytes * file;
  seq_lseek : file -> Z -> file;
  single_release : file -> Z;
}.

(** What the library does: a read of a positive number of bytes at position 0
    produces the whole text by [show] and keeps it, one further on goes on in
    the text kept; it returns the next bytes, at most as many as asked for, and
    advances by them.  A read of no bytes returns at once.  Seeking to 0 goes
    back to position 0.  A read that fails returns no bytes. *)
Class SeqFileOk (SF : SeqFile) := {
  kept_text : file -> bytes;
  position : file -> Z;
  shown_by : file -> hstate -> Z * bytes;
  single_open_spec show f : single_open show = Some f -> position f = 0 /\ shown_by f = show;
  seq_read_zero f h b f' : seq_read f 0 h = (Some b, f') ->
    b = [] /\ kept_text f' = kept_text f /\ position f' = position f /\ shown_by f' = shown_by f;
  seq_read_spec f n h b f' : 0 < n -> seq_read f n h = (Some b, f') ->
    let t := if position f =? 0 then (shown_by f h).2 else kept_text f in
    b = takeZ n (dropZ (position f) t) /\
    kept_text f' = t /\ position f' = position f + lenZ b /\ shown_by f' = shown_by f;
  seq_lseek_spec f : position (seq_lseek f 0) = 0 /\ shown_by (seq_lseek f 0) = shown_by f;
}.

Section proc_file.
Context {SF : SeqFile} (major patch sub : Z).

Definition hello_proc_open : option file := single_open (hello_seq_show major patch sub).

(** [hello_proc_ops]; before 5.6 the same functions in [hello_proc_fops]. *)
Record proc_ops := mk_proc_ops {
  proc_open : option file;
  proc_read : file -> Z -> hstate -> option bytes * file;
  proc_lseek : file -> Z -> file;
  proc_release : file -> Z;
}.
Definition hello_proc_ops : proc_ops :=
  mk_proc_ops hello_proc_open seq_read seq_lseek single_release.

(** What happens while a process has the file open: reads, rewinding, and
    writes of [count] through sysfs in between. *)
Inductive pcall := PRead (n : Z) | PRewind | PSetCount (c : Z).

(** The bytes of each read; [None] if one fails. *)
Fixpoint session (cs : list pcall) (f : file) (h : hstate) : option (list bytes) :=
  match cs with
  | [] => Some []
  | PRead n :: cs =>
      match proc_read hello_proc_ops f n h with
      | (Some b, f') => bs ← session cs f' h; Some (b :: bs)
      | (None, _) => None
      end
  | PRewind :: cs => session cs (proc_lseek hello_proc_ops f 0) h
  | PSetCount c :: cs => session cs f (set_count c h)
  end.

End proc_file.

(** The same for an abstract file: what is left of the text, [None] at its
    beginning, where a read shows it anew. *)
Fixpoint spec_session (show : hstate -> Z * bytes) (cs : list pcall) (left : option bytes) (h : hstate) : list bytes :=
  match cs with
  | [] => []
  | PRead n :: cs =>
      let t := default (show h).2 left in
      let started := 0 <? lenZ (takeZ n t) in
      takeZ n t :: spec_session show cs
                     (match left with
                      | Some _ => Some (dropZ n t)
                      | None => if started then Some (dropZ n t) else None
                      end) h
  | PRewind :: cs => spec_session show cs None h
  | PSetCount c :: cs => spec_session show cs left (set_count c h)
  end.

(** ** Properties *)

(** A block of 64 bytes, as asked for. *)
Definition hello_env_ok (e : hello_env) : Prop :=
  forall b, e_kmalloc e = Some b -> lenZ b = 64.

Lemma h_release_head r l nm c p b log :
  h_release r (mk_hstate nm c p b (r :: l) log) = Some (tt, mk_hstate nm c p b l log).
Proof.
  unfold h_release, h_set_held, mbind, ST_bind, st_get, st_modify; cbn [h_held list_find].
  rewrite decide_True by done. done.
Qed.

Lemma h_release_second r r' l nm c p b log :
  r <> r' ->
  h_release r (mk_hstate nm c p b (r' :: r :: l) log) = Some (tt, mk_hstate nm c p b (r' :: l) log).
Proof.
  intros Hne. unfold h_release, h_set_held, mbind, ST_bind, st_get, st_modify; cbn [h_held list_find].
  rewrite decide_False by congruence. rewrite decide_True by done. done.
Qed.

Ltac hello_unfold :=
  cbv beta iota zeta delta
    [mbind mret ST_bind ST_ret st_get st_modify st_stuck h_set_proc h_set_buf h_set_held h_printk
     h_acquire proc_remove kfree_buf name count proc_entry kmem_buf h_held h_log negb].

Lemma hello_store e b :
  lenZ b = 64 ->
  exists b', store_bytes b 0 (snprintf 64 [FLit "kmalloc buffer at "; FRaw (e_ptr e)]).2 = Some b' /\
    lenZ b' = 64 /\ NUL ∈ b'.
Proof.
  intros Hb. pose proof (snprintf_bound 64 [FLit "kmalloc buffer at "; FRaw (e_ptr e)]) as Hs.
  eexists. split; [apply store_bytes_Some; lia|].
  split; [|unfold snprintf; simpl; set_solver].
  pose proof (lenZ_nonneg (snprintf 64 [FLit "kmalloc buffer at "; FRaw (e_ptr e)]).2). len.
Qed.

(** C18: whatever parameters insmod is given, [hello_init] returns 0 holding the
    proc entry and a 64-byte buffer with a NUL-terminated text in it, after
    which rmmod ([hello_exit]) releases each of them once; if [proc_create] or
    [kmalloc] fails it returns -ENOMEM and holds nothing. *)
Theorem hello_load_unload e nm cnt :
  hello_env_ok e ->
  exists ret h', insmod e nm cnt = Some (ret, h') /\
    name h' = default (bs "World") nm /\ count h' = default 3 cnt /\
    if e_proc_create e && bool_decide (is_Some (e_kmalloc e))
    then ret = 0 /\ h_held h' = [RKmem; RProc] /\
         (exists b, kmem_buf h' = Some b /\ lenZ b = 64 /\ NUL ∈ b) /\
         exists h'', rmmod h' = Some (tt, h'') /\ h_held h'' = []
    else ret = - ENOMEM /\ h_held h' = [].
Proof.
  intros He. unfold insmod, module_params. generalize (default (bs "World") nm) as n. generalize (default 3 cnt) as c.
  intros c n. unfold hello_init. hello_unfold.
  destruct (e_proc_create e); cbv beta iota zeta delta [andb]; [|eexists _, _; by split_and!].
  destruct (e_kmalloc e) as [b|] eqn:Ek; rewrite ?bool_decide_True, ?bool_decide_False by (done || eauto || by intros []).
  - destruct (hello_store e b (He _ Ek)) as (b' & Hst & Hl & Hn). rewrite Hst.
    eexists _, _. do 3 (split; [reflexivity|]). split_and!; [done|done|by exists b'|].
    unfold rmmod, hello_exit. hello_unfold. rewrite h_release_second by done. rewrite h_release_head.
    eexists. split; reflexivity.
  - rewrite h_release_head. eexists _, _. by do 3 (split; [reflexivity|]).
Qed.

Lemma greetings_spec fuel nm cnt i :
  0 <= i -> cnt < 2 ^ 31 -> (Z.to_nat (cnt - i) < fuel)%nat ->
  greetings fuel nm cnt i
  = concat ((fun k => greeting nm k) <$> seqZ i (cnt - i)).
Proof.
  revert i. induction fuel as [|fuel IH]; intros i Hi Hc Hf; [lia|]. simpl.
  destruct (Z.ltb_spec i cnt) as [Hlt|Hge].
  - rewrite (seqZ_cons i (cnt - i)) by lia. simpl. f_equal.
    rewrite wrapS_small by lia. rewrite IH by lia.
    by replace (cnt - (i + 1)) with (Z.pred (cnt - i)) by lia.
  - rewrite seqZ_nil by lia. done.
Qed.

(** The text for the given parameters. *)
Definition hello_text (major patch sub : Z) (nm : bytes) (cnt : Z) : bytes :=
  format [FLit "=== Hello Module ==="; FRaw [x0a];
          FLit "Linux version: "; FD major; FLit "."; FD patch; FLit "."; FD sub; FRaw [x0a];
          FLit "Parameter name : "; FS nm; FRaw [x0a];
          FLit "Parameter count: "; FD cnt; FRaw [x0a];
          FRaw [x0a]; FLit "Greetings:"; FRaw [x0a]]
  ++ concat ((fun k => format [FLit "  ["; FD k; FLit "] Hello, "; FS nm; FLit "!"; FRaw [x0a]])
               <$> seqZ 1 cnt).

Lemma hello_seq_show_text major patch sub h :
  - 2 ^ 31 <= count h < 2 ^ 31 ->
  hello_seq_show major patch sub h = (0, hello_text major patch sub (name h) (count h)).
Proof.
  intros Hc. unfold hello_seq_show, hello_text. rewrite greetings_spec by lia. f_equal.
  rewrite !(assoc_L (++)), <- !format_app. cbn [app]. f_equal. rewrite Z.sub_0_r.
  replace (seqZ 1 (count h)) with (Z.add 1 <$> seqZ 0 (count h)) by apply fmap_add_seqZ.
  rewrite <- list_fmap_compose. f_equal.
  apply list_fmap_ext. intros i k Hk.
  apply lookup_seqZ in Hk as [-> Hk]. unfold compose, greeting. rewrite wrapS_small by lia.
  by rewrite (Z.add_comm 1).
Qed.

(** ** Reading the file *)
Section reads.
Context {SF : SeqFile} {SFO : SeqFileOk SF} (major patch sub : Z) (show : hstate -> Z * bytes).

Definition size_ok (c : pcall) : Prop := match c with PRead n => 0 <= n | _ => True end.

(** What is left of the text of an open file. *)
Definition left_of (f : file) : option bytes :=
  if position f =? 0 then None else Some (dropZ (position f) (kept_text f)).

Definition open_inv (f : file) : Prop :=
  shown_by f = show /\ 0 <= position f /\ (position f <> 0 -> position f <= lenZ (kept_text f)).

Lemma dropZ_dropZ_min {A} (p n : Z) (t : list A) :
  0 <= p <= lenZ t -> 0 <= n ->
  dropZ (p + lenZ (takeZ n (dropZ p t))) t = dropZ n (dropZ p t).
Proof.
  intros Hp Hn. rewrite lenZ_takeZ_min, lenZ_dropZ by lia. unfold dropZ, lenZ in *.
  rewrite drop_drop. destruct (Z.min_spec n (Z.of_nat (length t) - p)) as [[? ->]|[? ->]].
  - f_equal. lia.
  - rewrite !drop_ge by lia. done.
Qed.

(** One read. *)
Lemma seq_read_refines f n h b f' :
  open_inv f -> 0 <= n -> seq_read f n h = (Some b, f') ->
  let t := default (show h).2 (left_of f) in
  b = takeZ n t /\ open_inv f' /\
  left_of f' = match left_of f with
               | Some _ => Some (dropZ n t)
               | None => if 0 <? lenZ (takeZ n t) then Some (dropZ n t) else None
               end.
Proof.
  intros (Hsh & Hp & Ht) Hn Er. unfold open_inv, left_of. destruct (decide (n = 0)) as [->|].
  - destruct (seq_read_zero f h b f' Er) as (-> & -> & -> & ->).
    destruct (Z.eqb_spec (position f) 0); cbn; by rewrite ?takeZ_0, ?dropZ_0.
  - destruct (seq_read_spec f n h b f' ltac:(lia) Er) as (-> & -> & -> & ->). rewrite Hsh.
    destruct (Z.eqb_spec (position f) 0) as [E|E]; cbn [default].
    + rewrite E, dropZ_0, Z.add_0_l. pose proof (lenZ_nonneg (takeZ n (show h).2)).
      split_and!; [done|done|done|rewrite lenZ_takeZ_min by lia; lia|].
      destruct (Z.eqb_spec (lenZ (takeZ n (show h).2)) 0), (Z.ltb_spec 0 (lenZ (takeZ n (show h).2))); try lia; [done|].
      f_equal. pose proof (dropZ_dropZ_min 0 n (show h).2) as H'. rewrite dropZ_0, Z.add_0_l in H'.
      apply H'; [pose proof (lenZ_nonneg (show h).2); lia|done].
    + specialize (Ht E). pose proof (lenZ_nonneg (takeZ n (dropZ (position f) (kept_text f)))).
      rewrite (proj2 (Z.eqb_neq _ _)) by lia.
      split_and!; [done|done|lia|rewrite lenZ_takeZ_min, lenZ_dropZ by lia; lia|].
      by rewrite dropZ_dropZ_min by lia.
Qed.

(** The seq_file behaves like the abstract file. *)
Lemma session_refines cs f h outs :
  open_inv f -> Forall size_ok cs -> session major patch sub cs f h = Some outs ->
  outs = spec_session show cs (left_of f) h.
Proof.
  revert f h outs. induction cs as [|c cs IH]; intros f h outs Hi Hok Hs; simpl in *.
  - by simplify_eq.
  - apply Forall_cons in Hok as [Hc Hok]. destruct c as [n| |c]; simpl in *.
    + destruct (seq_read f n h) as [[b|] f'] eqn:Er; [|done].
      destruct (session major patch sub cs f' h) as [bs|] eqn:Es; simplify_eq/=.
      destruct (seq_read_refines f n h b f' Hi Hc Er) as (-> & Hi' & Hl).
      f_equal. by rewrite (IH f' h bs Hi' Hok Es), Hl.
    + destruct (seq_lseek_spec f) as (Hpos & Hsh').
      erewrite (IH _ _ outs); [|..|done|exact Hs].
      * unfold left_of. by rewrite Hpos.
      * unfold open_inv. rewrite Hpos, Hsh'. by split; [apply Hi|].
    + by apply IH.
Qed.

Fixpoint total (cs : list pcall) : Z :=
  match cs with [] => 0 | PRead n :: cs => n + total cs | _ :: cs => total cs end.

Lemma total_nonneg cs : Forall size_ok cs -> 0 <= total cs.
Proof. induction 1 as [|[n| |c] cs Hc _ IH]; simpl in *; lia. Qed.

(** Without rewinding, the reads are consecutive pieces of one text, whatever
    happens to the parameters meanwhile. *)
Lemma spec_session_text cs t h :
  Forall size_ok cs -> PRewind ∉ cs ->
  concat (spec_session show cs (Some t) h) = takeZ (total cs) t.
Proof.
  revert t h. induction cs as [|[n| |c] cs IH]; intros t h Hok Hr; simpl; [done|..];
    apply Forall_cons in Hok as [Hc Hok]; apply not_elem_of_cons in Hr as [? Hr]; [|done|by apply IH].
  rewrite IH by done. pose proof (total_nonneg _ Hok). simpl in Hc.
  unfold takeZ, dropZ. rewrite Z2Nat.inj_add by lia. apply take_take_drop.
Qed.
End reads.

Lemma hello_text_nonempty major patch sub nm cnt n :
  0 < n -> 0 < lenZ (takeZ n (hello_text major patch sub nm cnt)).
Proof.
  intros Hn. rewrite lenZ_takeZ_min by lia. unfold hello_text. cbn [format fmt_piece].
  rewrite !lenZ_app. change (lenZ (bs "=== Hello Module ===")) with 20.
  repeat match goal with |- context [lenZ ?l] => lazymatch goal with
    | H : 0 <= lenZ l |- _ => fail | _ => pose proof (lenZ_nonneg l) end end. lia.
Qed.

(** C19: a process that opens /proc/hello_module and reads it in pieces of any
    sizes, the first of at least one byte, gets, put together, exactly the text
    for the parameters at its first read: five header lines and [count]
    greetings numbered from 1 (none if [count] is negative), for every value of
    the [int] and even if [count] is changed between the reads. *)
Theorem hello_proc_reads {SF : SeqFile} {SFO : SeqFileOk SF} major patch sub f h n cs outs :
  - 2 ^ 31 <= count h < 2 ^ 31 ->
  proc_open (hello_proc_ops major patch sub) = Some f ->
  0 < n -> Forall size_ok cs -> PRewind ∉ cs ->
  session major patch sub (PRead n :: cs) f h = Some outs ->
  concat outs = takeZ (total (PRead n :: cs)) (hello_text major patch sub (name h) (count h)).
Proof.
  intros Hc Ho Hn Hok Hr Hs. destruct (single_open_spec _ _ Ho) as (Hp & Hsh).
  assert (Hok' : Forall size_ok (PRead n :: cs)) by (constructor; [cbn; lia|done]).
  assert (Hi : open_inv (hello_seq_show major patch sub) f) by (unfold open_inv; by rewrite Hp).
  rewrite (session_refines _ _ _ _ _ _ _ _ Hi Hok' Hs).
  unfold left_of. rewrite Hp. cbn [Z.eqb].
  rewrite <- (spec_session_text (hello_seq_show major patch sub) (PRead n :: cs) _ h)
    by (done || by apply not_elem_of_cons).
  cbn [spec_session default]. rewrite hello_seq_show_text by done. cbn [snd].
  by rewrite (proj2 (Z.ltb_lt _ _) (hello_text_nonempty _ _ _ _ _ _ Hn)).
Qed.

(** ** Witnesses *)

Lemma hello_load_unload_witness :
  let e := {| e_proc_create := true; e_kmalloc := Some (replicate 64 xff); e_ptr := bs "0xc0ffee" |} in
  exists ret h', insmod e None (Some 5) = Some (ret, h') /\
    ret = 0 /\ count h' = 5 /\ h_held h' = [RKmem; RProc].
Proof.
  intros e. destruct (hello_load_unload e None (Some 5)) as (ret & h' & Hi & _ & Hc & Hr).
  - intros b [= <-]. vm_compute. reflexivity.
  - destruct Hr as (Hret & Hh & _). exists ret, h'. exact (conj Hi (conj Hret (conj Hc Hh))).
Defined.

(** A seq_file library: the show function, the text kept, and the position. *)
Definition demo_seq_file : SeqFile := {|
  file := (hstate -> Z * bytes) * bytes * Z;
  single_open show := Some (show, [], 0);
  seq_read '(show, k, p) n h :=
    if n =? 0 then (Some [], (show, k, p)) else
    let t := if p =? 0 then (show h).2 else k in
    let b := takeZ n (dropZ p t) in (Some b, (show, t, p + lenZ b));
  seq_lseek '(show, k, p) off := (show, k, off);
  single_release _ := 0;
|}.

#[local] Instance demo_seq_file_ok : SeqFileOk demo_seq_file.
Proof.
  refine {| kept_text := (fun f : @file demo_seq_file => f.1.2); position := (fun f : @file demo_seq_file => f.2);
            shown_by := (fun f : @file demo_seq_file => f.1.1) |}.
  - intros show f [= <-]. done.
  - intros [[show k] p] h b f' [= <- <-]. done.
  - intros [[show k] p] n h b f' Hn. cbn. rewrite (proj2 (Z.eqb_neq _ _)) by lia. by intros [= <- <-].
  - by intros [[show k] p].
Defined.

(** Two reads of 30 and 200 bytes, [count] changed from 2 to 7 in between. *)
Lemma hello_proc_reads_witness :
  exists f outs,
    proc_open (SF := demo_seq_file) (hello_proc_ops 6 8 0) = Some f /\
    session (SF := demo_seq_file) 6 8 0 [PRead 30; PSetCount 7; PRead 200] f (module_params None (Some 2)) = Some outs /\
    concat outs =
    bs "=== Hello Module ===" ++ [x0a] ++ bs "Linux version: 6.8.0" ++ [x0a] ++
    bs "Parameter name : World" ++ [x0a] ++ bs "Parameter count: 2" ++ [x0a; x0a] ++
    bs "Greetings:" ++ [x0a] ++ bs "  [1] Hello, World!" ++ [x0a] ++ bs "  [2] Hello, World!" ++ [x0a].
Proof.
  eexists _, _. split; [reflexivity|]. split; [reflexivity|].
  rewrite (hello_proc_reads (SF := demo_seq_file) 6 8 0 _ (module_params None (Some 2)) 30 [PSetCount 7; PRead 200] _
    ltac:(simpl; lia) eq_refl ltac:(lia) ltac:(repeat constructor; simpl; lia) ltac:(set_solver) eq_refl).
  vm_compute. reflexivity.
Defined.

(** After a first read of no bytes the text is still to be produced: it shows
    the [count] of the next read. *)
Example zero_read_shows_nothing :
  exists f t, single_open (SeqFile := demo_seq_file) (hello_seq_show 6 8 0) = Some f /\
    session (SF := demo_seq_file) 6 8 0 [PRead 0; PSetCount 0; PRead 300] f (module_params None (Some 2)) =
      Some [[]; t] /\ t = hello_text 6 8 0 (bs "World") 0.
Proof. eexists _, _. split; [reflexivity|]. split; vm_compute; reflexivity. Qed.
