(* ===== verification/MemTrack.v ===== *)
(** * The leak-tracking allocator

    src/05_memory/memory_demo.c, Demo 5: [tracked_malloc], [tracked_free],
    [check_leaks] and [demo_leak_tracking].  The heap is a finite map from
    addresses to cells; the records form a linked list inside it, and
    [tracked_free] walks it with a pointer to a pointer, as the C code does.
    What [malloc] returned is an argument of each call; dereferencing a
    pointer to nothing and freeing a block twice are stuck. *)

From S2P Require Import Prelude CLib.

Local Open Scope Z_scope.

Definition addr := Z.
#[export] Instance addr_eq_dec : EqDecision addr := Z.eq_dec.
Definition NULL : addr := 0.

(** A block of user data or an [AllocRecord]. *)
Inductive cell := Block (size : Z) | Rec (ptr : addr) (size : Z) (next : addr).

#[export] Instance cell_eq_dec : EqDecision cell.
Proof. solve_decision. Defined.

Record mem := mk_mem {
  heap : gmap Z cell;
  g_alloc_list : addr;
  g_total_allocated : Z;      (* size_t *)
  out : bytes;
  err : bytes;
}.

Definition sizeof_AllocRecord : Z := 24.

Definition set_heap (h : gmap Z cell) : ST mem unit :=
  st_modify (fun m => mk_mem h (g_alloc_list m) (g_total_allocated m) (out m) (err m)).
Definition set_list (a : addr) : ST mem unit :=
  st_modify (fun m => mk_mem (heap m) a (g_total_allocated m) (out m) (err m)).
Definition set_total (t : Z) : ST mem unit :=
  st_modify (fun m => mk_mem (heap m) (g_alloc_list m) t (out m) (err m)).
Definition printf (f : list fmt) : ST mem unit :=
  st_modify (fun m => mk_mem (heap m) (g_alloc_list m) (g_total_allocated m) (out m ++ format f) (err m)).
Definition eprintf (f : list fmt) : ST mem unit :=
  st_modify (fun m => mk_mem (heap m) (g_alloc_list m) (g_total_allocated m) (out m) (err m ++ format f)).

(** [malloc]: [ans] is the address it returned, if it did not fail. *)
Definition malloc (ans : option addr) (size : Z) : ST mem addr :=
  match ans with
  | None => mret NULL
  | Some a => m ← st_get; set_heap (<[a := Block size]> (heap m)) ;; mret a
  end.

Definition free (p : addr) : ST mem unit :=
  if p =? NULL then mret tt
  else m ← st_get;
       match heap m !! p with
       | Some _ => set_heap (delete p (heap m))
       | None => st_stuck
       end.

Definition load_rec (a : addr) : ST mem (addr * Z * addr) :=
  m ← st_get;
  match heap m !! a with
  | Some (Rec p sz n) => mret (p, sz, n)
  | _ => st_stuck
  end.

(** Initialising the record at [a]; [a] may be NULL, which is a crash. *)
Definition store_rec (a ptr : addr) (size : Z) (next : addr) : ST mem unit :=
  m ← st_get;
  match heap m !! a with
  | Some _ => set_heap (<[a := Rec ptr size next]> (heap m))
  | None => st_stuck
  end.

Definition tracked_malloc (p_ans rec_ans : option addr) (size : Z) : ST mem addr :=
  p ← malloc p_ans size;
  if p =? NULL then mret NULL
  else
    rec ← malloc rec_ans sizeof_AllocRecord;
    m ← st_get;
    store_rec rec p size (g_alloc_list m) ;;
    set_list rec ;;
    m ← st_get;
    set_total (size_t! (g_total_allocated m + size)) ;;
    mret p.

(** [AllocRecord **cur]: the global, or the [next] field of a record. *)
Inductive loc := LGlobal | LNext (r : addr).

Definition load (cur : loc) : ST mem addr :=
  match cur with
  | LGlobal => m ← st_get; mret (g_alloc_list m)
  | LNext r => '(_, _, n) ← load_rec r; mret n
  end.

Definition store (cur : loc) (a : addr) : ST mem unit :=
  match cur with
  | LGlobal => set_list a
  | LNext r => '(p, sz, _) ← load_rec r; store_rec r p sz a
  end.

Section tracked_free.
(** The text printed for a pointer. *)
Context (ptr_fmt : addr -> bytes).

Definition not_found (ptr : addr) : list fmt :=
  [FLit "WARNING: tracked_free("; FRaw (ptr_fmt ptr); FLit ") — not found! Double-free?"; FRaw [x0a]].

(** The [while] loop; it returns on a match and falls out at the end. *)
Fixpoint tracked_free_loop (fuel : nat) (cur : loc) (ptr : addr) : ST mem unit :=
  match fuel with
  | O => st_stuck
  | S fuel =>
      rec ← load cur;
      if rec =? NULL then eprintf (not_found ptr)
      else
        '(p, sz, next) ← load_rec rec;
        if p =? ptr then
          m ← st_get;
          set_total (size_t! (g_total_allocated m - sz)) ;;
          store cur next ;;
          free rec ;;
          free ptr
        else tracked_free_loop fuel (LNext rec) ptr
  end.

(** One iteration per heap cell is enough. *)
Definition tracked_free (ptr : addr) : ST mem unit :=
  m ← st_get; tracked_free_loop (S (size (heap m))) LGlobal ptr.

Definition leak_line (p : addr) (sz : Z) : list fmt :=
  [FLit "  "; FRaw (ptr_fmt p); FLit "  "; FD sz; FLit " bytes"; FRaw [x0a]].

Fixpoint leaks_loop (fuel : nat) (r : addr) : ST mem unit :=
  match fuel with
  | O => st_stuck
  | S fuel =>
      if r =? NULL then mret tt
      else '(p, sz, next) ← load_rec r; printf (leak_line p sz) ;; leaks_loop fuel next
  end.

Definition check_leaks : ST mem unit :=
  m ← st_get;
  if g_alloc_list m =? NULL then printf [FLit "No leaks detected. ✓"; FRaw [x0a]]
  else
    printf [FLit "LEAKS DETECTED:"; FRaw [x0a]] ;;
    leaks_loop (S (size (heap m))) (g_alloc_list m) ;;
    m ← st_get;
    printf [FLit "Total leaked: "; FD (g_total_allocated m); FLit " bytes"; FRaw [x0a]].

(** [leak[0] = 'L'] needs the block. *)
Definition touch (p : addr) : ST mem unit :=
  m ← st_get; match heap m !! p with Some (Block _) => mret tt | _ => st_stuck end.

(** The answers to the six [malloc] calls, in order. *)
Definition demo_leak_tracking (a ra b rb c rc : option addr) : ST mem unit :=
  printf (separator "Demo 5: Custom Malloc Wrapper (Leak Tracking)") ;;
  a ← tracked_malloc a ra 128;
  b ← tracked_malloc b rb 256;
  leak ← tracked_malloc c rc 64;
  touch leak ;;
  tracked_free a ;;
  tracked_free b ;;
  printf [FLit "After freeing a and b (64-byte allocation is leaked):"; FRaw [x0a]] ;;
  check_leaks.
End tracked_free.

(** ** The abstract tracker: the list of live allocations, newest first *)

Record entry := mk_entry { e_at : addr; e_ptr : addr; e_size : Z }.

Definition head_at (l : list entry) : addr :=
  match l with [] => NULL | e :: _ => e_at e end.

Section tracker.
(** What else the process has on its heap. *)
Context (F : gmap Z cell).

(** The heap that holds exactly the blocks and the records of [l], and [F]. *)
Fixpoint repr (l : list entry) : gmap Z cell :=
  match l with
  | [] => F
  | e :: l => <[e_at e := Rec (e_ptr e) (e_size e) (head_at l)]>
                (<[e_ptr e := Block (e_size e)]> (repr l))
  end.

Definition addrs (l : list entry) : list addr := (e_at <$> l) ++ (e_ptr <$> l).
#[global] Arguments addrs : simpl never.
Definition total (l : list entry) : Z := foldr (fun e n => e_size e + n) 0 l.

(** The heap holds exactly the tracked blocks and their records, linked from
    the global, beside [F]. *)
Record linked (l : list entry) (m : mem) : Prop := {
  tr_heap : heap m = repr l;
  tr_list : g_alloc_list m = head_at l;
  tr_nodup : NoDup (addrs l);
  tr_null : NULL ∉ addrs l;
  tr_frame : forall a, a ∈ NULL :: addrs l -> F !! a = None;
}.

Definition tracks (l : list entry) (m : mem) : Prop :=
  linked l m /\ g_total_allocated m = size_t! (total l).

Definition unlink (ptr : addr) (l : list entry) : list entry :=
  filter (fun e => e_ptr e <> ptr) l.

(** ** The represented heap *)

Lemma addrs_cons e l : addrs (e :: l) ≡ₚ e_at e :: e_ptr e :: addrs l.
Proof. unfold addrs. simpl. constructor. symmetry. apply Permutation_middle. Qed.

Lemma addrs_app l1 l2 : addrs (l1 ++ l2) ≡ₚ addrs l1 ++ addrs l2.
Proof.
  induction l1 as [|e l1 IH]; [done|]. rewrite <- app_comm_cons.
  rewrite (addrs_cons e (l1 ++ l2)), (addrs_cons e l1), IH. reflexivity.
Qed.

(** What NoDup says about the first entry. *)
Lemma nodup_cons e l :
  NoDup (addrs (e :: l)) ->
  e_at e <> e_ptr e /\ e_at e ∉ addrs l /\ e_ptr e ∉ addrs l /\ NoDup (addrs l).
Proof. rewrite addrs_cons, !NoDup_cons, not_elem_of_cons. naive_solver. Qed.

Lemma elem_addrs_cons a e l : a ∈ addrs (e :: l) <-> a = e_at e \/ a = e_ptr e \/ a ∈ addrs l.
Proof. by rewrite addrs_cons, !elem_of_cons. Qed.

Lemma repr_None l a : a ∉ addrs l -> F !! a = None -> repr l !! a = None.
Proof.
  intros Ha HF. induction l as [|e l IH]; simpl; [done|].
  rewrite elem_addrs_cons in Ha. rewrite !lookup_insert_ne by naive_solver. naive_solver.
Qed.

Lemma repr_skip l1 l2 a : a ∉ addrs l1 -> repr (l1 ++ l2) !! a = repr l2 !! a.
Proof.
  induction l1 as [|e l1 IH]; intros Ha; simpl; [done|].
  rewrite elem_addrs_cons in Ha. rewrite !lookup_insert_ne by naive_solver. naive_solver.
Qed.

Lemma nodup_middle l1 e l2 :
  NoDup (addrs (l1 ++ e :: l2)) ->
  e_at e ∉ addrs l1 /\ e_ptr e ∉ addrs l1 /\ NoDup (addrs (e :: l2)) /\ NoDup (addrs (l1 ++ l2)).
Proof.
  rewrite !addrs_app, addrs_cons. rewrite !NoDup_app. intros (H1 & H2 & H3). split_and!; try done.
  - intros Hin. apply (H2 _ Hin). rewrite !elem_of_cons; auto.
  - intros Hin. apply (H2 _ Hin). rewrite !elem_of_cons; auto.
  - intros x Hx Hx2. apply (H2 _ Hx). rewrite !elem_of_cons; auto.
  - rewrite !NoDup_cons in H3. naive_solver.
Qed.

Lemma repr_at l1 e l2 :
  NoDup (addrs (l1 ++ e :: l2)) ->
  repr (l1 ++ e :: l2) !! e_at e = Some (Rec (e_ptr e) (e_size e) (head_at l2)).
Proof.
  intros Hn. destruct (nodup_middle _ _ _ Hn) as (Ha & _ & _ & _).
  rewrite repr_skip by done. simpl. by rewrite lookup_insert_eq.
Qed.

(** Unlinking the entry [e] behind [l1] and freeing its two cells. *)
Definition relink (l1 : list entry) (n : addr) (h : gmap Z cell) : gmap Z cell :=
  match last l1 with
  | None => h
  | Some y => <[e_at y := Rec (e_ptr y) (e_size y) n]> h
  end.

Lemma relink_cons y l1 n h : l1 <> [] -> relink (y :: l1) n h = relink l1 n h.
Proof. destruct l1; [done|]. intros _. unfold relink. done. Qed.

Lemma relink_insert_ne l1 n h k c :
  k ∉ addrs l1 -> relink l1 n (<[k := c]> h) = <[k := c]> (relink l1 n h).
Proof.
  intros Hk. unfold relink. destruct (last l1) as [y|] eqn:E; [|done].
  apply insert_insert_ne. intros <-. apply Hk, elem_of_app. left.
  apply list_elem_of_fmap. exists y. split; [done|]. by apply last_Some_elem_of.
Qed.

Lemma repr_unlink l1 e l2 :
  NoDup (addrs (l1 ++ e :: l2)) -> F !! e_at e = None -> F !! e_ptr e = None ->
  delete (e_ptr e) (delete (e_at e) (relink l1 (head_at l2) (repr (l1 ++ e :: l2))))
  = repr (l1 ++ l2).
Proof.
  intros Hn F1 F2. revert Hn. induction l1 as [|y l1 IH]; intros Hn; simpl.
  - apply nodup_cons in Hn as (Hne & Ha & Hp & Hn). unfold relink; simpl.
    rewrite delete_insert_eq, delete_insert_ne by done.
    rewrite delete_insert_eq. rewrite !delete_id; [done|by apply repr_None|].
    rewrite delete_id by (by apply repr_None). by apply repr_None.
  - simpl in Hn. pose proof (nodup_cons _ _ Hn) as (Hne & Ha & Hp & Hn').
    specialize (IH Hn'). rewrite addrs_app, addrs_cons in Ha, Hp.
    assert (e_at e <> e_at y /\ e_at e <> e_ptr y /\ e_ptr e <> e_at y /\ e_ptr e <> e_ptr y)
      as (H1 & H2 & H3 & H4) by set_solver.
    destruct l1 as [|z l1].
    + unfold relink in *; simpl in *. rewrite insert_insert_eq.
      rewrite !delete_insert_ne by done. by rewrite IH.
    + rewrite relink_cons by done. rewrite !relink_insert_ne by set_solver.
      rewrite !delete_insert_ne by done. by rewrite IH.
Qed.

Lemma size_repr l :
  NoDup (addrs l) -> (forall a, a ∈ addrs l -> F !! a = None) ->
  size (repr l) = (2 * length l + size F)%nat.
Proof.
  induction l as [|e l IH]; intros Hn HF; [done|].
  assert (F !! e_at e = None /\ F !! e_ptr e = None) as [F1 F2]
    by (split; apply HF; rewrite elem_addrs_cons; auto).
  assert (HF' : forall a, a ∈ addrs l -> F !! a = None)
    by (intros a Ha'; apply HF; rewrite elem_addrs_cons; auto).
  apply nodup_cons in Hn as (Hne & Ha & Hp & Hn). simpl.
  rewrite map_size_insert_None by (rewrite lookup_insert_ne by done; by apply repr_None).
  rewrite map_size_insert_None by (by apply repr_None). rewrite IH by done. simpl. lia.
Qed.

Lemma total_app l1 l2 : total (l1 ++ l2) = total l1 + total l2.
Proof. induction l1 as [|e l1 IH]; simpl; [done|]. rewrite IH. lia. Qed.

Lemma unlink_notin ptr l : ptr ∉ e_ptr <$> l -> unlink ptr l = l.
Proof.
  induction l as [|e l IH]; intros Hp; [done|]. unfold unlink in *.
  rewrite fmap_cons, not_elem_of_cons in Hp. destruct Hp as [Hne Hp].
  rewrite filter_cons_True by congruence. by rewrite IH.
Qed.

Lemma unlink_middle l1 e l2 :
  NoDup (addrs (l1 ++ e :: l2)) -> unlink (e_ptr e) (l1 ++ e :: l2) = l1 ++ l2.
Proof.
  intros Hn. destruct (nodup_middle _ _ _ Hn) as (_ & Hp & Hn2 & _).
  apply nodup_cons in Hn2 as (_ & _ & Hp2 & _).
  unfold addrs in Hp, Hp2. rewrite not_elem_of_app in Hp, Hp2.
  unfold unlink. rewrite filter_app, filter_cons_False by (intros H; by apply H).
  rewrite <- (unlink_notin (e_ptr e) l1) at 2 by naive_solver.
  rewrite <- (unlink_notin (e_ptr e) l2) at 2 by naive_solver. done.
Qed.

(** ** The operations against the abstract list *)

(** The addresses [malloc] returned are in use nowhere. *)
Definition fresh_entry (l : list entry) (e : entry) : Prop :=
  NoDup (addrs (e :: l)) /\ NULL ∉ addrs (e :: l) /\ F !! e_at e = None /\ F !! e_ptr e = None.

Lemma tracked_malloc_spec l m r p sz :
  tracks l m -> fresh_entry l (mk_entry r p sz) ->
  exists m', tracked_malloc (Some p) (Some r) sz m = Some (p, m') /\
    tracks (mk_entry r p sz :: l) m' /\ out m' = out m /\ err m' = err m.
Proof.
  intros [[Hh Hl Hn Hz HF] Ht] (Hn' & Hz' & F1 & F2). pose proof Hz' as Hz2. rewrite elem_addrs_cons in Hz2.
  unfold tracked_malloc, malloc, store_rec, set_heap, set_list, set_total, mbind, ST_bind, mret,
    ST_ret, st_get, st_modify; simpl.
  destruct (Z.eqb_spec p NULL) as [->|_]; [naive_solver|]. simpl. rewrite lookup_insert_eq.
  eexists. split; [reflexivity|]. split; [|done].
  split; [split; simpl; [|done|done|done|]|simpl].
  - rewrite insert_insert_eq, Hl. by rewrite Hh.
  - intros a. rewrite elem_of_cons, elem_addrs_cons. simpl. intros [->|[->|[->|Ha]]]; try done;
      apply HF; rewrite elem_of_cons; auto.
  - rewrite Ht, wrapU_add_l. f_equal. lia.
Qed.

(** The record's [malloc] is not checked: if it fails the program crashes. *)
Lemma tracked_malloc_crash l m p sz :
  tracks l m -> p <> NULL -> tracked_malloc (Some p) None sz m = None.
Proof.
  intros [[Hh Hl Hn Hz HF] Ht] Hp.
  unfold tracked_malloc, malloc, store_rec, set_heap, mbind, ST_bind, mret,
    ST_ret, st_get, st_modify; simpl.
  destruct (Z.eqb_spec p NULL); [done|]. simpl. rewrite lookup_insert_ne by done.
  rewrite Hh, repr_None; [done|done|]. apply HF. rewrite elem_of_cons. auto.
Qed.

Definition loc_after (l1 : list entry) : loc :=
  match last l1 with None => LGlobal | Some y => LNext (e_at y) end.

Lemma load_rec_repr l1 e l2 m :
  linked (l1 ++ e :: l2) m ->
  load_rec (e_at e) m = Some ((e_ptr e, e_size e, head_at l2), m).
Proof.
  intros [Hh _ Hn _ _]. unfold load_rec, mbind, ST_bind, st_get. simpl.
  by rewrite Hh, repr_at.
Qed.

Lemma load_after l1 l2 m :
  linked (l1 ++ l2) m -> load (loc_after l1) m = Some (head_at l2, m).
Proof.
  intros Hm. unfold loc_after. destruct l1 as [|y l1 _] using rev_ind; simpl.
  - unfold mbind, ST_bind, st_get, mret, ST_ret. by rewrite (tr_list _ _ Hm).
  - rewrite last_snoc. simpl. rewrite <- (assoc_L (++)) in Hm. simpl in Hm.
    unfold mbind, ST_bind. by rewrite (load_rec_repr _ _ _ _ Hm).
Qed.

(** [*cur = tmp->next]: bypasses the entry after [l1]. *)
Lemma store_after l1 e l2 m :
  linked (l1 ++ e :: l2) m ->
  store (loc_after l1) (head_at l2) m =
  Some (tt, mk_mem (relink l1 (head_at l2) (heap m)) (head_at (l1 ++ l2)) (g_total_allocated m)
              (out m) (err m)).
Proof.
  intros Hm. unfold loc_after, relink. destruct l1 as [|y l1 _] using rev_ind; simpl.
  - done.
  - rewrite last_snoc. simpl. rewrite <- (assoc_L (++)) in Hm. simpl in Hm.
    unfold mbind, ST_bind. rewrite (load_rec_repr _ _ _ _ Hm). unfold store_rec, mbind, ST_bind, st_get.
    pose proof Hm as [Hh Hl Hn _ _].
    assert (heap m !! e_at y = Some (Rec (e_ptr y) (e_size y) (head_at (e :: l2)))) as ->
      by (rewrite Hh; by apply repr_at).
    unfold set_heap, st_modify. rewrite Hl. by destruct l1.
Qed.

Lemma free_Some a h c hd t o er :
  a <> NULL -> h !! a = Some c ->
  free a (mk_mem h hd t o er) = Some (tt, mk_mem (delete a h) hd t o er).
Proof.
  intros Ha Hc. unfold free. destruct (Z.eqb_spec a NULL); [done|].
  unfold mbind, ST_bind, st_get. simpl. by rewrite Hc.
Qed.

(** Freeing the two cells of the bypassed entry leaves the heap of the rest. *)
Lemma free_unlinked l1 e l2 hd t o er :
  NoDup (addrs (l1 ++ e :: l2)) -> NULL ∉ addrs (l1 ++ e :: l2) ->
  F !! e_at e = None -> F !! e_ptr e = None ->
  (free (e_at e) ;; free (e_ptr e))
    (mk_mem (relink l1 (head_at l2) (repr (l1 ++ e :: l2))) hd t o er)
  = Some (tt, mk_mem (repr (l1 ++ l2)) hd t o er).
Proof.
  intros Hn Hz F1 F2. destruct (nodup_middle _ _ _ Hn) as (Ha & Hp & He & _).
  apply nodup_cons in He as (Hne & _ & _ & _).
  rewrite addrs_app, elem_of_app, elem_addrs_cons in Hz.
  assert (Hk : forall k, k ∉ addrs l1 -> relink l1 (head_at l2) (repr (l1 ++ e :: l2)) !! k
                                         = repr (e :: l2) !! k).
  { intros k Hk. unfold relink. destruct (last l1) as [y|] eqn:E; [|by apply repr_skip].
    rewrite lookup_insert_ne; [by apply repr_skip|]. intros <-. apply Hk, elem_of_app. left.
    apply list_elem_of_fmap. exists y. split; [done|]. by apply last_Some_elem_of. }
  unfold mbind, ST_bind. erewrite free_Some; [|naive_solver|rewrite Hk by done; simpl; by rewrite lookup_insert_eq].
  erewrite free_Some; [|naive_solver|].
  - by rewrite repr_unlink.
  - rewrite lookup_delete_ne by done. rewrite Hk by done. simpl.
    by rewrite lookup_insert_ne, lookup_insert_eq by done.
Qed.

Lemma tracks_unlink l1 e l2 hd o er :
  NoDup (addrs (l1 ++ e :: l2)) -> NULL ∉ addrs (l1 ++ e :: l2) -> hd = head_at (l1 ++ l2) ->
  (forall a, a ∈ NULL :: addrs (l1 ++ e :: l2) -> F !! a = None) ->
  tracks (l1 ++ l2) (mk_mem (repr (l1 ++ l2)) hd
    (wrapU 64 (wrapU 64 (total (l1 ++ e :: l2)) - e_size e)) o er).
Proof.
  intros Hn Hz -> HF. destruct (nodup_middle _ _ _ Hn) as (_ & _ & _ & Hn').
  split; [split; simpl; [done|done|done| |]|simpl].
  - rewrite addrs_app, elem_of_app in *. rewrite elem_addrs_cons in Hz. naive_solver.
  - intros a Ha. apply HF. revert Ha. rewrite !elem_of_cons, !addrs_app, !elem_of_app, elem_addrs_cons. tauto.
  - rewrite wrapU_sub_l, !total_app. simpl. f_equal. lia.
Qed.

Lemma linked_size l m : linked l m -> size (repr l) = (2 * length l + size F)%nat.
Proof. intros [_ _ Hn _ HF]. apply size_repr; [done|]. intros a Ha. apply HF. rewrite elem_of_cons. auto. Qed.

Section free_spec.
Context (ptr_fmt : addr -> bytes).

(** The memory after the "not found" warning. *)
Definition warned (ptr : addr) (m : mem) : mem :=
  mk_mem (heap m) (g_alloc_list m) (g_total_allocated m) (out m)
    (err m ++ format (not_found ptr_fmt ptr)).

Lemma free_loop_end fuel l1 ptr m :
  linked (l1 ++ []) m ->
  tracked_free_loop ptr_fmt (S fuel) (loc_after l1) ptr m = Some (tt, warned ptr m).
Proof.
  intros Hm. cbn [tracked_free_loop]. by rewrite (st_bind_run _ _ _ _ _ (load_after _ _ _ Hm)).
Qed.

Lemma free_loop_rec fuel l1 e l2 ptr m :
  linked (l1 ++ e :: l2) m ->
  tracked_free_loop ptr_fmt (S fuel) (loc_after l1) ptr m
  = (if e_ptr e =? ptr then
       m ← st_get;
       set_total (size_t! (g_total_allocated m - e_size e)) ;;
       store (loc_after l1) (head_at l2) ;;
       free (e_at e) ;;
       free ptr
     else tracked_free_loop ptr_fmt fuel (LNext (e_at e)) ptr) m.
Proof.
  intros Hm. cbn [tracked_free_loop].
  rewrite (st_bind_run _ _ _ _ _ (load_after _ _ _ Hm)). cbn [head_at].
  pose proof (tr_null _ _ Hm) as Hz. rewrite addrs_app, elem_of_app, elem_addrs_cons in Hz.
  destruct (Z.eqb_spec (e_at e) NULL) as [E|_]; [naive_solver|].
  by rewrite (st_bind_run _ _ _ _ _ (load_rec_repr _ _ _ _ Hm)).
Qed.

Lemma free_loop_match fuel l1 e l2 m :
  tracks (l1 ++ e :: l2) m ->
  exists m', tracked_free_loop ptr_fmt (S fuel) (loc_after l1) (e_ptr e) m = Some (tt, m') /\
    tracks (l1 ++ l2) m' /\ out m' = out m /\ err m' = err m.
Proof.
  intros [Hm Ht]. rewrite (free_loop_rec _ _ _ _ _ _ Hm), Z.eqb_refl.
  destruct m as [h hd t o er]. destruct Hm as [Hh Hl Hn Hz HF]. simpl in Hh, Hl, Ht. subst h t.
  rewrite (st_bind_run _ _ _ _ _ (eq_refl _)). cbn [g_total_allocated].
  rewrite (st_bind_run (set_total _) _ _ tt _ (eq_refl _)). cbn [heap g_alloc_list out err].
  erewrite st_bind_run; [|apply (store_after l1 e l2); split; simpl; eauto].
  cbn [heap g_total_allocated out err].
  assert (F !! e_at e = None /\ F !! e_ptr e = None) as [F1 F2]
    by (split; apply HF; rewrite elem_of_cons, addrs_app, elem_of_app, elem_addrs_cons; auto).
  rewrite free_unlinked by done.
  eexists. split; [reflexivity|]. split; [by apply tracks_unlink|done].
Qed.

Lemma free_loop_spec ptr l2 l1 fuel m :
  tracks (l1 ++ l2) m -> (length l2 < fuel)%nat ->
  if bool_decide (ptr ∈ e_ptr <$> l2)
  then exists m', tracked_free_loop ptr_fmt fuel (loc_after l1) ptr m = Some (tt, m') /\
         tracks (unlink ptr (l1 ++ l2)) m' /\ out m' = out m /\ err m' = err m
  else tracked_free_loop ptr_fmt fuel (loc_after l1) ptr m = Some (tt, warned ptr m).
Proof.
  revert l1 fuel. induction l2 as [|e l2 IH]; intros l1 fuel Hm Hf;
    (destruct fuel as [|fuel]; [simpl in Hf; lia|]).
  - apply free_loop_end. apply Hm.
  - destruct (decide (e_ptr e = ptr)) as [<-|Hne].
    + rewrite bool_decide_true by (rewrite fmap_cons; apply list_elem_of_here).
      rewrite unlink_middle by apply (tr_nodup _ _ (proj1 Hm)). by apply free_loop_match.
    + rewrite (free_loop_rec _ _ _ _ _ _ (proj1 Hm)). destruct (Z.eqb_spec (e_ptr e) ptr); [done|].
      replace (LNext (e_at e)) with (loc_after (l1 ++ [e])) by (unfold loc_after; by rewrite last_snoc).
      specialize (IH (l1 ++ [e]) fuel). rewrite <- (assoc_L (++)) in IH. simpl in IH, Hf.
      replace (bool_decide (ptr ∈ e_ptr <$> e :: l2)) with (bool_decide (ptr ∈ e_ptr <$> l2))
        by (apply bool_decide_ext; rewrite fmap_cons, elem_of_cons; naive_solver).
      apply IH; [done|lia].
Qed.

Lemma tracked_free_spec ptr l m :
  tracks l m ->
  if bool_decide (ptr ∈ e_ptr <$> l)
  then exists m', tracked_free ptr_fmt ptr m = Some (tt, m') /\
         tracks (unlink ptr l) m' /\ out m' = out m /\ err m' = err m
  else tracked_free ptr_fmt ptr m = Some (tt, warned ptr m).
Proof.
  intros Hm. unfold tracked_free. rewrite (st_bind_run _ _ _ _ _ (eq_refl (Some (m, m)))).
  apply (free_loop_spec ptr l [] (S (size (heap m))) m Hm).
  rewrite (tr_heap _ _ (proj1 Hm)), (linked_size _ _ (proj1 Hm)). lia.
Qed.

(** ** Sequences of calls *)

Inductive call := Malloc (p rec : option addr) (size : Z) | Free (ptr : addr).

Definition do_call (c : call) : ST mem unit :=
  match c with
  | Malloc p rec sz => tracked_malloc p rec sz ;; mret tt
  | Free ptr => tracked_free ptr_fmt ptr
  end.

Fixpoint do_calls (cs : list call) : ST mem unit :=
  match cs with [] => mret tt | c :: cs => do_call c ;; do_calls cs end.

(** The abstract tracker, and the warnings it asks for. *)
Definition spec_call (c : call) (l : list entry) : list entry * bytes :=
  match c with
  | Malloc (Some p) (Some r) sz => (mk_entry r p sz :: l, [])
  | Malloc _ _ _ => (l, [])
  | Free ptr => (unlink ptr l,
      if bool_decide (ptr ∈ e_ptr <$> l) then [] else format (not_found ptr_fmt ptr))
  end.

Fixpoint spec_calls (cs : list call) (l : list entry) : list entry * bytes :=
  match cs with
  | [] => (l, [])
  | c :: cs => let '(l1, w1) := spec_call c l in
               let '(l2, w2) := spec_calls cs l1 in (l2, w1 ++ w2)
  end.

(** The block was given, but not its record: the code writes through the NULL
    it does not check for. *)
Definition crashes (c : call) : bool :=
  match c with Malloc (Some _) None _ => true | _ => false end.

(** What [malloc] may answer: NULL, or addresses in use nowhere. *)
Definition call_ok (c : call) (l : list entry) : Prop :=
  match c with
  | Malloc (Some p) (Some r) sz => fresh_entry l (mk_entry r p sz)
  | Malloc (Some p) None _ => p <> NULL
  | Malloc None _ _ | Free _ => True
  end.

Fixpoint calls_ok (cs : list call) (l : list entry) : Prop :=
  match cs with [] => True | c :: cs => call_ok c l /\ calls_ok cs (spec_call c l).1 end.

Lemma do_call_crash c l m :
  tracks l m -> call_ok c l -> crashes c = true -> do_call c m = None.
Proof.
  intros Hm Hok Hc. destruct c as [[p|] [r|] sz|ptr]; simpl in *; try done.
  unfold mbind at 1, ST_bind at 1. by rewrite (tracked_malloc_crash l).
Qed.

Lemma do_call_spec c l m :
  tracks l m -> call_ok c l -> crashes c = false ->
  exists m', do_call c m = Some (tt, m') /\ tracks (spec_call c l).1 m' /\
    out m' = out m /\ err m' = err m ++ (spec_call c l).2.
Proof.
  intros Hm Hok Hcr. destruct c as [[p|] [r|] sz|ptr]; simpl in *; try done.
  - destruct (tracked_malloc_spec l m r p sz Hm Hok) as (m' & Hc & Ht & Ho & He).
    exists m'. rewrite (st_bind_run _ _ _ _ _ Hc), app_nil_r. done.
  - exists m. by rewrite app_nil_r.
  - exists m. by rewrite app_nil_r.
  - pose proof (tracked_free_spec ptr l m Hm) as Hf. case_bool_decide as Hin.
    + destruct Hf as (m' & Hc & Ht & Ho & He). exists m'. by rewrite app_nil_r.
    + exists (warned ptr m). split_and!; [done| |done|done].
      rewrite unlink_notin by done. destruct Hm as [[Hh Hl Hn Hz HF] Ht]. done.
Qed.

(** C20: a sequence of [tracked_malloc] and [tracked_free] calls crashes
    exactly when in one of them [malloc] gives the block but not the record,
    whose result is not checked.  Otherwise it returns normally and refines
    the list of live allocations: afterwards the linked list is exactly the
    allocations made and not freed, newest first, the heap holds their blocks
    and records and beside them only what it held before (no record leaks, no
    block is freed twice or missed), the total is the sum of their sizes
    modulo 2^64, and exactly the frees of unknown pointers are warned about. *)
Theorem tracker_refines cs l m :
  tracks l m -> calls_ok cs l ->
  if existsb crashes cs
  then do_calls cs m = None
  else exists m', do_calls cs m = Some (tt, m') /\ tracks (spec_calls cs l).1 m' /\
         out m' = out m /\ err m' = err m ++ (spec_calls cs l).2.
Proof.
  revert l m. induction cs as [|c cs IH]; intros l m Hm Hok; simpl in *.
  - exists m. by rewrite app_nil_r.
  - destruct Hok as [Hc Hcs]. destruct (crashes c) eqn:Ec; simpl.
    { unfold mbind, ST_bind. by rewrite (do_call_crash c l m Hm Hc Ec). }
    destruct (do_call_spec c l m Hm Hc Ec) as (m1 & H1 & Ht1 & Ho1 & He1).
    destruct (spec_call c l) as [l1 w1]. simpl in *. specialize (IH l1 m1 Ht1 Hcs).
    rewrite (st_bind_run _ _ _ _ _ H1). destruct (existsb crashes cs); [done|].
    destruct IH as (m2 & H2 & Ht2 & Ho2 & He2). destruct (spec_calls cs l1) as [l2 w2]. simpl in *.
    exists m2. split_and!; [done|done|congruence|]. by rewrite He2, He1, (assoc_L (++)).
Qed.

(** ** The leak report *)

Definition report (l : list entry) : bytes :=
  match l with
  | [] => format [FLit "No leaks detected. ✓"; FRaw [x0a]]
  | _ => format [FLit "LEAKS DETECTED:"; FRaw [x0a]] ++
         concat ((fun e => format (leak_line ptr_fmt (e_ptr e) (e_size e))) <$> l) ++
         format [FLit "Total leaked: "; FD (size_t! (total l)); FLit " bytes"; FRaw [x0a]]
  end.

Definition put (o : bytes) (m : mem) : mem :=
  mk_mem (heap m) (g_alloc_list m) (g_total_allocated m) (out m ++ o) (err m).

Lemma put_put o1 o2 m : put o2 (put o1 m) = put (o1 ++ o2) m.
Proof. unfold put. simpl. by rewrite (assoc_L (++)). Qed.

Lemma linked_put l o m : linked l m -> linked l (put o m).
Proof. by intros []. Qed.

Lemma leaks_loop_spec l1 l2 fuel m :
  linked (l1 ++ l2) m -> (length l2 < fuel)%nat ->
  leaks_loop ptr_fmt fuel (head_at l2) m =
  Some (tt, put (concat ((fun e => format (leak_line ptr_fmt (e_ptr e) (e_size e))) <$> l2)) m).
Proof.
  revert l1 fuel m. induction l2 as [|e l2 IH]; intros l1 fuel m Hm Hf;
    (destruct fuel as [|fuel]; [simpl in Hf; lia|]); cbn [leaks_loop head_at].
  - simpl. unfold mret, ST_ret, put. rewrite app_nil_r. by destruct m.
  - pose proof (tr_null _ _ Hm) as Hz. rewrite addrs_app, elem_of_app, elem_addrs_cons in Hz.
    destruct (Z.eqb_spec (e_at e) NULL) as [E|_]; [naive_solver|].
    rewrite (st_bind_run _ _ _ _ _ (load_rec_repr _ _ _ _ Hm)).
    set (line := format (leak_line ptr_fmt (e_ptr e) (e_size e))).
    rewrite (st_bind_run (printf _) _ m tt (put line m) eq_refl).
    rewrite (IH (l1 ++ [e]) fuel (put line m)); [by rewrite put_put| |simpl in Hf; lia].
    rewrite <- (assoc_L (++)). by apply linked_put.
Qed.

Lemma check_leaks_spec l m :
  tracks l m -> check_leaks ptr_fmt m = Some (tt, put (report l) m).
Proof.
  intros [Hm Ht]. pose proof Hm as [Hh Hl Hn Hz HF]. unfold check_leaks.
  rewrite (st_bind_run st_get _ m m m eq_refl). rewrite Hl.
  destruct l as [|e l]; [done|]. cbn [head_at].
  rewrite elem_addrs_cons in Hz. destruct (Z.eqb_spec (e_at e) NULL) as [E|_]; [naive_solver|].
  rewrite (st_bind_run (printf _) _ m tt (put (format [FLit "LEAKS DETECTED:"; FRaw [x0a]]) m) eq_refl).
  rewrite Hh, (linked_size _ _ Hm).
  erewrite st_bind_run; [|apply (leaks_loop_spec [] (e :: l)); [by apply linked_put|simpl; lia]].
  erewrite st_bind_run; [|reflexivity]. cbn [put g_total_allocated]. rewrite Ht.
  unfold printf, st_modify, put, report. simpl heap. do 2 f_equal. simpl out.
  by rewrite !(assoc_L (++)).
Qed.

(** C21: [check_leaks] terminates and prints exactly one line per live
    allocation, newest first, and their total; or that there is none.  It
    changes nothing but the output. *)
Theorem check_leaks_report l m :
  tracks l m -> check_leaks ptr_fmt m = Some (tt, put (report l) m).
Proof. apply check_leaks_spec. Qed.

Lemma check_leaks_put o l m :
  tracks l m -> check_leaks ptr_fmt (put o m) = Some (tt, put (o ++ report l) m).
Proof.
  intros [Hl Ht]. rewrite (check_leaks_spec l); [by rewrite put_put|].
  split; [by apply linked_put|done].
Qed.

(** ** The demo *)

(** The static variables at their initial values, [F] on the heap. *)
Definition boot : mem := mk_mem F NULL 0 [] [].

Lemma tracks_boot : F !! NULL = None -> tracks [] boot.
Proof.
  intros HF. split; [split; simpl; try done|done].
  - by apply NoDup_nil.
  - apply not_elem_of_nil.
  - intros a [->|Ha]%elem_of_cons; [done|]. by apply not_elem_of_nil in Ha.
Qed.

Definition demo_entries (a ra b rb c rc : addr) : list entry :=
  [mk_entry rc c 64; mk_entry rb b 256; mk_entry ra a 128].

(** Six addresses that are in use nowhere. *)
Definition demo_fresh (a ra b rb c rc : addr) : Prop :=
  NoDup (NULL :: addrs (demo_entries a ra b rb c rc)) /\
  forall x, x ∈ NULL :: addrs (demo_entries a ra b rb c rc) -> F !! x = None.

Lemma demo_mallocs_ok a ra b rb c rc :
  demo_fresh a ra b rb c rc ->
  calls_ok [Malloc (Some a) (Some ra) 128; Malloc (Some b) (Some rb) 256;
            Malloc (Some c) (Some rc) 64] [].
Proof.
  intros [[Hz Hn]%NoDup_cons HF]. unfold demo_entries in *. pose proof Hz as Hz3.
  assert (HF' : forall x, x ∈ [ra; a; rb; b; rc; c] -> F !! x = None).
  { intros x Hx. apply HF. rewrite !addrs_cons. rewrite !elem_of_cons in *. simpl. tauto. }
  destruct (nodup_cons _ _ Hn) as (_ & _ & _ & Hn2). rewrite elem_addrs_cons in Hz.
  destruct (nodup_cons _ _ Hn2) as (_ & _ & _ & Hn1).
  assert (Hz2 : NULL ∉ addrs [mk_entry rb b 256; mk_entry ra a 128]) by naive_solver.
  assert (Hz1 : NULL ∉ addrs [mk_entry ra a 128]) by (rewrite elem_addrs_cons in Hz2; naive_solver).
  simpl. unfold fresh_entry. split_and!; try done; apply HF'; simpl; rewrite !elem_of_cons; tauto.
Qed.

Lemma touch_head e l m : tracks (e :: l) m -> touch (e_ptr e) m = Some (tt, m).
Proof.
  intros [[Hh Hl Hn Hz HF] _]. apply nodup_cons in Hn as (Hne & _).
  unfold touch. rewrite (st_bind_run st_get _ m m m eq_refl), Hh. simpl.
  by rewrite lookup_insert_ne, lookup_insert_eq by done.
Qed.

Lemma tracked_free_known ptr l m :
  tracks l m -> ptr ∈ e_ptr <$> l ->
  exists m', tracked_free ptr_fmt ptr m = Some (tt, m') /\
    tracks (unlink ptr l) m' /\ out m' = out m /\ err m' = err m.
Proof.
  intros Hm Hin. pose proof (tracked_free_spec ptr l m Hm) as Hf.
  by rewrite bool_decide_true in Hf by done.
Qed.

Lemma tracked_malloc_call l m r p sz :
  tracks l m -> call_ok (Malloc (Some p) (Some r) sz) l ->
  exists m', tracked_malloc (Some p) (Some r) sz m = Some (p, m') /\
    tracks (mk_entry r p sz :: l) m' /\ out m' = out m /\ err m' = err m.
Proof. apply tracked_malloc_spec. Qed.

Lemma demo_leak_spec a ra b rb c rc :
  demo_fresh a ra b rb c rc ->
  exists m', demo_leak_tracking ptr_fmt (Some a) (Some ra) (Some b) (Some rb) (Some c) (Some rc) boot
             = Some (tt, m') /\
    tracks [mk_entry rc c 64] m' /\ err m' = [] /\
    out m' = format (separator "Demo 5: Custom Malloc Wrapper (Leak Tracking)") ++
             format [FLit "After freeing a and b (64-byte allocation is leaked):"; FRaw [x0a];
                     FLit "LEAKS DETECTED:"; FRaw [x0a];
                     FLit "  "; FRaw (ptr_fmt c); FLit "  64 bytes"; FRaw [x0a];
                     FLit "Total leaked: 64 bytes"; FRaw [x0a]].
Proof.
  intros Hfr. destruct (demo_mallocs_ok _ _ _ _ _ _ Hfr) as (Ha & Hb & Hc & _).
  destruct Hfr as [[Hz Hn]%NoDup_cons HF].
  assert (a <> b /\ a <> c /\ b <> c) as (Hab & Hac & Hbc).
  { unfold demo_entries in Hn. rewrite !addrs_cons, !NoDup_cons, !elem_of_cons in Hn. simpl in Hn.
    naive_solver. }
  unfold demo_leak_tracking.
  set (title := format (separator "Demo 5: Custom Malloc Wrapper (Leak Tracking)")).
  rewrite (st_bind_run (printf _) _ boot tt (put title boot) eq_refl).
  assert (tracks [] (put title boot)) as T0 by (split; [by apply linked_put, tracks_boot, HF, list_elem_of_here|done]).
  destruct (tracked_malloc_call _ _ _ _ _ T0 Ha) as (m1 & H1 & T1 & O1 & E1).
  destruct (tracked_malloc_call _ _ _ _ _ T1 Hb) as (m2 & H2 & T2 & O2 & E2).
  destruct (tracked_malloc_call _ _ _ _ _ T2 Hc) as (m3 & H3 & T3 & O3 & E3).
  rewrite (st_bind_run _ _ _ _ _ H1), (st_bind_run _ _ _ _ _ H2), (st_bind_run _ _ _ _ _ H3).
  rewrite (st_bind_run _ _ _ _ _ (touch_head _ _ _ T3)).
  destruct (tracked_free_known a _ _ T3) as (m4 & H4 & T4 & O4 & E4);
    [rewrite !fmap_cons, !elem_of_cons; simpl; auto|].
  assert (unlink a [mk_entry rc c 64; mk_entry rb b 256; mk_entry ra a 128]
          = [mk_entry rc c 64; mk_entry rb b 256]) as Hu.
  { unfold unlink. rewrite !filter_cons_True by (simpl; congruence).
    by rewrite filter_cons_False by (intros H; by apply H). }
  rewrite Hu in T4.
  destruct (tracked_free_known b _ _ T4) as (m5 & H5 & T5 & O5 & E5);
    [rewrite !fmap_cons, !elem_of_cons; simpl; auto|].
  assert (unlink b [mk_entry rc c 64; mk_entry rb b 256] = [mk_entry rc c 64]) as Hu2.
  { unfold unlink. rewrite filter_cons_True by (simpl; congruence).
    by rewrite filter_cons_False by (intros H; by apply H). }
  rewrite Hu2 in T5. rewrite (st_bind_run _ _ _ _ _ H4), (st_bind_run _ _ _ _ _ H5).
  set (msg := format [FLit "After freeing a and b (64-byte allocation is leaked):"; FRaw [x0a]]).
  rewrite (st_bind_run (printf _) _ m5 tt (put msg m5) eq_refl).
  rewrite (check_leaks_put msg _ _ T5). eexists. split; [reflexivity|].
  split_and!; [by destruct T5 as [[] ?]|simpl; by rewrite E5, E4, E3, E2, E1|].
  unfold put. cbn [out]. rewrite O5, O4, O3, O2, O1. subst msg. unfold report, leak_line.
  change (out (put title boot)) with title. f_equal.
  cbn [fmap list_fmap concat e_ptr e_size]. rewrite app_nil_r.
  rewrite <- !format_app. reflexivity.
Qed.

End free_spec.
End tracker.

(** ** Witnesses *)

Definition hex_ptr (a : addr) : bytes := bs "0x" ++ utoa a.

Lemma tracker_refines_witness :
  let cs := [Malloc (Some 16) (Some 32) 100; Malloc None None 5; Free 16; Free 16] in
  let F := {[ 8 := Block 4 ]} in
  tracks F [] (boot F) /\ calls_ok F hex_ptr cs [] /\
  exists m', do_calls hex_ptr cs (boot F) = Some (tt, m') /\ heap m' = F /\
    err m' = format (not_found hex_ptr 16).
Proof.
  intros cs F. assert (Hok : calls_ok F hex_ptr cs []).
  { split; [|done]. split_and!; by_decision. }
  split; [apply tracks_boot; reflexivity|]. split; [exact Hok|].
  destruct (tracker_refines F hex_ptr cs [] (boot F) (tracks_boot F eq_refl) Hok) as (m' & Hr & Ht & _ & He).
  exists m'. split; [exact Hr|]. split; [exact (tr_heap _ _ _ (proj1 Ht))|exact He].
Defined.

(** The second record is not given: the second call crashes. *)
Example record_malloc_fails :
  do_calls hex_ptr [Malloc (Some 16) (Some 32) 100; Malloc (Some 48) None 5; Free 16] (boot ∅) = None.
Proof. vm_compute. reflexivity. Qed.

Definition demo_addrs : list entry := demo_entries 16 32 48 64 80 96.

Lemma check_leaks_report_witness :
  exists m, tracks ∅ [mk_entry 32 16 100] m /\
    check_leaks hex_ptr m = Some (tt, put (report hex_ptr [mk_entry 32 16 100]) m).
Proof.
  exists (mk_mem (repr ∅ [mk_entry 32 16 100]) 32 100 [] []).
  assert (Ht : tracks ∅ [mk_entry 32 16 100] (mk_mem (repr ∅ [mk_entry 32 16 100]) 32 100 [] [])).
  { split; [|reflexivity]. split; [reflexivity|reflexivity|by_decision|by_decision|done]. }
  split; [exact Ht|]. apply (check_leaks_report ∅ hex_ptr _ _ Ht).
Defined.
