(* ===== verification/Sys.v ===== *)
(** * A process's view of the system

    What the socket programs share: the table of open descriptors with their
    status flags, the two output streams, and the calls that act on them.
    What a system call answered is an argument of its model; a call on a
    descriptor that is not open fails with EBADF, as in POSIX, and is counted
    in [faults], so that "the program never does that" is a statement about
    [faults].  [ext] is the program's own state. *)

From S2P Require Import Prelude CLib.

Local Open Scope Z_scope.

Record proc (X : Type) := mk_proc {
  fdt : gmap Z Z;             (* open descriptor -> O_* status flags *)
  stdout : bytes;
  stderr : bytes;
  faults : nat;
  ext : X;
}.
Arguments mk_proc {X}.
Arguments fdt {X}.
Arguments stdout {X}.
Arguments stderr {X}.
Arguments faults {X}.
Arguments ext {X}.

Definition O_RDWR : Z := 2.
Definition O_NONBLOCK : Z := 2048.

Section calls.
Context {X : Type}.
Implicit Types (fd : Z) (p : proc X).

Definition set_fdt (t : gmap Z Z) : ST (proc X) unit :=
  st_modify (fun p => mk_proc t (stdout p) (stderr p) (faults p) (ext p)).
Definition set_ext (f : X -> X) : ST (proc X) unit :=
  st_modify (fun p => mk_proc (fdt p) (stdout p) (stderr p) (faults p) (f (ext p))).
Definition fault : ST (proc X) unit :=
  st_modify (fun p => mk_proc (fdt p) (stdout p) (stderr p) (S (faults p)) (ext p)).
Definition sys_printf (f : list fmt) : ST (proc X) unit :=
  st_modify (fun p => mk_proc (fdt p) (stdout p ++ format f) (stderr p) (faults p) (ext p)).
Definition sys_eprintf (f : list fmt) : ST (proc X) unit :=
  st_modify (fun p => mk_proc (fdt p) (stdout p) (stderr p ++ format f) (faults p) (ext p)).

(** [perror(what)]: the message after the colon is the C library's. *)
Definition perror (what : string) (msg : bytes) : ST (proc X) unit :=
  sys_eprintf [FLit what; FLit ": "; FRaw msg; FRaw [x0a]].

(** A call that returns a new descriptor: [ans] is its result. *)
Definition new_fd (ans flags : Z) : ST (proc X) Z :=
  if ans <? 0 then mret (-1)
  else p ← st_get; set_fdt (<[ans := flags]> (fdt p)) ;; mret ans.

(** A call on an open descriptor whose result the environment chose. *)
Definition on_fd {A} (fd : Z) (bad ans : A) : ST (proc X) A :=
  p ← st_get;
  match fdt p !! fd with
  | Some _ => mret ans
  | None => fault ;; mret bad
  end.

Definition close (fd : Z) : ST (proc X) Z :=
  p ← st_get;
  match fdt p !! fd with
  | Some _ => set_fdt (delete fd (fdt p)) ;; mret 0
  | None => fault ;; mret (-1)
  end.

Definition fcntl_getfl (fd : Z) : ST (proc X) Z :=
  p ← st_get;
  match fdt p !! fd with
  | Some fl => mret fl
  | None => fault ;; mret (-1)
  end.

Definition fcntl_setfl (fd flags : Z) : ST (proc X) Z :=
  p ← st_get;
  match fdt p !! fd with
  | Some _ => set_fdt (<[fd := flags]> (fdt p)) ;; mret 0
  | None => fault ;; mret (-1)
  end.

(** ** Their effect *)

Definition with_fdt (t : gmap Z Z) p : proc X :=
  mk_proc t (stdout p) (stderr p) (faults p) (ext p).

Lemma wp_new_fd ans flags Q p :
  (ans < 0 -> Q (-1) p) -> (0 <= ans -> Q ans (with_fdt (<[ans := flags]> (fdt p)) p)) ->
  st_wp (new_fd ans flags) Q p.
Proof. intros H1 H2. unfold new_fd. destruct (Z.ltb_spec ans 0); [by apply H1|by apply H2]. Qed.

Lemma wp_on_fd {A} fd (bad ans : A) Q p :
  is_Some (fdt p !! fd) -> Q ans p -> st_wp (on_fd fd bad ans) Q p.
Proof. intros [fl H] HQ. unfold on_fd, st_wp, mbind, ST_bind, st_get. by rewrite H. Qed.

Lemma wp_close fd Q p :
  is_Some (fdt p !! fd) -> Q 0 (with_fdt (delete fd (fdt p)) p) -> st_wp (close fd) Q p.
Proof. intros [fl H] HQ. unfold close, st_wp, mbind, ST_bind, st_get. by rewrite H. Qed.

Lemma wp_getfl fd fl Q p :
  fdt p !! fd = Some fl -> Q fl p -> st_wp (fcntl_getfl fd) Q p.
Proof. intros H HQ. unfold fcntl_getfl, st_wp, mbind, ST_bind, st_get. by rewrite H. Qed.

Lemma wp_setfl fd flags Q p :
  is_Some (fdt p !! fd) -> Q 0 (with_fdt (<[fd := flags]> (fdt p)) p) ->
  st_wp (fcntl_setfl fd flags) Q p.
Proof. intros [fl H] HQ. unfold fcntl_setfl, st_wp, mbind, ST_bind, st_get. by rewrite H. Qed.
End calls.
