(* ===== verification/TcpServer.v ===== *)
(** * The epoll echo server

    src/07_networking/tcp_server.c: [set_nonblocking],
    [create_server_socket], [handle_new_connection], [handle_client] and
    [main] with its event loop.  One element of the input sequence is one
    return of [epoll_wait] (the ready descriptors, and what the [accept4] or
    [recv] made for each of them answered) or the delivery of SIGTERM/SIGINT.
    The kernel's epoll set is part of the state: closing a descriptor removes
    it. *)

From S2P Require Import Prelude CLib Sys.

Local Open Scope Z_scope.

Definition MAX_EVENTS : Z := 64.
Definition BUF_SIZE : Z := 1024.
Definition DEFAULT_PORT : Z := 8080.
Definition EPOLLIN : Z := 1.
Definition EPOLLERR : Z := 8.
Definition EPOLLHUP : Z := 16.
Definition EPOLLRDHUP : Z := 8192.
Definition EAGAIN : Z := 11.       (* = EWOULDBLOCK *)

(** The epoll set, what was sent to whom, the signal flag, and the ports bound. *)
Record net := mk_net {
  interest : gset Z;
  sent : list (Z * bytes);
  g_running : bool;
  bound : list Z;
}.

Definition srv := proc net.

Definition set_interest (f : gset Z -> gset Z) : ST srv unit :=
  set_ext (fun n => mk_net (f (interest n)) (sent n) (g_running n) (bound n)).
Definition log_sent (fd : Z) (b : bytes) : ST srv unit :=
  set_ext (fun n => mk_net (interest n) (sent n ++ [(fd, b)]) (g_running n) (bound n)).
Definition sigterm_handler : ST srv unit :=
  set_ext (fun n => mk_net (interest n) (sent n) false (bound n)).

(** [epoll_ctl]; adding may fail for want of memory or watches. *)
Definition epoll_ctl_add (epfd fd : Z) (ok : bool) : ST srv Z :=
  r ← on_fd epfd false ok;
  r ← on_fd fd false r;
  if r : bool then set_interest (fun s => {[fd]} ∪ s) ;; mret 0 else mret (-1).
Definition epoll_ctl_del (epfd fd : Z) : ST srv Z :=
  ok ← on_fd epfd false true;
  n ← st_get;
  if (ok : bool) && bool_decide (fd ∈ interest (ext n))
  then set_interest (fun s => s ∖ {[fd]}) ;; mret 0 else mret (-1).
Definition close_sock (fd : Z) : ST srv Z :=
  r ← close fd;
  (if r =? 0 then set_interest (fun s => s ∖ {[fd]}) else mret tt) ;;
  mret r.

Definition set_nonblocking (fd : Z) : ST srv Z :=
  flags ← fcntl_getfl fd;
  if flags <? 0 then mret (-1)
  else fcntl_setfl fd (Z.lor flags O_NONBLOCK).

(** ** Setting up *)

Record sock_env := {
  e_socket : Z;          (* the new descriptor, or negative *)
  e_bind : Z;            (* 0, or negative *)
  e_listen : Z;
  e_pid : Z;
  e_strerror : bytes;
}.

(** The address bound is AF_INET, INADDR_ANY and the port truncated to 16 bits. *)
Definition bind_port (port : Z) : Z := wrapU 16 port.
Definition bind_addr (port ans : Z) : ST srv Z :=
  (if ans <? 0 then mret tt
   else set_ext (fun n => mk_net (interest n) (sent n) (g_running n) (bound n ++ [bind_port port]))) ;;
  mret ans.

Definition create_server_socket (e : sock_env) (port : Z) : ST srv Z :=
  sfd ← new_fd (e_socket e) O_RDWR;
  if sfd <? 0 then perror "socket" (e_strerror e) ;; mret (-1)
  else
  on_fd sfd (-1) 0 ;;            (* setsockopt SO_REUSEADDR *)
  on_fd sfd (-1) 0 ;;            (* setsockopt SO_REUSEPORT *)
  on_fd sfd (-1) 0 ;;            (* setsockopt SO_KEEPALIVE *)
  r ← on_fd sfd (-1) (e_bind e);
  r ← bind_addr port r;
  if r <? 0 then perror "bind" (e_strerror e) ;; close_sock sfd ;; mret (-1)
  else
  r ← on_fd sfd (-1) (e_listen e);
  if r <? 0 then perror "listen" (e_strerror e) ;; close_sock sfd ;; mret (-1)
  else
  set_nonblocking sfd ;;
  sys_printf [FLit "[SERVER] Listening on port "; FD port; FLit " (PID "; FD (e_pid e); FLit ")"; FRaw [x0a]] ;;
  sys_printf [FLit "[SERVER] Connect with:  nc 127.0.0.1 "; FD port; FRaw [x0a]] ;;
  sys_printf [FLit "[SERVER] Stop with:     Ctrl-C or SIGTERM"; FRaw [x0a; x0a]] ;;
  mret sfd.

(** ** Handlers *)

Record accept_ans := {
  a_fd : Z;              (* the connection, or negative *)
  a_errno : Z;
  a_ip : bytes;          (* the peer's address as text *)
  a_port : Z;
  a_add : bool;          (* whether [epoll_ctl] could add it *)
  a_strerror : bytes;
}.

Definition handle_new_connection (epfd sfd : Z) (a : accept_ans) : ST srv unit :=
  r ← on_fd sfd (-1) (a_fd a);
  cfd ← new_fd r (Z.lor O_RDWR O_NONBLOCK);
  if cfd <? 0 then
    if negb (a_errno a =? EAGAIN) then perror "accept4" (a_strerror a) else mret tt
  else
    sys_printf [FLit "[SERVER] New client: "; FS (a_ip a); FLit ":"; FD (a_port a);
                FLit "  (fd="; FD cfd; FLit ")"; FRaw [x0a]] ;;
    epoll_ctl_add epfd cfd (a_add a) ;;
    mret tt.

(** [recv]'s answer: the bytes received ([] when the peer closed), or an error. *)
Inductive recv_ans := RData (l : bytes) | RErr.

Definition recv_n (r : recv_ans) : Z := match r with RData l => lenZ l | RErr => -1 end.
Definition recv_bytes (r : recv_ans) : bytes := match r with RData l => l | RErr => [] end.

(** [junk] is the uninitialised contents of [buf]; [k] is what [send] answers,
    the number of bytes the kernel takes, or negative: the code ignores it. *)
Definition handle_client (epfd cfd : Z) (junk : bytes) (r : recv_ans) (k : Z) : ST srv unit :=
  r ← on_fd cfd RErr r;
  let n := recv_n r in
  if n <=? 0 then
    sys_printf [FLit "[SERVER] Client fd="; FD cfd; FLit " disconnected"; FRaw [x0a]] ;;
    epoll_ctl_del epfd cfd ;;
    close_sock cfd ;;
    mret tt
  else
    match store_bytes junk 0 (recv_bytes r) ≫= fun b => store_bytes b n [NUL] with
    | None => st_stuck
    | Some buf =>
        sys_printf [FLit "[SERVER] fd="; FD cfd; FLit " received ("; FD n; FLit " bytes): "; FS buf] ;;
        let '(rlen, resp) := snprintf (BUF_SIZE + 16) [FLit "ECHO: "; FS buf] in
        match load_bytes resp 0 rlen with
        | None => st_stuck
        | Some out =>
            k ← on_fd cfd (-1) k;
            if 0 <? k then log_sent cfd (takeZ k out) else mret tt
        end
    end.

(** ** The event loop *)

Record ready := mk_ready {
  ev_fd : Z;
  ev_mask : Z;
  ev_acc : accept_ans;       (* used if it is the listening socket *)
  ev_rcv : recv_ans;         (* used if it is a client *)
  ev_send : Z;               (* what [send] answers *)
  ev_junk : bytes;
}.

Definition dispatch (epfd sfd : Z) (r : ready) : ST srv unit :=
  let fd := ev_fd r in
  if fd =? sfd then handle_new_connection epfd sfd (ev_acc r)
  else if negb (Z.land (ev_mask r) (Z.lor EPOLLRDHUP (Z.lor EPOLLHUP EPOLLERR)) =? 0) then
    sys_printf [FLit "[SERVER] fd="; FD fd; FLit ": peer closed / error"; FRaw [x0a]] ;;
    epoll_ctl_del epfd fd ;;
    close_sock fd ;;
    mret tt
  else handle_client epfd fd (ev_junk r) (ev_rcv r) (ev_send r).

Fixpoint dispatch_all (epfd sfd : Z) (l : list ready) : ST srv unit :=
  match l with
  | [] => mret tt
  | r :: l => dispatch epfd sfd r ;; dispatch_all epfd sfd l
  end.

(** One return of [epoll_wait] ([] for a timeout or an interruption), or a
    signal.  On a descriptor that is not open [epoll_wait] fails. *)
Inductive input := Wait (l : list ready) | Sig.

(** The [while] loop over the inputs: [true] when it was left, [false] when the
    server is still running at the end of them. *)
Fixpoint server_loop (epfd sfd : Z) (ins : list input) : ST srv bool :=
  p ← st_get;
  if negb (g_running (ext p)) then mret true
  else match ins with
       | [] => mret false
       | Sig :: ins => sigterm_handler ;; server_loop epfd sfd ins
       | Wait l :: ins =>
           l ← on_fd epfd [] l;
           dispatch_all epfd sfd l ;;
           server_loop epfd sfd ins
       end.

Definition port_of (argv1 : option bytes) : Z :=
  match argv1 with Some a => atoi a | None => DEFAULT_PORT end.

(** [Some ret] when [main] returned, [None] while it runs. *)
Definition main (argv1 : option bytes) (e : sock_env) (e_epoll : Z) (e_add : bool)
    (ins : list input) : ST srv (option Z) :=
  let port := port_of argv1 in
  sfd ← create_server_socket e port;
  if sfd <? 0 then mret (Some 1)
  else
  epfd ← new_fd e_epoll O_RDWR;
  epoll_ctl_add epfd sfd e_add ;;
  left ← server_loop epfd sfd ins;
  if negb left then mret None
  else
  sys_printf [FRaw [x0a]; FLit "[SERVER] Shutting down."; FRaw [x0a]] ;;
  close_sock epfd ;;
  close_sock sfd ;;
  mret (Some 0).

(** ** The invariant of the running server

    Every registered descriptor is open, the listening socket is registered,
    every registered socket is non-blocking, and no call was made on a descriptor that is
    not open. *)
Record srv_inv (epfd sfd : Z) (p : srv) : Prop := {
  si_ep : is_Some (fdt p !! epfd);
  si_sfd : is_Some (fdt p !! sfd);
  si_int : forall fd, fd ∈ interest (ext p) -> is_Some (fdt p !! fd) /\ fd <> epfd;
  si_sint : sfd ∈ interest (ext p);
  si_nb : forall fd fl, fd ∈ interest (ext p) -> fdt p !! fd = Some fl -> Z.testbit fl 11 = true;
  si_faults : faults p = 0%nat;
}.

(** What the kernel may answer for a ready descriptor: a new connection gets a
    descriptor that is not in use; [recv] gives at most the 1023 bytes asked
    for; [buf] is a 1024-byte array. *)
Definition answer_ok (p : srv) (r : ready) : Prop :=
  (a_fd (ev_acc r) < 0 \/ fdt p !! a_fd (ev_acc r) = None) /\
  lenZ (recv_bytes (ev_rcv r)) <= BUF_SIZE - 1 /\ lenZ (ev_junk r) = BUF_SIZE.

(** The reply to data received, as far as the kernel takes it. *)
Definition echo (fd : Z) (r : recv_ans) (k : Z) : list (Z * bytes) :=
  match r with
  | RData (b :: l) => if 0 <? k then [(fd, takeZ k (bs "ECHO: " ++ cstr (b :: l)))] else []
  | _ => []
  end.

(** The reply to a ready descriptor: none for the listening socket, for a
    descriptor reported hung up and for an empty read. *)
Definition reply (sfd : Z) (r : ready) : list (Z * bytes) :=
  if ev_fd r =? sfd then []
  else if negb (Z.land (ev_mask r) (Z.lor EPOLLRDHUP (Z.lor EPOLLHUP EPOLLERR)) =? 0) then []
  else echo (ev_fd r) (ev_rcv r) (ev_send r).

(** What events leave alone: the signal flag and the ports bound. *)
Definition flags (n : net) : bool * list Z := (g_running n, bound n).

(** What one event does, beside keeping the invariant. *)
Definition event_post (epfd sfd : Z) (r : ready) (p p' : srv) : Prop :=
  srv_inv epfd sfd p' /\
  (forall fd, fd ∈ interest (ext p) -> fd <> ev_fd r \/ reply sfd r <> [] -> fd ∈ interest (ext p')) /\
  sent (ext p') = sent (ext p) ++ reply sfd r /\ flags (ext p') = flags (ext p).

(** Steps that touch neither descriptors nor [ext]. *)
Lemma srv_inv_quiet epfd sfd p p' :
  srv_inv epfd sfd p -> fdt p' = fdt p -> ext p' = ext p -> faults p' = faults p ->
  srv_inv epfd sfd p'.
Proof. intros [H1 H2 H3 H4 H5 H6] Ef Ee Efa. split; rewrite ?Ef, ?Ee, ?Efa; done. Qed.

Lemma srv_inv_add epfd sfd p fd fl x :
  srv_inv epfd sfd p -> fdt p !! fd = None -> Z.testbit fl 11 = true ->
  (x = ext p \/ x = mk_net ({[fd]} ∪ interest (ext p)) (sent (ext p)) (g_running (ext p)) (bound (ext p))) ->
  srv_inv epfd sfd (mk_proc (<[fd := fl]> (fdt p)) (stdout p) (stderr p) (faults p) x).
Proof.
  intros [[f1 H1] [f2 H2] H3 H4 H5 H6] Hn Hb Hx.
  assert (fd <> epfd /\ fd <> sfd) as [He Hs] by (split; intros ->; congruence).
  assert (Hkeep : forall g, is_Some (fdt p !! g) -> is_Some (<[fd := fl]> (fdt p) !! g)).
  { intros g Hg. destruct (decide (g = fd)) as [->|]; [rewrite lookup_insert_eq; eauto|].
    by rewrite lookup_insert_ne by done. }
  split; simpl; [eauto|eauto| | | |done].
  - intros g Hg. assert (g = fd \/ g ∈ interest (ext p)) as [->|Hin] by (destruct Hx; subst; set_solver).
    + split; [rewrite lookup_insert_eq; eauto|done].
    + destruct (H3 _ Hin). eauto.
  - destruct Hx; subst; set_solver.
  - intros g fl' Hin Hg. destruct (decide (g = fd)) as [->|Hd].
    + rewrite lookup_insert_eq in Hg. by simplify_eq.
    + rewrite lookup_insert_ne in Hg by done. apply (H5 g); [destruct Hx; subst; set_solver|done].
Qed.

(** Deregistering and closing a client. *)
Lemma srv_inv_close epfd sfd p fd :
  srv_inv epfd sfd p -> fd <> sfd -> fd <> epfd ->
  srv_inv epfd sfd (mk_proc (delete fd (fdt p)) (stdout p) (stderr p) (faults p)
    (mk_net (interest (ext p) ∖ {[fd]} ∖ {[fd]}) (sent (ext p)) (g_running (ext p)) (bound (ext p)))).
Proof.
  intros [H1 H2 H3 H4 H5 H6] Hs He. split; simpl; try done.
  - by rewrite lookup_delete_ne.
  - by rewrite lookup_delete_ne.
  - intros g Hg. destruct (H3 g) as [? ?]; [set_solver|].
    rewrite lookup_delete_ne by set_solver. done.
  - set_solver.
  - intros g fl Hin Hg. apply lookup_delete_Some in Hg as [_ Hg]. apply (H5 g); [set_solver|done].
Qed.

Lemma wp_ctl_add epfd fd ok Q p :
  is_Some (fdt p !! epfd) -> is_Some (fdt p !! fd) ->
  (ok = false -> Q (-1) p) ->
  (ok = true -> Q 0 (mk_proc (fdt p) (stdout p) (stderr p) (faults p)
     (mk_net ({[fd]} ∪ interest (ext p)) (sent (ext p)) (g_running (ext p)) (bound (ext p))))) ->
  st_wp (epoll_ctl_add epfd fd ok) Q p.
Proof.
  intros He Hf H1 H2. unfold epoll_ctl_add. wp_step. apply wp_on_fd; [done|].
  wp_step. apply wp_on_fd; [done|]. destruct ok; [by apply H2|by apply H1].
Qed.

(** [epoll_ctl(DEL)] and [close] of a registered descriptor. *)
Lemma wp_drop epfd fd Q p :
  is_Some (fdt p !! epfd) -> fd ∈ interest (ext p) -> is_Some (fdt p !! fd) ->
  Q tt (mk_proc (delete fd (fdt p)) (stdout p) (stderr p) (faults p)
    (mk_net (interest (ext p) ∖ {[fd]} ∖ {[fd]}) (sent (ext p)) (g_running (ext p)) (bound (ext p)))) ->
  st_wp (epoll_ctl_del epfd fd ;; close_sock fd ;; mret tt) Q p.
Proof.
  intros He Hi Hf HQ. wp_step. unfold epoll_ctl_del. wp_step. apply wp_on_fd; [done|].
  wp_step. wp_step. rewrite bool_decide_true by done. cbn [andb].
  wp_step. unfold set_interest, set_ext. wp_step. wp_step. wp_step.
  unfold close_sock. wp_step. apply wp_close; [done|]. cbn. done.
Qed.

(** ** The reply *)

(** The reply fits in [resp]: exactly the formatted bytes are sent. *)
Lemma echo_reply buf l :
  cstr buf = cstr l -> lenZ l <= BUF_SIZE - 1 ->
  let '(rlen, resp) := snprintf (BUF_SIZE + 16) [FLit "ECHO: "; FS buf] in
  load_bytes resp 0 rlen = Some (bs "ECHO: " ++ cstr l).
Proof.
  intros Hc Hl. pose proof (lenZ_cstr_le l). unfold BUF_SIZE in *.
  assert (Hf : format [FLit "ECHO: "; FS buf] = bs "ECHO: " ++ cstr l)
    by (simpl; by rewrite Hc, app_nil_r).
  unfold snprintf. rewrite Hf. set (t := bs "ECHO: " ++ cstr l).
  assert (Hlen : 0 <= lenZ t < 1040)
    by (unfold t; rewrite lenZ_app; change (lenZ (bs "ECHO: ")) with 6; pose proof (lenZ_nonneg (cstr l)); lia).
  change (1024 + 16 <=? 0) with false. cbv iota. rewrite (takeZ_all _ t) by lia.
  rewrite load_bytes_Some; [|lia|lia|rewrite lenZ_app; change (lenZ [NUL]) with 1; lia].
  unfold dropZ. change (Z.to_nat 0) with 0%nat. by rewrite drop_0, takeZ_app_exact.
Qed.

Lemma handle_client_spec epfd sfd fd junk r k p :
  srv_inv epfd sfd p -> fd ∈ interest (ext p) -> fd <> sfd ->
  lenZ (recv_bytes r) <= BUF_SIZE - 1 -> lenZ junk = BUF_SIZE ->
  st_wp (handle_client epfd fd junk r k) (fun _ p' =>
    srv_inv epfd sfd p' /\
    (forall g, g ∈ interest (ext p) -> g <> fd \/ 0 < recv_n r -> g ∈ interest (ext p')) /\
    sent (ext p') = sent (ext p) ++ echo fd r k /\
    flags (ext p') = flags (ext p)) p.
Proof.
  intros Hi Hin Hs Hl Hj. destruct (si_int _ _ _ Hi _ Hin) as [Hf He].
  unfold handle_client. wp_step. apply wp_on_fd; [done|].
  destruct (Z.leb_spec (recv_n r) 0) as [Hn|Hn].
  - wp_step. unfold sys_printf. wp_step.
    apply wp_drop; [apply (si_ep _ _ _ Hi)|done|done|].
    split; [|split; [|split; [|done]]].
    + apply srv_inv_close; [|done|done]. by eapply srv_inv_quiet.
    + simpl. intros g Hg [Hne|?]; [set_solver|lia].
    + destruct r as [[|b l]|]; simpl; rewrite ?app_nil_r; try done.
  - destruct r as [l|]; [|simpl in Hn; lia]. simpl recv_bytes in *. simpl recv_n in *.
    destruct (store_terminated junk l _ Hj Hl) as (buf & Hbuf & _ & Hc). rewrite Hbuf.
    wp_step. unfold sys_printf. wp_step.
    pose proof (echo_reply buf l Hc Hl) as Hr.
    destruct (snprintf (BUF_SIZE + 16) [FLit "ECHO: "; FS buf]) as [rlen resp]. rewrite Hr.
    wp_step. apply wp_on_fd; [done|].
    destruct l as [|b l]; [unfold lenZ in Hn; simpl in Hn; lia|]. cbn [echo].
    destruct (0 <? k); unfold log_sent, set_ext; wp_step;
      (split_and!; simpl; [destruct Hi as [H1 H2 H3 H4 H5 H6]; by split|done|by rewrite ?app_nil_r|done]).
Qed.

Lemma handle_new_connection_spec epfd sfd a p :
  srv_inv epfd sfd p -> (a_fd a < 0 \/ fdt p !! a_fd a = None) ->
  st_wp (handle_new_connection epfd sfd a) (fun _ p' =>
    srv_inv epfd sfd p' /\
    (forall g, g ∈ interest (ext p) -> g ∈ interest (ext p')) /\
    sent (ext p') = sent (ext p) /\ flags (ext p') = flags (ext p) /\
    (0 <= a_fd a -> a_add a = true -> a_fd a ∈ interest (ext p'))) p.
Proof.
  intros Hi Ha. unfold handle_new_connection. wp_step. apply wp_on_fd; [apply (si_sfd _ _ _ Hi)|].
  wp_step. apply wp_new_fd.
  - intros Hneg. change (-1 <? 0) with true. cbv iota.
    destruct (negb (a_errno a =? EAGAIN)); unfold perror, sys_eprintf; wp_step;
      (split_and!; [by eapply srv_inv_quiet|done|done|done|lia]).
  - intros Hpos. destruct (Z.ltb_spec (a_fd a) 0); [lia|].
    destruct Ha as [?|Hfresh]; [lia|].
    wp_step. unfold sys_printf. wp_step. wp_step.
    destruct (si_ep _ _ _ Hi) as [fe He].
    assert (a_fd a <> epfd) by (intros Heq; rewrite Heq in Hfresh; congruence).
    apply wp_ctl_add; simpl; [rewrite lookup_insert_ne by done; eauto|rewrite lookup_insert_eq; eauto|..];
      intros Hadd; wp_step; simpl.
    + split_and!; [|done|done|done|congruence].
      eapply (srv_inv_add epfd sfd (mk_proc (fdt p) _ (stderr p) (faults p) (ext p)));
        [by eapply srv_inv_quiet|done|reflexivity|by left].
    + split_and!; [|set_solver|done|done|set_solver].
      eapply (srv_inv_add epfd sfd (mk_proc (fdt p) _ (stderr p) (faults p) (ext p)));
        [by eapply srv_inv_quiet|done|reflexivity|by right].
Qed.

Lemma dispatch_spec epfd sfd r p :
  srv_inv epfd sfd p -> ev_fd r ∈ interest (ext p) -> answer_ok p r ->
  st_wp (dispatch epfd sfd r) (fun _ p' => event_post epfd sfd r p p') p.
Proof.
  intros Hi Hin (Ha & Hl & Hj). unfold dispatch, event_post, reply.
  destruct (Z.eqb_spec (ev_fd r) sfd) as [Hs|Hs].
  - eapply wp_mono; [by apply handle_new_connection_spec|].
    intros [] p' (H1 & H2 & H3 & H4 & _). rewrite app_nil_r. split_and!; eauto.
  - case_test.
    + destruct (si_int _ _ _ Hi _ Hin) as [Hf He]. wp_step. unfold sys_printf. wp_step.
      apply wp_drop; [apply (si_ep _ _ _ Hi)|done|done|].
      simpl. rewrite app_nil_r. split_and!; [|intros fd Hfd [?|?]; [set_solver|done]|done|done].
      eapply (srv_inv_close epfd sfd (mk_proc (fdt p) _ (stderr p) (faults p) (ext p)));
        [by eapply srv_inv_quiet|done|done].
    + eapply wp_mono; [by apply handle_client_spec|].
      intros [] p' (H1 & H2 & H3 & H4). split_and!; [done| |done|done].
      intros g Hg [?|Hr]; apply H2; [done|by left|done|right].
      destruct (ev_rcv r) as [[|b l]|]; [done| |done]. unfold recv_n, lenZ. cbn [length]. lia.
Qed.

(** ** Runs of the event loop *)

(** The kernel's side of one return of [epoll_wait]: at most [MAX_EVENTS]
    distinct registered descriptors, and possible answers to the calls the
    handlers make. *)
Fixpoint answers_ok (epfd sfd : Z) (l : list ready) (p : srv) : Prop :=
  match l with
  | [] => True
  | r :: l => answer_ok p r /\
      match dispatch epfd sfd r p with Some (_, p') => answers_ok epfd sfd l p' | None => True end
  end.

Definition wait_ok (epfd sfd : Z) (l : list ready) (p : srv) : Prop :=
  lenZ l <= MAX_EVENTS /\ NoDup (ev_fd <$> l) /\ Forall (fun r => ev_fd r ∈ interest (ext p)) l /\
  answers_ok epfd sfd l p.

Fixpoint inputs_ok (epfd sfd : Z) (ins : list input) (p : srv) : Prop :=
  match ins with
  | Wait l :: ins => wait_ok epfd sfd l p /\
      match dispatch_all epfd sfd l p with Some (_, p') => inputs_ok epfd sfd ins p' | None => True end
  | _ => True
  end.

(** The replies owed for a whole input sequence, up to the first signal. *)
Fixpoint replies (sfd : Z) (ins : list input) : list (Z * bytes) :=
  match ins with
  | Wait l :: ins => flat_map (reply sfd) l ++ replies sfd ins
  | _ => []
  end.

Definition stopped (ins : list input) : bool :=
  existsb (fun i => match i with Sig => true | Wait _ => false end) ins.

Lemma dispatch_all_spec epfd sfd l p :
  srv_inv epfd sfd p -> wait_ok epfd sfd l p ->
  st_wp (dispatch_all epfd sfd l) (fun _ p' =>
    srv_inv epfd sfd p' /\ sent (ext p') = sent (ext p) ++ flat_map (reply sfd) l /\
    flags (ext p') = flags (ext p)) p.
Proof.
  revert p. induction l as [|r l IH]; intros p Hi (Hmax & Hn & Hf & Ha).
  - simpl. wp_step. by rewrite app_nil_r.
  - destruct Ha as [Ha Hrest]. rewrite fmap_cons, NoDup_cons in Hn. destruct Hn as [Hr Hn].
    apply Forall_cons in Hf as [Hin Hf].
    pose proof (dispatch_spec _ _ _ _ Hi Hin Ha) as Hd.
    apply wp_run in Hd as ([] & p1 & Hd & H1 & H2 & H3 & H4). rewrite Hd in Hrest.
    simpl. wp_step. apply wp_run. exists tt, p1. split; [done|].
    eapply wp_mono; [apply IH|].
    + done.
    + split_and!; [unfold lenZ in *; simpl in Hmax; lia|done| |done]. rewrite Forall_forall in *. intros x Hx. apply H2; [by apply Hf|left].
      intros E. apply Hr. rewrite <- E. by apply list_elem_of_fmap_2.
    + intros [] p2 (Q1 & Q2 & Q3). split_and!; [done| |congruence].
      by rewrite Q2, H3, (assoc_L (++)).
Qed.

Lemma server_loop_spec epfd sfd ins p :
  srv_inv epfd sfd p -> g_running (ext p) = true -> inputs_ok epfd sfd ins p ->
  st_wp (server_loop epfd sfd ins) (fun left p' =>
    left = stopped ins /\ srv_inv epfd sfd p' /\
    sent (ext p') = sent (ext p) ++ replies sfd ins /\ bound (ext p') = bound (ext p)) p.
Proof.
  revert p. induction ins as [|[l|] ins IH]; intros p Hi Hr Hok; cbn [server_loop];
    wp_step; wp_step; rewrite Hr; cbn [negb].
  - wp_step. by rewrite app_nil_r.
  - destruct Hok as [Hw Hok]. pose proof (dispatch_all_spec _ _ _ _ Hi Hw) as Hd.
    apply wp_run in Hd as ([] & p1 & Hd & H1 & H2 & H3). rewrite Hd in Hok.
    wp_step. apply wp_on_fd; [apply (si_ep _ _ _ Hi)|].
    wp_step. apply wp_run. exists tt, p1. split; [done|].
    injection H3 as H3 H4. eapply wp_mono; [apply IH; [done|congruence|done]|].
    intros left p2 (Q1 & Q2 & Q3 & Q4). split_and!; [done|done| |congruence]. simpl. by rewrite Q3, H2, (assoc_L (++)).
  - wp_step. unfold sigterm_handler, set_ext. wp_step.
    set (p1 := mk_proc _ _ _ _ _). assert (srv_inv epfd sfd p1).
    { destruct Hi as [H1 H2 H3 H4 H5 H6]. by split. }
    assert (Hr1 : g_running (ext p1) = false) by done.
    destruct ins; cbn [server_loop]; wp_step; wp_step; rewrite Hr1; cbn [negb]; wp_step; simpl;
      by rewrite app_nil_r.
Qed.

(** C23: for every sequence of events the kernel can report (connections, data,
    hang-ups, errors, timeouts, failed accepts and reads, a full epoll set),
    the loop never leaves a buffer and never acts on a descriptor that is not
    open, keeps every registered descriptor open and non-blocking, and answers
    every non-empty read that was not reported hung up with one [send] of
    "ECHO: " and the bytes received up to the first NUL, of which is sent what
    the kernel takes.  It is left exactly when a signal arrived. *)
Theorem server_loop_replies epfd sfd ins p :
  srv_inv epfd sfd p -> g_running (ext p) = true -> inputs_ok epfd sfd ins p ->
  exists p', server_loop epfd sfd ins p = Some (stopped ins, p') /\ srv_inv epfd sfd p' /\
    sent (ext p') = sent (ext p) ++ replies sfd ins.
Proof.
  intros Hi Hr Hok. pose proof (server_loop_spec _ _ _ _ Hi Hr Hok) as Hw.
  apply wp_run in Hw as (left & p' & Hrun & -> & Hi' & Hs & _). eauto.
Qed.

(** ** Setting up and shutting down *)

(** The first call that failed. *)
Definition failed_call (e : sock_env) : string :=
  if e_socket e <? 0 then "socket" else if e_bind e <? 0 then "bind" else "listen".

Definition sock_ok (e : sock_env) : bool :=
  (0 <=? e_socket e) && (0 <=? e_bind e) && (0 <=? e_listen e).

(** Closing the socket that was just created. *)
Lemma wp_close_new fd fl t Q p :
  fdt p = <[fd := fl]> t -> t !! fd = None -> fd ∉ interest (ext p) ->
  Q 0 (with_fdt t p) -> st_wp (close_sock fd) Q p.
Proof.
  intros Ht Hn Hi HQ. unfold close_sock. wp_step. apply wp_close; [rewrite Ht, lookup_insert_eq; eauto|].
  change (0 =? 0) with true. cbv iota. wp_step. unfold set_interest, set_ext. wp_step. wp_step.
  rewrite Ht. cbn. rewrite delete_insert_id by done.
  rewrite difference_disjoint_L by set_solver. by destruct p as [? ? ? ? []].
Qed.

(** The ports bound by [create_server_socket]. *)
Definition binds (e : sock_env) (port : Z) : list Z :=
  if (0 <=? e_socket e) && (0 <=? e_bind e) then [bind_port port] else [].
Definition with_bound (l : list Z) (n : net) : net := mk_net (interest n) (sent n) (g_running n) (bound n ++ l).

Lemma create_spec e port p :
  (0 <= e_socket e -> fdt p !! e_socket e = None) -> e_socket e ∉ interest (ext p) ->
  st_wp (create_server_socket e port) (fun sfd p' =>
    ext p' = with_bound (binds e port) (ext p) /\ faults p' = faults p /\
    if sock_ok e
    then sfd = e_socket e /\ fdt p' = <[e_socket e := Z.lor O_RDWR O_NONBLOCK]> (fdt p)
    else sfd = -1 /\ fdt p' = fdt p /\ stdout p' = stdout p /\
         stderr p' = stderr p ++ format [FLit (failed_call e); FLit ": "; FRaw (e_strerror e); FRaw [x0a]]) p.
Proof.
  intros Hfresh Hni. unfold create_server_socket, sock_ok, binds, with_bound, failed_call, perror, sys_eprintf, sys_printf.
  wp_step. apply wp_new_fd.
  - intros Hneg. change (-1 <? 0) with true. cbv iota.
    wp_step. wp_step. wp_step. destruct (Z.leb_spec 0 (e_socket e)), (Z.ltb_spec (e_socket e) 0); try lia.
    cbn [andb]. rewrite app_nil_r. by destruct (ext p).
  - intros Hpos. specialize (Hfresh Hpos). destruct (Z.ltb_spec (e_socket e) 0), (Z.leb_spec 0 (e_socket e)); try lia.
    assert (Hfd : forall o er f x, is_Some (fdt (mk_proc (<[e_socket e := O_RDWR]> (fdt p)) o er f x : srv) !! e_socket e))
      by (intros; simpl; rewrite lookup_insert_eq; eauto).
    do 4 (wp_step; apply wp_on_fd; [apply Hfd|]). unfold bind_addr, set_ext. cbn [andb].
    destruct (Z.ltb_spec (e_bind e) 0), (Z.leb_spec 0 (e_bind e)); try lia.
    { wp_step. wp_step. wp_step. wp_step. rewrite (proj2 (Z.ltb_lt _ _)) by done.
      wp_step. wp_step. wp_step. eapply wp_close_new; [reflexivity|done|done|]. wp_step. cbn [ext with_fdt].
      rewrite app_nil_r. by destruct (ext p). }
    wp_step. wp_step. wp_step. wp_step. rewrite (proj2 (Z.ltb_ge _ _)) by done.
    wp_step. apply wp_on_fd; [apply Hfd|].
    destruct (Z.ltb_spec (e_listen e) 0), (Z.leb_spec 0 (e_listen e)); try lia.
    { wp_step. wp_step. wp_step. eapply wp_close_new; [reflexivity|done|done|]. wp_step. done. }
    wp_step. unfold set_nonblocking. wp_step. eapply wp_getfl; [apply lookup_insert_eq|].
    change (O_RDWR <? 0) with false. cbv iota. apply wp_setfl; [apply Hfd|].
    do 3 (wp_step; wp_step). wp_step. simpl. by rewrite insert_insert_eq.
Qed.

Lemma wp_close_open fd Q p :
  is_Some (fdt p !! fd) ->
  (forall x, sent x = sent (ext p) /\ bound x = bound (ext p) ->
     Q 0 (mk_proc (delete fd (fdt p)) (stdout p) (stderr p) (faults p) x)) ->
  st_wp (close_sock fd) Q p.
Proof.
  intros Hf HQ. unfold close_sock. wp_step. apply wp_close; [done|].
  change (0 =? 0) with true. cbv iota. wp_step. unfold set_interest, set_ext. wp_step. wp_step.
  by apply HQ.
Qed.

(** A process before [main]: nothing registered, nothing sent, no signal yet. *)
Definition idle : net := mk_net ∅ [] true [].

(** The state in which the loop starts, with the listening socket watched or
    not. *)
Definition loop_start (argv1 : option bytes) (e : sock_env) (ep : Z) (add : bool) (p p1 : srv) : Prop :=
  fdt p1 = <[ep := O_RDWR]> (<[e_socket e := Z.lor O_RDWR O_NONBLOCK]> (fdt p)) /\
  ext p1 = mk_net (if add then {[e_socket e]} else ∅) [] true [bind_port (port_of argv1)].

(** [main] did not get as far as the epoll instance. *)
Definition not_set_up (e : sock_env) (ret : option Z) (p p' : srv) : Prop :=
  ret = Some 1 /\ faults p' = 0%nat /\ fdt p' = fdt p /\ stdout p' = stdout p /\
  stderr p' = stderr p ++ format [FLit (failed_call e); FLit ": "; FRaw (e_strerror e); FRaw [x0a]].

(** Up to the epoll instance. *)
Lemma set_up_spec argv1 e ep add ins p (Q : option Z -> srv -> Prop) :
  ext p = idle -> faults p = 0%nat ->
  (0 <= e_socket e -> fdt p !! e_socket e = None) ->
  (sock_ok e = false -> forall p', not_set_up e (Some 1) p p' -> Q (Some 1) p') ->
  (sock_ok e = true -> forall p1, fdt p1 = <[e_socket e := Z.lor O_RDWR O_NONBLOCK]> (fdt p) ->
     ext p1 = mk_net ∅ [] true [bind_port (port_of argv1)] -> faults p1 = 0%nat ->
     st_wp (epfd ← new_fd ep O_RDWR; epoll_ctl_add epfd (e_socket e) add ;;
            left ← server_loop epfd (e_socket e) ins;
            if negb left then mret None
            else
            sys_printf [FRaw [x0a]; FLit "[SERVER] Shutting down."; FRaw [x0a]] ;;
            close_sock epfd ;; close_sock (e_socket e) ;; mret (Some 0)) Q p1) ->
  st_wp (main argv1 e ep add ins) Q p.
Proof.
  intros Hx Hf0 Hs Hbad Hok. unfold main. wp_step.
  eapply wp_mono; [apply create_spec; [done|rewrite Hx; simpl; set_solver]|].
  intros sfd p1 (Hx1 & Hf1 & Hc). destruct (sock_ok e) eqn:Eok.
  - destruct Hc as [-> Hfd]. pose proof Eok as Eok'. unfold sock_ok in Eok'. zbool.
    destruct (Z.ltb_spec (e_socket e) 0); [lia|]. apply Hok; [done|done| |congruence].
    rewrite Hx1, Hx. unfold with_bound, binds. cbn.
    rewrite !(proj2 (Z.leb_le _ _)) by done. done.
  - destruct Hc as (-> & Hfd & Ho & He). change (-1 <? 0) with true. cbv iota. wp_step.
    apply Hbad; [done|]. split_and!; try done. congruence.
Qed.

(** Printing and closing both descriptors at the end. *)
Lemma shut_down_spec ep sfd (Q : option Z -> srv -> Prop) p :
  is_Some (fdt p !! ep) -> is_Some (fdt p !! sfd) -> sfd <> ep ->
  (forall p', faults p' = faults p -> fdt p' = delete sfd (delete ep (fdt p)) ->
     sent (ext p') = sent (ext p) -> bound (ext p') = bound (ext p) -> Q (Some 0) p') ->
  st_wp (sys_printf [FRaw [x0a]; FLit "[SERVER] Shutting down."; FRaw [x0a]] ;;
         close_sock ep ;; close_sock sfd ;; mret (Some 0)) Q p.
Proof.
  intros He Hs Hne HQ. unfold sys_printf. wp_step. wp_step.
  wp_step. apply wp_close_open; [done|]. intros x1 Hx1. cbn [fdt stdout stderr faults ext] in *.
  wp_step. apply wp_close_open; [cbn [fdt]; by rewrite lookup_delete_ne|]. intros x2 Hx2.
  cbn [fdt stdout stderr faults ext] in *. wp_step. destruct Hx1, Hx2. apply HQ; cbn; (done || congruence).
Qed.

Lemma serve_spec argv1 e ep ins p :
  ext p = idle -> faults p = 0%nat ->
  (0 <= e_socket e -> fdt p !! e_socket e = None) ->
  0 <= ep -> fdt p !! ep = None -> ep <> e_socket e ->
  (forall p1, srv_inv ep (e_socket e) p1 -> loop_start argv1 e ep true p p1 -> inputs_ok ep (e_socket e) ins p1) ->
  st_wp (main argv1 e ep true ins) (fun ret p' =>
    if sock_ok e
    then faults p' = 0%nat /\ bound (ext p') = [bind_port (port_of argv1)] /\
         sent (ext p') = replies (e_socket e) ins /\
         (if stopped ins
          then ret = Some 0 /\ fdt p' !! e_socket e = None /\ fdt p' !! ep = None
          else ret = None)
    else not_set_up e ret p p') p.
Proof.
  intros Hx Hf0 Hs Hep Hepf Hne Hins. apply set_up_spec; [done..| |]; intros Eok; rewrite Eok; [by auto|].
  intros p1 Hfd Hx1 Hf1. wp_step. apply wp_new_fd; [lia|intros _]. wp_step.
  assert (is_Some (<[ep := O_RDWR]> (fdt p1) !! e_socket e))
    by (rewrite lookup_insert_ne, Hfd, lookup_insert_eq by done; eauto).
  apply wp_ctl_add; simpl; [rewrite lookup_insert_eq; eauto|done|done|intros _].
  rewrite Hx1. simpl. set (p2 := mk_proc _ _ _ _ _).
  assert (Hu : {[e_socket e]} ∪ ∅ = ({[e_socket e]} : gset Z)) by set_solver.
  assert (Hi : srv_inv ep (e_socket e) p2).
  { split; simpl.
    - rewrite lookup_insert_eq. eauto.
    - done.
    - intros fd Hin. assert (fd = e_socket e) as -> by set_solver. done.
    - set_solver.
    - intros fd fl Hin. assert (fd = e_socket e) as -> by set_solver.
      rewrite lookup_insert_ne, Hfd, lookup_insert_eq by done. by intros [= <-].
    - congruence. }
  wp_step. eapply wp_mono; [apply server_loop_spec; [exact Hi|done|apply Hins; [exact Hi|]]|].
  { split; simpl; [by rewrite Hfd|by rewrite Hu]. }
  intros left p3 (-> & [Q1 Q2 _ _ _ Q6] & Hsent & Hb). cbn in Hsent, Hb.
  destruct (stopped ins); cbn [negb]; [|by wp_step].
  apply shut_down_spec; [done|done|done|]. intros p4 Ef Efd Es Eb.
  split_and!; [congruence|congruence|congruence|done|rewrite Efd; apply lookup_delete_eq|].
  rewrite Efd, lookup_delete_ne by done. apply lookup_delete_eq.
Qed.

(** ** Without a working epoll instance *)

(** [epoll_wait] calls before the first signal. *)
Fixpoint waits (ins : list input) : nat :=
  match ins with Wait _ :: ins => S (waits ins) | _ => 0 end.

Lemma wp_on_fd_bad {A} fd (bad ans : A) (Q : A -> srv -> Prop) p :
  fdt p !! fd = None -> Q bad (mk_proc (fdt p) (stdout p) (stderr p) (S (faults p)) (ext p)) ->
  st_wp (on_fd fd bad ans) Q p.
Proof. intros H HQ. unfold on_fd, st_wp, mbind, ST_bind, st_get. by rewrite H. Qed.

Lemma wp_close_bad fd (Q : Z -> srv -> Prop) p :
  fdt p !! fd = None -> Q (-1) (mk_proc (fdt p) (stdout p) (stderr p) (S (faults p)) (ext p)) ->
  st_wp (close_sock fd) Q p.
Proof.
  intros H HQ. unfold close_sock, close, st_wp, mbind, ST_bind, st_get. by rewrite H.
Qed.

(** A loop that no event can reach: there is no epoll instance, or nothing is
    registered with it. *)
Lemma server_loop_deaf epfd sfd ins p :
  g_running (ext p) = true ->
  (is_Some (fdt p !! epfd) -> interest (ext p) = ∅ /\ inputs_ok epfd sfd ins p) ->
  st_wp (server_loop epfd sfd ins) (fun left p' =>
    left = stopped ins /\ fdt p' = fdt p /\ sent (ext p') = sent (ext p) /\ bound (ext p') = bound (ext p) /\
    faults p' = (faults p + match fdt p !! epfd with Some _ => 0 | None => waits ins end)%nat /\
    (is_Some (fdt p !! epfd) -> replies sfd ins = [])) p.
Proof.
  revert p. induction ins as [|[l|] ins IH]; intros p Hr Hq; cbn [server_loop];
    wp_step; wp_step; rewrite Hr; cbn [negb].
  - wp_step. split_and!; try done. destruct (fdt p !! epfd); cbn; lia.
  - wp_step. destruct (fdt p !! epfd) as [fl|] eqn:E.
    + destruct (Hq ltac:(eauto)) as (Hi & (_ & _ & Hl & _) & Hok). apply wp_on_fd; [eauto|].
      destruct l as [|r l]; [|apply Forall_cons in Hl as [Hl _]; rewrite Hi in Hl; set_solver].
      cbn [dispatch_all]. wp_step. wp_step. eapply wp_mono; [apply IH; [done|intros _; done]|].
      rewrite E. intros left p' (-> & Q1 & Q2 & Q3 & Q4 & Q5). split_and!; try done.
    + apply wp_on_fd_bad; [done|]. cbn [dispatch_all]. wp_step. wp_step.
      eapply wp_mono; [apply IH; [done|cbn; rewrite E; by intros []]|]. cbn. rewrite E.
      intros left p' (-> & Q1 & Q2 & Q3 & Q4 & Q5). split_and!; try done. lia.
  - wp_step. unfold sigterm_handler, set_ext. wp_step.
    destruct ins; cbn [server_loop]; wp_step; wp_step; cbn [ext g_running negb]; wp_step; cbn;
      (split_and!; try done; destruct (fdt p !! epfd); lia).
Qed.

(** What is left undone is not noticed. *)
Lemma deaf_spec argv1 e ep add ins p :
  ext p = idle -> faults p = 0%nat -> map_Forall (fun fd _ => 0 <= fd) (fdt p) ->
  (0 <= e_socket e -> fdt p !! e_socket e = None) ->
  (0 <= ep -> add = false /\ fdt p !! ep = None /\ ep <> e_socket e /\
     forall p1, loop_start argv1 e ep false p p1 -> inputs_ok ep (e_socket e) ins p1) ->
  st_wp (main argv1 e ep add ins) (fun ret p' =>
    if sock_ok e
    then faults p' = (if (0 <=? ep)%Z then 0 else 1 + waits ins + (if stopped ins then 1 else 0))%nat /\
         bound (ext p') = [bind_port (port_of argv1)] /\
         sent (ext p') = [] /\ (0 <= ep -> replies (e_socket e) ins = []) /\
         (if stopped ins
          then ret = Some 0 /\ fdt p' !! e_socket e = None /\ (0 <= ep -> fdt p' !! ep = None)
          else ret = None)
    else not_set_up e ret p p') p.
Proof.
  intros Hx Hf0 Hpos Hs Hep. apply set_up_spec; [done..| |]; intros Eok; rewrite Eok; [by auto|].
  intros p1 Hfd Hx1 Hf1. assert (0 <= e_socket e) by (unfold sock_ok in Eok; zbool; lia).
  assert (Hneg : fdt p1 !! (-1) = None).
  { rewrite Hfd, lookup_insert_ne by lia. apply eq_None_not_Some. intros [fl Hc]. apply Hpos in Hc. lia. }
  wp_step. apply wp_new_fd; intros Hsgn.
  - rewrite (proj2 (Z.leb_gt _ _)) by done. wp_step. unfold epoll_ctl_add. wp_step.
    apply wp_on_fd_bad; [done|]. wp_step. apply wp_on_fd; [cbn; rewrite Hfd, lookup_insert_eq; eauto|]. wp_step.
    wp_step. eapply wp_mono; [apply server_loop_deaf; [by rewrite Hx1|cbn; rewrite Hneg; by intros []]|].
    cbn. rewrite Hneg, Hx1. intros left p3 (-> & F3 & S3 & B3 & A3 & _). cbn in S3, B3.
    destruct (stopped ins); cbn [negb].
    + unfold sys_printf. wp_step. wp_step. wp_step. apply wp_close_bad; [cbn; by rewrite F3|]. wp_step.
      apply wp_close_open; [cbn; rewrite F3, Hfd, lookup_insert_eq; eauto|]. intros x [E1 E2]. cbn [fdt stdout stderr faults ext] in *. wp_step.
      cbn [fdt stdout stderr faults ext]. split_and!; [lia|congruence|congruence|lia|done|apply lookup_delete_eq|lia].
    + wp_step. split_and!; [lia|congruence|congruence|lia|done].
  - destruct (Hep Hsgn) as (-> & Hepf & Hne & Hins). rewrite (proj2 (Z.leb_le _ _)) by done.
    assert (is_Some (<[ep := O_RDWR]> (fdt p1) !! e_socket e))
      by (rewrite lookup_insert_ne, Hfd, lookup_insert_eq by done; eauto).
    wp_step. apply wp_ctl_add; simpl; [rewrite lookup_insert_eq; eauto|done|intros _|done].
    wp_step. eapply wp_mono; [apply server_loop_deaf; [by cbn; rewrite Hx1|]|].
    { intros _. split; [cbn; by rewrite Hx1|]. apply Hins. split; cbn; [by rewrite Hfd|done]. }
    cbn. rewrite lookup_insert_eq, Hx1. intros left p3 (-> & F3 & S3 & B3 & A3 & R3). cbn in S3, B3.
    assert (HR : replies (e_socket e) ins = []) by eauto.
    destruct (stopped ins); cbn [negb]; [|wp_step; split_and!; (done || congruence || lia)].
    apply shut_down_spec; [rewrite F3, lookup_insert_eq; eauto|by rewrite F3|done|].
    intros p4 Ef Efd Es Eb. split_and!; try (done || congruence || lia).
    + rewrite Efd. apply lookup_delete_eq.
    + intros _. rewrite Efd, lookup_delete_ne by done. apply lookup_delete_eq.
Qed.

(** C25: when the listening socket cannot be set up [main] reports the first
    call that failed and returns 1 with no descriptor opened.  Otherwise it is
    bound to the port asked for modulo 2^16, and [main] runs until a signal
    arrives and then returns 0 with the listening socket and the epoll
    instance closed.  With a working epoll instance that watches the socket it
    has sent exactly the replies owed and made no call on a descriptor that is
    not open; when [epoll_ctl] could not add the socket it has sent nothing;
    and when [epoll_create1] failed, which is not tested, it has sent nothing
    and every [epoll_ctl], [epoll_wait] and [close] of the instance was a call
    on a descriptor that is not open. *)
Theorem main_serves argv1 e ep add ins p :
  ext p = idle -> faults p = 0%nat -> map_Forall (fun fd _ => 0 <= fd) (fdt p) ->
  (0 <= e_socket e -> fdt p !! e_socket e = None) ->
  (0 <= ep -> fdt p !! ep = None /\ ep <> e_socket e /\
     forall p1, (add = true -> srv_inv ep (e_socket e) p1) -> loop_start argv1 e ep add p p1 ->
       inputs_ok ep (e_socket e) ins p1) ->
  exists ret p', main argv1 e ep add ins p = Some (ret, p') /\
    if sock_ok e
    then faults p' = (if (0 <=? ep)%Z then 0 else 1 + waits ins + (if stopped ins then 1 else 0))%nat /\
         bound (ext p') = [wrapU 16 (port_of argv1)] /\
         sent (ext p') = (if (0 <=? ep) && add then replies (e_socket e) ins else []) /\
         (if stopped ins
          then ret = Some 0 /\ fdt p' !! e_socket e = None /\ (0 <= ep -> fdt p' !! ep = None)
          else ret = None)
    else not_set_up e ret p p'.
Proof.
  intros Hx Hf Hpos Hs Hep. apply wp_run. destruct (Z.leb_spec 0 ep) as [Hep0|Hep0]; [destruct add|].
  - destruct (Hep Hep0) as (Hn & Hne & Hins). eapply wp_mono; [apply serve_spec; auto|].
    intros ret p'. cbn [andb]. destruct (sock_ok e); [|done]. destruct (stopped ins); naive_solver.
  - destruct (Hep Hep0) as (Hn & Hne & Hins). eapply wp_mono; [apply deaf_spec; try done|].
    { intros _. split_and!; try done. intros p1 Hp1. by apply Hins. }
    intros ret p'. rewrite (proj2 (Z.leb_le _ _)) by done. cbn [andb]. destruct (sock_ok e); [|done]. naive_solver.
  - eapply wp_mono; [apply deaf_spec; (done || lia)|].
    intros ret p'. rewrite (proj2 (Z.leb_gt _ _)) by done. cbn [andb]. destruct (sock_ok e); [|done]. naive_solver.
Qed.

(** ** Witnesses *)

Definition boot_proc : srv := mk_proc {[ 0 := O_RDWR; 1 := O_RDWR; 2 := O_RDWR ]} [] [] 0%nat idle.
Definition env_good : sock_env :=
  {| e_socket := 3; e_bind := 0; e_listen := 0; e_pid := 42; e_strerror := [] |}.
Definition accept5 : accept_ans :=
  {| a_fd := 5; a_errno := 0; a_ip := bs "127.0.0.1"; a_port := 40000; a_add := true; a_strerror := [] |}.
Definition no_accept : accept_ans :=
  {| a_fd := -1; a_errno := EAGAIN; a_ip := []; a_port := 0; a_add := false; a_strerror := [] |}.
Definition junk : bytes := replicate 1024 xff.

(** A client connects, says hello, and hangs up; then SIGTERM. *)
Definition demo_inputs : list input :=
  [Wait [mk_ready 3 EPOLLIN accept5 RErr 0 junk]; Wait [];
   Wait [mk_ready 5 EPOLLIN no_accept (RData (bs "hello")) 11 junk];
   Wait [mk_ready 5 (Z.lor EPOLLIN EPOLLRDHUP) no_accept RErr 0 junk]; Sig].

Definition serving : srv :=
  mk_proc {[ 3 := Z.lor O_RDWR O_NONBLOCK; 4 := O_RDWR ]} [] [] 0%nat (mk_net {[3]} [] true [8080]).

#[export] Instance answer_ok_dec p r : Decision (answer_ok p r).
Proof. unfold answer_ok. apply _. Defined.
#[export] Instance answers_ok_dec epfd sfd l p : Decision (answers_ok epfd sfd l p).
Proof.
  revert p. induction l as [|r l IH]; intros p; simpl; [apply _|].
  destruct (dispatch epfd sfd r p) as [[? p']|]; apply _.
Defined.
#[export] Instance inputs_ok_dec epfd sfd ins p : Decision (inputs_ok epfd sfd ins p).
Proof.
  revert p. induction ins as [|[l|] ins IH]; intros p; simpl; [apply _| |apply _].
  unfold wait_ok. destruct (dispatch_all epfd sfd l p) as [[? p']|]; apply _.
Defined.

Lemma serving_inv : srv_inv 4 3 serving.
Proof.
  assert (Hin3 : forall fd, fd ∈ ({[3]} : gset Z) -> fd = 3)
    by (intros fd Hin; by apply elem_of_singleton in Hin).
  split; simpl.
  - by eexists.
  - by eexists.
  - intros fd ->%Hin3. split; [by eexists|done].
  - by apply elem_of_singleton.
  - intros fd fl ->%Hin3. by intros [= <-].
  - done.
Qed.

Lemma server_loop_replies_witness :
  exists p', server_loop 4 3 demo_inputs serving = Some (true, p') /\
    sent (ext p') = [(5, bs "ECHO: hello")].
Proof.
  destruct (server_loop_replies 4 3 demo_inputs serving serving_inv) as (p' & Hr & _ & Hs);
    [reflexivity|by_decision|]. exists p'. split; [exact Hr|exact Hs].
Defined.

Lemma main_serves_witness :
  exists p', main None env_good 4 true demo_inputs boot_proc = Some (Some 0, p') /\
    faults p' = 0%nat /\ sent (ext p') = [(5, bs "ECHO: hello")].
Proof.
  destruct (main_serves None env_good 4 true demo_inputs boot_proc) as (ret & p' & Hr & Hf & _ & Hs & Hret & _);
    [reflexivity|reflexivity|by_decision|done| |].
  - intros _. split; [reflexivity|]. split; [done|].
    intros [t o er fa x] _ [Ht Hx]. simpl in Ht, Hx. subst t x. by_decision.
  - exists p'. subst ret. split; [exact Hr|]. split; [exact Hf|exact Hs].
Defined.

(** A request that arrives together with the peer's shutdown of its sending
    side is dropped: the hang-up branch closes without reading. *)
Example half_closed_request_dropped :
  reply 3 (mk_ready 5 (Z.lor EPOLLIN EPOLLRDHUP) no_accept (RData (bs "bye")) 9 junk) = [].
Proof. reflexivity. Qed.

(** The socket is non-blocking and the result of [send] is ignored: when the
    kernel takes only part of a reply, the rest is lost. *)
Example short_send_loses_rest :
  reply 3 (mk_ready 5 EPOLLIN no_accept (RData (bs "hello")) 8 junk) = [(5, bs "ECHO: he")].
Proof. reflexivity. Qed.

(** The result of [epoll_create1] is not tested: without an epoll instance the
    server runs until a signal without accepting anyone, and misuses the
    descriptor -1. *)
Example epoll_failure_unnoticed :
  (fun '(ret, p) => (ret, faults p)) <$> main None env_good (-1) true [Wait []; Sig] boot_proc
  = Some (Some 0, 3%nat).
Proof. vm_compute. reflexivity. Qed.

(** A port outside 16 bits is announced as it was given, and bound modulo 2^16. *)
Example wide_port :
  (fun '(ret, p) => (bound (ext p), takeZ 35 (stdout p)))
    <$> main (Some (bs "70000")) env_good 4 true [Sig] boot_proc
  = Some ([4464], bs "[SERVER] Listening on port 70000 (P").
Proof. vm_compute. reflexivity. Qed.

(** A client that is connected when the signal comes is not closed. *)
Example client_left_open :
  (fun '(ret, p) => (ret, bool_decide (is_Some (fdt p !! 5))))
    <$> main None env_good 4 true [Wait [mk_ready 3 EPOLLIN accept5 RErr 0 junk]; Sig] boot_proc
  = Some (Some 0, true).
Proof. vm_compute. reflexivity. Qed.
