(* ===== verification/TcpClient.v ===== *)
(** * The TCP client

    src/07_networking/tcp_client.c: [connect_with_timeout] (every address
    tried with a non-blocking connect under epoll) and [main].  What the
    system calls made for each address answered is an [attempt]. *)

From S2P Require Import Prelude CLib Sys.

Local Open Scope Z_scope.

Definition BUF_SIZE : Z := 1024.
Definition EINPROGRESS : Z := 115.
Definition EPOLLERR : Z := 8.

(** Live [addrinfo] lists and the data sent. *)
Record cnet := mk_cnet { res_live : bool; sent : list bytes }.
Definition cli := proc cnet.

Definition set_res (b : bool) : ST cli unit := set_ext (fun n => mk_cnet b (sent n)).
Definition log_sent (b : bytes) : ST cli unit :=
  set_ext (fun n => mk_cnet (res_live n) (sent n ++ [b])).

(** One address: the socket, [connect]'s result and errno, and, per event of
    [epoll_wait], its mask and the pending socket error. *)
Record attempt := {
  t_socket : Z;
  t_connect : Z;
  t_errno : Z;
  t_events : list (Z * Z);
}.

(** The loop over the ready events; a connected socket is made blocking again. *)
Fixpoint check_events (sfd flags : Z) (evs : list (Z * Z)) : ST cli bool :=
  match evs with
  | [] => mret false
  | (mask, pending) :: evs =>
      if Z.land mask EPOLLERR =? 0 then
        so_err ← on_fd sfd (-1) pending;
        if so_err =? 0 then fcntl_setfl sfd flags ;; mret true
        else check_events sfd flags evs
      else check_events sfd flags evs
  end.

(** The loop over the addresses; [sfd] is its value when the list ends. *)
Fixpoint connect_loop (epfd : Z) (ats : list attempt) (sfd : Z) : ST cli Z :=
  match ats with
  | [] => mret sfd
  | a :: ats =>
      sfd ← new_fd (t_socket a) O_RDWR;
      if sfd <? 0 then connect_loop epfd ats sfd
      else
      flags ← fcntl_getfl sfd;
      fcntl_setfl sfd (Z.lor flags O_NONBLOCK) ;;
      rc ← on_fd sfd (-1) (t_connect a);
      if rc =? 0 then fcntl_setfl sfd flags ;; mret sfd
      else
      connected ← (if t_errno a =? EINPROGRESS
                   then on_fd epfd (-1) 0 ;; on_fd sfd (-1) 0 ;;   (* epoll_ctl(epfd, .., sfd, ..) *)
                        on_fd epfd (-1) 0 ;;                       (* epoll_wait *)
                        check_events sfd flags (t_events a)
                   else mret false);
      if connected : bool then mret sfd
      else close sfd ;; connect_loop epfd ats (-1)
  end.

Record conn_env := {
  e_epoll : Z;
  e_gai : Z;                    (* 0, or an EAI_* error *)
  e_gai_msg : bytes;
  e_attempts : list attempt;    (* the addresses it found *)
  e_perror : bytes;
}.

Definition connect_with_timeout (e : conn_env) : ST cli Z :=
  epfd ← new_fd (e_epoll e) O_RDWR;
  if epfd <? 0 then perror "epoll_create1" (e_perror e) ;; mret (-1)
  else if negb (e_gai e =? 0) then
    sys_eprintf [FLit "getaddrinfo: "; FRaw (e_gai_msg e); FRaw [x0a]] ;;
    mret (-1)
  else
  set_res true ;;
  sfd ← connect_loop epfd (e_attempts e) (-1);
  close epfd ;;
  set_res false ;;
  mret sfd.

Definition messages : list bytes :=
  [bs "Hello from embedded Linux client!" ++ [x0a];
   bs "Demonstrating TCP send/recv" ++ [x0a];
   bs "TCP_NODELAY is enabled" ++ [x0a]].

(** [recv]'s answer per message: the bytes ([] at end of stream) or an error. *)
Inductive recv_ans := RData (l : bytes) | RErr.
Definition recv_n (r : recv_ans) : Z := match r with RData l => lenZ l | RErr => -1 end.
Definition recv_bytes (r : recv_ans) : bytes := match r with RData l => l | RErr => [] end.

(** The [for] loop over the messages; [ans i] is what [send] (bytes taken, or
    negative: the code ignores it) and [recv] answer to the [i]-th, [buf] the
    array read into. *)
Fixpoint talk (sfd : Z) (msgs : list bytes) (i : nat) (ans : nat -> Z * recv_ans) (buf : bytes) : ST cli unit :=
  match msgs with
  | [] => mret tt
  | m :: msgs =>
      k ← on_fd sfd (-1) (ans i).1;
      (if 0 <? k then log_sent (takeZ k (takeZ (strlen m) m)) else mret tt) ;;
      r ← on_fd sfd RErr (ans i).2;
      let n := recv_n r in
      if n <=? 0 then mret tt
      else match store_bytes buf 0 (recv_bytes r) ≫= fun b => store_bytes b n [NUL] with
           | None => st_stuck
           | Some buf =>
               sys_printf [FLit "[CLIENT] server replied: "; FS buf] ;;
               talk sfd msgs (S i) ans buf
           end
  end.

Definition main (argv1 argv2 : option bytes) (e : conn_env) (ans : nat -> Z * recv_ans) (junk : bytes)
  : ST cli Z :=
  let host := default (bs "127.0.0.1") argv1 in
  let port := default (bs "8080") argv2 in
  sys_printf [FLit "[CLIENT] Connecting to "; FS host; FLit ":"; FS port; FLit " …"; FRaw [x0a]] ;;
  sfd ← connect_with_timeout e;
  if sfd <? 0 then sys_eprintf [FLit "[CLIENT] Connection failed"; FRaw [x0a]] ;; mret 1
  else
  sys_printf [FLit "[CLIENT] Connected (fd="; FD sfd; FLit ")"; FRaw [x0a]] ;;
  talk sfd messages 0 ans junk ;;
  close sfd ;;
  sys_printf [FLit "[CLIENT] Done."; FRaw [x0a]] ;;
  mret 0.

(** ** The address that wins *)

Definition event_ready (ev : Z * Z) : bool := (Z.land ev.1 EPOLLERR =? 0) && (ev.2 =? 0).

Definition connects (a : attempt) : bool :=
  (0 <=? t_socket a) &&
  ((t_connect a =? 0) || ((t_errno a =? EINPROGRESS) && existsb event_ready (t_events a))).

(** The first address whose connect succeeds, at once or in time. *)
Definition winner (ats : list attempt) : Z :=
  match List.find connects ats with Some a => t_socket a | None => -1 end.

(** New sockets get descriptors that are not in use. *)
Definition attempts_ok (t : gmap Z Z) (ats : list attempt) : Prop :=
  Forall (fun a => t_socket a < 0 \/ t !! t_socket a = None) ats.

(** The state with the socket open and blocking, if there is one. *)
Definition connected_fdt (t : gmap Z Z) (sfd : Z) : gmap Z Z :=
  if 0 <=? sfd then <[sfd := O_RDWR]> t else t.

Lemma check_events_spec sfd flags evs p :
  is_Some (fdt p !! sfd) ->
  st_wp (check_events sfd flags evs) (fun c p' =>
    c = existsb event_ready evs /\
    p' = if c then with_fdt (<[sfd := flags]> (fdt p)) p else p) p.
Proof.
  intros Hs. induction evs as [|[mask pend] evs IH]; simpl; [by wp_step|].
  unfold event_ready at 1. simpl. destruct (Z.land mask EPOLLERR =? 0); simpl; [|done].
  wp_step. apply wp_on_fd; [done|]. destruct (pend =? 0); [|done].
  wp_step. apply wp_setfl; [done|]. by wp_step.
Qed.

Lemma connect_loop_spec epfd ats dflt p :
  is_Some (fdt p !! epfd) -> attempts_ok (fdt p) ats -> dflt = -1 ->
  st_wp (connect_loop epfd ats dflt) (fun sfd p' =>
    sfd = winner ats /\ p' = with_fdt (connected_fdt (fdt p) sfd) p) p.
Proof.
  intros He Hok ->. induction Hok as [|a ats Ha Hok IH]; simpl; unfold winner; simpl.
  { wp_step. split; [done|]. by destruct p. }
  wp_step. unfold connects at 1. apply wp_new_fd.
  - intros Hneg. change (-1 <? 0) with true. cbv iota.
    destruct (Z.leb_spec 0 (t_socket a)); [lia|]. simpl. exact IH.
  - intros Hpos. destruct (Z.leb_spec 0 (t_socket a)), (Z.ltb_spec (t_socket a) 0); try lia. simpl.
    destruct Ha as [?|Hfresh]; [lia|].
    assert (Hne : t_socket a <> epfd) by (intros E; rewrite E in Hfresh; destruct He; congruence).
    wp_step. eapply wp_getfl; [apply lookup_insert_eq|].
    wp_step. apply wp_setfl; [simpl; rewrite lookup_insert_eq; eauto|]. simpl. rewrite insert_insert_eq.
    set (p1 := with_fdt _ _).
    assert (Hs1 : is_Some (fdt p1 !! t_socket a)) by (simpl; rewrite lookup_insert_eq; eauto).
    assert (He1 : is_Some (fdt p1 !! epfd)) by (simpl; by rewrite lookup_insert_ne).
    assert (Hrest : st_wp (close (t_socket a) ;; connect_loop epfd ats (-1))
       (fun sfd p' => sfd = winner ats /\ p' = with_fdt (connected_fdt (fdt p) sfd) p) p1).
    { wp_step. apply wp_close; [done|]. simpl. rewrite delete_insert_id by done. by destruct p. }
    assert (Hwin : with_fdt (<[t_socket a := O_RDWR]> (fdt p1)) p1
                   = with_fdt (connected_fdt (fdt p) (t_socket a)) p).
    { unfold connected_fdt. destruct (Z.leb_spec 0 (t_socket a)); [|lia].
      simpl. by rewrite insert_insert_eq. }
    wp_step. apply wp_on_fd; [done|]. destruct (t_connect a =? 0); simpl.
    { wp_step. apply wp_setfl; [done|]. wp_step. split; [done|exact Hwin]. }
    wp_step. destruct (t_errno a =? EINPROGRESS); simpl.
    + do 3 (wp_step; apply wp_on_fd; [done|]).
      eapply wp_mono; [by apply check_events_spec|]. intros c p2 [-> ->].
      destruct (existsb event_ready (t_events a)); simpl; [|exact Hrest].
      wp_step. split; [done|exact Hwin].
    + wp_step. exact Hrest.
Qed.

Lemma winner_fresh t ats :
  attempts_ok t ats -> 0 <= winner ats -> t !! winner ats = None.
Proof.
  intros Hok. unfold winner. destruct (List.find connects ats) as [a|] eqn:E; [|lia].
  intros Hpos. apply List.find_some in E as [Hin _].
  unfold attempts_ok in Hok. rewrite Forall_forall in Hok.
  destruct (Hok a); [by apply list_elem_of_In|lia|done].
Qed.

(** Closing the epoll instance leaves only the connected socket. *)
Lemma connected_close t ep sfd :
  t !! ep = None -> (0 <= sfd -> sfd <> ep) ->
  delete ep (connected_fdt (<[ep := O_RDWR]> t) sfd) = connected_fdt t sfd.
Proof.
  intros Hn Hne. unfold connected_fdt. destruct (Z.leb_spec 0 sfd).
  - rewrite delete_insert_ne by (intros ->; naive_solver). by rewrite delete_insert_id.
  - by rewrite delete_insert_id.
Qed.

Record conn_env_ok (t : gmap Z Z) (e : conn_env) : Prop := {
  ce_epoll : 0 <= e_epoll e -> t !! e_epoll e = None;
  ce_attempts : attempts_ok (<[e_epoll e := O_RDWR]> t) (e_attempts e);
}.

Lemma connect_spec e p :
  conn_env_ok (fdt p) e ->
  st_wp (connect_with_timeout e) (fun sfd p' =>
    faults p' = faults p /\ sent (ext p') = sent (ext p) /\ stdout p' = stdout p /\
    if e_epoll e <? 0 then sfd = -1 /\ fdt p' = fdt p
    else if negb (e_gai e =? 0)
    then sfd = -1 /\ fdt p' = <[e_epoll e := O_RDWR]> (fdt p)
    else sfd = winner (e_attempts e) /\ fdt p' = connected_fdt (fdt p) sfd /\
         res_live (ext p') = false /\ stderr p' = stderr p) p.
Proof.
  intros [Hep Hok]. unfold connect_with_timeout, perror, sys_eprintf, set_res, set_ext.
  wp_step. apply wp_new_fd.
  - intros Hneg. change (-1 <? 0) with true. cbv iota. destruct (Z.ltb_spec (e_epoll e) 0); [|lia].
    wp_step. wp_step. by wp_step.
  - intros Hpos. specialize (Hep Hpos). destruct (Z.ltb_spec (e_epoll e) 0); [lia|].
    destruct (negb (e_gai e =? 0)). { wp_step. wp_step. by wp_step. }
    wp_step. wp_step. wp_step.
    eapply wp_mono; [apply connect_loop_spec; [simpl; rewrite lookup_insert_eq; eauto|exact Hok|done]|].
    intros sfd p2 [-> ->]. simpl.
    assert (Hne : 0 <= winner (e_attempts e) -> winner (e_attempts e) <> e_epoll e).
    { intros Hw E. pose proof (winner_fresh _ _ Hok Hw) as Hf. by rewrite E, lookup_insert_eq in Hf. }
    wp_step. apply wp_close.
    + simpl. unfold connected_fdt. case_test; zbool; [|rewrite lookup_insert_eq; eauto].
      rewrite lookup_insert_ne by naive_solver. rewrite lookup_insert_eq. eauto.
    + wp_step. wp_step. wp_step. simpl. split_and!; try done. by apply connected_close.
Qed.

(** C26: [connect_with_timeout] returns the socket of the first address that
    connects (at once, or within the timeout and without a pending error), in
    blocking mode, with every other socket it opened and the epoll instance
    closed and the address list freed; -1, with nothing open, if none does.
    Only when [getaddrinfo] fails does the epoll descriptor stay open. *)
Theorem connect_first_address e p :
  conn_env_ok (fdt p) e ->
  exists sfd p', connect_with_timeout e p = Some (sfd, p') /\ faults p' = faults p /\
    if e_epoll e <? 0 then sfd = -1 /\ fdt p' = fdt p
    else if negb (e_gai e =? 0)
    then sfd = -1 /\ fdt p' = <[e_epoll e := O_RDWR]> (fdt p)
    else sfd = winner (e_attempts e) /\ fdt p' = connected_fdt (fdt p) sfd /\
         res_live (ext p') = false.
Proof.
  intros Hok. pose proof (connect_spec e p Hok) as Hw. apply wp_run in Hw.
  destruct Hw as (sfd & p' & Hr & Hf & _ & _ & Hc). exists sfd, p'. split; [done|]. split; [done|].
  destruct (e_epoll e <? 0), (negb (e_gai e =? 0)); naive_solver.
Qed.

(** ** The conversation *)

(** What is sent, as far as the kernel takes it: each message after a non-empty
    reply to the one before; and what is printed: each reply up to its first
    NUL. *)
Fixpoint exchange (msgs : list bytes) (i : nat) (ans : nat -> Z * recv_ans) : list bytes * bytes :=
  match msgs with
  | [] => ([], [])
  | m :: msgs =>
      let out := if 0 <? (ans i).1 then [takeZ (ans i).1 m] else [] in
      if recv_n (ans i).2 <=? 0 then (out, [])
      else let '(o, t) := exchange msgs (S i) ans in
           (out ++ o, format [FLit "[CLIENT] server replied: "; FS (recv_bytes (ans i).2)] ++ t)
  end.

(** [recv] gives at most the 1023 bytes asked for. *)
Definition answers_fit (ans : nat -> Z * recv_ans) : Prop :=
  forall i, lenZ (recv_bytes (ans i).2) <= BUF_SIZE - 1.

Lemma talk_spec sfd msgs i ans buf p :
  is_Some (fdt p !! sfd) -> Forall (fun m => strlen m = lenZ m) msgs ->
  answers_fit ans -> lenZ buf = BUF_SIZE ->
  st_wp (talk sfd msgs i ans buf) (fun _ p' =>
    fdt p' = fdt p /\ faults p' = faults p /\ res_live (ext p') = res_live (ext p) /\
    sent (ext p') = sent (ext p) ++ (exchange msgs i ans).1 /\
    stdout p' = stdout p ++ (exchange msgs i ans).2 /\ stderr p' = stderr p) p.
Proof.
  intros Hs Hm Hfit. revert i buf p Hs. induction Hm as [|m msgs Hm Hms IH]; intros i buf p Hs Hb; cbn [talk exchange].
  { wp_step. by rewrite !app_nil_r. }
  wp_step. apply wp_on_fd; [done|]. rewrite (takeZ_all (strlen m)) by lia.
  set (out := if 0 <? (ans i).1 then [takeZ (ans i).1 m] else []).
  set (p1 := mk_proc (fdt p) (stdout p) (stderr p) (faults p) (mk_cnet (res_live (ext p)) (sent (ext p) ++ out)) : cli).
  assert (Hlog : (if 0 <? (ans i).1 then log_sent (takeZ (ans i).1 m) else mret tt) p = Some (tt, p1)).
  { unfold p1, out. destruct (0 <? (ans i).1); [done|]. rewrite app_nil_r. by destruct p as [? ? ? ? []]. }
  wp_step. apply wp_run. exists tt, p1. split; [done|].
  wp_step. apply wp_on_fd; [done|].
  destruct (Z.leb_spec (recv_n (ans i).2) 0) as [Hn|Hn]; [wp_step; by rewrite app_nil_r|].
  specialize (Hfit i) as Hfi. destruct (ans i).2 as [l|] eqn:Er; [|simpl in *; lia].
  simpl recv_n in *. simpl recv_bytes in *.
  destruct (store_terminated buf l _ Hb Hfi) as (b & -> & Hlb & Hc).
  wp_step. unfold sys_printf. wp_step.
  eapply wp_mono; [apply IH; done|].
  destruct (exchange msgs (S i) ans) as [o t].
  intros [] p' (H1 & H2 & H3 & H4 & H5 & H6). cbn [fst snd stdout fdt faults ext stderr sent res_live] in *.
  split_and!; [done|done|done|by rewrite H4, (assoc_L (++))| |done].
  rewrite H5, (assoc_L (++)). f_equal. f_equal. cbn [format fmt_piece]. by rewrite Hc.
Qed.

Lemma messages_strlen : Forall (fun m => strlen m = lenZ m) messages.
Proof. by_decision. Qed.

Definition connecting_line (argv1 argv2 : option bytes) : bytes :=
  format [FLit "[CLIENT] Connecting to "; FS (default (bs "127.0.0.1") argv1); FLit ":";
          FS (default (bs "8080") argv2); FLit " …"; FRaw [x0a]].
Definition connected_line (sfd : Z) : bytes :=
  format [FLit "[CLIENT] Connected (fd="; FD sfd; FLit ")"; FRaw [x0a]].

Lemma client_main_spec e ans junk argv1 argv2 p :
  conn_env_ok (fdt p) e -> 0 <= e_epoll e -> e_gai e = 0 ->
  answers_fit ans -> lenZ junk = BUF_SIZE ->
  st_wp (main argv1 argv2 e ans junk) (fun ret p' =>
    fdt p' = fdt p /\ faults p' = faults p /\
    let sfd := winner (e_attempts e) in
    (if 0 <=? sfd
     then ret = 0 /\ sent (ext p') = sent (ext p) ++ (exchange messages 0 ans).1 /\
          stdout p' = stdout p ++ connecting_line argv1 argv2 ++ connected_line sfd ++
                      (exchange messages 0 ans).2 ++ format [FLit "[CLIENT] Done."; FRaw [x0a]] /\
          stderr p' = stderr p
     else ret = 1 /\ sent (ext p') = sent (ext p) /\
          stdout p' = stdout p ++ connecting_line argv1 argv2 /\
          stderr p' = stderr p ++ format [FLit "[CLIENT] Connection failed"; FRaw [x0a]])) p.
Proof.
  intros Hok Hep Hg Hr Hj. unfold main. wp_step. unfold sys_printf, sys_eprintf. wp_step.
  wp_step. eapply wp_mono; [by apply connect_spec|]. intros sfd p1 (Hf & Hs & Ho & Hc).
  cbn [fdt stdout stderr faults ext] in *.
  destruct (Z.ltb_spec (e_epoll e) 0); [lia|]. rewrite Hg in Hc. cbn [Z.eqb negb] in Hc.
  destruct Hc as (-> & Hfd & _ & He). unfold connected_fdt in Hfd. cbv zeta.
  destruct (Z.leb_spec 0 (winner (e_attempts e))), (Z.ltb_spec (winner (e_attempts e)) 0); try lia.
  - wp_step. wp_step. wp_step.
    assert (Hopen : is_Some (fdt p1 !! winner (e_attempts e))) by (rewrite Hfd, lookup_insert_eq; eauto).
    eapply wp_mono; [apply talk_spec; [done|apply messages_strlen|done|done]|].
    intros [] p2 (Q1 & Q2 & Q3 & Q4 & Q5 & Q6). cbn [fdt stdout stderr faults ext] in *.
    wp_step. apply wp_close; [by rewrite Q1|].
    wp_step. wp_step. wp_step. cbn [with_fdt fdt stdout stderr faults ext].
    split_and!; [|congruence|done|congruence| |congruence].
    + rewrite Q1, Hfd, delete_insert_id; [done|].
      destruct Hok as [_ Hat]. pose proof (winner_fresh _ _ Hat ltac:(done)) as Hn.
      by apply lookup_insert_None in Hn as [Hn _].
    + rewrite Q5, Ho. unfold connecting_line, connected_line. by rewrite <- !(assoc_L (++)).
  - wp_step. wp_step. wp_step. cbn [fdt stdout stderr faults ext].
    split_and!; [done|done|done|congruence|done|congruence].
Qed.

(** C27: once the name is resolved, [main] returns 0 after a connection and 1
    without one, leaves every descriptor as it found it, never overruns its
    buffer, and sends the three messages in order, each as far as the kernel
    takes it, stopping after the first that is not answered; what it prints is
    exactly its own lines and the replies, each up to its first NUL. *)
Theorem client_main e ans junk argv1 argv2 p :
  conn_env_ok (fdt p) e -> 0 <= e_epoll e -> e_gai e = 0 ->
  answers_fit ans -> lenZ junk = BUF_SIZE ->
  exists ret p', main argv1 argv2 e ans junk p = Some (ret, p') /\
    fdt p' = fdt p /\ faults p' = faults p /\
    let sfd := winner (e_attempts e) in
    (if 0 <=? sfd
     then ret = 0 /\ sent (ext p') = sent (ext p) ++ (exchange messages 0 ans).1 /\
          stdout p' = stdout p ++ connecting_line argv1 argv2 ++ connected_line sfd ++
                      (exchange messages 0 ans).2 ++ format [FLit "[CLIENT] Done."; FRaw [x0a]] /\
          stderr p' = stderr p
     else ret = 1 /\ sent (ext p') = sent (ext p) /\
          stdout p' = stdout p ++ connecting_line argv1 argv2 /\
          stderr p' = stderr p ++ format [FLit "[CLIENT] Connection failed"; FRaw [x0a]]).
Proof.
  intros. by apply wp_run, client_main_spec.
Qed.

(** ** Witnesses: the first address refuses, the second answers in time *)

Definition two_addresses : conn_env :=
  {| e_epoll := 3; e_gai := 0; e_gai_msg := [];
     e_attempts := [ {| t_socket := 4; t_connect := -1; t_errno := EINPROGRESS; t_events := [(28, 111)] |};
                     {| t_socket := 4; t_connect := -1; t_errno := EINPROGRESS; t_events := [(4, 0)] |} ];
     e_perror := [] |}.

Definition client_boot : cli :=
  mk_proc {[ 0 := O_RDWR; 1 := O_RDWR; 2 := O_RDWR ]} [] [] 0%nat (mk_cnet false []).

Lemma two_addresses_ok : conn_env_ok (fdt client_boot) two_addresses.
Proof. split; [done|]. by_decision. Qed.

Lemma connect_first_address_witness :
  exists p', connect_with_timeout two_addresses client_boot = Some (4, p') /\
    fdt p' !! 4 = Some O_RDWR /\ fdt p' !! 3 = None.
Proof.
  destruct (connect_first_address two_addresses client_boot two_addresses_ok)
    as (sfd & p' & Hr & _ & Hs & Hf & _).
  exists p'. rewrite Hf, Hs. subst sfd. split; [exact Hr|]. split; reflexivity.
Defined.

(** The second message is only half taken and not answered. *)
Definition two_answers (i : nat) : Z * recv_ans :=
  match i with O => (34, RData (bs "ECHO: hi")) | _ => (14, RErr) end.

Lemma client_main_witness :
  exists p', main None None two_addresses two_answers (replicate 1024 xff) client_boot = Some (0, p') /\
    sent (ext p') = [bs "Hello from embedded Linux client!" ++ [x0a]; bs "Demonstrating "] /\
    fdt p' = fdt client_boot.
Proof.
  assert (Hfit : answers_fit two_answers) by (intros [|i]; vm_compute; discriminate).
  destruct (client_main two_addresses two_answers (replicate 1024 xff) None None
              client_boot two_addresses_ok ltac:(simpl; lia) eq_refl Hfit eq_refl)
    as (ret & p' & Hr & Hf & _ & Hret & Hs & _).
  exists p'. subst ret. split; [exact Hr|]. split; [exact Hs|exact Hf].
Defined.
