(* ===== verification/TcpEcho.v ===== *)
(** * The TCP client talking to the echo server

    The two programs of src/07_networking that are meant for each other,
    [TcpServer.main] and [TcpClient.main], over one TCP connection: two byte
    streams that keep order and lose nothing, but may be cut anywhere.  The
    state is only what crossed the connection: the pieces the server's [recv]
    got, the pieces the client's [recv] got, and whether the client's hang-up
    was reported.  What each side has sent is what its program, run on the
    pieces it got, sends. *)

From S2P Require Import Prelude CLib Sys TcpServer TcpClient.

Local Open Scope Z_scope.

Section conversation.
(** The server: its argument, the answers to its set-up, its epoll descriptor,
    the descriptor of the client's connection, the contents of [buf], the
    process that starts it. *)
Context (sargv : option bytes) (se : sock_env) (ep cfd : Z) (sbuf : bytes) (sp : srv).
(** The client, likewise. *)
Context (cargv1 cargv2 : option bytes) (ce : conn_env) (cbuf : bytes) (cp : cli).

Record conn := mk_conn {
  chunks : list bytes;      (* what the server's [recv] returned *)
  answers : list bytes;     (* what the client's [recv] returned *)
  hung : bool;              (* the client's hang-up was reported to the server *)
}.

Definition start : conn := mk_conn [] [] false.

(** ** The programs on the pieces they got *)

(** The kernel takes whole messages and replies. *)
Definition accept_client : accept_ans :=
  {| a_fd := cfd; a_errno := 0; a_ip := bs "127.0.0.1"; a_port := 40000; a_add := true;
     a_strerror := [] |}.
Definition from_listener : ready :=
  mk_ready (e_socket se) EPOLLIN accept_client TcpServer.RErr 0 sbuf.
Definition from_client (mask : Z) (r : TcpServer.recv_ans) : ready :=
  mk_ready cfd mask no_accept r 2048 sbuf.
Definition data (b : bytes) : input := Wait [from_client EPOLLIN (TcpServer.RData b)].
Definition hangup : input := Wait [from_client (Z.lor EPOLLIN EPOLLRDHUP) TcpServer.RErr].

Definition server_ins (c : conn) : list input :=
  Wait [from_listener] :: (data <$> chunks c) ++ (if hung c then [hangup] else []).
(** So far, or with a signal that ends it. *)
Definition signalled (sig : bool) : list input := if sig then [Sig] else [].
Definition server_run (c : conn) (sig : bool) : option (option Z * srv) :=
  TcpServer.main sargv se ep true (server_ins c ++ signalled sig) sp.

(** A [recv] that has not returned yet ends the client's run where it is. *)
Definition client_ans (l : list bytes) (i : nat) : Z * recv_ans :=
  (from_option lenZ 0 (messages !! i), from_option RData RErr (l !! i)).
Definition client_run (c : conn) : option (Z * cli) :=
  TcpClient.main cargv1 cargv2 ce (client_ans (answers c)) cbuf cp.

(** ** The connection *)

Definition uplink (c : conn) : bytes :=
  match client_run c with Some (_, p) => concat (sent (ext p)) | None => [] end.
Definition downlink (c : conn) : bytes :=
  match server_run c false with Some (_, p) => concat (TcpServer.sent (ext p)).*2 | None => [] end.

(** Sent and not yet received. *)
Definition to_server (c : conn) : bytes := dropZ (lenZ (concat (chunks c))) (uplink c).
Definition to_client (c : conn) : bytes := dropZ (lenZ (concat (answers c))) (downlink c).

(** The client is in [recv]: it has sent a message it has no answer for. *)
Definition waiting (c : conn) : bool :=
  match client_run c with
  | Some (_, p) => bool_decide (length (sent (ext p)) = S (length (answers c)))
  | None => false
  end.

(** [recv] returns some of what has arrived, at most [n] bytes. *)
Inductive action := Server (n : Z) | Client (n : Z) | Hangup.
#[global] Instance action_eq_dec : EqDecision action.
Proof. solve_decision. Defined.

Definition step (a : action) (c : conn) : option conn :=
  match a with
  | Server n =>
      if decide (hung c = false /\ 1 <= n <= TcpServer.BUF_SIZE - 1 /\ to_server c <> [])
      then Some (mk_conn (chunks c ++ [takeZ n (to_server c)]) (answers c) (hung c)) else None
  | Client n =>
      if decide (waiting c = true /\ 1 <= n <= TcpClient.BUF_SIZE - 1 /\ to_client c <> [])
      then Some (mk_conn (chunks c) (answers c ++ [takeZ n (to_client c)]) (hung c)) else None
  | Hangup =>
      if decide (waiting c = false /\ hung c = false)
      then Some (mk_conn (chunks c) (answers c) true) else None
  end.

(** ** What both sides need to meet *)

Record meet : Prop := {
  me_sock : sock_ok se = true;
  me_idle : ext sp = idle;
  me_faults : faults sp = 0%nat;
  me_sfd : fdt sp !! e_socket se = None;
  me_ep : 0 <= ep /\ fdt sp !! ep = None /\ ep <> e_socket se;
  me_cfd : 0 <= cfd /\ fdt sp !! cfd = None /\ cfd <> ep /\ cfd <> e_socket se;
  me_sbuf : lenZ sbuf = TcpServer.BUF_SIZE;
  me_conn : conn_env_ok (fdt cp) ce /\ 0 <= e_epoll ce /\ e_gai ce = 0;
  me_win : 0 <= winner (e_attempts ce);
  me_sent : sent (ext cp) = [];
  me_cbuf : lenZ cbuf = TcpClient.BUF_SIZE;
}.

(** A piece [recv] can return, of text. *)
Definition piece (b : bytes) : Prop :=
  b <> [] /\ lenZ b <= 1023 /\ Forall (fun x => x <> NUL) b.

Definition echo_of (b : bytes) : bytes := bs "ECHO: " ++ b.
Definition reply_line (b : bytes) : bytes := format [FLit "[CLIENT] server replied: "; FS b].

(** ** The client *)

Lemma messages_piece : Forall piece messages.
Proof. by_decision. Qed.

Lemma piece_pos b : piece b -> 0 < lenZ b.
Proof. intros [Hb _]. destruct b; [done|]. unfold lenZ. simpl. lia. Qed.

Lemma answers_fit_pieces l : Forall piece l -> answers_fit (client_ans l).
Proof.
  intros Hl i. unfold client_ans, TcpClient.BUF_SIZE. cbn [snd].
  destruct (l !! i) as [b|] eqn:E; cbn [from_option recv_bytes]; [|by vm_compute].
  pose proof (Forall_lookup_1 _ _ _ _ Hl E) as (_ & ? & _). lia.
Qed.

(** The conversation from the message after [pre] on. *)
Lemma exchange_answers l msgs pre :
  Forall piece l -> messages = pre ++ msgs -> (length pre <= length l)%nat ->
  exchange msgs (length pre) (client_ans l)
  = (take (S (length l - length pre)) msgs,
     concat (reply_line <$> take (length msgs) (drop (length pre) l))).
Proof.
  intros Hl. revert pre. induction msgs as [|m msgs IH]; intros pre Hm Hle; [done|].
  assert (Hi : messages !! length pre = Some m) by (rewrite Hm; by apply list_lookup_middle).
  pose proof (piece_pos m (Forall_lookup_1 _ _ _ _ messages_piece Hi)) as Hpos.
  assert (E1 : (client_ans l (length pre)).1 = lenZ m) by (unfold client_ans; by rewrite Hi).
  assert (E2 : (client_ans l (length pre)).2 = from_option RData RErr (l !! length pre)) by done.
  cbn [exchange]. rewrite E1, E2.
  destruct (Z.ltb_spec 0 (lenZ m)); [|lia]. rewrite (takeZ_all (lenZ m) m) by lia.
  destruct (l !! length pre) as [b|] eqn:E; cbn [from_option recv_n recv_bytes].
  - pose proof (piece_pos b (Forall_lookup_1 _ _ _ _ Hl E)).
    destruct (Z.leb_spec (lenZ b) 0); [lia|].
    pose proof (lookup_lt_Some _ _ _ E) as Hlt.
    assert (Hm' : messages = (pre ++ [m]) ++ msgs) by (by rewrite <- (assoc_L (++))).
    specialize (IH (pre ++ [m]) Hm'). rewrite length_app, Nat.add_1_r in IH. cbn [length] in IH.
    rewrite IH by lia. replace (length l - length pre)%nat with (S (length l - S (length pre))) by lia.
    rewrite (drop_S l b (length pre)) by done. done.
  - apply lookup_ge_None_1 in E. replace (length l - length pre)%nat with 0%nat by lia.
    rewrite drop_ge by done. done.
Qed.

(** Run on [k] answers the client has sent [k + 1] messages, as far as there
    are any, and printed the answers. *)
Lemma client_spec c :
  meet -> Forall piece (answers c) ->
  exists p, client_run c = Some (0, p) /\ fdt p = fdt cp /\ stderr p = stderr cp /\
    sent (ext p) = take (S (length (answers c))) messages /\
    stdout p = stdout cp ++ connecting_line cargv1 cargv2 ++
               connected_line (winner (e_attempts ce)) ++
               concat (reply_line <$> take 3 (answers c)) ++ format [FLit "[CLIENT] Done."; FRaw [x0a]].
Proof.
  intros [] Hp. destruct me_conn0 as (Hc & He & Hg).
  pose proof (client_main_spec ce (client_ans (answers c)) cbuf cargv1 cargv2 cp Hc He Hg
                (answers_fit_pieces _ Hp) me_cbuf0) as Hw.
  apply wp_run in Hw as (ret & p & Hrun & Hf & _ & Hw). cbv zeta in Hw.
  destruct (Z.leb_spec 0 (winner (e_attempts ce))); [|lia]. destruct Hw as (-> & Hs & Ho & Hr).
  pose proof (exchange_answers (answers c) messages [] Hp eq_refl ltac:(simpl; lia)) as Hx.
  cbn [length] in Hx. rewrite Nat.sub_0_r, drop_0 in Hx. rewrite Hx in Hs, Ho. cbn [fst snd] in Hs, Ho.
  exists p. split_and!; [exact Hrun|done|done|by rewrite Hs, me_sent0|exact Ho].
Qed.

Lemma uplink_spec c :
  meet -> Forall piece (answers c) -> uplink c = concat (take (S (length (answers c))) messages).
Proof. intros Hm Hp. unfold uplink. by destruct (client_spec c Hm Hp) as (p & -> & _ & _ & -> & _). Qed.

Lemma waiting_spec c :
  meet -> Forall piece (answers c) -> (length (answers c) <= 3)%nat ->
  waiting c = (length (answers c) <? 3)%nat.
Proof.
  intros Hm Hp Hl. unfold waiting. destruct (client_spec c Hm Hp) as (p & -> & _ & _ & -> & _).
  rewrite length_take. change (length messages) with 3%nat.
  destruct (Nat.ltb_spec (length (answers c)) 3); [apply bool_decide_true|apply bool_decide_false]; lia.
Qed.

(** ** The server *)

Lemma reply_data sfd b :
  sfd <> cfd -> piece b -> reply sfd (from_client EPOLLIN (TcpServer.RData b)) = [(cfd, echo_of b)].
Proof.
  intros Hne (Hb & Hl & Hn). unfold reply. cbn [from_client ev_fd ev_mask ev_rcv ev_send].
  destruct (Z.eqb_spec cfd sfd); [done|]. cbn [negb Z.eqb]. change (negb _) with false. cbv iota.
  destruct b as [|x b]; [done|]. cbn [echo]. change (0 <? 2048) with true. cbv iota.
  rewrite cstr_no_nul by done. unfold echo_of. do 2 f_equal. apply takeZ_all.
  rewrite lenZ_app. change (lenZ (bs "ECHO: ")) with 6. lia.
Qed.

Lemma reply_hangup sfd : sfd <> cfd -> reply sfd (from_client (Z.lor EPOLLIN EPOLLRDHUP) TcpServer.RErr) = [].
Proof. intros Hne. unfold reply. cbn [from_client ev_fd]. by destruct (Z.eqb_spec cfd sfd). Qed.

(** An event on one registered descriptor is a possible return of [epoll_wait]. *)
Lemma wait_one sfd r p :
  ev_fd r ∈ interest (ext p) -> answer_ok p r -> wait_ok ep sfd [r] p.
Proof.
  intros Hin Ha. split; [by vm_compute|]. split; [apply NoDup_singleton|].
  split; [by apply Forall_singleton|]. split; [done|]. by destruct (dispatch ep sfd r p) as [[]|].
Qed.

(** While the connection is registered its data are possible inputs. *)
Lemma data_ok sfd l tail p :
  meet -> sfd = e_socket se ->
  (forall p', srv_inv ep sfd p' -> cfd ∈ interest (ext p') -> inputs_ok ep sfd tail p') ->
  Forall piece l -> srv_inv ep sfd p -> cfd ∈ interest (ext p) ->
  inputs_ok ep sfd ((data <$> l) ++ tail) p.
Proof.
  intros Hm -> Htail. revert p. induction l as [|b l IH]; intros p Hl Hi Hin; [by apply Htail|].
  apply Forall_cons in Hl as [Hb Hl]. destruct Hm as [_ _ _ _ _ (_ & _ & _ & Hne) Hsb _ _ _ _].
  assert (Ha : answer_ok p (from_client EPOLLIN (TcpServer.RData b))).
  { split; [by left|split; [|done]]. destruct Hb as (_ & ? & _). unfold TcpServer.BUF_SIZE. cbn. lia. }
  cbn [fmap list_fmap app inputs_ok data]. split; [by apply wait_one|].
  pose proof (dispatch_spec ep (e_socket se) (from_client EPOLLIN (TcpServer.RData b)) p Hi Hin Ha) as Hd.
  apply wp_run in Hd as ([] & p1 & Hd & Hi1 & Hk & _ & _). cbn [dispatch_all].
  rewrite (st_bind_run _ _ _ _ _ Hd). cbn. apply IH; [done|done|].
  apply Hk; [done|right]. by rewrite reply_data by (done || by apply not_eq_sym).
Qed.

Lemma end_ok (b sig : bool) p :
  meet -> srv_inv ep (e_socket se) p -> cfd ∈ interest (ext p) ->
  inputs_ok ep (e_socket se) ((if b then [hangup] else []) ++ signalled sig) p.
Proof.
  intros [] Hi Hin.
  assert (Hlast : forall p', inputs_ok ep (e_socket se) (signalled sig) p') by (by destruct sig).
  destruct b; [|apply Hlast]. cbn [app inputs_ok hangup]. split.
  - apply wait_one; [done|]. split; [by left|split; [by vm_compute|done]].
  - destruct (dispatch_all _ _ _ _) as [[]|]; [apply Hlast|done].
Qed.

Lemma accept_ok ins p :
  meet -> srv_inv ep (e_socket se) p ->
  fdt p = <[ep := O_RDWR]> (<[e_socket se := Z.lor O_RDWR O_NONBLOCK]> (fdt sp)) ->
  (forall p', srv_inv ep (e_socket se) p' -> cfd ∈ interest (ext p') -> inputs_ok ep (e_socket se) ins p') ->
  inputs_ok ep (e_socket se) (Wait [from_listener] :: ins) p.
Proof.
  intros [] Hi Hf Hins. destruct me_cfd0 as (Hc & Hn & Hne & Hne').
  assert (Hfree : fdt p !! cfd = None) by (by rewrite Hf, !lookup_insert_ne).
  assert (Ha : answer_ok p from_listener) by (split; [by right|split; [by vm_compute|done]]).
  cbn [inputs_ok]. split; [apply wait_one; [apply (si_sint _ _ _ Hi)|done]|].
  cbn [dispatch_all]. unfold dispatch. cbn [from_listener ev_fd ev_acc]. rewrite Z.eqb_refl.
  pose proof (handle_new_connection_spec ep (e_socket se) accept_client p Hi (or_intror Hfree)) as Hw.
  apply wp_run in Hw as ([] & p1 & Hw & Hi1 & _ & _ & _ & Hadd).
  rewrite (st_bind_run _ _ _ _ _ Hw). cbn. apply Hins; [done|]. by apply Hadd.
Qed.

Lemma replies_one sfd r ins : replies sfd (Wait [r] :: ins) = reply sfd r ++ replies sfd ins.
Proof. cbn [replies flat_map]. by rewrite app_nil_r. Qed.

Lemma replies_data sfd l tail :
  sfd <> cfd -> Forall piece l ->
  replies sfd ((data <$> l) ++ tail) = ((fun b => (cfd, echo_of b)) <$> l) ++ replies sfd tail.
Proof.
  intros Hne. induction 1 as [|b l Hb Hl IH]; [done|].
  rewrite fmap_cons, <- app_comm_cons. unfold data at 1. by rewrite replies_one, reply_data, IH.
Qed.

(** Run on the pieces it got, the server has echoed each of them; a signal
    then ends it. *)
Lemma server_spec c sig :
  meet -> Forall piece (chunks c) ->
  exists ret p, server_run c sig = Some (ret, p) /\ faults p = 0%nat /\
    TcpServer.sent (ext p) = (fun b => (cfd, echo_of b)) <$> chunks c /\
    if sig then ret = Some 0 /\ fdt p !! e_socket se = None /\ fdt p !! ep = None else ret = None.
Proof.
  intros Hm Hp. pose proof Hm as [Hs Hx Hf Hfd (Hep & Hepf & Hne) (_ & _ & _ & Hcs) _ _ _ _ _].
  epose proof (TcpServer.serve_spec sargv se ep (server_ins c ++ signalled sig) sp Hx Hf (fun _ => Hfd)
                 Hep Hepf Hne ?[Hins]) as Hw.
  [Hins]: { intros p1 Hi [Hf1 _]. unfold server_ins. cbn [app]. apply accept_ok; [done..|]. intros p2 Hi2 Hin2.
    rewrite <- (assoc_L (++)). apply data_ok; [done..| |done|done|done].
    intros p3 Hi3 Hin3. by apply end_ok. }
  apply wp_run in Hw as (ret & p & Hrun & Hw). rewrite Hs in Hw. destruct Hw as (Hf' & _ & Hsent & Hret).
  exists ret, p. split; [done|]. split; [done|]. split.
  - rewrite Hsent. unfold server_ins. rewrite <- app_comm_cons, <- (assoc_L (++)), replies_one, replies_data
      by (done || by apply not_eq_sym).
    unfold reply at 1. cbn [from_listener ev_fd]. rewrite Z.eqb_refl, app_nil_l.
    assert (replies (e_socket se) ((if hung c then [hangup] else []) ++ signalled sig) = []) as ->;
      [|by rewrite app_nil_r].
    destruct (hung c); [|by destruct sig]. unfold hangup. rewrite <- app_comm_cons, replies_one, reply_hangup
      by (by apply not_eq_sym). by destruct sig.
  - assert (stopped (server_ins c ++ signalled sig) = sig) as Est; [|by rewrite Est in Hret].
    unfold stopped, server_ins. cbn [app existsb orb]. rewrite !existsb_app.
    assert (existsb (fun i => match i with Sig => true | Wait _ => false end) (data <$> chunks c) = false) as ->
      by (clear; induction (chunks c) as [|b l IH]; [done|exact IH]).
    by destruct (hung c), sig.
Qed.

Lemma downlink_spec c : meet -> Forall piece (chunks c) -> downlink c = concat (echo_of <$> chunks c).
Proof.
  intros Hm Hp. unfold downlink. destruct (server_spec c false Hm Hp) as (r & p & -> & _ & -> & _).
  by rewrite <- list_fmap_compose.
Qed.

(** ** Pieces of streams *)

Lemma prefix_rest (k l : bytes) : k `prefix_of` l -> l = k ++ dropZ (lenZ k) l.
Proof. intros [r ->]. unfold dropZ, lenZ. by rewrite Nat2Z.id, drop_app_length. Qed.

Lemma rest_nonempty (k l : bytes) : lenZ k < lenZ l -> dropZ (lenZ k) l <> [].
Proof. intros Hlt E. pose proof (lenZ_nonneg k). apply (f_equal lenZ) in E. rewrite lenZ_dropZ in E by lia.
  change (lenZ (@nil byte)) with 0 in E. lia. Qed.

Lemma prefix_len (k l : bytes) : k `prefix_of` l -> lenZ k <= lenZ l.
Proof. intros [r ->]. rewrite lenZ_app. pose proof (lenZ_nonneg r). lia. Qed.

Lemma concat_snoc (l : list bytes) b : concat (l ++ [b]) = concat l ++ b.
Proof. by rewrite concat_app; cbn; rewrite app_nil_r. Qed.

Lemma concat_take_prefix n m (l : list bytes) :
  (n <= m)%nat -> concat (take n l) `prefix_of` concat (take m l).
Proof.
  intros Hle. exists (concat (take (m - n) (drop n l))). rewrite <- concat_app. f_equal.
  replace m with (n + (m - n))%nat at 1 by lia. symmetry. apply take_take_drop.
Qed.

Lemma piece_take n l :
  1 <= n <= 1023 -> l <> [] -> Forall (fun x => x <> NUL) l -> piece (takeZ n l).
Proof.
  intros Hn Hl HN. split; [|split].
  - intros E. apply (f_equal lenZ) in E. rewrite lenZ_takeZ_min in E by lia.
    destruct l; [done|]. unfold lenZ in E. simpl in E. lia.
  - rewrite lenZ_takeZ_min by lia. lia.
  - by apply Forall_take.
Qed.

Lemma concat_no_nul l : Forall piece l -> Forall (fun x => x <> NUL) (concat l).
Proof. intros Hl. induction Hl as [|b l (_ & _ & Hb) _ IH]; [constructor|]. by apply Forall_app. Qed.

Lemma echo_no_nul l : Forall piece l -> Forall (fun x => x <> NUL) (concat (echo_of <$> l)).
Proof.
  intros Hl. induction Hl as [|b l (_ & _ & Hb) _ IH]; [constructor|]. cbn [fmap list_fmap concat].
  apply Forall_app. split; [|done]. apply Forall_app. split; [by_decision|done].
Qed.

(** ** The invariant of the conversation *)

Record inv (c : conn) : Prop := {
  iv_chunks : Forall piece (chunks c);
  iv_answers : Forall piece (answers c);
  iv_count : (length (answers c) <= 3)%nat;
  iv_up : concat (chunks c) `prefix_of` concat (take (S (length (answers c))) messages);
  iv_down : concat (answers c) `prefix_of` concat (echo_of <$> chunks c);
  iv_live : (length (answers c) < 3)%nat -> to_server c <> [] \/ to_client c <> [];
  iv_hung : hung c = true -> length (answers c) = 3%nat;
}.

Definition work (c : conn) : nat :=
  (length (concat messages) - length (concat (chunks c))) + (3 - length (answers c)) + (if hung c then 0 else 1).

Section steps.
Hypothesis Hmeet : meet.

Lemma to_server_eq c : inv c -> concat (take (S (length (answers c))) messages) = concat (chunks c) ++ to_server c.
Proof. intros []. unfold to_server. rewrite uplink_spec by done. by apply prefix_rest. Qed.

Lemma to_client_eq c : inv c -> concat (echo_of <$> chunks c) = concat (answers c) ++ to_client c.
Proof. intros []. unfold to_client. rewrite downlink_spec by done. by apply prefix_rest. Qed.

Lemma talk_start : inv start.
Proof.
  split; try done; cbn [start answers chunks length]; [lia|apply prefix_nil|].
  intros _. left. unfold to_server. rewrite uplink_spec by done. done.
Qed.

Lemma up_no_nul c : inv c -> Forall (fun x => x <> NUL) (to_server c).
Proof.
  intros Hi. assert (H : Forall (fun x => x <> NUL) (concat (take (S (length (answers c))) messages)))
    by (apply concat_no_nul, Forall_take, messages_piece).
  rewrite (to_server_eq c Hi) in H. by apply Forall_app in H as [_ ?].
Qed.

Lemma down_no_nul c : inv c -> Forall (fun x => x <> NUL) (to_client c).
Proof.
  intros Hi. pose proof (echo_no_nul _ (iv_chunks _ Hi)) as H.
  rewrite (to_client_eq c Hi) in H. by apply Forall_app in H as [_ ?].
Qed.

Lemma server_turn c n :
  inv c -> hung c = false -> 1 <= n <= 1023 -> to_server c <> [] ->
  let c' := mk_conn (chunks c ++ [takeZ n (to_server c)]) (answers c) (hung c) in
  inv c' /\ (work c' < work c)%nat.
Proof.
  intros Hi Hh Hn Hne. pose proof Hi as [Hc Ha Hk Hu Hd Hl Hg].
  pose proof (piece_take n _ Hn Hne (up_no_nul c Hi)) as Hp. pose proof (to_server_eq c Hi) as E.
  set (x := takeZ n (to_server c)) in *. cbv zeta. pose proof (piece_pos x Hp) as Hx.
  assert (Hsnoc : echo_of <$> chunks c ++ [x] = (echo_of <$> chunks c) ++ [echo_of x]) by (by rewrite fmap_app).
  assert (Hup : concat (chunks c ++ [x]) `prefix_of` concat (take (S (length (answers c))) messages)).
  { rewrite concat_snoc, E. exists (dropZ n (to_server c)). rewrite <- (assoc_L (++)). unfold x.
    by rewrite takeZ_dropZ. }
  assert (Hchunks : Forall piece (chunks c ++ [x])) by (apply Forall_app; split; [done|by apply Forall_singleton]).
  split; [split|]; cbn [chunks answers hung]; try done.
  - rewrite Hsnoc, concat_snoc. by apply prefix_app_r.
  - intros _. right. unfold to_client. rewrite downlink_spec by done. cbn [chunks answers].
    apply rest_nonempty. rewrite Hsnoc, concat_snoc, lenZ_app. pose proof (prefix_len _ _ Hd).
    unfold echo_of at 2. rewrite lenZ_app. change (lenZ (bs "ECHO: ")) with 6. lia.
  - unfold work. cbn [chunks answers hung]. rewrite concat_snoc, length_app.
    assert (length (concat (take (S (length (answers c))) messages)) <= length (concat messages))%nat.
    { rewrite <- (take_drop (S (length (answers c))) messages) at 2. rewrite concat_app, length_app. lia. }
    apply prefix_length in Hup. rewrite concat_snoc, length_app in Hup. unfold lenZ in Hx. lia.
Qed.

Lemma client_turn c n :
  inv c -> (length (answers c) < 3)%nat -> 1 <= n <= 1023 -> to_client c <> [] ->
  let c' := mk_conn (chunks c) (answers c ++ [takeZ n (to_client c)]) (hung c) in
  inv c' /\ (work c' < work c)%nat.
Proof.
  intros Hi Hlt Hn Hne. pose proof Hi as [Hc Ha Hk Hu Hd Hl Hg].
  pose proof (piece_take n _ Hn Hne (down_no_nul c Hi)) as Hp. pose proof (to_client_eq c Hi) as E.
  set (x := takeZ n (to_client c)) in *. cbv zeta.
  assert (Hans : Forall piece (answers c ++ [x])) by (apply Forall_app; split; [done|by apply Forall_singleton]).
  assert (Hlen : length (answers c ++ [x]) = S (length (answers c))) by (rewrite length_app; simpl; lia).
  assert (Hup : concat (chunks c) `prefix_of` concat (take (S (S (length (answers c)))) messages)).
  { etrans; [exact Hu|]. apply concat_take_prefix. lia. }
  split; [split|]; cbn [chunks answers hung]; rewrite ?Hlen; try done.
  - rewrite concat_snoc, E. exists (dropZ n (to_client c)). rewrite <- (assoc_L (++)). unfold x.
    by rewrite takeZ_dropZ.
  - intros Hmore. left. unfold to_server. rewrite uplink_spec by done. cbn [chunks answers]. rewrite Hlen.
    apply rest_nonempty. destruct (lookup_lt_is_Some_2 messages (S (length (answers c)))) as [m Hm]; [done|].
    rewrite (take_S_r _ _ m Hm), concat_snoc, lenZ_app. pose proof (prefix_len _ _ Hu).
    pose proof (piece_pos m (Forall_lookup_1 _ _ _ _ messages_piece Hm)). lia.
  - intros Hh. specialize (Hg Hh). lia.
  - unfold work. cbn [chunks answers hung]. rewrite Hlen. lia.
Qed.

Lemma step_inv a c c' : inv c -> step a c = Some c' -> inv c' /\ (work c' < work c)%nat.
Proof.
  intros Hi. pose proof Hi as [Hc Ha Hk Hu Hd Hl Hg].
  pose proof (waiting_spec c Hmeet Ha Hk) as Hw. unfold step, TcpServer.BUF_SIZE, TcpClient.BUF_SIZE.
  destruct a as [n|n|]; (case_decide as H; [|done]); intros [= <-].
  - destruct H as (H1 & H2 & H3). by apply server_turn.
  - destruct H as (H1 & H2 & H3). rewrite H1 in Hw. symmetry in Hw. apply Nat.ltb_lt in Hw. by apply client_turn.
  - destruct H as [H1 H2]. rewrite H1 in Hw. symmetry in Hw. apply Nat.ltb_ge in Hw.
    split; [split|]; cbn [chunks answers hung]; try done; [lia..|].
    unfold work. cbn [chunks answers hung]. rewrite H2. lia.
Qed.

Lemma progress c : inv c -> hung c = true \/ exists a, is_Some (step a c).
Proof.
  intros Hi. pose proof Hi as [Hc Ha Hk Hu Hd Hl Hg]. pose proof (waiting_spec c Hmeet Ha Hk) as Hw.
  destruct (hung c) eqn:Eh; [by left|right].
  destruct (Nat.ltb_spec (length (answers c)) 3) as [Hlt|Hge].
  - destruct (Hl Hlt) as [Hs|Hs]; [exists (Server 1)|exists (Client 1)]; unfold step;
      (rewrite decide_True; [done|split_and!; [done|by vm_compute..|done]]).
  - exists Hangup. unfold step. by rewrite decide_True.
Qed.
(** ** When nothing is cut *)

Definition whole (a : action) : Prop := a = Server 1023 \/ a = Client 1023 \/ a = Hangup.

(** Message by message. *)
Definition lockstep (c : conn) : Prop :=
  let i := length (answers c) in
  answers c = echo_of <$> take i messages /\ (chunks c = take i messages \/ chunks c = take (S i) messages).

Lemma next_message i : take (S i) messages = take i messages \/
  exists m, messages !! i = Some m /\ take (S i) messages = take i messages ++ [m] /\ lenZ (echo_of m) <= 1023.
Proof.
  destruct (messages !! i) as [m|] eqn:E.
  - right. exists m. split; [done|]. split; [by apply take_S_r|].
    assert (H : Forall (fun m => lenZ (echo_of m) <= 1023) messages) by by_decision.
    by eapply Forall_lookup_1 in H.
  - left. apply lookup_ge_None_1 in E. by rewrite !take_ge by lia.
Qed.

Lemma echo_len b : lenZ b <= lenZ (echo_of b).
Proof. unfold echo_of. rewrite lenZ_app. pose proof (lenZ_nonneg (bs "ECHO: ")). lia. Qed.

Lemma lockstep_step a c c' : inv c -> lockstep c -> whole a -> step a c = Some c' -> lockstep c'.
Proof.
  intros Hi [Hans Hch] Ha Hs. pose proof (to_server_eq c Hi) as Es. pose proof (to_client_eq c Hi) as Ec.
  unfold step in Hs. set (i := length (answers c)) in *.
  destruct Ha as [->|[->| ->]]; (case_decide as H; [|done]); simplify_eq.
  - destruct H as (_ & _ & Hne). split; [done|]. right. cbn [chunks answers]. fold i.
    destruct Hch as [E|E]; rewrite E in Es |- *; cycle 1.
    { rewrite <- (app_nil_r (concat _)) in Es at 1. by apply app_inv_head in Es. }
    destruct (next_message i) as [En|(m & Hm & En & Hl)]; rewrite En in Es.
    { rewrite <- (app_nil_r (concat _)) in Es at 1. by apply app_inv_head in Es. }
    rewrite concat_snoc in Es. apply app_inv_head in Es. rewrite <- Es, En.
    pose proof (echo_len m). by rewrite takeZ_all by lia.
  - destruct H as (_ & _ & Hne). unfold lockstep. cbn [chunks answers].
    rewrite length_app. cbn [length]. fold i. rewrite Nat.add_1_r.
    destruct Hch as [E|E]; rewrite E, Hans in Ec.
    { rewrite <- (app_nil_r (concat _)) in Ec at 1. by apply app_inv_head in Ec. }
    destruct (next_message i) as [En|(m & Hm & En & Hl)]; rewrite En in Ec.
    { rewrite <- (app_nil_r (concat _)) in Ec at 1. by apply app_inv_head in Ec. }
    rewrite fmap_app in Ec. cbn [fmap list_fmap] in Ec. rewrite concat_snoc in Ec. apply app_inv_head in Ec.
    rewrite <- Ec. split; [|by left]. rewrite En, fmap_app, Hans at 1. fold i. by rewrite takeZ_all.
  - done.
Qed.
End steps.

(** What the client prints when it got the replies [l]. *)
Definition client_out (l : list bytes) : bytes :=
  connecting_line cargv1 cargv2 ++ connected_line (winner (e_attempts ce)) ++
  concat (reply_line <$> l) ++ format [FLit "[CLIENT] Done."; FRaw [x0a]].

(** C24: let the client talk to the server, with the two streams cut into
    pieces in any way.  The conversation takes at most 89 steps, and until the
    server has seen the client hang up one side can move.  The server gets the
    client's bytes in order and echoes each piece; the client gets the
    server's bytes in order.  At the end the client has sent its three
    messages, printed one line per [recv] and returned 0 with nothing left
    open; the server has made no call on a descriptor that is not open, and on a
    signal returns 0 with its descriptors closed.  If no stream is cut the
    lines are the echoes of the three messages. *)
Theorem conversation sched c :
  meet -> run step sched start = Some c ->
  (length sched <= 89)%nat /\
  (hung c = true \/ exists a, is_Some (step a c)) /\
  concat (chunks c) `prefix_of` concat messages /\
  concat (answers c) `prefix_of` concat (echo_of <$> chunks c) /\
  (hung c = true ->
     (exists p, client_run c = Some (0, p) /\ fdt p = fdt cp /\ sent (ext p) = messages /\
        length (answers c) = 3%nat /\ stdout p = stdout cp ++ client_out (answers c)) /\
     exists q, server_run c true = Some (Some 0, q) /\ faults q = 0%nat /\
        fdt q !! e_socket se = None /\ fdt q !! ep = None /\
        TcpServer.sent (ext q) = (fun b => (cfd, echo_of b)) <$> chunks c) /\
  (Forall whole sched -> hung c = true -> answers c = echo_of <$> messages).
Proof.
  intros Hm Hrun.
  pose proof (run_invariant step inv (fun a s s' H1 H2 => proj1 (step_inv Hm a s s' H1 H2))
                sched start c (talk_start Hm) Hrun) as Hi.
  pose proof (run_measure step inv work (step_inv Hm) sched start c (talk_start Hm) Hrun) as Hb.
  split; [change (work start) with 89%nat in Hb; lia|]. split; [by apply progress|].
  pose proof Hi as [Hc Ha Hk Hu Hd _ Hg]. split; [|split; [done|split]].
  - etrans; [exact Hu|]. rewrite <- (take_ge messages 4) at 2 by (by vm_compute; lia).
    apply concat_take_prefix. lia.
  - intros Hh. specialize (Hg Hh). split.
    + destruct (client_spec c Hm Ha) as (p & Hp & Hf & _ & Hs & Ho). exists p.
      rewrite Hg in Hs. rewrite take_ge in Ho by lia. by split_and!.
    + destruct (server_spec c true Hm Hc) as (r & q & Hq & Hf & Hs & -> & H1 & H2). by exists q.
  - intros Hw Hh. specialize (Hg Hh).
    assert (H : inv c /\ lockstep c).
    { clear Hb Hi Hc Ha Hk Hu Hd Hg Hh. revert Hrun Hw.
      apply (run_trace_ind step (fun l c => Forall whole l -> inv c /\ lockstep c)).
      - intros _. split; [by apply talk_start|]. split; [done|by left].
      - intros l s a s' _ IH Hs [Hl Hla]%Forall_app. destruct (IH Hl) as [H1 H2].
        apply Forall_cons in Hla as [Hla _]. split; [by apply (step_inv Hm a s s' H1 Hs)|].
        by apply (lockstep_step Hm a s s' H1 H2 Hla Hs). }
    destruct H as [_ [H _]]. rewrite Hg in H. by rewrite H.
Qed.
End conversation.

(** ** Witness *)

(** The server of [TcpServer.env_good], the client of [two_addresses]. *)
Lemma meet_at_home : meet env_good 4 5 junk boot_proc two_addresses (replicate 1024 xff) client_boot.
Proof.
  split; try (vm_compute; reflexivity); try (by_decision).
  split; [apply two_addresses_ok|]. split; [by vm_compute|done].
Qed.

Abbreviation step_at_home :=
  (step None env_good 4 5 junk boot_proc None None two_addresses (replicate 1024 xff) client_boot).

Definition uncut : list action :=
  [Server 1023; Client 1023; Server 1023; Client 1023; Server 1023; Client 1023; Hangup].
Definition uncut_end : conn := Eval vm_compute in default start (run step_at_home uncut start).

Lemma conversation_witness : answers uncut_end = echo_of <$> messages.
Proof.
  destruct (conversation None env_good 4 5 junk boot_proc None None two_addresses (replicate 1024 xff)
              client_boot uncut uncut_end meet_at_home) as (_ & _ & _ & _ & _ & H).
  - vm_compute. reflexivity.
  - apply H; [|reflexivity]. unfold uncut, whole. rewrite !Forall_cons. auto 20.
Defined.

(** The client reads once per message, whatever has arrived: when the network
    cuts the first reply, the second line is the rest of the first reply, and
    the other two messages, which arrive together, are echoed as one. *)
Example cut_reply_shifts_answers :
  answers <$> run step_at_home
    [Server 1023; Client 4; Client 1023; Server 1023; Client 1023; Hangup] start
  = Some [bs "ECHO"; bs ": Hello from embedded Linux client!" ++ [x0a];
          bs "ECHO: Demonstrating TCP send/recv" ++ [x0a] ++ bs "TCP_NODELAY is enabled" ++ [x0a]].
Proof. vm_compute. reflexivity. Qed.
