(* ===== verification/Pthread.v ===== *)
(** * POSIX synchronisation objects

    The states of mutexes, semaphores and read-write locks and the effect of
    the pthread operations on them, as the thread demos use them.  An
    operation that would block is [None]: the thread takes no step.  The
    second half is the reasoning the demos share: who may be inside a
    critical section. *)

From S2P Require Import Prelude.

(** ** Mutexes *)

Inductive mutex_kind := MUTEX_NORMAL | MUTEX_RECURSIVE | MUTEX_ERRORCHECK.

#[export] Instance mutex_kind_eq_dec : EqDecision mutex_kind.
Proof. solve_decision. Defined.

(** The constants of glibc's <pthread.h>: the two enumerations overlap. *)
Definition PTHREAD_MUTEX_NORMAL : Z := 0.
Definition PTHREAD_MUTEX_RECURSIVE : Z := 1.
Definition PTHREAD_MUTEX_ERRORCHECK : Z := 2.
Definition PTHREAD_PROCESS_PRIVATE : Z := 0.
Definition PTHREAD_PROCESS_SHARED : Z := 1.

Record mutexattr := mk_mutexattr { attr_kind : mutex_kind; attr_pshared : Z }.

Definition pthread_mutexattr_init : mutexattr :=
  mk_mutexattr MUTEX_NORMAL PTHREAD_PROCESS_PRIVATE.

(** An unknown type is EINVAL and leaves the attribute alone. *)
Definition pthread_mutexattr_settype (a : mutexattr) (ty : Z) : mutexattr :=
  if (ty =? PTHREAD_MUTEX_NORMAL)%Z then mk_mutexattr MUTEX_NORMAL (attr_pshared a)
  else if (ty =? PTHREAD_MUTEX_RECURSIVE)%Z then mk_mutexattr MUTEX_RECURSIVE (attr_pshared a)
  else if (ty =? PTHREAD_MUTEX_ERRORCHECK)%Z then mk_mutexattr MUTEX_ERRORCHECK (attr_pshared a)
  else a.

(** The owner and how many times it has locked. *)
Record mutex := mk_mutex { m_attr : mutexattr; m_owner : option (nat * nat) }.

Definition pthread_mutex_init (a : mutexattr) : mutex := mk_mutex a None.

(** Relocking one's own mutex: a recursive one counts; a normal one never
    returns; an error-checking one returns EDEADLK without locking, which the
    demos never meet. *)
Definition pthread_mutex_lock (t : nat) (m : mutex) : option mutex :=
  match m_owner m with
  | None => Some (mk_mutex (m_attr m) (Some (t, 1)))
  | Some (o, d) =>
      if decide (o = t /\ attr_kind (m_attr m) = MUTEX_RECURSIVE)
      then Some (mk_mutex (m_attr m) (Some (t, S d))) else None
  end.

(** Only the owner may unlock. *)
Definition pthread_mutex_unlock (t : nat) (m : mutex) : option mutex :=
  match m_owner m with
  | Some (o, S d) =>
      if decide (o = t)
      then Some (mk_mutex (m_attr m) (match d with O => None | _ => Some (o, d) end))
      else None
  | _ => None
  end.

(** ** Semaphores *)

Definition sem := nat.

Definition sem_wait (s : sem) : option sem :=
  match s with O => None | S n => Some n end.
Definition sem_post (s : sem) : sem := S s.

(** ** Read-write locks *)

Record rwlock := mk_rwlock { rw_readers : gset nat; rw_writer : option nat }.

Definition rwlock_init : rwlock := mk_rwlock ∅ None.

Definition rwlock_rdlock (t : nat) (l : rwlock) : option rwlock :=
  match rw_writer l with
  | None => Some (mk_rwlock ({[t]} ∪ rw_readers l) None)
  | Some _ => None
  end.

Definition rwlock_wrlock (t : nat) (l : rwlock) : option rwlock :=
  match rw_writer l with
  | None => if decide (rw_readers l = ∅) then Some (mk_rwlock ∅ (Some t)) else None
  | Some _ => None
  end.

Definition rwlock_unlock (t : nat) (l : rwlock) : option rwlock :=
  if decide (rw_writer l = Some t) then Some (mk_rwlock (rw_readers l) None)
  else if decide (t ∈ rw_readers l) then Some (mk_rwlock (rw_readers l ∖ {[t]}) (rw_writer l))
  else None.

(** ** Legal histories of an abstract object

    [history step r evs]: the object starts at [r] and every event is allowed
    where it happens. *)
Definition history {E R : Type} (hstep : R -> E -> option R) (r : R) (evs : list E) : option R :=
  foldl (fun r e => r ← r; hstep r e) (Some r) evs.

Lemma history_snoc {E R} (hstep : R -> E -> option R) r evs r' e :
  history hstep r evs = Some r' -> history hstep r (evs ++ [e]) = hstep r' e.
Proof. unfold history. rewrite foldl_app. by intros ->. Qed.

(** What the threads that have got somewhere contribute, when one more does. *)
Lemma omap_insert_same {A B} (f : A -> option B) (l : list A) i x y :
  l !! i = Some x -> f y = f x -> omap f (<[i := y]> l) = omap f l.
Proof.
  revert i. induction l as [|a l IH]; intros [|i] Hi Hf; simplify_eq/=; [by rewrite Hf|].
  specialize (IH i Hi Hf). simpl in IH. by rewrite IH.
Qed.

Lemma omap_insert_new {A B} (f : A -> option B) (l : list A) i x y b :
  l !! i = Some x -> f x = None -> f y = Some b -> omap f (<[i := y]> l) ≡ₚ b :: omap f l.
Proof.
  revert i. induction l as [|a l IH]; intros [|i] Hi Hx Hy; simplify_eq/=; [by rewrite Hx, Hy|].
  specialize (IH i Hi Hx Hy). destruct (f a); [|exact IH].
  etransitivity; [apply Permutation_skip, IH|apply Permutation_swap].
Qed.

(** The threads' program counters after thread [t] moved to [p']. *)
Lemma lookup_insert_thr {P} (thr : list P) t p p' u x :
  thr !! t = Some p ->
  <[t := p']> thr !! u = Some x <-> (u = t /\ x = p') \/ (u <> t /\ thr !! u = Some x).
Proof.
  intros Hp. destruct (decide (u = t)) as [->|Hne].
  - rewrite list_lookup_insert_eq by (by eapply lookup_lt_Some). naive_solver.
  - rewrite list_lookup_insert_ne by done. naive_solver.
Qed.

(** ** Critical sections

    [cs_inv owner cs thr]: the thread that holds the lock, if any, is exactly
    the one whose program counter is inside the critical section [cs]. *)
Section critical_section.
Context {P : Type} (cs : P -> bool).
Implicit Types (thr : list P) (own : option nat).

Definition cs_inv (own : option nat) (thr : list P) : Prop :=
  forall t, own = Some t <-> exists p, thr !! t = Some p /\ cs p = true.

Lemma cs_inv_owner own thr t p :
  cs_inv own thr -> thr !! t = Some p -> cs p = true -> own = Some t.
Proof. intros H Hp Hc. apply H. eauto. Qed.

Lemma cs_inv_not_owner own thr t p :
  cs_inv own thr -> thr !! t = Some p -> cs p = false -> own <> Some t.
Proof. intros H Hp Hc Ho. apply H in Ho as (x & Hx & ?). congruence. Qed.

Lemma cs_inv_excl own thr t1 t2 p1 p2 :
  cs_inv own thr -> thr !! t1 = Some p1 -> thr !! t2 = Some p2 ->
  cs p1 = true -> cs p2 = true -> t1 = t2.
Proof.
  intros H H1 H2 C1 C2.
  pose proof (cs_inv_owner _ _ _ _ H H1 C1). pose proof (cs_inv_owner _ _ _ _ H H2 C2).
  congruence.
Qed.

Lemma cs_inv_acquire thr t p p' :
  cs_inv None thr -> thr !! t = Some p -> cs p' = true -> cs_inv (Some t) (<[t := p']> thr).
Proof.
  intros H Hp Hc u. setoid_rewrite (lookup_insert_thr _ _ _ _ _ _ Hp). split.
  - intros [= <-]. eauto.
  - intros (x & [[-> ->]|[Hne Hx]] & Hcx); [done|]. by apply (cs_inv_owner _ _ _ _ H) in Hx.
Qed.

Lemma cs_inv_release thr t p p' :
  cs_inv (Some t) thr -> thr !! t = Some p -> cs p' = false -> cs_inv None (<[t := p']> thr).
Proof.
  intros H Hp Hc u. setoid_rewrite (lookup_insert_thr _ _ _ _ _ _ Hp). split; [done|].
  intros (x & [[-> ->]|[Hne Hx]] & Hcx); [congruence|].
  apply (cs_inv_owner _ _ _ _ H) in Hx; congruence.
Qed.

Lemma cs_inv_stay own thr t p p' :
  cs_inv own thr -> thr !! t = Some p -> cs p' = cs p -> cs_inv own (<[t := p']> thr).
Proof.
  intros H Hp Hc u. rewrite (H u). setoid_rewrite (lookup_insert_thr _ _ _ _ _ _ Hp).
  destruct (decide (u = t)) as [->|Hne]; [|naive_solver].
  rewrite Hp. split.
  - intros (x & [= <-] & Hx). exists p'. split; [by left|congruence].
  - intros (x & [[_ ->]|[? _]] & Hx); [|done]. exists p. split; [done|congruence].
Qed.

Lemma cs_inv_spawn own thr p : cs_inv own thr -> cs p = false -> cs_inv own (thr ++ [p]).
Proof.
  intros H Hc u. rewrite (H u). split.
  - intros (x & Hx & Hcx). exists x. split; [by apply lookup_app_l_Some|done].
  - intros (x & Hx & Hcx). apply lookup_app_Some in Hx as [Hx|[_ Hx]]; [by exists x|].
    apply list_lookup_singleton_Some in Hx as [_ <-]. congruence.
Qed.
End critical_section.

(** Sums over the threads: updating one thread changes its summand. *)
Lemma sum_list_with_insert {A} (f : A -> nat) (l : list A) i x y :
  l !! i = Some x ->
  sum_list_with f (<[i := y]> l) + f x = sum_list_with f l + f y.
Proof.
  revert i. induction l as [|a l IH]; intros [|i] Hi; simplify_eq/=; [lia|].
  specialize (IH _ Hi). lia.
Qed.

Lemma sum_list_with_app1 {A} (f : A -> nat) (l : list A) x :
  sum_list_with f (l ++ [x]) = sum_list_with f l + f x.
Proof. induction l as [|a l IH]; simpl; lia. Qed.

(** ** Mutexes that are never relocked

    In the demos no thread locks a mutex it holds, so a mutex is just its
    owner, whatever its kind. *)
Definition owned (m : mutex) (own : option nat) : Prop :=
  m_owner m = (fun t => (t, 1)) <$> own.

Lemma owned_lock m own t m' :
  owned m own -> own <> Some t -> pthread_mutex_lock t m = Some m' ->
  own = None /\ owned m' (Some t).
Proof.
  unfold owned, pthread_mutex_lock. destruct own as [o|]; simpl; intros -> Hne Hl.
  - rewrite decide_False in Hl by naive_solver. done.
  - by simplify_eq.
Qed.

Lemma owned_unlock m own t m' :
  owned m own -> pthread_mutex_unlock t m = Some m' -> own = Some t /\ owned m' None.
Proof.
  unfold owned, pthread_mutex_unlock. destruct own as [o|]; simpl; intros -> Hl; [|done].
  case_decide; by simplify_eq.
Qed.

Lemma owned_lock_free m t : owned m None -> exists m', pthread_mutex_lock t m = Some m'.
Proof. unfold owned, pthread_mutex_lock. intros ->. eauto. Qed.

Lemma owned_unlock_own m t : owned m (Some t) -> exists m', pthread_mutex_unlock t m = Some m'.
Proof. unfold owned, pthread_mutex_unlock. intros ->. simpl. rewrite decide_True; eauto. Qed.

(** A sum of bounded summands, one of which is below the bound. *)
Lemma sum_list_with_slack {A} (f : A -> nat) (B : nat) (l : list A) i x :
  (forall j y, l !! j = Some y -> f y <= B) -> l !! i = Some x ->
  sum_list_with f l + (B - f x) <= length l * B.
Proof.
  revert i. induction l as [|a l IH]; intros i Hb Hi; [done|].
  assert (f a <= B) by (apply (Hb 0); done).
  assert (Hb' : forall j y, l !! j = Some y -> f y <= B) by (intros j y Hj; by apply (Hb (S j))).
  assert (Hsum : sum_list_with f l <= length l * B).
  { clear IH Hi Hb. induction l as [|b l IH]; simpl; [lia|].
    assert (f b <= B) by (apply (Hb' 0); done).
    enough (sum_list_with f l <= length l * B) by lia.
    apply IH. intros j y Hj. by apply (Hb' (S j)). }
  destruct i as [|i]; simplify_eq/=; [lia|]. specialize (IH i Hb' Hi). lia.
Qed.

Lemma sum_list_with_const {A} (f : A -> nat) (B : nat) (l : list A) :
  (forall j y, l !! j = Some y -> f y = B) -> sum_list_with f l = length l * B.
Proof.
  induction l as [|a l IH]; intros Hb; simpl; [done|].
  rewrite (Hb 0 a) by done. rewrite IH; [done|]. intros j y Hj. by apply (Hb (S j)).
Qed.
