(* ===== verification/MainThread.v ===== *)
(** * The main thread of a demo, and demos one after the other

    src/02_threads/thread_demo.c: every demo function creates threads, joins
    them and returns, ending the process when a call fails ([CHECK], or the
    tests of [demo_basic_threads]); [main] calls the demos in order.  A [proc]
    is such a function together with the threads it starts; [proc_ok] is what
    it promises to its caller; [pseq] runs two of them one after the other, and
    [pseq_ok] derives the promise of the whole from those of the parts. *)

From S2P Require Import Prelude CLib Pthread.

Local Open Scope nat_scope.

(** ** Failed calls *)
Section report.
Context (strerror : Z -> bytes).

(** The macro [CHECK(fn, ...)] when the call returned [e]: nothing, or the line
    written to stderr before [exit(1)]. *)
Definition CHECK (fn : string) (e : Z) : option bytes :=
  if (e =? 0)%Z then None
  else Some (format [FLit fn; FLit " failed: "; FS (strerror e); FRaw [x0a]]).

(** Demo 1 has its own test, with one text for both calls, on stdout. *)
Definition error_line (i : nat) (err : Z) : bytes :=
  format [FLit "Error creating thread "; FD (Z.of_nat i); FLit ": "; FS (strerror err);
          FRaw [x0a]].

Inductive failure_line : bytes -> Prop :=
| check_failed fn e l : CHECK fn e = Some l -> failure_line l
| call_failed i e : e <> 0%Z -> failure_line (error_line i e).

(** After [exit(1)]: one line was written to stderr, or was the last one
    written to stdout. *)
Definition reported (out err : list bytes) : Prop :=
  exists l, failure_line l /\ (err = [l] \/ err = [] /\ last out = Some l).

Lemma reported_prefix o out err : reported out err -> reported (o ++ out) err.
Proof.
  intros (l & Hl & [->|[-> Ho]]); exists l; (split; [done|]); [by left|right].
  split; [done|]. by rewrite last_app, Ho.
Qed.
End report.

(** ** Functions that run threads *)

(** What a scheduled action is: a statement of the program, a call that
    returns an error, or an event of the environment (a spurious wake-up). *)
Inductive kind := Stmt | Failed | Env.

#[export] Instance kind_eq_dec : EqDecision kind.
Proof. solve_decision. Defined.

Record proc := mk_proc {
  p_state : Type;
  p_action : Type;
  p_init : p_state;
  p_step : p_action -> p_state -> option p_state;
  p_kind : p_action -> kind;
  p_ret : p_state -> bool;           (* the function has returned *)
  p_exit : p_state -> bool;          (* exit(1) was called *)
  p_out : p_state -> list bytes;     (* lines on stdout *)
  p_err : p_state -> list bytes;     (* lines on stderr *)
  p_fault : p_state -> bool;         (* an object was destroyed that a thread could still use *)
}.

Definition prun (P : proc) (sched : list (p_action P)) (s : p_state P) : Prop :=
  run (p_step P) sched (p_init P) = Some s.

(** The schedule takes the function to its return. *)
Definition returns_by (P : proc) (sched : list (p_action P)) : bool :=
  match run (p_step P) sched (p_init P) with Some s => p_ret P s | None => false end.

Lemma returns_by_prun P sched :
  returns_by P sched = true -> exists s, prun P sched s /\ p_ret P s = true.
Proof. unfold returns_by, prun. case_match; [eauto|done]. Qed.

Definition count_kind {A} (f : A -> kind) (k : kind) (sched : list A) : nat :=
  sum_list_with (fun a => if decide (f a = k) then 1 else 0) sched.

Lemma count_kind_app {A} (f : A -> kind) k l1 l2 :
  count_kind f k (l1 ++ l2) = count_kind f k l1 + count_kind f k l2.
Proof. apply sum_list_with_app. Qed.

Lemma count_kind_fmap {A B} (f : B -> kind) (g : A -> B) k l :
  count_kind f k (g <$> l) = count_kind (f ∘ g) k l.
Proof. unfold count_kind. induction l as [|a l IH]; csimpl; [done|by rewrite IH]. Qed.

(** Every step uses up work, up to three units that an event of the
    environment puts back. *)
Lemma run_env_bound {A S} (step : A -> S -> option S) (f : A -> kind) (I : S -> Prop) (m : S -> nat) :
  (forall a s s', I s -> step a s = Some s' ->
     I s' /\ m s' + 1 <= m s + 3 * count_kind f Env [a]) ->
  forall sched s s', I s -> run step sched s = Some s' ->
  I s' /\ length sched + m s' <= m s + 3 * count_kind f Env sched.
Proof.
  intros Hstep sched s s' Hs Hrun.
  assert (Hstep' : forall a s s', I s -> step a s = Some s' ->
    I s' /\ m s' < m s + 3 * count_kind f Env [a]).
  { intros a x y Hx Hy. destruct (Hstep _ _ _ Hx Hy). split; [done|lia]. }
  destruct (run_cost step I m _ Hstep' _ _ _ Hs Hrun) as [Hi Hm].
  split; [done|]. enough (sum_list_with (fun a => 3 * count_kind f Env [a]) sched
    = 3 * count_kind f Env sched) as <- by done.
  clear. unfold count_kind. induction sched as [|a l IH]; simpl in *; lia.
Qed.

(** The promise: the function runs for at most [bound] steps, three more for
    each event of the environment; as long as it has neither returned nor
    exited one of its own statements can run; when it returns its output
    satisfies [Post] and no thread of it is left; it exits only after a failed
    call, which is reported; nothing is destroyed while a thread that uses it
    has not returned. *)
Record proc_ok (strerror : Z -> bytes) (P : proc) (bound : nat) (Post : list bytes -> Prop) : Prop := {
  ok_start : p_ret P (p_init P) = false;
  ok_bound sched s : prun P sched s ->
    length sched <= bound + 3 * count_kind (p_kind P) Env sched;
  ok_progress sched s : prun P sched s ->
    p_ret P s = true \/ p_exit P s = true \/
    exists a s', p_kind P a = Stmt /\ p_step P a s = Some s';
  ok_ret sched s : prun P sched s -> p_ret P s = true ->
    Post (p_out P s) /\ p_exit P s = false /\ forall a, p_step P a s = None;
  ok_fail sched s : prun P sched s ->
    if p_exit P s then 0 < count_kind (p_kind P) Failed sched /\ reported strerror (p_out P s) (p_err P s)
    else p_err P s = [];
  ok_safe sched s : prun P sched s -> p_fault P s = false;
}.

Lemma proc_ok_mono strerror P b b' (Q R : list bytes -> Prop) :
  proc_ok strerror P b Q -> b <= b' -> (forall o, Q o -> R o) -> proc_ok strerror P b' R.
Proof.
  intros [H0 Hb Hp Hr Hf Hs] Hle Hqr. split; eauto.
  - intros sched s H. specialize (Hb _ _ H). lia.
  - intros sched s H Hret. destruct (Hr _ _ H Hret) as (? & ? & ?). eauto.
Qed.

Lemma prun_snoc P sched s a s' :
  prun P sched s -> p_step P a s = Some s' -> prun P (sched ++ [a]) s'.
Proof. unfold prun. intros H Ha. rewrite (run_app _ _ _ _ _ H). simpl. by rewrite Ha. Qed.

(** From every state reached without a failed call, the function's own
    statements lead to its return. *)
Lemma proc_ok_returns strerror P b Post sched s :
  proc_ok strerror P b Post -> prun P sched s -> count_kind (p_kind P) Failed sched = 0 ->
  exists l s', run (p_step P) l s = Some s' /\ Forall (fun a => p_kind P a = Stmt) l /\
    p_ret P s' = true /\ Post (p_out P s').
Proof.
  intros Hok. remember (b + 3 * count_kind (p_kind P) Env sched - length sched) as k eqn:Ek.
  revert sched s Ek. induction (lt_wf k) as [k _ IH]. intros sched s -> Hrun Hx.
  pose proof (ok_fail _ _ _ _ Hok _ _ Hrun) as Hf.
  destruct (ok_progress _ _ _ _ Hok _ _ Hrun) as [Hr|[He|(a & s1 & Ha & Hs)]].
  - exists [], s. destruct (ok_ret _ _ _ _ Hok _ _ Hrun Hr). by split_and!.
  - rewrite He in Hf. lia.
  - pose proof (prun_snoc _ _ _ _ _ Hrun Hs) as Hrun1.
    pose proof (ok_bound _ _ _ _ Hok _ _ Hrun1) as Hl.
    assert (Hc : forall k, k <> Stmt ->
      count_kind (p_kind P) k (sched ++ [a]) = count_kind (p_kind P) k sched).
    { intros k Hk. rewrite count_kind_app. unfold count_kind at 2. simpl.
      rewrite decide_False by congruence. lia. }
    rewrite Hc, length_app in Hl by done. simpl in Hl.
    destruct (IH (b + 3 * count_kind (p_kind P) Env (sched ++ [a]) - length (sched ++ [a])))
      with (sched := sched ++ [a]) (s := s1) as (l & s' & Hl' & Hall & Hr & Hp);
      [|done|done|by rewrite Hc|].
    { rewrite Hc, length_app by done. simpl. lia. }
    exists (a :: l), s'. simpl. rewrite Hs. split_and!; try done. by constructor.
Qed.

(** ** One after the other *)
Section pseq.
Context (P Q : proc).

(** The second function starts when the first has returned. *)
Definition pseq_step (a : p_action P + p_action Q) (s : p_state P + p_state P * p_state Q)
  : option (p_state P + p_state P * p_state Q) :=
  match a, s with
  | inl a, inl p => p' ← p_step P a p; Some (inl p')
  | inr b, inl p =>
      if p_ret P p then q' ← p_step Q b (p_init Q); Some (inr (p, q')) else None
  | inr b, inr (p, q) => q' ← p_step Q b q; Some (inr (p, q'))
  | inl a, inr (p, q) => p' ← p_step P a p; Some (inr (p', q))
  end.

Definition pseq : proc :=
  mk_proc (p_state P + p_state P * p_state Q) (p_action P + p_action Q)
    (inl (p_init P)) pseq_step
    (fun a => match a with inl a => p_kind P a | inr b => p_kind Q b end)
    (fun s => match s with inl _ => false | inr (_, q) => p_ret Q q end)
    (fun s => match s with inl p => p_exit P p | inr (_, q) => p_exit Q q end)
    (fun s => match s with inl p => p_out P p | inr (p, q) => p_out P p ++ p_out Q q end)
    (fun s => match s with inl p => p_err P p | inr (p, q) => p_err P p ++ p_err Q q end)
    (fun s => match s with inl p => p_fault P p | inr (p, q) => p_fault P p || p_fault Q q end).

Lemma count_kind_pseq k l1 l2 :
  count_kind (p_kind pseq) k ((inl <$> l1) ++ (inr <$> l2))
  = count_kind (p_kind P) k l1 + count_kind (p_kind Q) k l2.
Proof. rewrite count_kind_app. f_equal; apply count_kind_fmap. Qed.

(** A schedule of the whole is one of the first part and one of the second. *)
Definition pseq_split (sched : list (p_action P + p_action Q)) (s : p_state pseq) : Prop :=
  match s with
  | inl p => exists l1, sched = inl <$> l1 /\ prun P l1 p
  | inr (p, q) => exists l1 l2, sched = (inl <$> l1) ++ (inr <$> l2) /\ prun P l1 p /\
                    p_ret P p = true /\ prun Q l2 q
  end.

Lemma pseq_run_split strerror b Post sched s :
  proc_ok strerror P b Post -> prun pseq sched s -> pseq_split sched s.
Proof.
  intros Hok. revert sched s. apply run_trace_ind; [by exists []|].
  intros sched s0 c s1 _ IH Es. simpl in Es.
  destruct c as [a|b'], s0 as [p|[p q]]; simpl in Es.
  - destruct (p_step P a p) as [p'|] eqn:Ep; simplify_eq/=. destruct IH as (l1 & -> & H1).
    exists (l1 ++ [a]). rewrite fmap_app. split; [done|]. by eapply prun_snoc.
  - destruct (p_step P a p) as [p'|] eqn:Ep; simplify_eq/=.
    destruct IH as (l1 & l2 & _ & H1 & Hr & _).
    destruct (ok_ret _ _ _ _ Hok _ _ H1 Hr) as (_ & _ & Hq). by rewrite Hq in Ep.
  - destruct (p_ret P p) eqn:Hr; [|done].
    destruct (p_step Q b' (p_init Q)) as [q'|] eqn:Eq; simplify_eq/=.
    destruct IH as (l1 & -> & H1). exists l1, [b']. split_and!; try done.
    unfold prun. simpl. by rewrite Eq.
  - destruct (p_step Q b' q) as [q'|] eqn:Eq; simplify_eq/=.
    destruct IH as (l1 & l2 & -> & H1 & Hr & H2). exists l1, (l2 ++ [b']).
    rewrite fmap_app, (assoc_L (++)). split_and!; try done. by eapply prun_snoc.
Qed.

Definition then_post (R1 R2 : list bytes -> Prop) (o : list bytes) : Prop :=
  exists o1 o2, o = o1 ++ o2 /\ R1 o1 /\ R2 o2.

Lemma pseq_ok strerror b1 b2 R1 R2 :
  proc_ok strerror P b1 R1 -> proc_ok strerror Q b2 R2 ->
  proc_ok strerror pseq (b1 + b2) (then_post R1 R2).
Proof.
  intros HP HQ. split.
  - done.
  - intros sched s Hrun. pose proof (pseq_run_split _ _ _ _ _ HP Hrun) as Hs.
    destruct s as [p|[p q]].
    + destruct Hs as (l1 & -> & H1). pose proof (ok_bound _ _ _ _ HP _ _ H1).
      pose proof (count_kind_pseq Env l1 []) as Hc. simpl in Hc. rewrite app_nil_r in Hc.
      simpl in *. rewrite Hc, length_fmap. lia.
    + destruct Hs as (l1 & l2 & -> & H1 & _ & H2).
      pose proof (ok_bound _ _ _ _ HP _ _ H1). pose proof (ok_bound _ _ _ _ HQ _ _ H2).
      rewrite count_kind_pseq, length_app, !length_fmap. lia.
  - intros sched s Hrun. pose proof (pseq_run_split _ _ _ _ _ HP Hrun) as Hs.
    destruct s as [p|[p q]]; simpl.
    + destruct Hs as (l1 & -> & H1).
      destruct (ok_progress _ _ _ _ HP _ _ H1) as [Hr|[?|(a & p' & Ha & Hp)]]; [|eauto|].
      * destruct (ok_progress _ _ _ _ HQ [] _ eq_refl) as [Hr2|[Hx|(a & q' & Ha & Hq)]].
        -- rewrite (ok_start _ _ _ _ HQ) in Hr2. done.
        -- pose proof (ok_fail _ _ _ _ HQ [] _ eq_refl) as Hf. rewrite Hx in Hf.
           unfold count_kind in Hf. simpl in Hf. lia.
        -- right; right. exists (inr a), (inr (p, q')). simpl. by rewrite Hr, Hq.
      * right; right. exists (inl a), (inl p'). simpl. by rewrite Hp.
    + destruct Hs as (l1 & l2 & -> & H1 & _ & H2).
      destruct (ok_progress _ _ _ _ HQ _ _ H2) as [?|[?|(a & q' & Ha & Hq)]]; [eauto|eauto|].
      right; right. exists (inr a), (inr (p, q')). simpl. by rewrite Hq.
  - intros sched s Hrun Hret. pose proof (pseq_run_split _ _ _ _ _ HP Hrun) as Hs.
    destruct s as [p|[p q]]; [done|]. simpl in *.
    destruct Hs as (l1 & l2 & -> & H1 & Hr & H2).
    destruct (ok_ret _ _ _ _ HP _ _ H1 Hr) as (HR1 & _ & Hq1).
    destruct (ok_ret _ _ _ _ HQ _ _ H2 Hret) as (HR2 & Hx & Hq2).
    split_and!; [by exists (p_out P p), (p_out Q q)|done|].
    intros [a|b]; simpl; by rewrite ?Hq1, ?Hq2.
  - intros sched s Hrun. pose proof (pseq_run_split _ _ _ _ _ HP Hrun) as Hs.
    destruct s as [p|[p q]]; simpl.
    + destruct Hs as (l1 & -> & H1). pose proof (ok_fail _ _ _ _ HP _ _ H1) as Hf.
      pose proof (count_kind_pseq Failed l1 []) as Hc. simpl in Hc. rewrite app_nil_r in Hc.
      rewrite Hc. case_match; [|done]. destruct Hf. split; [lia|done].
    + destruct Hs as (l1 & l2 & -> & H1 & Hr & H2).
      pose proof (ok_fail _ _ _ _ HP _ _ H1) as Hf1. pose proof (ok_fail _ _ _ _ HQ _ _ H2) as Hf2.
      destruct (ok_ret _ _ _ _ HP _ _ H1 Hr) as (_ & Hx & _). rewrite Hx in Hf1.
      pose proof (count_kind_pseq Failed l1 l2) as Hc. simpl in Hc. rewrite Hc, Hf1. simpl.
      case_match; [|done]. destruct Hf2. split; [lia|by apply reported_prefix].
  - intros sched s Hrun. pose proof (pseq_run_split _ _ _ _ _ HP Hrun) as Hs.
    destruct s as [p|[p q]]; simpl.
    + destruct Hs as (l1 & -> & H1). exact (ok_safe _ _ _ _ HP _ _ H1).
    + destruct Hs as (l1 & l2 & -> & H1 & _ & H2).
      by rewrite (ok_safe _ _ _ _ HP _ _ H1), (ok_safe _ _ _ _ HQ _ _ H2).
Qed.
End pseq.

(** A statement of its own: [printf] of one line. *)
Definition puts (l : bytes) : proc :=
  mk_proc bool unit false
    (fun _ s => if s then None else Some true) (fun _ => Stmt) (fun s => s) (fun _ => false)
    (fun s => if s then [l] else []) (fun _ => []) (fun _ => false).

Lemma puts_ok strerror l : proc_ok strerror (puts l) 1 (fun o => o = [l]).
Proof.
  split; try done.
  - intros [|a [|b sched]] s H; unfold prun in H; simpl in *; simplify_eq; lia.
  - intros sched [|] H; [by left|]. right; right. by exists tt, true.
  - intros sched [|] H Hr; done.
Qed.

(** ** Threads under a main thread that creates and joins them *)

(** The threads' machine with every thread at its first statement.  [w_who a]
    are the threads that take part in [a]; they must have been created. *)
Record workers := mk_workers {
  w_state : Type;
  w_action : Type;
  w_init : w_state;
  w_step : w_action -> w_state -> option w_state;
  w_kind : w_action -> kind;
  w_who : w_action -> list nat;
  w_done : w_state -> nat -> bool;      (* the thread has returned *)
  w_lines : w_state -> list bytes;      (* what the threads printed *)
}.

(** The main thread's statements: [pthread_create] and [pthread_join] under
    [CHECK], and the destruction of what threads 0 .. n-1 synchronise with. *)
Inductive mstmt := Create (t : nat) | Join (t : nat) | Destroy (n : nat).

#[export] Instance mstmt_eq_dec : EqDecision mstmt.
Proof. solve_decision. Defined.

Section demo.
Context (strerror : Z -> bytes) (W : workers) (title : bytes) (body : list mstmt).

(** [past] are the statements executed, the last one first; [fault] records
    that something was destroyed before the threads that use it returned. *)
Record dstate := mk_dstate {
  d_past : list mstmt;
  d_todo : list mstmt;
  d_w : w_state W;
  d_exit : option bytes;
  d_fault : bool;
}.

Inductive daction := Main (err : Z) | Thr (a : w_action W).

Definition all_done (n : nat) (w : w_state W) : bool := forallb (w_done W w) (seq 0 n).

Definition started (past : list mstmt) (t : nat) : bool := bool_decide (Create t ∈ past).

(** A failed call ends the process (the line on stderr and the [exit] are one
    step).  [pthread_join] waits for the thread; [sem_destroy] does not wait:
    with a thread that may still use the object its effect is undefined, which
    is recorded as a fault. *)
Definition main_step (err : Z) (d : dstate) : option dstate :=
  let go c r := Some (mk_dstate (c :: d_past d) r (d_w d) None (d_fault d)) in
  let quit l := Some (mk_dstate (d_past d) (d_todo d) (d_w d) (Some l) (d_fault d)) in
  match d_todo d with
  | [] => None
  | Create t :: r =>
      match CHECK strerror "pthread_create" err with Some l => quit l | None => go (Create t) r end
  | Join t :: r =>
      match CHECK strerror "pthread_join" err with
      | Some l => quit l
      | None => if w_done W (d_w d) t then go (Join t) r else None
      end
  | Destroy n :: r =>
      Some (mk_dstate (Destroy n :: d_past d) r (d_w d) None
              (d_fault d || negb (all_done n (d_w d))))
  end.

Definition demo_step (a : daction) (d : dstate) : option dstate :=
  match d_exit d, a with
  | Some _, _ => None
  | None, Main err => main_step err d
  | None, Thr a =>
      if forallb (started (d_past d)) (w_who W a)
      then w' ← w_step W a (d_w d); Some (mk_dstate (d_past d) (d_todo d) w' None (d_fault d))
      else None
  end.

Definition demo : proc :=
  mk_proc dstate daction (mk_dstate [] body (w_init W) None false) demo_step
    (fun a => match a with Main e => if (e =? 0)%Z then Stmt else Failed | Thr a => w_kind W a end)
    (fun d => bool_decide (d_todo d = []) && negb (bool_decide (is_Some (d_exit d))))
    (fun d => bool_decide (is_Some (d_exit d)))
    (fun d => title :: w_lines W (d_w d))
    (fun d => option_list (d_exit d)) d_fault.
End demo.

(** What the threads promise to the main thread: their steps are bounded; one
    of them can move unless all have returned; a thread that has returned
    stays so, and when all have, nothing moves and the lines satisfy [Post]. *)
Class WorkersOk (W : workers) (n bound : nat) (Post : list bytes -> Prop) : Prop := {
  wo_bound sched s : run (w_step W) sched (w_init W) = Some s ->
    length sched <= bound + 3 * count_kind (w_kind W) Env sched;
  wo_progress sched s : run (w_step W) sched (w_init W) = Some s ->
    (forall t, t < n -> w_done W s t = true) \/
    exists a s', w_kind W a = Stmt /\ w_step W a s = Some s';
  wo_who sched s a s' : run (w_step W) sched (w_init W) = Some s -> w_step W a s = Some s' ->
    Forall (fun t => t < n) (w_who W a);
  wo_stays sched s a s' t : run (w_step W) sched (w_init W) = Some s -> w_step W a s = Some s' ->
    w_done W s t = true -> w_done W s' t = true;
  wo_quiet sched s : run (w_step W) sched (w_init W) = Some s ->
    (forall t, t < n -> w_done W s t = true) -> forall a, w_step W a s = None;
  wo_post sched s : run (w_step W) sched (w_init W) = Some s ->
    (forall t, t < n -> w_done W s t = true) -> Post (w_lines W s);
  wo_kind a : w_kind W a <> Failed;
}.

(** A body for threads 0 .. n-1: all are created before one is joined, all are
    joined before anything is destroyed and before the function returns. *)
Fixpoint body_ok (n : nat) (past todo : list mstmt) : bool :=
  match todo with
  | [] => forallb (fun t => bool_decide (Join t ∈ past)) (seq 0 n)
  | Create t :: r => body_ok n (Create t :: past) r
  | Join t :: r =>
      (t <? n) && forallb (started past) (seq 0 n) && body_ok n (Join t :: past) r
  | Destroy m :: r =>
      (m <=? n) && forallb (fun t => bool_decide (Join t ∈ past)) (seq 0 n) &&
      body_ok n (Destroy m :: past) r
  end.

(** The usual body: create threads 0 .. n-1, then join them. *)
Definition create_join (n : nat) : list mstmt := (Create <$> seq 0 n) ++ (Join <$> seq 0 n).

Lemma body_ok_creates n past l r :
  body_ok n past ((Create <$> l) ++ r) = body_ok n (reverse (Create <$> l) ++ past) r.
Proof.
  revert past. induction l as [|t l IH]; intros past; [done|]. csimpl.
  rewrite IH, reverse_cons, <- (assoc_L (++)). done.
Qed.

Lemma body_ok_joins n past l :
  (forall t, t ∈ l -> t < n) -> (forall t, t < n -> Create t ∈ past) ->
  (forall t, t < n -> t ∈ l \/ Join t ∈ past) -> body_ok n past (Join <$> l) = true.
Proof.
  revert past. induction l as [|t l IH]; intros past Hl Hc Hj; csimpl.
  - apply forallb_forall. intros t Ht%in_seq. apply bool_decide_eq_true.
    destruct (Hj t) as [Hin|?]; [lia|by apply not_elem_of_nil in Hin|done].
  - rewrite !andb_true_iff. split_and!.
    + apply Nat.ltb_lt, Hl. by left.
    + apply forallb_forall. intros u Hu%in_seq. apply bool_decide_eq_true, Hc. lia.
    + apply IH; [set_solver..|]. intros u Hu. destruct (Hj u Hu) as [[->|?]%elem_of_cons|?]; set_solver.
Qed.

Lemma create_join_ok n : body_ok n [] (create_join n) = true.
Proof.
  unfold create_join. rewrite body_ok_creates, app_nil_r. apply body_ok_joins.
  - intros t Ht. apply elem_of_seq in Ht. lia.
  - intros t Ht. apply elem_of_reverse, list_elem_of_fmap. exists t. split; [done|]. apply elem_of_seq. lia.
  - intros t Ht. left. apply elem_of_seq. lia.
Qed.

(** The demo's title, then lines of the threads. *)
Definition titled (title : bytes) (Post : list bytes -> Prop) (o : list bytes) : Prop :=
  exists ls, o = title :: ls /\ Post ls.

Section demo_ok.
Context (strerror : Z -> bytes) (W : workers) (title : bytes) (body : list mstmt).
Context (n bound : nat) (Post : list bytes -> Prop) `{!WorkersOk W n bound Post}.

Local Abbreviation D := (demo strerror W title body).

Lemma forallb_seq (f : nat -> bool) k :
  forallb f (seq 0 k) = true <-> forall t, t < k -> f t = true.
Proof.
  rewrite forallb_forall. split.
  - intros H t Ht. apply H. apply in_seq. lia.
  - intros H t Ht. apply H. apply in_seq in Ht. lia.
Qed.

(** A state reached by the demo: the threads' machine is where some schedule of
    its own takes it, and the joined threads have returned. *)
Record demo_inv (sched : list (p_action D)) (d : p_state D) : Prop := {
  di_run : exists wsched, run (w_step W) wsched (w_init W) = Some (d_w _ d) /\
    length sched <= length wsched + length (d_past _ d) + length (option_list (d_exit _ d)) /\
    count_kind (w_kind W) Env wsched <= count_kind (p_kind D) Env sched;
  di_body : reverse (d_past _ d) ++ d_todo _ d = body;
  di_ok : body_ok n (d_past _ d) (d_todo _ d) = true;
  di_joined : forall t, Join t ∈ d_past _ d -> w_done W (d_w _ d) t = true;
  di_exit : forall l, d_exit _ d = Some l ->
    d_todo _ d <> [] /\ 0 < count_kind (p_kind D) Failed sched /\ failure_line strerror l;
  di_fault : d_fault _ d = false;
}.

Lemma demo_inv_start : body_ok n [] body = true -> demo_inv [] (p_init D).
Proof.
  intros Hb. split; simpl; try done.
  - exists []. unfold count_kind. simpl. split_and!; [done|lia|lia].
  - intros t Ht. by apply not_elem_of_nil in Ht.
Qed.

Lemma CHECK_Some fn e l :
  CHECK strerror fn e = Some l -> (e =? 0)%Z = false /\ failure_line strerror l.
Proof.
  intros H. split; [|by econstructor]. unfold CHECK in H. by destruct (e =? 0)%Z.
Qed.

Lemma count_snoc {A} (f : A -> kind) k l a :
  count_kind f k (l ++ [a]) = count_kind f k l + (if decide (f a = k) then 1 else 0).
Proof. rewrite count_kind_app. unfold count_kind at 2. simpl. lia. Qed.

(** The main thread leaves the process. *)
Lemma demo_inv_quit sched d e fn l :
  demo_inv sched d -> d_exit _ d = None -> d_todo _ d <> [] -> CHECK strerror fn e = Some l ->
  demo_inv (sched ++ [Main _ e]) (mk_dstate _ (d_past _ d) (d_todo _ d) (d_w _ d) (Some l) (d_fault _ d)).
Proof.
  intros [(ws & Hw & Hl & Hc) Hb Hok Hj _ Hf] Hx Ht HC. apply CHECK_Some in HC as [He HF].
  rewrite Hx in Hl. simpl in Hl. split; simpl; try done.
  - exists ws. rewrite length_app, count_snoc. cbn [length]. split_and!; [done|simpl; lia|by etransitivity; [exact Hc|apply Nat.le_add_r]].
  - intros l' [= <-]. split_and!; [done| |done]. rewrite count_snoc. simpl. rewrite He.
    rewrite decide_True by done. lia.
Qed.

(** The main thread executes its next statement. *)
Lemma demo_inv_go sched d e c r :
  demo_inv sched d -> d_exit _ d = None -> d_todo _ d = c :: r ->
  body_ok n (c :: d_past _ d) r = true ->
  (forall t, c = Join t -> w_done W (d_w _ d) t = true) ->
  demo_inv (sched ++ [Main _ e]) (mk_dstate _ (c :: d_past _ d) r (d_w _ d) None (d_fault _ d)).
Proof.
  intros [(ws & Hw & Hl & Hc) Hb Hok Hj _ Hf] Hx Ht Hok' Hd. rewrite Hx in Hl. simpl in Hl.
  split; simpl; try done.
  - exists ws. rewrite length_app, count_snoc. cbn [length]. split_and!; [done|simpl; lia|by etransitivity; [exact Hc|apply Nat.le_add_r]].
  - rewrite reverse_cons, <- (assoc_L (++)). simpl. by rewrite <- Ht.
  - intros t [Hin|Hin]%elem_of_cons; [by apply Hd|by apply Hj].
Qed.

(** Once all are joined, all have returned. *)
Lemma joined_all_done sched d m :
  demo_inv sched d -> (m <=? n) = true ->
  forallb (fun t => bool_decide (Join t ∈ d_past _ d)) (seq 0 n) = true ->
  negb (all_done W m (d_w _ d)) = false.
Proof.
  intros Hi Hm%Nat.leb_le Hall. rewrite forallb_seq in Hall. apply negb_false_iff, forallb_seq.
  intros t Ht. apply (di_joined _ _ Hi). apply (bool_decide_eq_true (Join t ∈ d_past _ d)), Hall. lia.
Qed.

Lemma demo_inv_main sched d e d' :
  demo_inv sched d -> d_exit _ d = None -> main_step strerror W e d = Some d' ->
  demo_inv (sched ++ [Main _ e]) d'.
Proof.
  intros Hi Hx Hs. pose proof (di_ok _ _ Hi) as Hok. unfold main_step in Hs.
  destruct (d_todo _ d) as [|[t|t|m] r] eqn:Et; [done|..]; simpl in Hok.
  - destruct (CHECK _ _ _) eqn:HC; simplify_eq.
    + rewrite <- Et. eapply demo_inv_quit; eauto. by rewrite Et.
    + eapply demo_inv_go; eauto. done.
  - destruct (CHECK _ _ _) eqn:HC; [|destruct (w_done _ _ t) eqn:Hd]; simplify_eq.
    + rewrite <- Et. eapply demo_inv_quit; eauto. by rewrite Et.
    + zbool. eapply demo_inv_go; eauto. by intros ? [= <-].
  - zbool. rewrite (joined_all_done _ _ m Hi), orb_false_r in Hs by done. simplify_eq.
    eapply demo_inv_go; eauto. done.
Qed.

Lemma demo_inv_thr sched d a w' :
  demo_inv sched d -> d_exit _ d = None -> w_step W a (d_w _ d) = Some w' ->
  demo_inv (sched ++ [Thr _ a]) (mk_dstate _ (d_past _ d) (d_todo _ d) w' None (d_fault _ d)).
Proof.
  intros [(ws & Hw & Hl & Hc) Hb Hok Hj _ Hf] Hx Ha. rewrite Hx in Hl. split; simpl in *; try done.
  - exists (ws ++ [a]). rewrite (run_app _ _ _ _ _ Hw). simpl. rewrite Ha.
    rewrite !length_app, !count_snoc. simpl. split_and!; [done|lia|].
    by apply Nat.add_le_mono_r.
  - intros t Ht. eapply wo_stays; eauto.
Qed.

Lemma demo_reaches sched d :
  body_ok n [] body = true -> prun D sched d -> demo_inv sched d.
Proof.
  intros Hb. revert sched d. apply run_trace_ind; [by apply demo_inv_start|].
  intros sched d a d' _ Hi Hs. simpl in Hs. unfold demo_step in Hs.
  destruct (d_exit _ d) eqn:Hx; [done|]. destruct a as [e|a].
  - by eapply demo_inv_main.
  - destruct (forallb _ _); [|done]. destruct (w_step W a (d_w _ d)) eqn:Ha; simplify_eq/=.
    by apply demo_inv_thr.
Qed.

(** When the main thread has executed its body, all threads have returned. *)
Lemma demo_joined_all sched d :
  demo_inv sched d -> d_todo _ d = [] -> forall t, t < n -> w_done W (d_w _ d) t = true.
Proof.
  intros [_ _ Hok Hj _ _] Ht t Hlt. rewrite Ht in Hok. simpl in Hok. rewrite forallb_seq in Hok.
  apply Hj. by apply (bool_decide_eq_true (Join t ∈ d_past _ d)), Hok.
Qed.

(** Before that it can move, or it waits for a thread and all are created. *)
Lemma demo_main_waits sched d :
  demo_inv sched d -> d_exit _ d = None -> d_todo _ d <> [] ->
  (exists d', main_step strerror W 0 d = Some d') \/
  (exists t, t < n /\ w_done W (d_w _ d) t = false) /\ (forall t, t < n -> started (d_past _ d) t = true).
Proof.
  intros [_ _ Hok Hj _ _] Hx Hne. unfold main_step.
  destruct (d_todo _ d) as [|[t|t|m] r]; [done|..]; simpl in Hok |- *.
  - left. eauto.
  - destruct (w_done W (d_w _ d) t) eqn:Hd; [left; eauto|right].
    zbool. rewrite forallb_seq in *. split; [exists t; split; [by apply Nat.ltb_lt|done]|done].
  - left. eauto.
Qed.

Lemma demo_bounded sched d :
  demo_inv sched d -> length sched <= length body + bound + 3 * count_kind (p_kind D) Env sched.
Proof.
  intros [(ws & Hw & Hl & Hc) Hbd _ _ Hx _]. pose proof (wo_bound _ _ Hw) as Hwb.
  apply (f_equal length) in Hbd. rewrite length_app, length_reverse in Hbd.
  assert (length (option_list (d_exit _ d)) <= length (d_todo _ d)); [|lia].
  destruct (d_exit _ d) as [l|]; simpl; [|lia]. destruct (Hx l eq_refl) as [? _].
  destruct (d_todo _ d); [done|simpl; lia].
Qed.

Lemma main_progress sched d :
  demo_inv sched d -> d_exit _ d = None -> d_todo _ d <> [] ->
  exists a d', p_kind D a = Stmt /\ p_step D a d = Some d'.
Proof.
  intros Hi Hx Ht. destruct (demo_main_waits _ _ Hi Hx Ht) as [[d' Hd]|[(t & Hlt & Hd) Hst]].
  - exists (Main _ 0), d'. simpl. unfold demo_step. by rewrite Hx.
  - destruct (di_run _ _ Hi) as (ws & Hw & _).
    destruct (wo_progress _ _ Hw) as [Hall|(a & w' & Ha & Hs)]; [by rewrite Hall in Hd|].
    exists (Thr _ a), (mk_dstate _ (d_past _ d) (d_todo _ d) w' None (d_fault _ d)). split; [done|].
    simpl. unfold demo_step. rewrite Hx, Hs.
    assert (forallb (started (d_past _ d)) (w_who W a) = true) as ->; [|done].
    apply forallb_forall. intros u Hu. apply Hst. pose proof (wo_who _ _ _ _ Hw Hs) as Hf.
    rewrite Forall_forall in Hf. apply Hf. by apply list_elem_of_In.
Qed.

Lemma demo_ok :
  body_ok n [] body = true -> body <> [] ->
  proc_ok strerror D (length body + bound) (titled title Post).
Proof.
  intros Hb Hne. split.
  - simpl. by rewrite bool_decide_false.
  - intros sched d Hrun. exact (demo_bounded _ _ (demo_reaches _ _ Hb Hrun)).
  - intros sched d Hrun. pose proof (demo_reaches _ _ Hb Hrun) as Hi. simpl.
    destruct (d_exit _ d) as [l|] eqn:Hx; [right; left; by rewrite bool_decide_true|].
    destruct (decide (d_todo _ d = [])) as [Ht|Ht].
    + left. by rewrite (bool_decide_true (d_todo _ d = [])), bool_decide_false by (done || by intros []).
    + right; right. by eapply main_progress.
  - intros sched d Hrun [Ht Hx]%andb_true_iff. pose proof (demo_reaches _ _ Hb Hrun) as Hi.
    apply bool_decide_eq_true in Ht. apply negb_true_iff, bool_decide_eq_false in Hx.
    apply eq_None_not_Some in Hx. pose proof (demo_joined_all _ _ Hi Ht) as Hall.
    destruct (di_run _ _ Hi) as (ws & Hw & _). simpl. rewrite Hx.
    split_and!; [exists (w_lines W (d_w _ d)); split; [done|by eapply wo_post]|done|].
    intros [e|a]; unfold demo_step; rewrite Hx.
    + unfold main_step. by rewrite Ht.
    + case_match; [|done]. by rewrite (wo_quiet _ _ Hw Hall).
  - intros sched d Hrun. destruct (demo_reaches _ _ Hb Hrun) as [_ _ _ _ Hx _]. simpl.
    destruct (d_exit _ d) as [l|]; simpl; [|done]. destruct (Hx l eq_refl) as (_ & Hc & HF).
    split; [done|]. exists l. split; [done|by left].
  - intros sched d Hrun. exact (di_fault _ _ (demo_reaches _ _ Hb Hrun)).
Qed.
End demo_ok.

(** The threads of a demo do what their machine does on its own. *)
Lemma demo_workers_run strerror W title body sched d :
  prun (demo strerror W title body) sched d ->
  exists wsched, run (w_step W) wsched (w_init W) = Some (d_w _ d).
Proof.
  revert sched d. apply run_trace_ind; [by exists []|].
  intros sched d a d' _ [ws Hw] Hs. simpl in Hs. unfold demo_step in Hs.
  destruct (d_exit _ d); [done|]. destruct a as [e|a].
  - exists ws. rewrite Hw. f_equal. unfold main_step in Hs. by repeat case_match; simplify_eq/=.
  - case_match; [|done]. destruct (w_step W a (d_w _ d)) eqn:Ha; simplify_eq/=.
    exists (ws ++ [a]). rewrite (run_app _ _ _ _ _ Hw). simpl. by rewrite Ha.
Qed.
