(* ===== verification/ThreadCounter.v ===== *)
(** * The mutex-protected counter

    src/02_threads/thread_demo.c, Demo 2: [counter_increment] in [N] threads
    and [demo_mutex] that creates them, joins them and prints.  The increment
    [g_counter++] is a load and a store, so that the mutex has something to
    protect; every interleaving is a schedule. *)

From S2P Require Import Prelude CLib Pthread MainThread.

Local Open Scope nat_scope.

(** One thread: its place in the loop body of [counter_increment], with the
    loop index [i]. *)
Inductive pc :=
| CLock (i : nat)              (* pthread_mutex_lock(mutex) *)
| CLoad (i : nat)              (* read g_counter *)
| CStore (i : nat) (v : Z)     (* g_counter = v + 1 *)
| CUnlock (i : nat)            (* pthread_mutex_unlock(mutex) *)
| CDone.                       (* return NULL *)

#[export] Instance pc_eq_dec : EqDecision pc.
Proof. solve_decision. Defined.

(** [demo_mutex] itself: creating thread [i], joining thread [i], or finished;
    [CHECK] exits the process when a call fails. *)
Inductive main_pc := MCreate (i : nat) | MJoin (i : nat) | MDone | MExit.

#[export] Instance main_pc_eq_dec : EqDecision main_pc.
Proof. solve_decision. Defined.

Record state := mk_state {
  g_counter : Z;             (* long *)
  g_mutex : mutex;
  thr : list pc;             (* the threads created so far *)
  mpc : main_pc;
  out : list bytes;
  errs : list bytes;         (* stderr *)
}.

(** [Main e]: the main thread's next statement, whose pthread call, if it is
    one, returns [e]. *)
Inductive action := Main (e : Z) | Thr (t : nat).

Definition kind_of (a : action) : kind :=
  match a with Main e => if (e =? 0)%Z then Stmt else Failed | Thr _ => Stmt end.

Section demo.
Context (strerror : Z -> bytes) (N ITERS : nat).

(** The head of the [for] loop: one more iteration, or return. *)
Definition loop_head (i : nat) : pc := if i <? ITERS then CLock i else CDone.

Definition counter_increment (t : nat) (p : pc) (s : state) : option state :=
  let go c m p' := Some (mk_state c m (<[t := p']> (thr s)) (mpc s) (out s) (errs s)) in
  match p with
  | CLock i => match pthread_mutex_lock t (g_mutex s) with
               | Some m => go (g_counter s) m (CLoad i)
               | None => None
               end
  | CLoad i => go (g_counter s) (g_mutex s) (CStore i (g_counter s))
  | CStore i v => go (wrapS 64 (v + 1)) (g_mutex s) (CUnlock i)
  | CUnlock i => match pthread_mutex_unlock t (g_mutex s) with
                 | Some m => go (g_counter s) m (loop_head (S i))
                 | None => None
                 end
  | CDone => None
  end.

Definition result_line (c : Z) : bytes :=
  format [FLit "Expected: "; FD (Z.of_nat N * Z.of_nat ITERS); FLit "  Got: "; FD c; FLit "  ";
          FLit (if (c =? Z.of_nat N * Z.of_nat ITERS)%Z then "✓ CORRECT" else "✗ RACE DETECTED");
          FRaw [x0a]].

Definition demo_mutex (e : Z) (s : state) : option state :=
  let go thr' m out' := Some (mk_state (g_counter s) (g_mutex s) thr' m out' (errs s)) in
  let quit l := Some (mk_state (g_counter s) (g_mutex s) (thr s) MExit (out s) (errs s ++ [l])) in
  match mpc s with
  | MCreate i =>
      if i <? N then
        match CHECK strerror "pthread_create" e with
        | None => go (thr s ++ [loop_head 0]) (MCreate (S i)) (out s)
        | Some l => quit l
        end
      else go (thr s) (MJoin 0) (out s)
  | MJoin i =>
      if i <? N then
        match CHECK strerror "pthread_join" e with
        | None =>
            match thr s !! i with
            | Some CDone => go (thr s) (MJoin (S i)) (out s)
            | _ => None
            end
        | Some l => quit l
        end
      else go (thr s) MDone (out s ++ [result_line (g_counter s)])
  | MDone | MExit => None
  end.

(** After [exit] no thread runs. *)
Definition step (a : action) (s : state) : option state :=
  match mpc s, a with
  | MExit, _ => None
  | _, Main e => demo_mutex e s
  | _, Thr t => match thr s !! t with Some p => counter_increment t p s | None => None end
  end.

(** [demo_mutex] before its first [pthread_create]: the mutex is initialised
    with the attribute the code sets. *)
Definition demo_attr : mutexattr :=
  pthread_mutexattr_settype pthread_mutexattr_init PTHREAD_PROCESS_SHARED.

Definition title : bytes := format (separator "Demo 2: Mutex — Shared Counter").

Definition init : state :=
  mk_state 0 (pthread_mutex_init demo_attr) [] (MCreate 0) [title] [].

(** ** The invariant *)

Definition in_cs (p : pc) : bool :=
  match p with CLoad _ | CStore _ _ | CUnlock _ => true | _ => false end.

(** Increments a thread has completed. *)
Definition completed (p : pc) : nat :=
  match p with
  | CLock i | CLoad i | CStore i _ => i
  | CUnlock i => S i
  | CDone => ITERS
  end.

Definition pc_ok (c : Z) (p : pc) : Prop :=
  match p with
  | CLock i | CLoad i | CUnlock i => i < ITERS
  | CStore i v => i < ITERS /\ v = c
  | CDone => True
  end.

Definition total (s : state) : nat := sum_list_with completed (thr s).

Definition main_ok (s : state) : Prop :=
  match mpc s with
  | MCreate i => length (thr s) = i /\ i <= N
  | MJoin i => length (thr s) = N /\ i <= N /\ (forall t, t < i -> thr s !! t = Some CDone)
  | MDone => length (thr s) = N /\ (forall t, t < N -> thr s !! t = Some CDone) /\
             out s = [title; result_line (Z.of_nat N * Z.of_nat ITERS)]
  | MExit => True
  end.

Record inv (s : state) : Prop := {
  inv_cs : exists own, owned (g_mutex s) own /\ cs_inv in_cs own (thr s);
  inv_count : g_counter s = Z.of_nat (total s);
  inv_pc : forall t p, thr s !! t = Some p -> pc_ok (g_counter s) p;
  inv_max : length (thr s) <= N;
  inv_main : main_ok s;
  inv_out : mpc s <> MDone -> out s = [title];
  inv_err : if bool_decide (mpc s = MExit) then exists l, failure_line strerror l /\ errs s = [l]
            else errs s = [];
}.

(** ** Preservation *)

Context (Hmax : (Z.of_nat N * Z.of_nat ITERS < 2 ^ 31)%Z).

Lemma completed_bound c p : pc_ok c p -> completed p <= ITERS.
Proof. destruct p; simpl; lia. Qed.

Lemma loop_head_ok c i : i <= ITERS -> pc_ok c (loop_head i) /\ completed (loop_head i) = i.
Proof. unfold loop_head. intros. destruct (Nat.ltb_spec i ITERS); simpl; lia. Qed.

Lemma loop_head_out i : in_cs (loop_head i) = false.
Proof. unfold loop_head. by case_match. Qed.

(** Main's view survives a step of a thread that has not returned. *)
Lemma main_ok_thr s c m t p p' :
  main_ok s -> thr s !! t = Some p -> p <> CDone ->
  main_ok (mk_state c m (<[t := p']> (thr s)) (mpc s) (out s) (errs s)).
Proof.
  unfold main_ok; simpl. intros Hm Hp Hne.
  assert (forall u, thr s !! u = Some CDone -> <[t := p']> (thr s) !! u = Some CDone).
  { intros u Hu. rewrite list_lookup_insert_ne; [done|congruence]. }
  destruct (mpc s); rewrite ?length_insert; naive_solver.
Qed.

(** A thread's step: what is left to check per statement. *)
Lemma inv_thr_step s t p p' c m own :
  inv s -> thr s !! t = Some p -> p <> CDone ->
  owned m own -> cs_inv in_cs own (<[t := p']> (thr s)) ->
  (c = g_counter s + Z.of_nat (completed p') - Z.of_nat (completed p))%Z ->
  pc_ok c p' ->
  (forall u x, u <> t -> thr s !! u = Some x -> pc_ok (g_counter s) x -> pc_ok c x) ->
  inv (mk_state c m (<[t := p']> (thr s)) (mpc s) (out s) (errs s)).
Proof.
  intros [Hcs Hcnt Hpc Hlen Hmain Hout Herr] Hp Hne Hown Hcs' Hc Hok Hoth. split; simpl; eauto.
  - unfold total in *. simpl.
    pose proof (sum_list_with_insert completed _ _ _ p' Hp). lia.
  - intros u x Hx. apply (lookup_insert_thr _ _ _ _ _ _ Hp) in Hx as [[-> ->]|[Hu Hx]]; eauto.
  - by rewrite length_insert.
  - by apply (main_ok_thr _ _ _ _ p).
Qed.

(** The other threads, when [t] is inside the critical section, do not hold a
    loaded value. *)
Lemma others_outside s t own c :
  cs_inv in_cs own (thr s) -> own = Some t ->
  forall u x, u <> t -> thr s !! u = Some x -> pc_ok (g_counter s) x -> pc_ok c x.
Proof.
  intros Hcs -> u x Hu Hx Hok. destruct x; simpl in *; try done.
  apply (cs_inv_owner _ _ _ _ _ Hcs) in Hx; [congruence|done].
Qed.

Lemma counter_not_full s t p :
  inv s -> thr s !! t = Some p -> completed p < ITERS ->
  (0 <= g_counter s /\ g_counter s + 1 < 2 ^ 31)%Z.
Proof.
  intros [_ Hcnt Hpc Hlen _ _ _] Hp Hc. rewrite Hcnt. split; [lia|].
  pose proof (sum_list_with_slack completed ITERS (thr s) t p) as Hs.
  enough (total s + 1 <= N * ITERS) by lia. unfold total.
  assert (length (thr s) * ITERS <= N * ITERS) by (by apply Nat.mul_le_mono_r).
  specialize (Hs ltac:(intros; eapply completed_bound; eauto) Hp). lia.
Qed.

Lemma inv_counter_increment s t p s' :
  inv s -> thr s !! t = Some p -> counter_increment t p s = Some s' -> inv s'.
Proof.
  intros Hinv Hp Hstep. pose proof Hinv as [(own & Hown & Hcs) Hcnt Hpc Hlen Hmain Hout Herr].
  pose proof (Hpc _ _ Hp) as Hok.
  destruct p as [i|i|i v|i|]; simpl in Hstep, Hok; [| | | |done].
  - destruct (pthread_mutex_lock t (g_mutex s)) as [m|] eqn:E; simplify_eq.
    assert (own <> Some t) as Hne by (by eapply cs_inv_not_owner).
    destruct (owned_lock _ _ _ _ Hown Hne E) as [? Hown']; subst own.
    eapply inv_thr_step; eauto using cs_inv_acquire; simpl; lia.
  - simplify_eq. assert (own = Some t) as -> by (eapply cs_inv_owner; eauto).
    eapply inv_thr_step; eauto using cs_inv_stay, others_outside; simpl; lia.
  - simplify_eq. destruct Hok as [Hi ->].
    assert (own = Some t) as -> by (eapply cs_inv_owner; eauto).
    pose proof (counter_not_full _ _ _ Hinv Hp Hi).
    rewrite wrapS_small by lia.
    eapply inv_thr_step; eauto using cs_inv_stay, others_outside; simpl; lia.
  - destruct (pthread_mutex_unlock t (g_mutex s)) as [m|] eqn:E; simplify_eq.
    destruct (owned_unlock _ _ _ _ Hown E) as [? Hown']; subst own.
    destruct (loop_head_ok (g_counter s) (S i)) as [Hlh Hlc]; [lia|].
    eapply inv_thr_step; eauto using cs_inv_release, loop_head_out, others_outside.
    rewrite Hlc. simpl. lia.
Qed.

Lemma total_all_done s :
  length (thr s) = N -> (forall t, t < N -> thr s !! t = Some CDone) -> total s = N * ITERS.
Proof.
  intros Hlen Hall. unfold total. rewrite <- Hlen. apply sum_list_with_const.
  intros j y Hj. rewrite Hall in Hj; [by simplify_eq|].
  rewrite <- Hlen. by eapply lookup_lt_Some.
Qed.

(** A failed call ends the process. *)
Lemma inv_quit s fn e l :
  inv s -> mpc s <> MDone -> mpc s <> MExit -> CHECK strerror fn e = Some l ->
  inv (mk_state (g_counter s) (g_mutex s) (thr s) MExit (out s) (errs s ++ [l])).
Proof.
  intros [Hcs Hcnt Hpc Hlen Hmain Hout Herr] Hd Hx HC. split; simpl; eauto; [done|].
  rewrite bool_decide_false in Herr by done. rewrite Herr. exists l. split; [by econstructor|done].
Qed.

Lemma inv_create s i :
  inv s -> mpc s = MCreate i -> i < N ->
  inv (mk_state (g_counter s) (g_mutex s) (thr s ++ [loop_head 0]) (MCreate (S i)) (out s) (errs s)).
Proof.
  intros [Hcs Hcnt Hpc Hlen Hmain Hout Herr] Em Hi. unfold main_ok in Hmain. rewrite Em in *.
  split; simpl; eauto.
  - destruct Hcs as (own & ? & ?). exists own. split; [done|]. by apply cs_inv_spawn, loop_head_out.
  - unfold total in *. simpl. rewrite sum_list_with_app1.
    destruct (loop_head_ok (g_counter s) 0) as [_ ->]; [lia|]. lia.
  - intros t p Hp. apply lookup_app_Some in Hp as [Hp|[_ Hp]]; [eauto|].
    apply list_lookup_singleton_Some in Hp as [_ <-]. apply loop_head_ok. lia.
  - rewrite length_app. simpl. lia.
  - unfold main_ok. simpl. rewrite length_app. simpl. lia.
Qed.

Lemma inv_demo_mutex e s s' : inv s -> demo_mutex e s = Some s' -> inv s'.
Proof.
  intros Hinv Hstep. pose proof Hinv as [Hcs Hcnt Hpc Hlen Hmain Hout Herr]. unfold demo_mutex in Hstep.
  unfold main_ok in Hmain.
  destruct (mpc s) as [i|i| |] eqn:Em; [| |done|done].
  - destruct (Nat.ltb_spec i N); [destruct (CHECK strerror _ e) eqn:HC|]; simplify_eq.
    + eapply inv_quit; eauto; by rewrite Em.
    + by apply inv_create.
    + split; simpl; eauto. unfold main_ok. simpl. split_and!; [lia|lia|lia].
  - destruct (Nat.ltb_spec i N); [destruct (CHECK strerror _ e) eqn:HC|].
    + simplify_eq. eapply inv_quit; eauto; by rewrite Em.
    + destruct (thr s !! i) as [[| | | |]|] eqn:Ei; simplify_eq/=. split; simpl; eauto; try done.
      unfold main_ok. simpl. destruct Hmain as (? & ? & Hdone). split_and!; [done|lia|].
      intros t Ht. destruct (decide (t = i)) as [->|]; [done|]. apply Hdone. lia.
    + simplify_eq/=. split; simpl; eauto; try done.
      unfold main_ok. simpl. destruct Hmain as (? & ? & Hdone).
      assert (forall t, t < N -> thr s !! t = Some CDone) as Hall by (intros; apply Hdone; lia).
      split_and!; [done|done|]. rewrite Hout by done. cbn [app].
      rewrite Hcnt, total_all_done by done. do 3 f_equal. lia.
Qed.

Lemma inv_step a s s' : inv s -> step a s = Some s' -> inv s'.
Proof.
  intros Hinv Hs. unfold step in Hs. destruct (mpc s) eqn:Em; try done;
    destruct a as [e|t]; eauto using inv_demo_mutex;
    destruct (thr s !! t) eqn:Et; [eauto using inv_counter_increment|done|
      eauto using inv_counter_increment|done|eauto using inv_counter_increment|done].
Qed.

Lemma inv_init : inv init.
Proof.
  split; simpl; try done; try lia.
  - exists None. split; [done|]. intros t. split; [done|]. intros (p & Hp & _). done.
  - unfold main_ok. simpl. lia.
Qed.

Lemma inv_reachable sched s : run step sched init = Some s -> inv s.
Proof. apply run_invariant; [exact inv_step | exact inv_init]. Qed.

(** ** Progress: some thread, or main, can always move *)

Lemma thr_progress s t p :
  inv s -> mpc s <> MExit -> thr s !! t = Some p -> p <> CDone ->
  exists a s', kind_of a = Stmt /\ step a s = Some s'.
Proof.
  intros [(own & Hown & Hcs) _ _ _ _ _ _] Hm Hp Hne.
  (* the lock's holder, or, when it is free, thread t itself *)
  destruct own as [o|].
  - destruct (proj1 (Hcs o) eq_refl) as (x & Hx & Hc). exists (Thr o).
    destruct (owned_unlock_own _ _ Hown) as [m Hu].
    unfold step. rewrite Hx.
    destruct (mpc s); try done; destruct x; simpl; rewrite ?Hu; eauto; done.
  - exists (Thr t). destruct (owned_lock_free _ t Hown) as [m Hl].
    destruct (in_cs p) eqn:Ec; [by eapply cs_inv_owner in Ec; eauto|].
    unfold step. rewrite Hp. destruct (mpc s); try done; destruct p; simpl; rewrite ?Hl; eauto; done.
Qed.

Lemma step_progress s :
  inv s -> mpc s <> MDone -> mpc s <> MExit -> exists a s', kind_of a = Stmt /\ step a s = Some s'.
Proof.
  intros Hinv Hd Hx. pose proof (inv_main _ Hinv) as Hm. unfold main_ok in Hm.
  destruct (mpc s) as [i|i| |] eqn:Em; try done.
  - exists (Main 0). unfold step, demo_mutex. rewrite Em. case_match; eauto.
  - destruct Hm as (Hlen & Hi & _).
    destruct (decide (i < N)) as [Hlt|].
    2:{ exists (Main 0). unfold step, demo_mutex. rewrite Em.
        destruct (Nat.ltb_spec i N); [lia|]. eauto. }
    destruct (thr s !! i) as [p|] eqn:Ei; [|apply lookup_ge_None in Ei; lia].
    destruct (decide (p = CDone)) as [->|Hp].
    + exists (Main 0). unfold step, demo_mutex. rewrite Em.
      destruct (Nat.ltb_spec i N); [|lia]. rewrite Ei. eauto.
    + eapply thr_progress; eauto. by rewrite Em.
Qed.

(** ** Every step uses up a bounded amount of work *)

Definition thr_work (p : pc) : nat :=
  match p with
  | CLock i => 4 * (ITERS - i)
  | CLoad i => 4 * (ITERS - i) - 1
  | CStore i _ => 4 * (ITERS - i) - 2
  | CUnlock i => 4 * (ITERS - i) - 3
  | CDone => 0
  end.

Definition main_work (m : main_pc) : nat :=
  match m with
  | MCreate i => (N - i) * (4 * ITERS + 1) + N + 2
  | MJoin i => N - i + 1
  | MDone | MExit => 0
  end.

Definition work (s : state) : nat := main_work (mpc s) + sum_list_with thr_work (thr s).

Lemma work_loop_head i : thr_work (loop_head i) = 4 * (ITERS - i).
Proof. unfold loop_head. destruct (Nat.ltb_spec i ITERS); simpl; lia. Qed.

Lemma work_decreases a s s' : inv s -> step a s = Some s' -> work s' < work s.
Proof.
  intros Hinv Hs. unfold step in Hs. unfold work.
  assert (Hthr : forall t p, thr s !! t = Some p -> counter_increment t p s = Some s' ->
    main_work (mpc s') + sum_list_with thr_work (thr s')
    < main_work (mpc s) + sum_list_with thr_work (thr s)).
  { intros t p Hp Hst. pose proof (inv_pc _ Hinv _ _ Hp) as Hok.
    unfold counter_increment in Hst.
    destruct p as [i|i|i v|i|]; simpl in Hok; try (destruct (pthread_mutex_lock _ _));
      try (destruct (pthread_mutex_unlock _ _)); simplify_eq/=;
      lazymatch goal with
      | |- context [<[t := ?p']> _] =>
          pose proof (sum_list_with_insert thr_work _ _ _ p' Hp) as Hsum
      end; rewrite ?work_loop_head in Hsum; simpl in Hsum; lia. }
  assert (Hmain : forall e, demo_mutex e s = Some s' ->
    main_work (mpc s') + sum_list_with thr_work (thr s')
    < main_work (mpc s) + sum_list_with thr_work (thr s)).
  { intros e Hst. unfold demo_mutex in Hst.
    destruct (mpc s) as [i|i| |]; try done; destruct (Nat.ltb_spec i N); simpl;
      [destruct (CHECK _ _ _)| |destruct (CHECK _ _ _); [|destruct (thr s !! i) as [[]|]]|]; simplify_eq/=;
      rewrite ?sum_list_with_app1, ?work_loop_head; nia. }
  destruct (mpc s) eqn:Em; try done; destruct a as [e|t]; rewrite <- ?Em in *; eauto;
    destruct (thr s !! t) eqn:Et; (done || eauto).
Qed.
End demo.

(** ** The demo *)

Definition demo_mutex_proc (strerror : Z -> bytes) (N ITERS : nat) : proc :=
  mk_proc state action init (step strerror N ITERS)
    kind_of (fun s => bool_decide (mpc s = MDone)) (fun s => bool_decide (mpc s = MExit))
    out errs (fun _ => false).

(** C5: whatever the interleaving of the [N] threads' lock, load, store and
    unlock steps and of main's create and join calls, when [demo_mutex] reaches
    its last [printf] the counter is exactly [N * ITERS] and the line printed
    says CORRECT; no increment is lost. *)
Theorem counter_no_lost_update strerror N ITERS sched s :
  (Z.of_nat N * Z.of_nat ITERS < 2 ^ 31)%Z ->
  run (step strerror N ITERS) sched init = Some s -> mpc s = MDone ->
  g_counter s = (Z.of_nat N * Z.of_nat ITERS)%Z /\
  out s = [title;
           format [FLit "Expected: "; FD (Z.of_nat N * Z.of_nat ITERS); FLit "  Got: ";
                   FD (Z.of_nat N * Z.of_nat ITERS); FLit "  "; FLit "✓ CORRECT"; FRaw [x0a]]].
Proof.
  intros Hmax Hrun Hdone. pose proof (inv_reachable _ _ _ Hmax _ _ Hrun) as Hinv.
  pose proof (inv_main _ _ _ _ Hinv) as Hm. unfold main_ok in Hm. rewrite Hdone in Hm.
  destruct Hm as (Hlen & Hall & Hout). split.
  - rewrite (inv_count _ _ _ _ Hinv), (total_all_done N) by done. lia.
  - rewrite Hout. unfold result_line. by rewrite Z.eqb_refl.
Qed.

Definition counter_post (N ITERS : nat) (o : list bytes) : Prop :=
  o = [title;
       format [FLit "Expected: "; FD (Z.of_nat N * Z.of_nat ITERS); FLit "  Got: ";
               FD (Z.of_nat N * Z.of_nat ITERS); FLit "  "; FLit "✓ CORRECT"; FRaw [x0a]]].

(** Only a failed call makes the process exit. *)
Lemma exit_needs_failure strerror N ITERS sched s :
  run (step strerror N ITERS) sched init = Some s -> mpc s = MExit ->
  0 < count_kind kind_of Failed sched.
Proof.
  revert sched s. apply (run_trace_ind (step strerror N ITERS)
    (fun sched s => mpc s = MExit -> 0 < count_kind kind_of Failed sched)); [done|].
  intros sched s a s' _ _ Hs Hx. rewrite count_kind_app. unfold step in Hs.
  assert (mpc s <> MExit) by (intros E; by rewrite E in Hs).
  destruct a as [e|t].
  - enough ((e =? 0)%Z = false) as He.
    { unfold count_kind at 2. simpl. rewrite He, decide_True by done. lia. }
    unfold demo_mutex, CHECK in Hs. destruct (mpc s) as [i|i| |] eqn:Em; try done;
      destruct (i <? N), (e =? 0)%Z; try done; try destruct (thr s !! i) as [[]|]; by simplify_eq/=.
  - exfalso. assert (mpc s' = mpc s); [|congruence].
    destruct (mpc s) as [i|i| |] eqn:Em; try done; (destruct (thr s !! t) as [p|]; [|done]);
      unfold counter_increment in Hs; repeat case_match; simplify_eq/=; done.
Qed.

Lemma counter_ok strerror N ITERS :
  (Z.of_nat N * Z.of_nat ITERS < 2 ^ 31)%Z ->
  proc_ok strerror (demo_mutex_proc strerror N ITERS) (N * (4 * ITERS + 1) + N + 2) (counter_post N ITERS).
Proof.
  intros Hmax. pose proof (inv_reachable strerror _ _ Hmax) as Hreach. split.
  - done.
  - intros sched s Hrun.
    pose proof (run_measure (step strerror N ITERS) (inv strerror N ITERS) (work N ITERS)) as Hm.
    specialize (Hm ltac:(intros a x y Hx Hy; split;
      [by eapply inv_step | by eapply work_decreases]) _ _ _ (inv_init _ _ _) Hrun).
    unfold work in Hm at 2. simpl in Hm. rewrite Nat.sub_0_r in Hm. simpl in *. lia.
  - intros sched s Hrun. simpl. rewrite !bool_decide_eq_true.
    destruct (decide (mpc s = MDone)) as [|Hd]; [by left|].
    destruct (decide (mpc s = MExit)) as [|Hx]; [by right; left|]. right; right.
    by eapply step_progress; eauto.
  - intros sched s Hrun Hr. simpl in *. apply bool_decide_eq_true in Hr.
    pose proof (inv_main _ _ _ _ (Hreach _ _ Hrun)) as Hm. unfold main_ok in Hm. rewrite Hr in Hm.
    destruct Hm as (Hlen & Hall & Hout). rewrite Hr. split_and!; [|done|].
    + unfold counter_post. rewrite Hout. unfold result_line. by rewrite Z.eqb_refl.
    + intros [e|t]; unfold step, demo_mutex; rewrite Hr; [done|].
      destruct (thr s !! t) as [p|] eqn:Hp; [|done].
      rewrite Hall in Hp by (rewrite <- Hlen; by eapply lookup_lt_Some). by simplify_eq.
  - intros sched s Hrun. simpl. pose proof (inv_err _ _ _ _ (Hreach _ _ Hrun)) as Herr.
    case_bool_decide as Hx; [|done]. split; [exact (exit_needs_failure _ _ _ _ _ Hrun Hx)|].
    destruct Herr as (l & Hl & ->). exists l. split; [done|by left].
  - done.
Qed.

(** C6: [demo_mutex] terminates: no schedule is longer than the bound below, a
    state that is not finished always has a next step, so no interleaving
    deadlocks, it exits early only after a failed create or join, which it
    reports, and it returns with its threads ended and CORRECT printed. *)
Theorem counter_terminates strerror N ITERS :
  (Z.of_nat N * Z.of_nat ITERS < 2 ^ 31)%Z ->
  proc_ok strerror (demo_mutex_proc strerror N ITERS) (N * (4 * ITERS + 1) + N + 2) (counter_post N ITERS).
Proof. apply counter_ok. Qed.

(** ** Witnesses: two threads of two iterations, interleaved *)

Definition witness_sched : list action :=
  [Main 0; Thr 0; Main 0; Thr 0; Main 0; Thr 0; Thr 0; Thr 1; Thr 1; Thr 1; Thr 1;
   Thr 0; Thr 0; Thr 0; Thr 0; Main 0; Thr 1; Thr 1; Thr 1; Thr 1; Main 0; Main 0].

Definition witness_end : state := default init (run (step (fun _ => []) 2 2) witness_sched init).

Lemma counter_no_lost_update_witness :
  run (step (fun _ => []) 2 2) witness_sched init = Some witness_end /\ g_counter witness_end = 4%Z.
Proof.
  split; [vm_compute; reflexivity|].
  destruct (counter_no_lost_update (fun _ => []) 2 2 witness_sched witness_end) as [Hc _];
    [lia | vm_compute; reflexivity | vm_compute; reflexivity | exact Hc].
Defined.

Lemma counter_terminates_witness :
  run (step (fun _ => []) 2 2) witness_sched init = Some witness_end /\
  length witness_sched <= 2 * (4 * 2 + 1) + 2 + 2 + 3 * 0.
Proof.
  assert (Hrun : run (step (fun _ => []) 2 2) witness_sched init = Some witness_end)
    by (vm_compute; reflexivity).
  split; [exact Hrun|].
  exact (ok_bound _ _ _ _ (counter_terminates (fun _ => []) 2 2 ltac:(lia)) witness_sched witness_end Hrun).
Defined.

(** The attribute call passes a process-sharing constant where a mutex type is
    expected: the mutex becomes recursive and stays private to the process. *)
Example demo_attr_is_recursive :
  demo_attr = mk_mutexattr MUTEX_RECURSIVE PTHREAD_PROCESS_PRIVATE.
Proof. reflexivity. Qed.
