(* ===== verification/Ring.v ===== *)
(** * The ring buffer of the producer/consumer demos

    src/02_threads/thread_demo.c: the [data], [head] and [tail] fields shared
    by [Queue] and [QueueSem_t].  [content d h n] is the abstract queue: the
    [n] elements from slot [h] on, modulo the array size. *)

From S2P Require Import Prelude.

Local Open Scope nat_scope.

Definition QUEUE_SIZE : nat := 8.

#[global] Arguments QUEUE_SIZE : simpl never.
#[global] Arguments Nat.modulo : simpl never.

(** [(i + 1) % QUEUE_SIZE] *)
Definition next_slot (i : nat) : nat := (i + 1) mod QUEUE_SIZE.

Definition content (d : list Z) (h n : nat) : list Z :=
  (fun k => nth ((h + k) mod QUEUE_SIZE) d 0%Z) <$> seq 0 n.

Lemma content_length d h n : length (content d h n) = n.
Proof. unfold content. by rewrite length_fmap, length_seq. Qed.

Lemma next_slot_lt i : next_slot i < QUEUE_SIZE.
Proof. apply Nat.mod_upper_bound. done. Qed.

Lemma slot_lt i : i mod QUEUE_SIZE < QUEUE_SIZE.
Proof. apply Nat.mod_upper_bound. done. Qed.

Lemma next_slot_add h n : next_slot ((h + n) mod QUEUE_SIZE) = (h + S n) mod QUEUE_SIZE.
Proof. unfold next_slot. rewrite Nat.Div0.add_mod_idemp_l. f_equal. lia. Qed.

Lemma slot_add_next h n : (next_slot h + n) mod QUEUE_SIZE = (h + S n) mod QUEUE_SIZE.
Proof. unfold next_slot. rewrite Nat.Div0.add_mod_idemp_l. f_equal. lia. Qed.

(** Slots of a window no longer than the array are pairwise distinct. *)
Lemma slot_inj h i j :
  i < QUEUE_SIZE -> j < QUEUE_SIZE ->
  (h + i) mod QUEUE_SIZE = (h + j) mod QUEUE_SIZE -> i = j.
Proof.
  unfold QUEUE_SIZE. intros Hi Hj He.
  pose proof (Nat.div_mod_eq (h + i) 8). pose proof (Nat.div_mod_eq (h + j) 8). lia.
Qed.

Lemma content_S d h n :
  content d h (S n) = content d h n ++ [nth ((h + n) mod QUEUE_SIZE) d 0%Z].
Proof. unfold content. by rewrite seq_S, fmap_app. Qed.

Lemma content_cons d h n :
  h < QUEUE_SIZE -> content d h (S n) = nth h d 0%Z :: content d (next_slot h) n.
Proof.
  intros Hh. unfold content. simpl seq. rewrite fmap_cons. f_equal.
  - f_equal. rewrite Nat.add_0_r. by apply Nat.mod_small.
  - rewrite <- fmap_S_seq, <- list_fmap_compose. apply list_fmap_ext. intros i k _.
    unfold compose. f_equal. by rewrite slot_add_next.
Qed.

(** A store into the first free slot does not touch the window. *)
Lemma content_store_free d h n v :
  n < QUEUE_SIZE -> content (<[(h + n) mod QUEUE_SIZE := v]> d) h n = content d h n.
Proof.
  intros Hn. unfold content. apply list_fmap_ext. intros i k Hk.
  apply lookup_seq in Hk as [-> Hi].
  rewrite !nth_lookup, list_lookup_insert_ne; [done|].
  intros He. apply slot_inj in He; lia.
Qed.

Lemma content_store_push d h n v :
  length d = QUEUE_SIZE -> n < QUEUE_SIZE ->
  content (<[(h + n) mod QUEUE_SIZE := v]> d) h (S n) = content d h n ++ [v].
Proof.
  intros Hd Hn. rewrite content_S, content_store_free by done. do 2 f_equal.
  rewrite nth_lookup, list_lookup_insert_eq; [done|]. rewrite Hd. apply slot_lt.
Qed.

(** ** The sequence of values a producer pushes *)

Definition SENTINEL : Z := (-1)%Z.

(** The call of [queue_push] a producer is in: item [i] of [n] in the loop, or
    the sentinel after it. *)
Inductive push := PushItem (i n : Z) | PushEnd (n : Z).

Definition push_val (k : push) : Z :=
  match k with PushItem i _ => i | PushEnd _ => SENTINEL end.

#[export] Instance push_eq_dec : EqDecision push.
Proof. solve_decision. Defined.

(** What the producer has pushed before and after the call [k]. *)
Definition before (k : push) : list Z :=
  match k with PushItem i _ => seqZ 0 i | PushEnd n => seqZ 0 n end.
Definition after (k : push) : list Z := before k ++ [push_val k].

Definition push_ok (n : Z) (k : push) : Prop :=
  match k with PushItem i m => m = n /\ (0 <= i < n)%Z | PushEnd m => m = n end.

Lemma seqZ_snoc i : (0 <= i)%Z -> seqZ 0 (i + 1) = seqZ 0 i ++ [i].
Proof. intros. rewrite seqZ_app by lia. by rewrite Z.add_0_l. Qed.

(** Two sequences that end at their first sentinel, one a prefix of the other. *)
Lemma sentinel_prefix (l k r : list Z) :
  Forall (fun v => v <> SENTINEL) l -> Forall (fun v => v <> SENTINEL) k ->
  l ++ [SENTINEL] ++ r = k ++ [SENTINEL] -> l = k /\ r = [].
Proof.
  intros Hl. revert k. induction Hl as [|x l Hx Hl IH]; intros [|y k] Hk He; simplify_eq/=;
    try (by inversion Hk); try done.
  inversion Hk; subst. destruct (IH k); [done|done|]. by subst.
Qed.

Lemma seqZ_no_sentinel n : Forall (fun v => v <> SENTINEL) (seqZ 0 n).
Proof.
  apply Forall_forall. intros v Hv. apply elem_of_seqZ in Hv. unfold SENTINEL. lia.
Qed.

Lemma sentinel_not_in_seqZ n : SENTINEL ∉ seqZ 0 n.
Proof. intros Hv. apply elem_of_seqZ in Hv. unfold SENTINEL in Hv. lia. Qed.

(** Calls of the push function still to come, this one included. *)
Definition left (k : push) : nat :=
  match k with PushItem i n => Z.to_nat (n - i) + 1 | PushEnd _ => 1 end.

Lemma left_pos k : 1 <= left k.
Proof. destruct k; simpl; lia. Qed.
