(* ===== verification/ThreadQueue.v ===== *)
(** * The bounded queue with a mutex and two condition variables

    src/02_threads/thread_demo.c, Demo 3: [queue_push], [queue_pop],
    [producer], [consumer] and [demo_cond_var] (its main thread as in
    MainThread.v).  Any number of producer and consumer threads; each statement of the critical sections is a step.
    [pthread_cond_wait] releases the mutex and blocks; a waiting thread is
    woken by a signal (which wakes one of the waiters, whichever) or
    spuriously, and takes the mutex again before it re-tests. *)

From S2P Require Import Prelude CLib Pthread MainThread Ring.

Local Open Scope nat_scope.

Inductive pc :=
(* producer *)
| PLoop (i n : Z)        (* head of the for loop *)
| QLock (k : push)       (* pthread_mutex_lock, or the relock inside cond_wait *)
| QTest (k : push)       (* while (q->count == QUEUE_SIZE) *)
| QWait (k : push)       (* blocked in pthread_cond_wait(&q->not_full, ..) *)
| QData (k : push)       (* q->data[q->tail] = val *)
| QTail (k : push)       (* q->tail = (q->tail + 1) % QUEUE_SIZE *)
| QCount (k : push)      (* q->count++ *)
| QSignal (k : push)     (* pthread_cond_signal(&q->not_empty) *)
| QUnlock (k : push)
| PDone (n : Z)
(* consumer *)
| KLock
| KTest                  (* while (q->count == 0) *)
| KWait                  (* blocked in pthread_cond_wait(&q->not_empty, ..) *)
| KData                  (* val = q->data[q->head] *)
| KHead (v : Z)          (* q->head = (q->head + 1) % QUEUE_SIZE *)
| KCount (v : Z)         (* q->count-- *)
| KSignal (v : Z)        (* pthread_cond_signal(&q->not_full) *)
| KUnlock (v : Z)
| KGot (v : Z)           (* if (val == SENTINEL) break; printf *)
| KDone.

#[export] Instance pc_eq_dec : EqDecision pc.
Proof. solve_decision. Defined.

(** What the threads print. *)
Inductive event := EvPushing (i : Z) | EvGot (v : Z) | EvConsumerDone.

Definition render (e : event) : bytes :=
  format match e with
         | EvPushing i => [FLit "[PRODUCER] pushing "; FD i; FRaw [x0a]]
         | EvGot v => [FLit "[CONSUMER] got "; FD v; FRaw [x0a]]
         | EvConsumerDone => [FLit "[CONSUMER] done"; FRaw [x0a]]
         end.

Record Queue := mk_Queue {
  data : list Z;
  head : nat;
  tail : nat;
  count : Z;
}.

(** [pushed] and [popped] are histories for the proofs: the values stored and
    the values fetched, in order. *)
Record state := mk_state {
  g_queue : Queue;
  lock : mutex;
  thr : list pc;
  events : list event;
  pushed : list Z;
  popped : list Z;
}.

Inductive action := Run (t : nat) | Signal (t w : nat) | Spurious (w : nat).

(** ** Steps *)

Definition set_pc (t : nat) (p : pc) (s : state) : state :=
  mk_state (g_queue s) (lock s) (<[t := p]> (thr s)) (events s) (pushed s) (popped s).
Definition set_lock (m : mutex) (s : state) : state :=
  mk_state (g_queue s) m (thr s) (events s) (pushed s) (popped s).
Definition set_queue (q : Queue) (s : state) : state :=
  mk_state q (lock s) (thr s) (events s) (pushed s) (popped s).
Definition emit (e : event) (s : state) : state :=
  mk_state (g_queue s) (lock s) (thr s) (events s ++ [e]) (pushed s) (popped s).
Definition log_push (v : Z) (s : state) : state :=
  mk_state (g_queue s) (lock s) (thr s) (events s) (pushed s ++ [v]) (popped s).
Definition log_pop (v : Z) (s : state) : state :=
  mk_state (g_queue s) (lock s) (thr s) (events s) (pushed s) (popped s ++ [v]).

Definition is_KWait (p : pc) : bool := match p with KWait => true | _ => false end.
Definition is_QWait (p : pc) : bool := match p with QWait _ => true | _ => false end.

Definition queue_push (t : nat) (p : pc) (s : state) : option state :=
  let q := g_queue s in
  match p with
  | QLock k => m ← pthread_mutex_lock t (lock s); Some (set_pc t (QTest k) (set_lock m s))
  | QTest k =>
      if (count q =? Z.of_nat QUEUE_SIZE)%Z
      then m ← pthread_mutex_unlock t (lock s); Some (set_pc t (QWait k) (set_lock m s))
      else Some (set_pc t (QData k) s)
  | QData k =>
      if tail q <? length (data q)
      then Some (set_pc t (QTail k) (log_push (push_val k)
             (set_queue (mk_Queue (<[tail q := push_val k]> (data q)) (head q) (tail q) (count q)) s)))
      else None
  | QTail k =>
      Some (set_pc t (QCount k)
        (set_queue (mk_Queue (data q) (head q) (next_slot (tail q)) (count q)) s))
  | QCount k =>
      Some (set_pc t (QSignal k)
        (set_queue (mk_Queue (data q) (head q) (tail q) (wrapS 32 (count q + 1))) s))
  | QSignal k => (* nobody waits: the signal is lost *)
      if existsb is_KWait (thr s) then None else Some (set_pc t (QUnlock k) s)
  | QUnlock k =>
      m ← pthread_mutex_unlock t (lock s);
      Some (set_pc t (match k with PushItem i n => PLoop (i + 1) n | PushEnd n => PDone n end)
              (set_lock m s))
  | _ => None
  end.

Definition queue_pop (t : nat) (p : pc) (s : state) : option state :=
  let q := g_queue s in
  match p with
  | KLock => m ← pthread_mutex_lock t (lock s); Some (set_pc t KTest (set_lock m s))
  | KTest =>
      if (count q =? 0)%Z
      then m ← pthread_mutex_unlock t (lock s); Some (set_pc t KWait (set_lock m s))
      else Some (set_pc t KData s)
  | KData => v ← data q !! head q; Some (set_pc t (KHead v) (log_pop v s))
  | KHead v =>
      Some (set_pc t (KCount v)
        (set_queue (mk_Queue (data q) (next_slot (head q)) (tail q) (count q)) s))
  | KCount v =>
      Some (set_pc t (KSignal v)
        (set_queue (mk_Queue (data q) (head q) (tail q) (wrapS 32 (count q - 1))) s))
  | KSignal v =>
      if existsb is_QWait (thr s) then None else Some (set_pc t (KUnlock v) s)
  | KUnlock v => m ← pthread_mutex_unlock t (lock s); Some (set_pc t (KGot v) (set_lock m s))
  | _ => None
  end.

(** The loops around the calls. *)
Definition producer (t : nat) (p : pc) (s : state) : option state :=
  match p with
  | PLoop i n =>
      if (i <? n)%Z then Some (set_pc t (QLock (PushItem i n)) (emit (EvPushing i) s))
      else Some (set_pc t (QLock (PushEnd n)) s)
  | _ => queue_push t p s
  end.

Definition consumer (t : nat) (p : pc) (s : state) : option state :=
  match p with
  | KGot v =>
      if (v =? SENTINEL)%Z then Some (set_pc t KDone (emit EvConsumerDone s))
      else Some (set_pc t KLock (emit (EvGot v) s))
  | _ => queue_pop t p s
  end.

Definition is_producer (p : pc) : bool :=
  match p with
  | PLoop _ _ | QLock _ | QTest _ | QWait _ | QData _ | QTail _ | QCount _ | QSignal _
  | QUnlock _ | PDone _ => true
  | _ => false
  end.

Definition step (a : action) (s : state) : option state :=
  match a with
  | Run t =>
      p ← thr s !! t;
      if is_producer p then producer t p s else consumer t p s
  | Signal t w =>
      match thr s !! t, thr s !! w with
      | Some (QSignal k), Some KWait => Some (set_pc w KLock (set_pc t (QUnlock k) s))
      | Some (KSignal v), Some (QWait k) => Some (set_pc w (QLock k) (set_pc t (KUnlock v) s))
      | _, _ => None
      end
  | Spurious w =>
      match thr s !! w with
      | Some KWait => Some (set_pc w KLock s)
      | Some (QWait k) => Some (set_pc w (QLock k) s)
      | _ => None
      end
  end.

(** A static [Queue] with the given threads about to start. *)
Definition start (threads : list pc) : state :=
  mk_state (mk_Queue (replicate QUEUE_SIZE 0%Z) 0 0 0)
    (pthread_mutex_init pthread_mutexattr_init) threads [] [] [].

(** One producer of [n] items, one consumer. *)
Definition one_to_one (n : Z) : state := start [PLoop 0 n; KLock].

Definition kind_of (a : action) : kind := match a with Spurious _ => Env | _ => Stmt end.

Definition queue_workers (n : Z) : workers :=
  mk_workers state action (one_to_one n) step kind_of
    (fun a => match a with Run t => [t] | Signal t w => [t; w] | Spurious w => [w] end)
    (fun s t => match thr s !! t with Some (PDone _ | KDone) => true | _ => false end)
    (fun s => render <$> events s).

(** [n] is 10 in the source. *)
Definition demo_cond_var (strerror : Z -> bytes) (n : Z) : proc :=
  demo strerror (queue_workers n) (format (separator "Demo 3: Condition Variable — Producer/Consumer"))
    [Create 0; Create 1; Join 0; Join 1].

(** ** The invariant, for any number of threads *)

Definition in_cs (p : pc) : bool :=
  match p with
  | QTest _ | QData _ | QTail _ | QCount _ | QSignal _ | QUnlock _
  | KTest | KData | KHead _ | KCount _ | KSignal _ | KUnlock _ => true
  | _ => false
  end.

(** The pc of the thread inside the critical section. *)
Definition own_pc (own : option nat) (thr : list pc) : option pc :=
  match own with Some o => thr !! o | None => None end.

(** Ring and count hold [n] elements, [pend]. *)
Definition ring_ok (q : Queue) (pend : list Z) : Prop :=
  length pend <= QUEUE_SIZE /\ tail q = (head q + length pend) mod QUEUE_SIZE /\
  content (data q) (head q) (length pend) = pend.

(** The queue against the pending values [pend], as the critical section
    leaves it after each statement. *)
Definition view (p : option pc) (q : Queue) (pend : list Z) : Prop :=
  match p with
  | Some (QData _) => ring_ok q pend /\ count q = Z.of_nat (length pend) /\ length pend < QUEUE_SIZE
  | Some (QTail _) =>
      0 < length pend <= QUEUE_SIZE /\ count q = (Z.of_nat (length pend) - 1)%Z /\
      tail q = (head q + (length pend - 1)) mod QUEUE_SIZE /\
      content (data q) (head q) (length pend) = pend
  | Some (QCount _) =>
      ring_ok q pend /\ count q = (Z.of_nat (length pend) - 1)%Z /\ 0 < length pend
  | Some KData => ring_ok q pend /\ count q = Z.of_nat (length pend) /\ 0 < length pend
  | Some (KHead v) => ring_ok q (v :: pend) /\ count q = (Z.of_nat (length pend) + 1)%Z
  | Some (KCount _) =>
      ring_ok q pend /\ count q = (Z.of_nat (length pend) + 1)%Z /\ length pend < QUEUE_SIZE
  | _ => ring_ok q pend /\ count q = Z.of_nat (length pend)
  end.

Record inv (s : state) : Prop := {
  inv_data : length (data (g_queue s)) = QUEUE_SIZE;
  inv_head : head (g_queue s) < QUEUE_SIZE;
  inv_view : exists own pend,
    owned (lock s) own /\ cs_inv in_cs own (thr s) /\
    pushed s = popped s ++ pend /\ view (own_pc own (thr s)) (g_queue s) pend;
}.

(** Rebuilding the invariant after thread [t] moved to [p']. *)
Lemma own_pc_insert_own t thr p p' :
  thr !! t = Some p -> own_pc (Some t) (<[t := p']> thr) = Some p'.
Proof. intros Hp. simpl. apply list_lookup_insert_eq. by eapply lookup_lt_Some. Qed.

Lemma own_pc_insert_other own t thr p' :
  own <> Some t -> own_pc own (<[t := p']> thr) = own_pc own thr.
Proof. intros Hne. destruct own; simpl; [|done]. apply list_lookup_insert_ne. congruence. Qed.

(** A move outside the critical section, by a thread that is not the owner. *)
Lemma inv_move s t p p' evs :
  inv s -> thr s !! t = Some p -> in_cs p = false -> in_cs p' = false ->
  inv (mk_state (g_queue s) (lock s) (<[t := p']> (thr s)) evs (pushed s) (popped s)).
Proof.
  intros [Hd Hh (own & pend & Hown & Hcs & Hio & Hv)] Hp Hc Hc'.
  split; simpl; [done|done|]. exists own, pend. split_and!; [done| |done|].
  - by eapply cs_inv_stay; [done|done|congruence].
  - rewrite own_pc_insert_other; [done|]. by eapply cs_inv_not_owner.
Qed.

(** A statement of the critical section. *)
Lemma inv_cs_step s t p p' q' pu po :
  inv s -> thr s !! t = Some p -> in_cs p = true -> in_cs p' = true ->
  length (data q') = QUEUE_SIZE -> head q' < QUEUE_SIZE ->
  (forall pend, pushed s = popped s ++ pend -> view (Some p) (g_queue s) pend ->
     exists pend', pu = po ++ pend' /\ view (Some p') q' pend') ->
  inv (mk_state q' (lock s) (<[t := p']> (thr s)) (events s) pu po).
Proof.
  intros [Hd Hh (own & pend & Hown & Hcs & Hio & Hv)] Hp Hc Hc' Hd' Hh' Hview.
  assert (own = Some t) as -> by (by eapply cs_inv_owner).
  simpl in Hv. rewrite Hp in Hv. destruct (Hview _ Hio Hv) as (pend' & Hio' & Hv').
  split; simpl; [done|done|]. exists (Some t), pend'. split_and!; [done| |done|].
  - by eapply cs_inv_stay; [done|done|congruence].
  - simpl. rewrite list_lookup_insert_eq; [done|]. by eapply lookup_lt_Some.
Qed.

(** Entering the critical section. *)
Lemma inv_enter s t p p' m :
  inv s -> thr s !! t = Some p -> in_cs p = false -> in_cs p' = true ->
  pthread_mutex_lock t (lock s) = Some m ->
  (forall q pend, view None q pend -> view (Some p') q pend) ->
  inv (mk_state (g_queue s) m (<[t := p']> (thr s)) (events s) (pushed s) (popped s)).
Proof.
  intros [Hd Hh (own & pend & Hown & Hcs & Hio & Hv)] Hp Hc Hc' Hl Hview.
  assert (Hne : own <> Some t) by (by eapply cs_inv_not_owner).
  destruct (owned_lock _ _ _ _ Hown Hne Hl) as [? Hown']; subst own.
  split; simpl; [done|done|]. exists (Some t), pend. split_and!; [done| |done|].
  - by eapply cs_inv_acquire.
  - rewrite (own_pc_insert_own _ _ _ _ Hp). by apply Hview.
Qed.

(** Leaving it. *)
Lemma inv_leave s t p p' m :
  inv s -> thr s !! t = Some p -> in_cs p = true -> in_cs p' = false ->
  pthread_mutex_unlock t (lock s) = Some m ->
  (forall q pend, view (Some p) q pend -> view None q pend) ->
  inv (mk_state (g_queue s) m (<[t := p']> (thr s)) (events s) (pushed s) (popped s)).
Proof.
  intros [Hd Hh (own & pend & Hown & Hcs & Hio & Hv)] Hp Hc Hc' Hl Hview.
  destruct (owned_unlock _ _ _ _ Hown Hl) as [? Hown']; subst own.
  simpl in Hv. rewrite Hp in Hv.
  split; simpl; [done|done|]. exists None, pend. split_and!; [done| |done|].
  - by eapply cs_inv_release.
  - by apply Hview.
Qed.

(** ** Proof outline of the two critical sections *)

Lemma view_data k q pend :
  length (data q) = QUEUE_SIZE -> view (Some (QData k)) q pend ->
  view (Some (QTail k))
    (mk_Queue (<[tail q := push_val k]> (data q)) (head q) (tail q) (count q))
    (pend ++ [push_val k]).
Proof.
  intros Hd ((Hn & Ht & Hc) & Hcnt & Hlt). simpl.
  rewrite length_app. simpl. split_and!; [lia|lia|lia| |].
  - rewrite Ht. f_equal. lia.
  - rewrite Ht, Nat.add_1_r, content_store_push by done. by rewrite Hc.
Qed.

Lemma view_tail k q pend :
  view (Some (QTail k)) q pend ->
  view (Some (QCount k)) (mk_Queue (data q) (head q) (next_slot (tail q)) (count q)) pend.
Proof.
  intros (Hn & Hcnt & Ht & Hc). simpl. unfold ring_ok. simpl.
  split_and!; [lia| |done|done|lia].
  rewrite Ht, next_slot_add. f_equal. lia.
Qed.

Lemma view_count k q pend :
  view (Some (QCount k)) q pend ->
  view (Some (QSignal k)) (mk_Queue (data q) (head q) (tail q) (wrapS 32 (count q + 1))) pend.
Proof.
  intros (Hr & Hcnt & _). simpl. split; [done|]. destruct Hr as (Hn & _). unfold QUEUE_SIZE in Hn.
  rewrite wrapS_small; lia.
Qed.

Lemma view_kdata q pend v :
  length (data q) = QUEUE_SIZE -> head q < QUEUE_SIZE ->
  view (Some KData) q pend -> data q !! head q = Some v ->
  exists pend', pend = v :: pend' /\ view (Some (KHead v)) q pend'.
Proof.
  intros Hd Hh ((Hn & Ht & Hc) & Hcnt & Hlt) Hv.
  destruct pend as [|x pend]; simpl in *; [lia|].
  rewrite content_cons in Hc by done. injection Hc as Hx Hc.
  rewrite nth_lookup, Hv in Hx. simpl in Hx. subst x.
  exists pend. split; [done|]. split; [|lia]. unfold ring_ok. simpl. split_and!; [lia|done|].
  rewrite content_cons by done. by rewrite nth_lookup, Hv, Hc.
Qed.

Lemma view_khead q pend v :
  head q < QUEUE_SIZE -> view (Some (KHead v)) q pend ->
  view (Some (KCount v)) (mk_Queue (data q) (next_slot (head q)) (tail q) (count q)) pend.
Proof.
  intros Hh ((Hn & Ht & Hc) & Hcnt). simpl in *.
  rewrite content_cons in Hc by done. injection Hc as _ Hc.
  unfold ring_ok. simpl. split_and!; [lia| |done|lia|lia].
  rewrite Ht. by rewrite slot_add_next.
Qed.

Lemma view_kcount q pend v :
  view (Some (KCount v)) q pend ->
  view (Some (KSignal v)) (mk_Queue (data q) (head q) (tail q) (wrapS 32 (count q - 1))) pend.
Proof.
  intros (Hr & Hcnt & Hlt). simpl. split; [done|]. unfold QUEUE_SIZE in Hlt.
  rewrite wrapS_small; lia.
Qed.

(** ** Every step preserves the invariant *)

Ltac q_inv Hs := unfold set_pc, set_lock, set_queue, emit, log_push, log_pop in *; simpl in *;
  repeat (case_match; simplify_eq/=); simplify_eq/=.

Lemma inv_queue_push t p s s' :
  inv s -> thr s !! t = Some p -> queue_push t p s = Some s' -> inv s'.
Proof.
  intros Hinv Hp Hs. pose proof Hinv as [Hd Hh _].
  destruct p as [| k|k|k|k|k|k|k|k| | | | | | | | | | | ]; try done; simpl in Hs.
  - destruct (pthread_mutex_lock t (lock s)) eqn:E; simplify_eq/=.
    by eapply (inv_enter s).
  - case_match eqn:Ec; zbool.
    + destruct (pthread_mutex_unlock t (lock s)) eqn:E; simplify_eq/=. by eapply (inv_leave s).
    + simplify_eq/=. eapply (inv_cs_step s); eauto. intros pend Hio (Hr & Hcnt).
      exists pend. split; [done|]. split_and!; [done|done|]. destruct Hr. lia.
  - case_match; simplify_eq/=. eapply (inv_cs_step s); eauto; simpl; [by rewrite length_insert|].
    intros pend Hio Hv. exists (pend ++ [push_val k]). split; [by rewrite Hio, (assoc_L (++))|].
    by apply (view_data k).
  - simplify_eq/=. eapply (inv_cs_step s); eauto. intros pend Hio Hv. exists pend.
    split; [done|]. by apply view_tail in Hv.
  - simplify_eq/=. eapply (inv_cs_step s); eauto. intros pend Hio Hv. exists pend.
    split; [done|]. by apply view_count in Hv.
  - case_match; simplify_eq/=. eapply (inv_cs_step s); eauto.
  - destruct (pthread_mutex_unlock t (lock s)) eqn:E; simplify_eq/=.
    eapply (inv_leave s); eauto. by destruct k.
Qed.

Lemma inv_queue_pop t p s s' :
  inv s -> thr s !! t = Some p -> queue_pop t p s = Some s' -> inv s'.
Proof.
  intros Hinv Hp Hs. pose proof Hinv as [Hd Hh _].
  destruct p as [| | | | | | | | | | | | | |v|v|v|v| | ]; try done; simpl in Hs.
  - destruct (pthread_mutex_lock t (lock s)) eqn:E; simplify_eq/=. by eapply (inv_enter s).
  - case_match eqn:Ec; zbool.
    + destruct (pthread_mutex_unlock t (lock s)) eqn:E; simplify_eq/=. by eapply (inv_leave s).
    + simplify_eq/=. eapply (inv_cs_step s); eauto. intros pend Hio (Hr & Hcnt).
      exists pend. split; [done|]. split_and!; [done|done|]. lia.
  - destruct (data (g_queue s) !! head (g_queue s)) as [v|] eqn:Ev; simplify_eq/=.
    eapply (inv_cs_step s); eauto. intros pend Hio Hv.
    destruct (view_kdata _ _ _ Hd Hh Hv Ev) as (pend' & -> & Hv'). exists pend'.
    split; [simpl; by rewrite Hio, <- (assoc_L (++))|done].
  - simplify_eq/=. eapply (inv_cs_step s); eauto; simpl; [apply next_slot_lt|].
    intros pend Hio Hv. exists pend. split; [done|]. by apply (view_khead _ _ v).
  - simplify_eq/=. eapply (inv_cs_step s); eauto. intros pend Hio Hv. exists pend.
    split; [done|]. by apply (view_kcount _ _ v).
  - case_match; simplify_eq/=. eapply (inv_cs_step s); eauto.
  - destruct (pthread_mutex_unlock t (lock s)) eqn:E; simplify_eq/=. by eapply (inv_leave s).
Qed.

Lemma inv_wake s w p p' :
  inv s -> thr s !! w = Some p -> in_cs p = false -> in_cs p' = false -> inv (set_pc w p' s).
Proof. intros. by eapply (inv_move s). Qed.

Lemma inv_signal s t w p p' x x' :
  inv s -> thr s !! t = Some p -> thr s !! w = Some x -> in_cs p = true -> in_cs p' = true ->
  in_cs x = false -> in_cs x' = false ->
  (forall q pend, view (Some p) q pend -> view (Some p') q pend) ->
  inv (set_pc w x' (set_pc t p' s)).
Proof.
  intros Hinv Hp Hx Hc Hc' Hcx Hcx' Hv. apply (inv_wake _ w x).
  - eapply (inv_cs_step s t p p'); eauto using inv_data, inv_head.
  - simpl. rewrite list_lookup_insert_ne; [done|]. intros ->. congruence.
  - done.
  - done.
Qed.

Lemma queue_inv_step a s s' : inv s -> step a s = Some s' -> inv s'.
Proof.
  intros Hinv Hs. destruct a as [t|t w|w]; simpl in Hs.
  - destruct (thr s !! t) as [p|] eqn:Hp; [|done]. simpl in Hs.
    destruct (is_producer p) eqn:Ep.
    + destruct p; try done; try (by eapply inv_queue_push).
      simpl in Hs. case_match; simplify_eq/=; by eapply (inv_move s).
    + destruct p; try done; try (by eapply inv_queue_pop).
      simpl in Hs. case_match; simplify_eq/=; by eapply (inv_move s).
  - destruct (thr s !! t) as [p|] eqn:Hp; [|done].
    destruct (thr s !! w) as [x|] eqn:Hx; [|by destruct p].
    destruct p; try done; destruct x; try done; simplify_eq/=; by eapply (inv_signal s).
  - destruct (thr s !! w) as [x|] eqn:Hx; [|done].
    destruct x; try done; simplify_eq/=; by eapply (inv_wake s).
Qed.

(** Threads that have not started yet. *)
Definition fresh_thread (p : pc) : Prop := p = KLock \/ exists n, p = PLoop 0 n.

Lemma inv_start threads : Forall fresh_thread threads -> inv (start threads).
Proof.
  intros Hf. split; simpl; [done|unfold QUEUE_SIZE; lia|].
  exists None, []. split_and!; [done| |done|].
  - intros t. split; [done|]. intros (p & Hp & Hc).
    rewrite Forall_lookup in Hf. destruct (Hf _ _ Hp) as [->|[n ->]]; done.
  - simpl. unfold ring_ok. simpl. split_and!; [unfold QUEUE_SIZE; lia|done|done|done].
Qed.

Lemma queue_inv_reachable threads sched s :
  Forall fresh_thread threads -> run step sched (start threads) = Some s -> inv s.
Proof. intros Hf. apply run_invariant; [exact queue_inv_step | by apply inv_start]. Qed.

Lemma view_bounds p q pend :
  view p q pend -> (0 <= count q <= Z.of_nat QUEUE_SIZE)%Z /\ length pend <= QUEUE_SIZE.
Proof.
  unfold view, ring_ok. destruct p as [[]|]; simpl; intros H; destruct_and?; lia.
Qed.

(** C7: for any number of producers and consumers and any interleaving of their
    statements, signals and wake-ups (spurious ones included): at most one
    thread is inside [queue_push]/[queue_pop]'s critical section, [count] stays
    between 0 and 8, no store or fetch is out of bounds, values come out in the
    order they went in, and whenever the mutex is free the ring holds exactly
    the values pushed and not yet popped. *)
Theorem queue_fifo threads sched s :
  Forall fresh_thread threads -> run step sched (start threads) = Some s ->
  (0 <= count (g_queue s) <= 8)%Z /\
  (forall t u p x, thr s !! t = Some p -> thr s !! u = Some x ->
     in_cs p = true -> in_cs x = true -> t = u) /\
  (forall t k, thr s !! t = Some (QData k) -> is_Some (step (Run t) s)) /\
  (forall t, thr s !! t = Some KData -> is_Some (step (Run t) s)) /\
  popped s `prefix_of` pushed s /\
  ((forall t p, thr s !! t = Some p -> in_cs p = false) ->
   pushed s = popped s ++ content (data (g_queue s)) (head (g_queue s))
                                  (Z.to_nat (count (g_queue s)))).
Proof.
  intros Hf Hrun. pose proof (queue_inv_reachable _ _ _ Hf Hrun) as Hinv.
  pose proof Hinv as [Hd Hh (own & pend & Hown & Hcs & Hio & Hv)].
  pose proof (view_bounds _ _ _ Hv) as [Hb Hp].
  split_and!; [unfold QUEUE_SIZE in Hb; lia|unfold QUEUE_SIZE in Hb; lia|..].
  - intros t u p x Ht Hu. by eapply cs_inv_excl.
  - intros t k Ht. simpl. rewrite Ht. simpl.
    assert (own = Some t) as -> by (by eapply cs_inv_owner).
    simpl in Hv. rewrite Ht in Hv. destruct Hv as ((_ & Htail & _) & _).
    destruct (Nat.ltb_spec (tail (g_queue s)) (length (data (g_queue s)))); [done|].
    pose proof (slot_lt (head (g_queue s) + length pend)). lia.
  - intros t Ht. simpl. rewrite Ht. simpl.
    destruct (lookup_lt_is_Some_2 (data (g_queue s)) (head (g_queue s))) as [v ->]; [lia|done].
  - exists pend. done.
  - intros Hout. assert (own = None) as ->.
    { destruct own as [o|]; [|done]. destruct (proj1 (Hcs o) eq_refl) as (p & Ho & Hc).
      by rewrite (Hout _ _ Ho) in Hc. }
    simpl in Hv. destruct Hv as ((_ & _ & Hc) & Hcnt). by rewrite Hcnt, Nat2Z.id, Hc.
Qed.

(** ** The demo: one producer, one consumer *)

Definition prod_rel (n : Z) (p : pc) (pu : list Z) : Prop :=
  match p with
  | PLoop i m => m = n /\ (0 <= i <= n)%Z /\ pu = seqZ 0 i
  | QLock k | QTest k | QWait k | QData k => push_ok n k /\ pu = before k
  | QTail k | QCount k | QSignal k | QUnlock k => push_ok n k /\ pu = after k
  | PDone m => m = n /\ pu = seqZ 0 n ++ [SENTINEL]
  | _ => False
  end.

(** The values the consumer has printed. *)
Definition got (evs : list event) : list Z :=
  omap (fun e => match e with EvGot v => Some v | _ => None end) evs.

Definition cons_rel (c : pc) (po : list Z) (evs : list event) : Prop :=
  Forall (fun v => v <> SENTINEL) (got evs) /\
  match c with
  | KLock | KTest | KWait | KData => po = got evs
  | KHead v | KCount v | KSignal v | KUnlock v | KGot v => po = got evs ++ [v]
  | KDone => po = got evs ++ [SENTINEL]
  | _ => False
  end.

Definition demo_rel (n : Z) (s : state) : Prop :=
  exists p c, thr s = [p; c] /\ prod_rel n p (pushed s) /\ cons_rel c (popped s) (events s).

Lemma got_app e1 e2 : got (e1 ++ e2) = got e1 ++ got e2.
Proof. apply omap_app. Qed.

(** A producer step moves only its own pc and pushes what its call says. *)
Lemma producer_effect t p s s' :
  producer t p s = Some s' ->
  exists p', thr s' = <[t := p']> (thr s) /\ popped s' = popped s /\
    got (events s') = got (events s) /\
    (forall n, prod_rel n p (pushed s) -> prod_rel n p' (pushed s')).
Proof.
  intros Hs. destruct p as [i m|k|k|k|k|k|k|k|k|m| | | | | | | | | | ]; try done; simpl in Hs;
    [ case_match | destruct (pthread_mutex_lock _ _)
    | case_match; [destruct (pthread_mutex_unlock _ _)|] | case_match | | | case_match
    | destruct (pthread_mutex_unlock _ _) ];
    simplify_eq/=; eexists; (split; [reflexivity|]); (split; [reflexivity|]);
    rewrite ?got_app, ?app_nil_r; (split; [reflexivity|]); simpl; zbool;
    intros n Hp; destruct_and?; subst; try done.
  - assert (i = n) as -> by lia. done.
  - split; [done|]. unfold after. congruence.
  - destruct k as [i m0|m0]; unfold after in *; simpl in *; destruct_and?; subst; [|done].
    split_and!; [done|lia|lia|]. by rewrite seqZ_snoc by lia.
Qed.

(** A consumer step moves only its own pc; what it prints is what it popped. *)
Lemma consumer_effect t c s s' :
  consumer t c s = Some s' -> is_producer c = false ->
  exists c', thr s' = <[t := c']> (thr s) /\ pushed s' = pushed s /\
    (cons_rel c (popped s) (events s) -> cons_rel c' (popped s') (events s')).
Proof.
  intros Hs Hc. unfold cons_rel. destruct c as [| | | | | | | | | | | | | |v|v|v|v|v| ]; try done; simpl in Hs;
    [ destruct (pthread_mutex_lock _ _) | case_match; [destruct (pthread_mutex_unlock _ _)|]
    | destruct (_ !! _) | | | case_match | destruct (pthread_mutex_unlock _ _) | case_match ];
    simplify_eq/=; eexists; (split; [reflexivity|]); (split; [reflexivity|]); zbool;
    rewrite ?got_app; simpl; rewrite ?app_nil_r; intros [Hg Hp]; subst; split; try done.
  - by rewrite Hp.
  - apply Forall_app. split; [done|]. by constructor.
Qed.

Lemma demo_rel_step n a s s' : demo_rel n s -> step a s = Some s' -> demo_rel n s'.
Proof.
  intros (p & c & Hthr & Hp & Hc) Hs.
  assert (Hpp : is_producer p = true) by (by destruct p).
  assert (Hcc : is_producer c = false) by (destruct Hc; by destruct c).
  destruct a as [t|t w|w]; simpl in Hs; rewrite Hthr in Hs.
  - destruct t as [|[|t]]; simpl in Hs; rewrite ?Hpp, ?Hcc in Hs; [| |done].
    + destruct (producer_effect _ _ _ _ Hs) as (p' & Ht & Hpo & Hg & Hrel).
      exists p', c. rewrite Ht, Hthr, Hpo. split; [done|]. split; [by apply Hrel|].
      unfold cons_rel. by rewrite Hg.
    + destruct (consumer_effect _ _ _ _ Hs Hcc) as (c' & Ht & Hpu & Hrel).
      exists p, c'. rewrite Ht, Hthr, Hpu. split; [done|]. split; [done|by apply Hrel].
  - destruct t as [|[|t]], w as [|[|w]]; simpl in Hs; try done;
      destruct p; try done; destruct c; try done; simplify_eq/=;
      (eexists _, _; split; [simpl; rewrite Hthr; reflexivity|]; by split).
  - destruct w as [|[|w]]; simpl in Hs; [destruct p|destruct c|]; try done; simplify_eq/=;
      (eexists _, _; split; [simpl; rewrite Hthr; reflexivity|]; by split).
Qed.

Lemma demo_rel_init n : (0 <= n)%Z -> demo_rel n (one_to_one n).
Proof. intros. exists (PLoop 0 n), KLock. by split_and!. Qed.

(** The producer is past storing the sentinel. *)
Definition sentinel_sent (p : pc) : Prop :=
  match p with
  | QTail (PushEnd _) | QCount (PushEnd _) | QSignal (PushEnd _) | QUnlock (PushEnd _)
  | PDone _ => True
  | _ => False
  end.

Lemma prod_rel_sent n p pu : prod_rel n p pu -> SENTINEL ∈ pu -> sentinel_sent p.
Proof.
  intros Hp Hin. pose proof (sentinel_not_in_seqZ n).
  assert (Hb : forall k, push_ok n k -> SENTINEL ∉ before k)
    by (intros [] ?; apply sentinel_not_in_seqZ).
  destruct p as [i m|k|k|k|k|k|k|k|k|m| | | | | | | | | | ]; simpl in *; try done;
    destruct_and?; subst; try (by apply sentinel_not_in_seqZ in Hin);
    try (by apply Hb in Hin);
    unfold after in Hin; apply elem_of_app in Hin as [Hin|Hin%list_elem_of_singleton];
    try (by apply Hb in Hin); destruct k; simpl in *; try done; unfold SENTINEL in *; lia.
Qed.

Lemma prod_rel_sentinel n p pu :
  prod_rel n p pu -> SENTINEL ∈ pu -> pu = seqZ 0 n ++ [SENTINEL].
Proof.
  intros Hp Hin. pose proof (prod_rel_sent _ _ _ Hp Hin) as Hs.
  destruct p as [| | | | |k|k|k|k| | | | | | | | | | | ]; simpl in *; try done;
    try (destruct k; [done|]); simpl in *; destruct_and?; subst; done.
Qed.

Lemma consumer_returned n s :
  inv s -> demo_rel n s -> thr s !! 1 = Some KDone ->
  got (events s) = seqZ 0 n /\ pushed s = popped s.
Proof.
  intros Hinv (p & c & Hthr & Hp & Hc) Hdone.
  rewrite Hthr in Hdone. injection Hdone as ->. destruct Hc as [Hg Hpo].
  destruct Hinv as [_ _ (own & pend & _ & _ & Hio & _)].
  rewrite Hpo, <- (assoc_L (++)) in Hio.
  assert (pushed s = seqZ 0 n ++ [SENTINEL]) as Hpu.
  { apply (prod_rel_sentinel n p); [done|]. rewrite Hio. set_solver. }
  rewrite Hpu in Hio. symmetry in Hio.
  destruct (sentinel_prefix _ _ _ Hg (seqZ_no_sentinel n) Hio) as [-> ->].
  by rewrite Hpu, Hpo.
Qed.

(** ** No lost wake-up

    A consumer waits only while the queue is empty (or the producer is about to
    signal), a producer only while it is full (or the consumer is about to). *)
Definition signalling (p : pc) : bool :=
  match p with
  | QTail _ | QCount _ | QSignal _ | KHead _ | KCount _ | KSignal _ => true
  | _ => false
  end.

Definition wait_rel (s : state) : Prop :=
  forall p c, thr s = [p; c] ->
  (c = KWait -> length (pushed s) = length (popped s) \/ signalling p = true) /\
  (is_QWait p = true ->
   length (pushed s) = length (popped s) + QUEUE_SIZE \/ signalling c = true).

(** Pending elements are what [count] says when a thread tests it. *)
Lemma count_at_test s t p :
  inv s -> thr s !! t = Some p -> (p = KTest \/ exists k, p = QTest k) ->
  count (g_queue s) = (Z.of_nat (length (pushed s)) - Z.of_nat (length (popped s)))%Z.
Proof.
  intros [_ _ (own & pend & Hown & Hcs & Hio & Hv)] Hp Ht.
  assert (own = Some t) as ->.
  { eapply cs_inv_owner; eauto. by destruct Ht as [->|[k ->]]. }
  simpl in Hv. rewrite Hp in Hv. rewrite Hio, length_app.
  destruct Ht as [->|[k ->]]; destruct Hv as [_ ->]; lia.
Qed.

Lemma wait_rel_step n a s s' :
  inv s -> demo_rel n s -> wait_rel s -> step a s = Some s' -> wait_rel s'.
Proof.
  intros Hinv (p & c & Hthr & Hp & [Hg Hc]) Hw Hs.
  destruct (Hw p c Hthr) as [Hwc Hwp].
  assert (H0 : thr s !! 0 = Some p) by (by rewrite Hthr).
  assert (H1 : thr s !! 1 = Some c) by (by rewrite Hthr).
  destruct a as [t|t w|w]; simpl in Hs.
  - destruct t as [|[|t]]; simpl in Hs; [rewrite H0 in Hs|rewrite H1 in Hs|by rewrite Hthr in Hs];
      simpl in Hs.
    + assert (is_producer p = true) as Epp by (by destruct p). rewrite Epp in Hs.
      pose proof (count_at_test s 0 p Hinv H0) as Hcnt.
      destruct p as [i m|k|k|k|k|k|k|k|k|m| | | | | | | | | | ]; try done; simpl in Hs;
        [ case_match | destruct (pthread_mutex_lock _ _)
        | case_match; [destruct (pthread_mutex_unlock _ _)|] | case_match | |
        | rewrite Hthr in Hs; destruct c; simpl in Hs
        | destruct (pthread_mutex_unlock _ _) ]; simplify_eq/=;
        intros p' c' Ht; simpl in Ht |- *; rewrite Hthr in Ht; simplify_eq/=;
        (split; [intros Hk; auto; try (destruct (Hwc Hk); auto; done)|intros Hq; try done]).
      * left. specialize (Hcnt ltac:(eauto)). zbool. unfold QUEUE_SIZE in *. lia.
      * by destruct k.
    + assert (is_producer c = false) as Ecc by (by destruct c). rewrite Ecc in Hs.
      pose proof (count_at_test s 1 c Hinv H1) as Hcnt.
      destruct c as [| | | | | | | | | | | | | |v|v|v|v|v| ]; try done; simpl in Hs;
        [ destruct (pthread_mutex_lock _ _) | case_match; [destruct (pthread_mutex_unlock _ _)|]
        | destruct (_ !! _) | | | rewrite Hthr in Hs; destruct p; simpl in Hs
        | destruct (pthread_mutex_unlock _ _) | case_match ]; simplify_eq/=;
        intros p' c' Ht; simpl in Ht |- *; rewrite Hthr in Ht; simplify_eq/=;
        (split; [intros Hk; try done|intros Hq; auto; try (destruct (Hwp Hq); auto; done); try done]).
      left. specialize (Hcnt ltac:(eauto)). zbool. lia.
  - destruct t as [|[|t]], w as [|[|w]]; simpl in Hs; rewrite ?H0, ?H1 in Hs;
      try (by destruct p); try (by destruct c); try (by rewrite Hthr in Hs; destruct p);
      try (by rewrite Hthr in Hs; destruct c).
    + destruct p; try done; destruct c; try done; simplify_eq/=.
      intros p' c' Ht. simpl in Ht. rewrite Hthr in Ht. by simplify_eq/=.
    + destruct c; try done; destruct p; try done; simplify_eq/=.
      intros p' c' Ht. simpl in Ht. rewrite Hthr in Ht. by simplify_eq/=.
  - destruct w as [|[|w]]; simpl in Hs; rewrite ?H0, ?H1 in Hs; [destruct p|destruct c|];
      try done; try (by rewrite Hthr in Hs); simplify_eq/=;
      intros p' c' Ht; simpl in Ht; rewrite Hthr in Ht; simplify_eq/=; simpl; (split; [|done]);
      auto; done.
Qed.

(** ** Termination

    Every step other than a spurious wake-up uses up work; a spurious wake-up
    gives back at most two units (lock and test again). *)
Definition prod_work (p : pc) : nat :=
  match p with
  | PLoop i n => 60 * (Z.to_nat (n - i) + 1) + 4
  | QLock k => 60 * left k + 3
  | QTest k => 60 * left k + 2
  | QWait k => 60 * left k + 1
  | QData k => 60 * left k
  | QTail k => 60 * left k - 10
  | QCount k => 60 * left k - 20
  | QSignal k => 60 * left k - 30
  | QUnlock k => 60 * left k - 40
  | _ => 0
  end.

(** [m] values are still to be popped. *)
Definition cons_work (m : nat) (c : pc) : nat :=
  match c with
  | KLock => 60 * m + 3
  | KTest => 60 * m + 2
  | KWait => 60 * m + 1
  | KData => 60 * m
  | KHead _ => 60 * m + 50
  | KCount _ => 60 * m + 40
  | KSignal _ => 60 * m + 30
  | KUnlock _ => 60 * m + 20
  | KGot _ => 60 * m + 10
  | _ => 0
  end.

Definition work (n : Z) (s : state) : nat :=
  match thr s with
  | [p; c] => prod_work p + cons_work (Z.to_nat n + 1 - length (popped s)) c
  | _ => 0
  end.

Lemma producer_work n t p s s' :
  producer t p s = Some s' -> prod_rel n p (pushed s) ->
  exists p', thr s' = <[t := p']> (thr s) /\ popped s' = popped s /\ prod_work p' < prod_work p.
Proof.
  intros Hs Hp. destruct p as [i m|k|k|k|k|k|k|k|k|m| | | | | | | | | | ]; try done; simpl in Hs, Hp;
    [ case_match | destruct (pthread_mutex_lock _ _)
    | case_match; [destruct (pthread_mutex_unlock _ _)|] | case_match | | | case_match
    | destruct (pthread_mutex_unlock _ _) ];
    simplify_eq/=; eexists; (split; [reflexivity|]); (split; [reflexivity|]);
    try (pose proof (left_pos k)); zbool; simpl; try lia.
  destruct k as [i j|j]; simpl in *; destruct_and?; lia.
Qed.

Lemma popped_room n s c :
  inv s -> demo_rel n s -> (0 <= n)%Z -> thr s !! 1 = Some c -> c = KData ->
  length (popped s) < Z.to_nat n + 1.
Proof.
  intros [_ _ (own & pend & Hown & Hcs & Hio & Hv)] (p & c' & Hthr & Hp & _) Hn H1 ->.
  assert (own = Some 1) as -> by (by eapply cs_inv_owner).
  simpl in Hv. rewrite H1 in Hv. destruct Hv as (_ & _ & Hlt).
  apply (f_equal length) in Hio. rewrite length_app in Hio.
  enough (length (pushed s) <= Z.to_nat n + 1) by lia.
  destruct p as [i m|k|k|k|k|k|k|k|k|m| | | | | | | | | | ]; simpl in Hp; try done;
    destruct_and?; subst; try (destruct k as [j m|m]; simpl in *; destruct_and?; subst);
    match goal with H : pushed s = _ |- _ => rewrite H end;
    unfold after; simpl; rewrite ?length_app, ?length_seqZ; simpl; lia.
Qed.

Lemma consumer_work n t c s s' :
  consumer t c s = Some s' -> is_producer c = false ->
  (c = KData -> length (popped s) < Z.to_nat n + 1) ->
  exists c', thr s' = <[t := c']> (thr s) /\
    cons_work (Z.to_nat n + 1 - length (popped s')) c'
    < cons_work (Z.to_nat n + 1 - length (popped s)) c.
Proof.
  intros Hs Hc Hroom. destruct c as [| | | | | | | | | | | | | |v|v|v|v|v| ]; try done; simpl in Hs;
    [ destruct (pthread_mutex_lock _ _) | case_match; [destruct (pthread_mutex_unlock _ _)|]
    | destruct (_ !! _) | | | case_match | destruct (pthread_mutex_unlock _ _) | case_match ];
    simplify_eq/=; eexists; (split; [reflexivity|]); simpl; try lia.
  specialize (Hroom eq_refl). rewrite length_app. simpl. lia.
Qed.

Lemma work_step n a s s' :
  (0 <= n)%Z -> inv s -> demo_rel n s -> step a s = Some s' ->
  work n s' + 1 <= work n s + 3 * count_kind kind_of Env [a].
Proof.
  intros Hn Hinv Hrel Hs. pose proof Hrel as (p & c & Hthr & Hp & [Hg Hc]).
  assert (Hpp : is_producer p = true) by (by destruct p).
  assert (Hcc : is_producer c = false) by (by destruct c).
  unfold work. rewrite Hthr.
  destruct a as [t|t w|w]; simpl in Hs; rewrite Hthr in Hs; unfold count_kind; simpl.
  - destruct t as [|[|t]]; simpl in Hs; rewrite ?Hpp, ?Hcc in Hs; [| |done].
    + destruct (producer_work n _ _ _ _ Hs Hp) as (p' & -> & -> & Hlt). rewrite Hthr. simpl. lia.
    + destruct (consumer_work n _ _ _ _ Hs Hcc) as (c' & -> & Hlt).
      { intros ->. eapply popped_room; eauto. by rewrite Hthr. }
      rewrite Hthr. simpl. lia.
  - destruct t as [|[|t]], w as [|[|w]]; simpl in Hs; try done; try (by destruct p);
      try (by destruct c); destruct p; try done; destruct c; try done; simplify_eq/=;
      rewrite Hthr; simpl; try (match goal with k : push |- _ => pose proof (left_pos k) end); lia.
  - destruct w as [|[|w]]; simpl in Hs; [destruct p|destruct c|]; try done; simplify_eq/=;
      rewrite Hthr; simpl; lia.
Qed.

(** ** Progress *)

Definition finished (s : state) : Prop := exists n, thr s = [PDone n; KDone].

Lemma existsb_lookup {A} (f : A -> bool) (l : list A) :
  existsb f l = true -> exists i x, l !! i = Some x /\ f x = true.
Proof.
  induction l as [|a l IH]; simpl; [done|]. intros [Ha|Hl]%orb_true_iff.
  - by exists 0, a.
  - destruct (IH Hl) as (i & x & Hi & Hx). by exists (S i), x.
Qed.

(** The thread inside the critical section can always go on, whoever waits. *)
Lemma cs_progress s o x :
  inv s -> thr s !! o = Some x -> in_cs x = true ->
  exists a s', kind_of a = Stmt /\ step a s = Some s'.
Proof.
  intros [Hd Hh (own & pend & Hown & Hcs & _ & Hv)] Ho Hx.
  assert (own = Some o) as -> by (by eapply cs_inv_owner).
  destruct (owned_unlock_own _ _ Hown) as [m Hu].
  simpl in Hv. rewrite Ho in Hv.
  assert (Hsig : forall f w y, thr s !! w = Some y -> f y = true -> existsb f (thr s) = true)
    by (intros f w y Hy Hf; apply existsb_exists; exists y;
        split; [by eapply list_elem_of_In, list_elem_of_lookup_2|done]).
  assert (Hrun : is_Some (step (Run o) s) -> exists a s', kind_of a = Stmt /\ step a s = Some s')
    by (intros [s' Hs']; by exists (Run o), s').
  destruct x as [| |k| |k|k|k|k|k| | | | |v|v|v|v|v| | ]; try done;
    try (apply Hrun; simpl; rewrite Ho; simpl; rewrite ?Hu; try case_match; simpl; rewrite ?Hu; done).
  - apply Hrun. simpl. rewrite Ho. simpl. destruct Hv as ((_ & Ht & _) & _).
    pose proof (slot_lt (head (g_queue s) + length pend)).
    destruct (Nat.ltb_spec (tail (g_queue s)) (length (data (g_queue s)))); [done|lia].
  - destruct (existsb is_KWait (thr s)) eqn:E.
    + apply existsb_lookup in E as (w & y & Hw & Hy). destruct y; try done.
      eexists (Signal o w), _. split; [done|]. simpl. by rewrite Ho, Hw.
    + apply Hrun. simpl. rewrite Ho. simpl. by rewrite E.
  - apply Hrun. simpl. rewrite Ho. simpl.
    destruct (lookup_lt_is_Some_2 (data (g_queue s)) (head (g_queue s))) as [z ->]; [lia|done].
  - destruct (existsb is_QWait (thr s)) eqn:E.
    + apply existsb_lookup in E as (w & y & Hw & Hy). destruct y; try done.
      eexists (Signal o w), _. split; [done|]. simpl. by rewrite Ho, Hw.
    + apply Hrun. simpl. rewrite Ho. simpl. by rewrite E.
Qed.

Lemma demo_progress n s :
  inv s -> demo_rel n s -> wait_rel s ->
  finished s \/ exists a s', kind_of a = Stmt /\ step a s = Some s'.
Proof.
  intros Hinv Hrel Hw. pose proof Hrel as (p & c & Hthr & Hp & [Hg Hc]).
  pose proof Hinv as [Hd Hh (own & pend & Hown & Hcs & Hio & Hv)].
  destruct (Hw p c Hthr) as [Hwc Hwp].
  assert (H0 : thr s !! 0 = Some p) by (by rewrite Hthr).
  assert (H1 : thr s !! 1 = Some c) by (by rewrite Hthr).
  destruct own as [o|].
  { right. destruct (proj1 (Hcs o) eq_refl) as (x & Ho & Hx). by eapply cs_progress. }
  assert (Hrun : forall t, is_Some (step (Run t) s) ->
    finished s \/ exists a s', kind_of a = Stmt /\ step a s = Some s')
    by (intros t [s' Hs']; right; by exists (Run t), s').
  assert (Hout : forall t x, thr s !! t = Some x -> in_cs x = false).
  { intros t x Hx. destruct (in_cs x) eqn:E; [|done].
    by pose proof (cs_inv_owner _ _ _ _ _ Hcs Hx E). }
  destruct (owned_lock_free _ 0 Hown) as [m0 Hl0]. destruct (owned_lock_free _ 1 Hown) as [m1 Hl1].
  pose proof (Hout _ _ H0) as Ho0. pose proof (Hout _ _ H1) as Ho1.
  pose proof (f_equal length Hio) as Hlen. rewrite length_app in Hlen.
  assert (Hsent : c = KDone -> sentinel_sent p).
  { intros ->. apply (prod_rel_sent n p (pushed s)); [done|]. rewrite Hio, Hc. set_solver. }
  destruct p as [i m|k| |k| | | | | |m| | | | | | | | | | ]; try done.
  - apply (Hrun 0). simpl. rewrite H0. simpl. destruct (i <? m)%Z; eauto.
  - apply (Hrun 0). simpl. rewrite H0. simpl. by rewrite Hl0.
  - destruct c as [| | | | | | | | | | | | | | | | | |v| ]; try done.
    + apply (Hrun 1). simpl. rewrite H1. simpl. by rewrite Hl1.
    + destruct (Hwc eq_refl), (Hwp eq_refl); try done. unfold QUEUE_SIZE in *. lia.
    + apply (Hrun 1). simpl. rewrite H1. simpl. destruct (v =? SENTINEL)%Z; eauto.
    + by destruct (Hsent eq_refl).
  - destruct Hp as [-> Hp]. destruct c as [| | | | | | | | | | | | | | | | | |v| ]; try done.
    + apply (Hrun 1). simpl. rewrite H1. simpl. by rewrite Hl1.
    + exfalso. destruct (Hwc eq_refl) as [He|]; [|done].
      destruct pend; simpl in Hlen; [|lia]. rewrite app_nil_r, Hp, Hc in Hio.
      rewrite <- Hio, Forall_app in Hg. destruct Hg as [_ Hg]. by inversion Hg.
    + apply (Hrun 1). simpl. rewrite H1. simpl. destruct (v =? SENTINEL)%Z; eauto.
    + left. by exists n.
Qed.

(** ** What is printed *)

(** The items the producer has announced. *)
Definition announced (evs : list event) : list Z :=
  omap (fun e => match e with EvPushing i => Some i | _ => None end) evs.

Definition prod_said (n : Z) (p : pc) : list Z :=
  match p with
  | PLoop i _ => seqZ 0 i
  | QLock k | QTest k | QWait k | QData k | QTail k | QCount k | QSignal k | QUnlock k =>
      match k with PushItem i _ => seqZ 0 (i + 1) | PushEnd _ => seqZ 0 n end
  | _ => seqZ 0 n
  end.

Definition said (n : Z) (s : state) : Prop :=
  forall p, thr s !! 0 = Some p -> announced (events s) = prod_said n p.

Lemma said_producer n p s s' :
  producer 0 p s = Some s' -> thr s !! 0 = Some p -> prod_rel n p (pushed s) -> said n s -> said n s'.
Proof.
  intros Hs H0 Hp Hsaid. specialize (Hsaid p H0). intros q Hq.
  pose proof (lookup_lt_Some _ _ _ H0) as Hlt.
  destruct p as [i m|k|k|k|k|k|k|k|k|m| | | | | | | | | | ]; try done; simpl in Hs, Hp;
    [ case_match | destruct (pthread_mutex_lock _ _)
    | case_match; [destruct (pthread_mutex_unlock _ _)|] | case_match | | | case_match
    | destruct (pthread_mutex_unlock _ _) as [mx|]; [destruct k as [j jn|jn]|] ];
    simplify_eq/=; rewrite list_lookup_insert_eq in Hq by done; simplify_eq/=; try done; zbool;
    destruct_and?.
  - unfold announced in *. rewrite omap_app, Hsaid. simpl. by rewrite seqZ_snoc by lia.
  - rewrite Hsaid. subst. f_equal. lia.
Qed.

Lemma said_other n s s' :
  events s' = events s \/ (exists e, events s' = events s ++ [e] /\ announced [e] = []) ->
  (forall q, thr s' !! 0 = Some q -> exists p, thr s !! 0 = Some p /\ prod_said n q = prod_said n p) ->
  said n s -> said n s'.
Proof.
  intros He Hq Hsaid q H0. destruct (Hq q H0) as (p & Hp & ->). rewrite <- (Hsaid p Hp).
  destruct He as [->|(e & -> & He)]; [done|].
  unfold announced in *. by rewrite omap_app, He, app_nil_r.
Qed.

Lemma consumer_events t c s s' :
  consumer t c s = Some s' ->
  events s' = events s \/ (exists e, events s' = events s ++ [e] /\ announced [e] = []).
Proof.
  intros Hs. destruct c; try done; simpl in Hs;
    [ destruct (pthread_mutex_lock _ _) | case_match; [destruct (pthread_mutex_unlock _ _)|]
    | destruct (_ !! _) | | | case_match | destruct (pthread_mutex_unlock _ _) | case_match ];
    simplify_eq/=; eauto.
Qed.

Lemma queue_said_step n a s s' :
  (0 <= n)%Z -> inv s -> demo_rel n s -> said n s -> step a s = Some s' -> said n s'.
Proof.
  intros Hn Hi Hrel Hsaid Hs. pose proof Hrel as (p & c & Hthr & Hp & [_ Hc]).
  assert (Hpp : is_producer p = true) by (by destruct p).
  assert (Hcc : is_producer c = false) by (by destruct c).
  assert (Hp0 : thr s !! 0 = Some p) by (by rewrite Hthr).
  destruct a as [t|t w|w]; simpl in Hs; rewrite Hthr in Hs.
  - destruct t as [|[|t]]; simpl in Hs; rewrite ?Hpp, ?Hcc in Hs; [by eapply said_producer| |done].
    eapply said_other; [by eapply consumer_events| |done]. intros q Hq. exists p. split; [done|].
    destruct (consumer_work n _ _ _ _ Hs Hcc) as (c' & Ht & _).
    { intros ->. eapply popped_room; eauto. by rewrite Hthr. }
    rewrite Ht, Hthr in Hq. by simplify_eq/=.
  - eapply said_other; [| |done].
    + left. repeat case_match; by simplify_eq/=.
    + intros q Hq. exists p. split; [done|].
      destruct t as [|[|t]], w as [|[|w]]; simpl in Hs; try done; try (by destruct p);
        try (by destruct c); destruct p; try done; destruct c; try done; simplify_eq/=;
        rewrite Hthr in Hq; by simplify_eq/=.
  - eapply said_other; [| |done].
    + left. repeat case_match; by simplify_eq/=.
    + intros q Hq. exists p. split; [done|].
      destruct w as [|[|w]]; simpl in Hs; [destruct p|destruct c|]; try done; simplify_eq/=;
        rewrite Hthr in Hq; by simplify_eq/=.
Qed.

(** ** The demo *)

Definition queue_demo_inv (n : Z) (s : state) : Prop :=
  inv s /\ demo_rel n s /\ wait_rel s /\ said n s.

Lemma queue_reachable n sched s :
  (0 <= n)%Z -> run step sched (one_to_one n) = Some s ->
  queue_demo_inv n s /\
  length sched + work n s <= (120 * (Z.to_nat n + 1) + 7) + 3 * count_kind kind_of Env sched.
Proof.
  intros Hn Hrun.
  assert (H0 : queue_demo_inv n (one_to_one n)).
  { split_and!; [|by apply demo_rel_init|by intros p c [= <- <-]|by intros p [= <-]].
    apply inv_start. constructor; [right; eauto|]. constructor; [by left|done]. }
  assert (Hw : work n (one_to_one n) <= 120 * (Z.to_nat n + 1) + 7).
  { unfold work. simpl. rewrite Z.sub_0_r. lia. }
  enough (queue_demo_inv n s /\ length sched + work n s
    <= work n (one_to_one n) + 3 * count_kind kind_of Env sched) as [? ?] by (split; [done|lia]).
  revert Hrun. apply run_env_bound; [|done].
  intros a x y (Hi & Hr & Hwr & Hsd) Hy. split; [|by apply work_step].
  split_and!; eauto using queue_inv_step, demo_rel_step, wait_rel_step, queue_said_step.
Qed.

(** The producer announces its items in order; the consumer prints them in
    the same order. *)
Definition queue_post (n : Z) (ls : list bytes) : Prop :=
  exists evs, ls = render <$> evs /\ announced evs = seqZ 0 n /\ got evs = seqZ 0 n.

Lemma queue_done n s :
  demo_rel n s -> (forall t, t < 2 -> w_done (queue_workers n) s t = true) <-> finished s.
Proof.
  intros (p & c & Hthr & Hp & [_ Hc]). unfold finished. simpl. rewrite Hthr. split.
  - intros H. pose proof (H 0 ltac:(lia)) as H0. pose proof (H 1 ltac:(lia)) as H1. simpl in *.
    destruct p, c; try done. by eexists.
  - intros (m & [= -> ->]) [|[|t]] Ht; simpl; [done|done|lia].
Qed.

(** A step changes the program counters of threads that have not returned. *)
Lemma step_returned a s s' t :
  step a s = Some s' -> w_done (queue_workers 0) s t = true -> thr s' !! t = thr s !! t.
Proof.
  intros Hs Hd. simpl in Hd.
  assert (Hne : forall u p q, thr s !! u = Some p -> (forall m, p <> PDone m) -> p <> KDone ->
    <[u := q]> (thr s) !! t = thr s !! t).
  { intros u p q Hu Hp Hk. rewrite list_lookup_insert_ne; [done|]. intros ->. rewrite Hu in Hd.
    by destruct p as [| | | | | | | | |m| | | | | | | | | | ]; try destruct (Hp m). }
  destruct a as [u|u w|w]; simpl in Hs.
  - destruct (thr s !! u) as [p|] eqn:Hu; [|done]. simpl in Hs.
    destruct p; simpl in Hs; repeat case_match; simplify_option_eq; by eapply Hne.
  - destruct (thr s !! u) as [p|] eqn:Hu; [|done].
    destruct (thr s !! w) as [q|] eqn:Hw; [|by destruct p].
    destruct p; try done; destruct q; try done; simplify_eq/=;
      (destruct (decide (t = w)) as [->|]; [by rewrite Hw in Hd|]);
      rewrite list_lookup_insert_ne by done; by eapply Hne.
  - destruct (thr s !! w) as [q|] eqn:Hw; [|done].
    destruct q; try done; simplify_eq/=; by eapply Hne.
Qed.

Lemma step_who a s s' :
  step a s = Some s' ->
  Forall (fun t => t < length (thr s)) (w_who (queue_workers 0) a).
Proof.
  intros Hs. destruct a as [u|u w|w]; simpl in *.
  - destruct (thr s !! u) eqn:Hu; [|done]. apply lookup_lt_Some in Hu. by repeat constructor.
  - destruct (thr s !! u) as [p|] eqn:Hu; [|done].
    destruct (thr s !! w) eqn:Hw; [|by destruct p].
    apply lookup_lt_Some in Hu, Hw. by repeat constructor.
  - destruct (thr s !! w) eqn:Hw; [|done]. apply lookup_lt_Some in Hw. by repeat constructor.
Qed.

Lemma finished_quiet s a : finished s -> step a s = None.
Proof.
  intros [m Hm]. destruct a as [[|[|u]]|[|[|u]] [|[|w]]|[|[|w]]]; simpl; by rewrite Hm.
Qed.

#[export] Instance queue_workers_ok n :
  (0 <= n)%Z -> WorkersOk (queue_workers n) 2 (120 * (Z.to_nat n + 1) + 7) (queue_post n).
Proof.
  intros Hn. split; simpl.
  - intros sched s Hrun. apply queue_reachable in Hrun as [_ Hl]; [lia|done].
  - intros sched s Hrun. apply queue_reachable in Hrun as [(Hi & Hr & Hw & _) _]; [|done].
    destruct (demo_progress _ _ Hi Hr Hw) as [Hf|?]; [left; by apply (queue_done n)|by right].
  - intros sched s a s' Hrun Hs. apply queue_reachable in Hrun as [(_ & (p & c & Hthr & _) & _) _]; [|done].
    apply step_who in Hs. by rewrite Hthr in Hs.
  - intros sched s a s' t _ Hs Hd. by rewrite (step_returned _ _ _ _ Hs Hd).
  - intros sched s Hrun Hd a. apply queue_reachable in Hrun as [(_ & Hr & _) _]; [|done].
    by apply finished_quiet, (queue_done n).
  - intros sched s Hrun Hd. apply queue_reachable in Hrun as [(Hi & Hr & _ & Hsd) _]; [|done].
    apply (queue_done n) in Hd as [m Hm]; [|done]. exists (events s). split; [done|].
    split; [by rewrite (Hsd (PDone m)) by (by rewrite Hm)|].
    apply (consumer_returned n s Hi Hr). by rewrite Hm.
  - by intros [].
Qed.

(** C8: in every interleaving of [demo_cond_var]'s main thread, producer and
    consumer, when the consumer thread returns it has printed exactly the
    numbers 0 .. n-1, each once and in order, and the queue is empty. *)
Theorem demo_cond_var_delivers strerror n sched d :
  (0 <= n)%Z -> prun (demo_cond_var strerror n) sched d -> thr (d_w _ d) !! 1 = Some KDone ->
  got (events (d_w _ d)) = seqZ 0 n /\ pushed (d_w _ d) = popped (d_w _ d).
Proof.
  intros Hn [ws Hrun]%demo_workers_run. apply queue_reachable in Hrun as [(Hi & Hr & _) _]; [|done].
  by apply consumer_returned.
Qed.

(** C9: [demo_cond_var] neither deadlocks nor loses a wake-up, and it
    terminates: as long as it has not returned some statement can run without
    waiting for a spurious wake-up, the number of steps is bounded, up to three
    per spurious wake-up, it exits early only after a failed [pthread_create]
    or [pthread_join], which it reports, and when it returns the items have
    been announced and printed in order. *)
Theorem demo_cond_var_terminates strerror n :
  (0 <= n)%Z ->
  proc_ok strerror (demo_cond_var strerror n) (4 + (120 * (Z.to_nat n + 1) + 7))
    (titled (format (separator "Demo 3: Condition Variable — Producer/Consumer")) (queue_post n)).
Proof.
  intros Hn.
  assert (Hb : body_ok 2 [] [Create 0; Create 1; Join 0; Join 1] = true) by (vm_compute; reflexivity).
  pose proof (queue_workers_ok n Hn).
  exact (demo_ok strerror (queue_workers n) _ _ 2 _ (queue_post n) Hb ltac:(done)).
Qed.

(** ** Witnesses: ten items, the producer first whenever it can move *)

Definition queue_acts : list action := [Run 0; Signal 0 1; Signal 1 0; Run 1].
Definition queue_sched : list action := greedy step queue_acts 300 (one_to_one 10).
Definition queue_end : state :=
  default (one_to_one 10) (run step queue_sched (one_to_one 10)).

Lemma queue_fifo_witness :
  run step queue_sched (start [PLoop 0 10; KLock]) = Some queue_end /\
  popped queue_end `prefix_of` pushed queue_end.
Proof.
  split; [vm_compute; reflexivity|].
  destruct (queue_fifo [PLoop 0 10; KLock] queue_sched queue_end) as (_ & _ & _ & _ & Hp & _);
    [|vm_compute; reflexivity|exact Hp].
  constructor; [right; by exists 10%Z|]. constructor; [by left|done].
Defined.

Definition queue_demo : proc := demo_cond_var (fun _ => []) 10.
Definition queue_demo_sched : list (p_action queue_demo) :=
  let W := queue_workers 10 in
  greedy (p_step queue_demo) (Main W 0 :: (Thr W <$> queue_acts)) 400 (p_init queue_demo).

(** The run above takes the consumer to its return. *)
Definition consumer_done (d : p_state queue_demo) : bool :=
  match thr (d_w _ d) !! 1 with Some KDone => true | _ => false end.

Lemma demo_cond_var_delivers_witness :
  exists d, prun queue_demo queue_demo_sched d /\
    got (events (d_w _ d)) = [0; 1; 2; 3; 4; 5; 6; 7; 8; 9]%Z.
Proof.
  assert (match run (p_step queue_demo) queue_demo_sched (p_init queue_demo) with
          | Some d => consumer_done d | None => false end = true) as Hd by (vm_compute; reflexivity).
  destruct (run (p_step queue_demo) queue_demo_sched (p_init queue_demo)) as [d|] eqn:Hrun; [|done].
  exists d. split; [exact Hrun|].
  destruct (demo_cond_var_delivers (fun _ => []) 10 queue_demo_sched d) as [Hg _];
    [lia|exact Hrun| |rewrite Hg; vm_compute; reflexivity].
  unfold consumer_done in Hd. destruct (thr (d_w _ d) !! 1) as [[]|]; done.
Defined.

Lemma demo_cond_var_terminates_witness :
  exists d, prun queue_demo queue_demo_sched d /\ p_ret queue_demo d = true /\
    length queue_demo_sched <= 4 + (120 * 11 + 7) + 3 * count_kind (p_kind queue_demo) Env queue_demo_sched.
Proof.
  destruct (returns_by_prun queue_demo queue_demo_sched) as (d & Hrun & Hret); [vm_compute; reflexivity|].
  exists d. split; [exact Hrun|]. split; [exact Hret|].
  exact (ok_bound _ _ _ _ (demo_cond_var_terminates (fun _ => []) 10 ltac:(lia)) _ _ Hrun).
Defined.
