(* ===== verification/ThreadSem.v ===== *)
(** * The bounded queue with two semaphores

    src/02_threads/thread_demo.c, Demo 3.1: [raw_queue_push], [raw_queue_pop],
    [producer_sem], [consumer_sem], [demo_sem_prod_consumer] (its main thread
    as in MainThread.v).  There is no mutex: [sem_not_full] starts at 5 and [sem_not_empty] at 0, the producer
    owns [tail], the consumer owns [head], and both update [count], whose
    read and write are separate steps. *)

From S2P Require Import Prelude CLib Pthread MainThread Ring.

Local Open Scope nat_scope.

Inductive pc :=
(* producer_sem *)
| SLoop (i n : Z)              (* head of the for loop *)
| SWait (k : push)             (* sem_wait(&q->sem_not_full) *)
| SData (k : push)             (* q->data[q->tail] = val *)
| STail (k : push)             (* q->tail = (q->tail + 1) % QUEUE_SIZE *)
| SCountL (k : push)           (* q->count++: read *)
| SCountS (k : push) (c : Z)   (* q->count++: write *)
| SPost (k : push)             (* sem_post(&q->sem_not_empty) *)
| SDone (n : Z)
(* consumer_sem *)
| RWait                        (* sem_wait(&q->sem_not_empty) *)
| RData                        (* val = q->data[q->head] *)
| RHead (v : Z)                (* q->head = (q->head + 1) % QUEUE_SIZE *)
| RCountL (v : Z)              (* q->count--: read *)
| RCountS (v : Z) (c : Z)      (* q->count--: write *)
| RPost (v : Z)                (* sem_post(&q->sem_not_full) *)
| RGot (v : Z)                 (* printf; if (val == SENTINEL) break *)
| RDone.

#[export] Instance sem_pc_eq_dec : EqDecision pc.
Proof. solve_decision. Defined.

Inductive event := EvPushing (i : Z) | EvGet (v : Z).

Definition render (e : event) : bytes :=
  format match e with
         | EvPushing i => [FLit "[producer] pushing "; FD i; FRaw [x0a]]
         | EvGet v => [FLit "[cunsumer] get: "; FD v; FRaw [x0a]]
         end.

Record QueueSem_t := mk_QueueSem {
  data : list Z;
  head : nat;
  tail : nat;
  count : Z;
  sem_not_full : sem;
  sem_not_empty : sem;
}.

(** [pushed] and [popped] record the values stored and fetched, in order. *)
Record state := mk_state {
  sem_queue : QueueSem_t;
  thr : list pc;
  events : list event;
  pushed : list Z;
  popped : list Z;
}.

(** ** Steps *)

Definition raw_queue_push (p : pc) (q : QueueSem_t) : option (pc * QueueSem_t) :=
  match p with
  | SWait k =>
      nf ← sem_wait (sem_not_full q);
      Some (SData k, mk_QueueSem (data q) (head q) (tail q) (count q) nf (sem_not_empty q))
  | SData k =>
      if tail q <? length (data q)
      then Some (STail k, mk_QueueSem (<[tail q := push_val k]> (data q)) (head q) (tail q) (count q)
                            (sem_not_full q) (sem_not_empty q))
      else None
  | STail k =>
      Some (SCountL k, mk_QueueSem (data q) (head q) (next_slot (tail q)) (count q)
                         (sem_not_full q) (sem_not_empty q))
  | SCountL k => Some (SCountS k (count q), q)
  | SCountS k c =>
      Some (SPost k, mk_QueueSem (data q) (head q) (tail q) (wrapS 32 (c + 1))
                       (sem_not_full q) (sem_not_empty q))
  | SPost k =>
      Some (match k with PushItem i n => SLoop (i + 1) n | PushEnd n => SDone n end,
            mk_QueueSem (data q) (head q) (tail q) (count q) (sem_not_full q)
              (sem_post (sem_not_empty q)))
  | _ => None
  end.

Definition raw_queue_pop (p : pc) (q : QueueSem_t) : option (pc * QueueSem_t) :=
  match p with
  | RWait =>
      ne ← sem_wait (sem_not_empty q);
      Some (RData, mk_QueueSem (data q) (head q) (tail q) (count q) (sem_not_full q) ne)
  | RData => v ← data q !! head q; Some (RHead v, q)
  | RHead v =>
      Some (RCountL v, mk_QueueSem (data q) (next_slot (head q)) (tail q) (count q)
                         (sem_not_full q) (sem_not_empty q))
  | RCountL v => Some (RCountS v (count q), q)
  | RCountS v c =>
      Some (RPost v, mk_QueueSem (data q) (head q) (tail q) (wrapS 32 (c - 1))
                       (sem_not_full q) (sem_not_empty q))
  | RPost v =>
      Some (RGot v, mk_QueueSem (data q) (head q) (tail q) (count q) (sem_post (sem_not_full q))
                      (sem_not_empty q))
  | _ => None
  end.

Definition producer_sem (p : pc) (q : QueueSem_t) : option (pc * QueueSem_t * list event) :=
  match p with
  | SLoop i n =>
      Some (if (i <? n)%Z then (SWait (PushItem i n), q, [EvPushing i])
            else (SWait (PushEnd n), q, []))
  | _ => '(p', q') ← raw_queue_push p q; Some (p', q', [])
  end.

Definition consumer_sem (p : pc) (q : QueueSem_t) : option (pc * QueueSem_t * list event) :=
  match p with
  | RGot v => Some (if (v =? SENTINEL)%Z then RDone else RWait, q, [EvGet v])
  | _ => '(p', q') ← raw_queue_pop p q; Some (p', q', [])
  end.

Definition is_producer (p : pc) : bool :=
  match p with
  | SLoop _ _ | SWait _ | SData _ | STail _ | SCountL _ | SCountS _ _ | SPost _ | SDone _ => true
  | _ => false
  end.

(** One statement of thread [t]; the histories grow at the store and the fetch. *)
Definition step (t : nat) (s : state) : option state :=
  p ← thr s !! t;
  '(p', q, evs) ← (if is_producer p then producer_sem p (sem_queue s)
                   else consumer_sem p (sem_queue s));
  Some (mk_state q (<[t := p']> (thr s)) (events s ++ evs)
          (pushed s ++ match p with SData k => [push_val k] | _ => [] end)
          (popped s ++ match p' with RHead v => [v] | _ => [] end)).

(** The zero-initialised static queue after the two [sem_init] calls. *)
Definition start (threads : list pc) : state :=
  mk_state (mk_QueueSem (replicate QUEUE_SIZE 0%Z) 0 0 0 5 0) threads [] [] [].

(** One producer of [n] items, one consumer. *)
Definition one_to_one (n : Z) : state := start [SLoop 0 n; RWait].

Definition sem_workers (n : Z) : workers :=
  mk_workers state nat (one_to_one n) step (fun _ => Stmt) (fun t => [t])
    (fun s t => match thr s !! t with Some (SDone _ | RDone) => true | _ => false end)
    (fun s => render <$> events s).

(** The two semaphores are destroyed at the end; [n] is 10 in the source. *)
Definition demo_sem_prod_consumer (strerror : Z -> bytes) (n : Z) : proc :=
  demo strerror (sem_workers n) (format (separator "Demo 3.1: semaphor — Producer/Consumer"))
    [Create 0; Create 1; Join 0; Join 1; Destroy 2; Destroy 2].

(** ** The invariant of one producer and one consumer *)

(** Values stored whose [sem_post] is still to come; the slot reserved by a
    [sem_wait] whose store is still to come; and dually for the consumer. *)
Definition unposted (p : pc) : nat :=
  match p with STail _ | SCountL _ | SCountS _ _ | SPost _ => 1 | _ => 0 end.
Definition reserved (p : pc) : nat := match p with SData _ => 1 | _ => 0 end.
Definition taken (c : pc) : nat := match c with RData => 1 | _ => 0 end.
Definition unreleased (c : pc) : nat :=
  match c with RHead _ | RCountL _ | RCountS _ _ | RPost _ => 1 | _ => 0 end.

(** [tail] and [head] lag the histories between the access and the update. *)
Definition tail_lag (p : pc) : nat := match p with STail _ => 1 | _ => 0 end.
Definition head_lag (c : pc) : nat := match c with RHead _ => 1 | _ => 0 end.

Definition prod_rel (n : Z) (p : pc) (pu : list Z) : Prop :=
  match p with
  | SLoop i m => m = n /\ (0 <= i <= n)%Z /\ pu = seqZ 0 i
  | SWait k | SData k => push_ok n k /\ pu = before k
  | STail k | SCountL k | SCountS k _ | SPost k => push_ok n k /\ pu = after k
  | SDone m => m = n /\ pu = seqZ 0 n ++ [SENTINEL]
  | _ => False
  end.

(** The values the consumer has printed (the sentinel too). *)
Definition got (evs : list event) : list Z :=
  omap (fun e => match e with EvGet v => Some v | _ => None end) evs.

Definition cons_rel (c : pc) (po : list Z) (evs : list event) : Prop :=
  match c with
  | RWait | RData => po = got evs /\ SENTINEL ∉ got evs
  | RHead v | RCountL v | RCountS v _ | RPost v | RGot v =>
      po = got evs ++ [v] /\ SENTINEL ∉ got evs
  | RDone => po = got evs /\ exists g, got evs = g ++ [SENTINEL] /\ SENTINEL ∉ g
  | _ => False
  end.

Record sem_inv (n : Z) (p c : pc) (s : state) : Prop := {
  si_thr : thr s = [p; c];
  si_data : length (data (sem_queue s)) = QUEUE_SIZE;
  si_tail : tail (sem_queue s) = (length (pushed s) - tail_lag p) mod QUEUE_SIZE;
  si_head : head (sem_queue s) = (length (popped s) - head_lag c) mod QUEUE_SIZE;
  si_io : pushed s = popped s ++
    content (data (sem_queue s)) (length (popped s) mod QUEUE_SIZE)
            (length (pushed s) - length (popped s));
  si_empty : sem_not_empty (sem_queue s) + unposted p + taken c + length (popped s)
             = length (pushed s);
  si_full : sem_not_full (sem_queue s) + reserved p + length (pushed s) + unreleased c
            = 5 + length (popped s);
  si_prod : prod_rel n p (pushed s);
  si_cons : cons_rel c (popped s) (events s);
}.

(** ** Every step preserves the invariant *)

Lemma sem_wait_inv x y : sem_wait x = Some y -> x = S y.
Proof. destruct x; simpl; congruence. Qed.

Lemma mod_slot_add a b : a <= b -> b mod QUEUE_SIZE = (a mod QUEUE_SIZE + (b - a)) mod QUEUE_SIZE.
Proof. intros. rewrite Nat.Div0.add_mod_idemp_l. f_equal. lia. Qed.

Lemma next_slot_mod a : next_slot (a mod QUEUE_SIZE) = S a mod QUEUE_SIZE.
Proof. rewrite <- (Nat.add_0_l a) at 1. rewrite next_slot_add. f_equal. Qed.

(** The store puts the value behind the values in flight. *)
Lemma store_io d po pu v :
  length d = QUEUE_SIZE -> length po <= length pu < length po + QUEUE_SIZE ->
  pu = po ++ content d (length po mod QUEUE_SIZE) (length pu - length po) ->
  pu ++ [v] = po ++ content (<[length pu mod QUEUE_SIZE := v]> d) (length po mod QUEUE_SIZE)
                            (S (length pu) - length po).
Proof.
  intros Hd Hlen Hio. rewrite (mod_slot_add (length po) (length pu)) by lia.
  rewrite Nat.sub_succ_l by lia. rewrite content_store_push by (done || lia).
  by rewrite (assoc_L (++)), <- Hio.
Qed.

(** The fetch takes the oldest value in flight. *)
Lemma fetch_io d po pu v :
  length po < length pu ->
  pu = po ++ content d (length po mod QUEUE_SIZE) (length pu - length po) ->
  d !! (length po mod QUEUE_SIZE) = Some v ->
  pu = (po ++ [v]) ++ content d ((length po + 1) mod QUEUE_SIZE) (length pu - (length po + 1)).
Proof.
  intros Hlen Hio Hv. rewrite Hio at 1. rewrite <- (assoc_L (++)). f_equal.
  replace (length pu - length po) with (S (length pu - S (length po))) by lia.
  rewrite content_cons by apply slot_lt. rewrite nth_lookup, Hv, next_slot_mod.
  rewrite Nat.add_1_r. done.
Qed.

Lemma got_snoc evs e :
  got (evs ++ [e]) = got evs ++ match e with EvGet v => [v] | _ => [] end.
Proof. unfold got. rewrite omap_app. by destruct e. Qed.

Lemma cons_rel_pushing c po evs i :
  cons_rel c po evs -> cons_rel c po (evs ++ [EvPushing i]).
Proof. unfold cons_rel. by rewrite got_snoc, app_nil_r. Qed.

Lemma sem_producer_step n p c s s' :
  sem_inv n p c s -> is_producer p = true -> step 0 s = Some s' -> exists p', sem_inv n p' c s'.
Proof.
  intros [Hthr Hd Ht Hh Hio He Hf Hp Hc] Hpp Hs. unfold step in Hs. rewrite Hthr in Hs. simpl in Hs.
  rewrite Hpp in Hs.
  destruct p as [i m|k|k|k|k|k v|k|m| | | | | | | | ]; try done; simpl in Hs, Hp;
    [ destruct (i <? m)%Z eqn:E; zbool | destruct (sem_wait (sem_not_full _)) as [nf|] eqn:E;
      [apply sem_wait_inv in E|done] | case_match | | | | destruct k as [j m|m] ]; simplify_eq/=;
    rewrite ?app_nil_r in *; eexists; split; simpl; try done; rewrite ?app_nil_r, ?length_app in *;
    simpl in *; rewrite ?length_insert; destruct_and?; try done; try lia; auto using cons_rel_pushing.
  - split_and!; [done|lia|lia|done].
  - assert (i = m) as -> by lia. subst. done.
  - rewrite Ht. f_equal. lia.
  - rewrite Ht, Nat.sub_0_r, Nat.add_1_r. apply store_io; [done|unfold QUEUE_SIZE; lia|done].
  - split; [done|]. unfold after. congruence.
  - rewrite Ht, next_slot_mod. f_equal. lia.
  - split_and!; [done|lia|lia|]. rewrite seqZ_snoc by lia. done.
  - subst. done.
Qed.

Lemma sem_consumer_step n p c s s' :
  sem_inv n p c s -> is_producer c = false -> step 1 s = Some s' -> exists c', sem_inv n p c' s'.
Proof.
  intros [Hthr Hd Ht Hh Hio He Hf Hp Hc] Hcc Hs. unfold step in Hs. rewrite Hthr in Hs. simpl in Hs.
  rewrite Hcc in Hs.
  destruct c as [| | | | | | | | | |v|v|v x|v|v| ]; try done; simpl in Hs, Hc;
    [ destruct (sem_wait (sem_not_empty _)) as [nf|] eqn:E; [apply sem_wait_inv in E|done]
    | destruct (_ !! _) as [v|] eqn:E | | | | | destruct (v =? SENTINEL)%Z eqn:E; zbool ]; simplify_eq/=;
    rewrite ?app_nil_r in *; eexists; split; simpl; try done; rewrite ?app_nil_r, ?length_app in *;
    simpl in *; destruct_and?; try done; try lia.
  - rewrite Hh. f_equal. lia.
  - apply fetch_io; [lia|done|].
    by rewrite <- (Nat.sub_0_r (length (popped s))), <- Hh.
  - split; [congruence|done].
  - match goal with H : popped s = _ |- _ => rewrite Hh, H, length_app; simpl end.
    rewrite next_slot_mod. f_equal. lia.
  - rewrite got_snoc. split; [done|]. by exists (got (events s)).
  - rewrite got_snoc. split; [done|]. set_solver.
Qed.

Lemma sem_inv_sides n p c s :
  sem_inv n p c s -> is_producer p = true /\ is_producer c = false.
Proof. intros [_ _ _ _ _ _ _ Hp Hc]. split; [by destruct p|by destruct c]. Qed.

Lemma sem_inv_step n t s s' :
  (exists p c, sem_inv n p c s) -> step t s = Some s' -> exists p c, sem_inv n p c s'.
Proof.
  intros (p & c & Hi) Hs. destruct (sem_inv_sides _ _ _ _ Hi) as [Hp Hc].
  destruct t as [|[|t]].
  - destruct (sem_producer_step _ _ _ _ _ Hi Hp Hs) as [p' ?]. eauto.
  - destruct (sem_consumer_step _ _ _ _ _ Hi Hc Hs) as [c' ?]. eauto.
  - unfold step in Hs. rewrite (si_thr _ _ _ _ Hi) in Hs. done.
Qed.

Lemma sem_inv_init n : (0 <= n)%Z -> sem_inv n (SLoop 0 n) RWait (one_to_one n).
Proof. intros. split; simpl; try done. split; [done|]. apply not_elem_of_nil. Qed.

Lemma sem_inv_reachable n sched s :
  (0 <= n)%Z -> run step sched (one_to_one n) = Some s -> exists p c, sem_inv n p c s.
Proof.
  intros Hn. apply (run_invariant step (fun s => exists p c, sem_inv n p c s));
    [intros t x y; apply sem_inv_step|].
  eexists _, _. by apply sem_inv_init.
Qed.

(** The producer has stored at most the [n] items and the sentinel; if the
    sentinel is stored, all of them. *)
Lemma sem_prod_len n p pu : (0 <= n)%Z -> prod_rel n p pu -> length pu <= Z.to_nat n + 1.
Proof.
  intros Hn Hp. destruct p as [i m|k|k|k|k|k v|k|m| | | | | | | | ]; simpl in Hp; try done;
    destruct_and?; subst; try (destruct k as [j m|m]; simpl in *; destruct_and?; subst);
    unfold after; simpl; rewrite ?length_app, ?length_seqZ; simpl; lia.
Qed.

Lemma sem_prod_sentinel n p pu :
  prod_rel n p pu -> SENTINEL ∈ pu ->
  pu = seqZ 0 n ++ [SENTINEL] /\ match p with SLoop _ _ | SWait _ | SData _ => False | _ => True end.
Proof.
  intros Hp Hin. pose proof (sentinel_not_in_seqZ n).
  destruct p as [i m|k|k|k|k|k v|k|m| | | | | | | | ]; simpl in Hp; try done;
    destruct_and?; subst; try (by apply sentinel_not_in_seqZ in Hin);
    try (destruct k as [j m|m]; simpl in *; destruct_and?; subst); try done;
    try (by apply sentinel_not_in_seqZ in Hin).
  all: unfold after in Hin; simpl in Hin; apply elem_of_app in Hin as [Hin|Hin%list_elem_of_singleton];
    [by apply sentinel_not_in_seqZ in Hin|unfold SENTINEL in Hin; lia].
Qed.

(** ** Termination *)

Definition prod_work (p : pc) : nat :=
  match p with
  | SLoop i n => 7 * (Z.to_nat (n - i) + 1) + 1
  | SWait k => 7 * left k
  | SData k => 7 * left k - 1
  | STail k => 7 * left k - 2
  | SCountL k => 7 * left k - 3
  | SCountS k _ => 7 * left k - 4
  | SPost k => 7 * left k - 5
  | _ => 0
  end.

(** [m] values are still to be fetched. *)
Definition cons_work (m : nat) (c : pc) : nat :=
  match c with
  | RWait => 7 * m
  | RData => 7 * m - 1
  | RHead _ => 7 * m + 5
  | RCountL _ => 7 * m + 4
  | RCountS _ _ => 7 * m + 3
  | RPost _ => 7 * m + 2
  | RGot _ => 7 * m + 1
  | _ => 0
  end.

Definition work (n : Z) (s : state) : nat :=
  match thr s with
  | [p; c] => prod_work p + cons_work (Z.to_nat n + 1 - length (popped s)) c
  | _ => 0
  end.

Lemma sem_work_step n t s s' :
  (0 <= n)%Z -> (exists p c, sem_inv n p c s) -> step t s = Some s' -> work n s' < work n s.
Proof.
  intros Hn (p & c & Hi) Hs. destruct (sem_inv_sides _ _ _ _ Hi) as [Hpp Hcc].
  pose proof Hi as [Hthr _ _ _ _ He Hf Hp Hc]. pose proof (sem_prod_len _ _ _ Hn Hp).
  unfold work, step in *. rewrite Hthr in *.
  destruct t as [|[|t]]; simpl in Hs; rewrite ?Hpp, ?Hcc in Hs; [| |done].
  - destruct p as [i m|k|k|k|k|k v|k|m| | | | | | | | ]; try done; simpl in Hs, Hp;
      try (pose proof (left_pos k));
      [ destruct (i <? m)%Z eqn:E; zbool | destruct (sem_wait (sem_not_full _)) as [nf|]; [|done]
      | case_match | | | | destruct k as [j m|m] ];
      simplify_eq/=; rewrite ?app_nil_r; destruct_and?; lia.
  - destruct c as [| | | | | | | | | |v|v|v x|v|v| ]; try done; simpl in Hs, Hc;
    [ destruct (sem_wait (sem_not_empty _)) as [nf|] eqn:E; [apply sem_wait_inv in E|done]
    | destruct (_ !! _) as [v|] eqn:E | | | | | destruct (v =? SENTINEL)%Z eqn:E; zbool ];
      simplify_eq/=; rewrite ?app_nil_r, ?length_app; simpl; try lia.
Qed.

(** ** Progress *)

Definition finished (s : state) : Prop := exists n, thr s = [SDone n; RDone].

Lemma sem_progress n p c s :
  sem_inv n p c s -> finished s \/ exists t s', step t s = Some s'.
Proof.
  intros Hi. destruct (sem_inv_sides _ _ _ _ Hi) as [Hpp Hcc].
  pose proof Hi as [Hthr Hd Ht Hh Hio He Hf Hp Hc].
  assert (Hrun : forall t, is_Some (step t s) -> finished s \/ exists t s', step t s = Some s')
    by (intros t [s' Hs']; right; by exists t, s').
  assert (Htl : (tail (sem_queue s) <? length (data (sem_queue s))) = true)
    by (apply Nat.ltb_lt; rewrite Ht, Hd; apply slot_lt).
  assert (is_Some (data (sem_queue s) !! head (sem_queue s))) as [v Hv]
    by (apply lookup_lt_is_Some_2; rewrite Hh, Hd; apply slot_lt).
  assert (H0 : step 0 s = None -> (exists m, p = SDone m) \/
                 exists k, p = SWait k /\ sem_not_full (sem_queue s) = 0).
  { unfold step. rewrite Hthr. simpl. rewrite Hpp.
    destruct p as [i m|k|k|k|k|k x|k|m| | | | | | | | ]; try done; simpl; rewrite ?Htl; simpl;
      [by destruct (i <? m)%Z|destruct (sem_not_full (sem_queue s)); simpl; first [discriminate|eauto]
       |first [discriminate|eauto]..]. }
  assert (H1 : step 1 s = None -> c = RDone \/ c = RWait /\ sem_not_empty (sem_queue s) = 0).
  { unfold step. rewrite Hthr. simpl. rewrite Hcc.
    destruct c as [| | | | | | | | | |x|x|x y|x|x| ]; try done; simpl; rewrite ?Hv; simpl;
      [destruct (sem_not_empty (sem_queue s)); simpl; first [discriminate|eauto]
      |first [discriminate|eauto]..]. }
  destruct (step 0 s) eqn:E0; [apply (Hrun 0); rewrite E0; eauto|].
  destruct (step 1 s) eqn:E1; [apply (Hrun 1); rewrite E1; eauto|].
  destruct (H0 eq_refl) as [[m ->]|(k & -> & Hnf)], (H1 eq_refl) as [->|[-> Hne]]; simpl in *.
  - left. by exists m.
  - exfalso. destruct Hp as [_ Hp], Hc as [Hc Hns].
    replace (length (pushed s) - length (popped s)) with 0 in Hio by lia.
    simpl in Hio. rewrite app_nil_r in Hio. apply Hns. rewrite <- Hc, <- Hio, Hp. set_solver.
  - destruct Hc as (Hc & g & Hg & _).
    destruct (sem_prod_sentinel n (SWait k) (pushed s)) as [_ []]; [done|].
    rewrite Hio, Hc, Hg. set_solver.
  - lia.
Qed.

(** ** What is printed *)

(** The items the producer has announced. *)
Definition announced (evs : list event) : list Z :=
  omap (fun e => match e with EvPushing i => Some i | _ => None end) evs.

Definition prod_said (n : Z) (p : pc) : list Z :=
  match p with
  | SLoop i _ => seqZ 0 i
  | SWait k | SData k | STail k | SCountL k | SCountS k _ | SPost k =>
      match k with PushItem i _ => seqZ 0 (i + 1) | PushEnd _ => seqZ 0 n end
  | _ => seqZ 0 n
  end.

Definition said (n : Z) (s : state) : Prop :=
  forall p, thr s !! 0 = Some p -> announced (events s) = prod_said n p.

Lemma announced_snoc evs e :
  announced (evs ++ [e]) = announced evs ++ match e with EvPushing i => [i] | _ => [] end.
Proof. unfold announced. rewrite omap_app. by destruct e. Qed.

Lemma said_step n t s s' :
  (exists p c, sem_inv n p c s) -> said n s -> step t s = Some s' -> said n s'.
Proof.
  intros (p & c & Hi) Hsaid Hs. destruct (sem_inv_sides _ _ _ _ Hi) as [Hpp Hcc].
  pose proof (si_prod _ _ _ _ Hi) as Hp. pose proof (si_thr _ _ _ _ Hi) as Hthr.
  unfold said, step in *. rewrite Hthr in *. specialize (Hsaid p eq_refl). intros p'.
  destruct t as [|[|t]]; simpl in Hs; rewrite ?Hpp, ?Hcc in Hs; [| |done].
  - destruct p as [i m|k|k|k|k|k v|k|m| | | | | | | | ]; try done; simpl in Hs, Hp;
      [ destruct (i <? m)%Z eqn:E; zbool | destruct (sem_wait (sem_not_full _)) as [nf|]; [|done]
      | case_match | | | | destruct k as [j m|m] ]; simplify_eq/=; intros [= <-]; simpl;
      rewrite ?app_nil_r, ?announced_snoc, ?Hsaid; try done.
    + destruct_and?. by rewrite seqZ_snoc by lia.
    + destruct_and?. subst. f_equal. lia.
  - destruct c as [| | | | | | | | | |v|v|v x|v|v| ]; try done; simpl in Hs;
    [ destruct (sem_wait (sem_not_empty _)) as [nf|] eqn:E; [|done]
    | destruct (_ !! _) as [v|] eqn:E | | | | | destruct (v =? SENTINEL)%Z eqn:E ];
      simplify_eq/=; intros [= <-]; by rewrite ?app_nil_r, ?announced_snoc, ?app_nil_r.
Qed.

(** ** The demo *)

Definition sem_demo_inv (n : Z) (s : state) : Prop := (exists p c, sem_inv n p c s) /\ said n s.

Lemma sem_reachable n sched s :
  (0 <= n)%Z -> run step sched (one_to_one n) = Some s ->
  sem_demo_inv n s /\ length sched <= 14 * (Z.to_nat n + 1) + 1.
Proof.
  intros Hn Hrun. assert (H0 : sem_demo_inv n (one_to_one n)).
  { split; [eexists _, _; by apply sem_inv_init|]. intros p [= <-]. done. }
  assert (Hst : forall a x y, sem_demo_inv n x -> step a x = Some y -> sem_demo_inv n y /\ work n y < work n x).
  { intros a x y [Hx Hd] Hy. repeat split; eauto using sem_inv_step, said_step, sem_work_step. }
  split; [eapply run_invariant in Hrun; eauto; intros; by eapply Hst|].
  pose proof (run_measure step _ (work n) Hst _ _ _ H0 Hrun) as Hm.
  unfold work in Hm at 2. simpl in Hm. rewrite Z.sub_0_r in Hm. lia.
Qed.

(** The producer announces its items in order, the consumer prints them in
    the same order and then the sentinel. *)
Definition sem_printed (n : Z) (ls : list bytes) : Prop :=
  exists evs, ls = render <$> evs /\ announced evs = seqZ 0 n /\ got evs = seqZ 0 n ++ [SENTINEL].

Lemma sem_consumed n p s :
  sem_inv n p RDone s -> got (events s) = seqZ 0 n ++ [SENTINEL] /\ pushed s = popped s.
Proof.
  intros [Hthr Hd Ht Hh Hio He Hf Hp Hc]. destruct Hc as [Hpo (g & Hg & Hns)]. rewrite Hpo, Hg in Hio.
  assert (SENTINEL ∈ pushed s) as Hin by (rewrite Hio; set_solver).
  destruct (sem_prod_sentinel _ _ _ Hp Hin) as [Hpu _]. rewrite Hpu in Hio at 1.
  rewrite <- (assoc_L (++)) in Hio. symmetry in Hio. apply sentinel_prefix in Hio as [Heq _].
  - rewrite Hpu, Hpo, Hg. by subst.
  - apply Forall_forall. intros x Hx ->. done.
  - apply seqZ_no_sentinel.
Qed.

Lemma sem_done n p c s :
  sem_inv n p c s -> (forall t, t < 2 -> w_done (sem_workers n) s t = true) <-> finished s.
Proof.
  intros Hi. pose proof (si_thr _ _ _ _ Hi) as Hthr. destruct (sem_inv_sides _ _ _ _ Hi) as [Hp Hc].
  unfold finished. simpl. rewrite Hthr. split.
  - intros H. pose proof (H 0 ltac:(lia)) as H0. pose proof (H 1 ltac:(lia)) as H1. simpl in *.
    destruct p, c; try done. by eexists.
  - intros (m & [= -> ->]) [|[|t]] Ht; simpl; [done|done|lia].
Qed.

#[export] Instance sem_workers_ok n :
  (0 <= n)%Z -> WorkersOk (sem_workers n) 2 (14 * (Z.to_nat n + 1) + 1) (sem_printed n).
Proof.
  intros Hn. split; simpl.
  - intros sched s Hrun. apply sem_reachable in Hrun as [_ Hl]; [lia|done].
  - intros sched s Hrun. apply sem_reachable in Hrun as [[(p & c & Hi) _] _]; [|done].
    destruct (sem_progress _ _ _ _ Hi) as [Hf|(t & s' & Hs)]; [left; by eapply sem_done|eauto].
  - intros sched s t s' Hrun Hs. apply sem_reachable in Hrun as [[(p & c & Hi) _] _]; [|done].
    unfold step in Hs. rewrite (si_thr _ _ _ _ Hi) in Hs.
    destruct t as [|[|t]]; [repeat constructor|repeat constructor|done].
  - intros sched s t s' u _ Hs Hd. unfold step in Hs. destruct (thr s !! t) as [p|] eqn:Hp; [|done].
    simpl in Hs. destruct (decide (u = t)) as [->|Hu].
    + rewrite Hp in Hd. by destruct p.
    + assert (thr s' !! u = thr s !! u) as ->; [|done].
      destruct (if is_producer p then _ else _) as [[[p' q] evs]|]; simplify_eq/=.
      by rewrite list_lookup_insert_ne.
  - intros sched s Hrun Hd t. apply sem_reachable in Hrun as [[(p & c & Hi) _] _]; [|done].
    apply (sem_done _ _ _ _ Hi) in Hd as [m Hm]. unfold step. rewrite Hm. by destruct t as [|[|t]].
  - intros sched s Hrun Hd. apply sem_reachable in Hrun as [[(p & c & Hi) Hsaid] _]; [|done].
    apply (sem_done _ _ _ _ Hi) in Hd as [m Hm]. exists (events s). split; [done|].
    pose proof (si_thr _ _ _ _ Hi) as Hthr. rewrite Hm in Hthr. simplify_eq.
    split; [by rewrite (Hsaid (SDone m)) by (by rewrite Hm)|]. by eapply sem_consumed.
  - done.
Qed.

(** C10: in every interleaving of [demo_sem_prod_consumer] (main thread,
    producer, consumer): at most five values are in flight, stores and fetches
    are in bounds, values come out in the order they went in and a value in
    flight is never overwritten (the ring holds exactly the values stored and
    not yet fetched); and when the consumer returns it has printed 0 .. n-1
    and the sentinel. *)
Theorem sem_queue_fifo strerror n sched d :
  (0 <= n)%Z -> prun (demo_sem_prod_consumer strerror n) sched d ->
  let s := d_w _ d in
  length (pushed s) <= length (popped s) + 5 /\
  tail (sem_queue s) < length (data (sem_queue s)) /\
  head (sem_queue s) < length (data (sem_queue s)) /\
  pushed s = popped s ++
    content (data (sem_queue s)) (length (popped s) mod QUEUE_SIZE)
            (length (pushed s) - length (popped s)) /\
  (thr s !! 1 = Some RDone -> got (events s) = seqZ 0 n ++ [SENTINEL] /\ pushed s = popped s).
Proof.
  intros Hn [ws Hrun]%demo_workers_run. simpl in *. set (s := d_w _ d) in *. clearbody s.
  apply sem_reachable in Hrun as [[(p & c & Hi) _] _]; [|done].
  pose proof Hi as [Hthr Hd Ht Hh Hio He Hf Hp Hc].
  split_and!; [lia|rewrite Ht, Hd; apply slot_lt|rewrite Hh, Hd; apply slot_lt|done|].
  rewrite Hthr. intros [= ->]. by eapply sem_consumed.
Qed.

Lemma sem_ok strerror n :
  (0 <= n)%Z ->
  proc_ok strerror (demo_sem_prod_consumer strerror n) (6 + (14 * (Z.to_nat n + 1) + 1))
    (titled (format (separator "Demo 3.1: semaphor — Producer/Consumer")) (sem_printed n)).
Proof.
  intros Hn.
  assert (Hb : body_ok 2 [] [Create 0; Create 1; Join 0; Join 1; Destroy 2; Destroy 2] = true)
    by (vm_compute; reflexivity).
  pose proof (sem_workers_ok n Hn).
  exact (demo_ok strerror (sem_workers n) _ _ 2 _ (sem_printed n) Hb ltac:(done)).
Qed.

(** C11: [demo_sem_prod_consumer] neither deadlocks nor runs forever, destroys
    the semaphores only when both threads have returned, exits early only after
    a failed [pthread_create] or [pthread_join], which it reports, and when it
    returns the producer has announced and the consumer printed the items in
    order. *)
Theorem sem_queue_terminates strerror n :
  (0 <= n)%Z ->
  proc_ok strerror (demo_sem_prod_consumer strerror n) (6 + (14 * (Z.to_nat n + 1) + 1))
    (titled (format (separator "Demo 3.1: semaphor — Producer/Consumer")) (sem_printed n)).
Proof. apply sem_ok. Qed.

(** ** What the missing lock costs *)

Definition exec (s0 : state) (sched : list nat) : state := default s0 (run step sched s0).

(** [count] is updated by both threads without a lock: an update can be lost,
    and the queue ends empty with a count that is not zero. *)
Definition race_sched : list nat :=
  (* the producer stores 0 and posts; it is preempted inside count++ for the
     sentinel while the consumer takes the 0 *)
  replicate 7 0 ++ replicate 5 0 ++ replicate 7 1 ++ [0; 0] ++ replicate 7 1.

Example sem_count_lost_update :
  let s := exec (one_to_one 1) race_sched in
  thr s = [SDone 1; RDone] /\ pushed s = popped s /\ count (sem_queue s) = 1%Z.
Proof. vm_compute. done. Qed.

(** With a second producer a stored value can be overwritten before it is
    fetched: the queue is for a single producer only, as its comment says. *)
Example sem_two_producers_overwrite :
  let s := exec (start [SWait (PushItem 1 5); SWait (PushItem 2 5); RWait])
                [0; 0; 1; 1; 0; 0; 0; 0; 1; 1; 1; 1; 2; 2] in
  pushed s = [1; 2]%Z /\ popped s = [2]%Z.
Proof. vm_compute. done. Qed.

(** ** Witnesses *)

Definition sem_demo : proc := demo_sem_prod_consumer (fun _ => []) 10.
Definition sem_sched : list (p_action sem_demo) :=
  let W := sem_workers 10 in
  greedy (p_step sem_demo) [Main W 0; Thr W 0; Thr W 1] 300 (p_init sem_demo).

Lemma sem_queue_fifo_witness :
  exists d, prun sem_demo sem_sched d /\ p_ret sem_demo d = true /\
    length (pushed (d_w _ d)) <= length (popped (d_w _ d)) + 5.
Proof.
  destruct (returns_by_prun sem_demo sem_sched) as (d & Hrun & Hret); [vm_compute; reflexivity|].
  exists d. split; [exact Hrun|]. split; [exact Hret|].
  apply (sem_queue_fifo (fun _ => []) 10 sem_sched d); [lia|exact Hrun].
Defined.

Lemma sem_queue_terminates_witness :
  exists d, prun sem_demo sem_sched d /\ length sem_sched <= 161 + 3 * count_kind (p_kind sem_demo) Env sem_sched.
Proof.
  destruct (returns_by_prun sem_demo sem_sched) as (d & Hrun & _); [vm_compute; reflexivity|].
  exists d. split; [exact Hrun|].
  apply (ok_bound _ _ _ _ (sem_queue_terminates (fun _ => []) 10 ltac:(lia)) _ _ Hrun).
Defined.
