(* ===== verification/ThreadCond2.v ===== *)
(** * A counter handed over under one mutex held across the loop

    src/02_threads/thread_demo.c: [struct MyConflictHandler], [producer2],
    [consumer2] and [demo_cond_var2] (the condition-variable demo [main]
    runs), with its main thread as in MainThread.v.  Each thread takes the mutex once, before its loop, and gives it
    up only inside [pthread_cond_wait] and at the end.  Thread 0 is the
    producer, thread 1 the consumer; [iters] is the loop bound, 100 in the
    source. *)

From S2P Require Import Prelude CLib Pthread MainThread.

Local Open Scope nat_scope.

Inductive ppc :=
| P2Lock                 (* pthread_mutex_lock(&n->mutex) *)
| P2For (i : nat)        (* for (..; i < 100; ..) *)
| P2Test (i : nat)       (* while (n->count > 10) *)
| P2Wait (i : nat)       (* blocked in pthread_cond_wait(&n->not_full, ..) *)
| P2Relock (i : nat)     (* woken: takes the mutex again *)
| P2Inc (i : nat)        (* n->count++ *)
| P2Print (i : nat)
| P2Signal (i : nat)     (* pthread_cond_signal(&n->not_empty) *)
| P2Unlock
| P2Done.

Inductive cpc :=
| C2Lock
| C2For (i : nat)
| C2Test (i : nat)       (* while (n->count == 0) *)
| C2Wait (i : nat)       (* blocked in pthread_cond_wait(&n->not_empty, ..) *)
| C2Relock (i : nat)
| C2Dec (i : nat)        (* n->count-- *)
| C2Print (i : nat)
| C2Signal (i : nat)     (* pthread_cond_signal(&n->not_full) *)
| C2Unlock
| C2Done.

Inductive event := EvPush (c : Z) | EvPop (c : Z).

Definition render (e : event) : bytes :=
  format match e with
         | EvPush c => [FLit "[producer] push count: "; FD c; FRaw [x0a]]
         | EvPop c => [FLit "[consumer] pop count: "; FD c; FRaw [x0a]]
         end.

(** [struct MyConflictHandler] and the two threads; the condition variables
    are the threads blocked on them. *)
Record state := mk_state {
  mutex2 : mutex;
  count : Z;
  prod : ppc;
  cons : cpc;
  events : list event;
}.

Inductive action := Prod | Cons | SpuriousProd | SpuriousCons.

Section demo.
Context (iters : nat).

Definition producer2 (s : state) : option state :=
  let go m c p evs := Some (mk_state m c p (cons s) (events s ++ evs)) in
  match prod s with
  | P2Lock => m ← pthread_mutex_lock 0 (mutex2 s); go m (count s) (P2For 0) []
  | P2For i => go (mutex2 s) (count s) (if i <? iters then P2Test i else P2Unlock) []
  | P2Test i =>
      if (10 <? count s)%Z
      then m ← pthread_mutex_unlock 0 (mutex2 s); go m (count s) (P2Wait i) []
      else go (mutex2 s) (count s) (P2Inc i) []
  | P2Wait _ => None
  | P2Relock i => m ← pthread_mutex_lock 0 (mutex2 s); go m (count s) (P2Test i) []
  | P2Inc i => go (mutex2 s) (wrapS 32 (count s + 1)) (P2Print i) []
  | P2Print i => go (mutex2 s) (count s) (P2Signal i) [EvPush (count s)]
  | P2Signal i =>
      Some (mk_state (mutex2 s) (count s) (P2For (S i))
              (match cons s with C2Wait j => C2Relock j | c => c end) (events s))
  | P2Unlock => m ← pthread_mutex_unlock 0 (mutex2 s); go m (count s) P2Done []
  | P2Done => None
  end.

Definition consumer2 (s : state) : option state :=
  let go m c k evs := Some (mk_state m c (prod s) k (events s ++ evs)) in
  match cons s with
  | C2Lock => m ← pthread_mutex_lock 1 (mutex2 s); go m (count s) (C2For 0) []
  | C2For i => go (mutex2 s) (count s) (if i <? iters then C2Test i else C2Unlock) []
  | C2Test i =>
      if (count s =? 0)%Z
      then m ← pthread_mutex_unlock 1 (mutex2 s); go m (count s) (C2Wait i) []
      else go (mutex2 s) (count s) (C2Dec i) []
  | C2Wait _ => None
  | C2Relock i => m ← pthread_mutex_lock 1 (mutex2 s); go m (count s) (C2Test i) []
  | C2Dec i => go (mutex2 s) (wrapS 32 (count s - 1)) (C2Print i) []
  | C2Print i => go (mutex2 s) (count s) (C2Signal i) [EvPop (count s)]
  | C2Signal i =>
      Some (mk_state (mutex2 s) (count s)
              (match prod s with P2Wait j => P2Relock j | p => p end) (C2For (S i)) (events s))
  | C2Unlock => m ← pthread_mutex_unlock 1 (mutex2 s); go m (count s) C2Done []
  | C2Done => None
  end.

Definition step (a : action) (s : state) : option state :=
  match a with
  | Prod => producer2 s
  | Cons => consumer2 s
  | SpuriousProd =>
      match prod s with
      | P2Wait i => Some (mk_state (mutex2 s) (count s) (P2Relock i) (cons s) (events s))
      | _ => None
      end
  | SpuriousCons =>
      match cons s with
      | C2Wait i => Some (mk_state (mutex2 s) (count s) (prod s) (C2Relock i) (events s))
      | _ => None
      end
  end.

(** The local [struct MyConflictHandler test_data]. *)
Definition test_data : state :=
  mk_state (pthread_mutex_init pthread_mutexattr_init) 0 P2Lock C2Lock [].

(** ** The abstract counter: every line printed is one step of it *)

Definition cnt_step (r : Z) (e : event) : option Z :=
  match e with
  | EvPush c => if ((c =? r + 1) && (c <=? 11))%Z then Some c else None
  | EvPop c => if ((c =? r - 1) && (0 <=? c))%Z then Some c else None
  end.

(** ** The invariant *)

Definition p_cs (p : ppc) : bool :=
  match p with P2Lock | P2Wait _ | P2Relock _ | P2Done => false | _ => true end.
Definition c_cs (c : cpc) : bool :=
  match c with C2Lock | C2Wait _ | C2Relock _ | C2Done => false | _ => true end.

(** Increments and decrements done so far. *)
Definition incs (p : ppc) : nat :=
  match p with
  | P2Lock => 0
  | P2For i | P2Test i | P2Wait i | P2Relock i | P2Inc i => i
  | P2Print i | P2Signal i => S i
  | P2Unlock | P2Done => iters
  end.
Definition decs (c : cpc) : nat :=
  match c with
  | C2Lock => 0
  | C2For i | C2Test i | C2Wait i | C2Relock i | C2Dec i => i
  | C2Print i | C2Signal i => S i
  | C2Unlock | C2Done => iters
  end.

(** Inside the loop body the index is below the bound; the guards the thread
    has passed still hold, since it has not given up the mutex. *)
Definition p_ok (p : ppc) (c : Z) : Prop :=
  match p with
  | P2For i => i <= iters
  | P2Test i | P2Wait i | P2Relock i => i < iters
  | P2Inc i => i < iters /\ (c <= 10)%Z
  | P2Print i => i < iters /\ (1 <= c)%Z
  | P2Signal i => i < iters
  | _ => True
  end.
Definition c_ok (c : cpc) (n : Z) : Prop :=
  match c with
  | C2For i => i <= iters
  | C2Test i | C2Wait i | C2Relock i => i < iters
  | C2Dec i => i < iters /\ (n <> 0)%Z
  | C2Print i => i < iters /\ (n <= 10)%Z
  | C2Signal i => i < iters
  | _ => True
  end.

(** A thread waits only for a condition that is false or about to be signalled. *)
Definition p_waits (s : state) : Prop :=
  match prod s, cons s with
  | P2Wait _, (C2Print _ | C2Signal _) => True
  | P2Wait _, _ => (10 < count s)%Z
  | _, _ => True
  end.
Definition c_waits (s : state) : Prop :=
  match cons s, prod s with
  | C2Wait _, (P2Print _ | P2Signal _) => True
  | C2Wait _, _ => count s = 0%Z
  | _, _ => True
  end.

Definition is_push (e : event) : bool := match e with EvPush _ => true | EvPop _ => false end.
Definition is_pop (e : event) : bool := match e with EvPop _ => true | EvPush _ => false end.
Definition p_printed (p : ppc) : nat :=
  match p with P2Print i => i | _ => incs p end.
Definition c_printed (c : cpc) : nat :=
  match c with C2Print i => i | _ => decs c end.

(** The count after the last line: a thread about to print has already changed it. *)
Definition shown (s : state) : Z :=
  match prod s, cons s with
  | P2Print _, _ => count s - 1
  | _, C2Print _ => count s + 1
  | _, _ => count s
  end.

Record inv2 (s : state) : Prop := {
  i2_own : owned (mutex2 s) (if p_cs (prod s) then Some 0 else if c_cs (cons s) then Some 1 else None);
  i2_excl : p_cs (prod s) && c_cs (cons s) = false;
  i2_count : count s = (Z.of_nat (incs (prod s)) - Z.of_nat (decs (cons s)))%Z;
  i2_bound : (0 <= count s <= 11)%Z;
  i2_prod : p_ok (prod s) (count s);
  i2_cons : c_ok (cons s) (count s);
  i2_pwaits : p_waits s;
  i2_cwaits : c_waits s;
  i2_push : length (List.filter is_push (events s)) = p_printed (prod s);
  i2_pop : length (List.filter is_pop (events s)) = c_printed (cons s);
  i2_hist : history cnt_step 0%Z (events s) = Some (shown s);
}.

Lemma filter_snoc {A} (f : A -> bool) l x :
  length (List.filter f (l ++ [x])) = length (List.filter f l) + (if f x then 1 else 0).
Proof. rewrite List.filter_app, length_app. simpl. by destruct (f x). Qed.

Ltac solve_inv2 :=
  split; simpl in *; unfold p_waits, c_waits in *; simpl in *; rewrite ?app_nil_r, ?filter_snoc,
    ?length_app; simpl; destruct_and?; rewrite ?wrapS_small by lia; try done; try lia;
  unfold shown in *; simpl in *;
  match goal with
  | H : history _ _ ?evs = Some _ |- history _ _ (?evs ++ _) = _ =>
      rewrite (history_snoc _ _ _ _ _ H); unfold cnt_step;
      rewrite (proj2 (andb_true_iff _ _)) by (split; [apply Z.eqb_eq|apply Z.leb_le]; lia); done
  | H : history _ _ ?evs = Some _ |- history _ _ ?evs = _ => rewrite H; f_equal; lia
  end.

(** What the mutex operations of thread [t] say about the owner. *)
Ltac mutex_step Ho :=
  match goal with
  | H : context [pthread_mutex_lock ?t ?m] |- _ =>
      let E := fresh "E" in destruct (pthread_mutex_lock t m) as [?|] eqn:E; [|done];
      apply (owned_lock _ _ _ _ Ho) in E as [? ?]; [|by repeat case_match]
  | H : context [pthread_mutex_unlock ?t ?m] |- _ =>
      let E := fresh "E" in destruct (pthread_mutex_unlock t m) as [?|] eqn:E; [|done];
      apply (owned_unlock _ _ _ _ Ho) in E as [? ?]
  | _ => idtac
  end.

Lemma prod_step_inv s s' : inv2 s -> producer2 s = Some s' -> inv2 s'.
Proof.
  intros [Ho Hx Hc Hb Hp Hk Hpw Hcw Hpu Hpo Hev] Hs. destruct s as [m n p k evs]; simpl in *.
  unfold producer2 in Hs; simpl in Hs.
  destruct p as [|i|i|i|i|i|i|i| | ]; try done; simpl in Hs, Hx;
    [|destruct (Nat.ltb_spec i iters)|destruct (Z.ltb_spec 10 n)| | | | | ]; mutex_step Ho;
    destruct k as [|j|j|j|j|j|j|j| | ]; try done; simplify_eq/=; solve_inv2.
Qed.

Lemma cons_step_inv s s' : inv2 s -> consumer2 s = Some s' -> inv2 s'.
Proof.
  intros [Ho Hx Hc Hb Hp Hk Hpw Hcw Hpu Hpo Hev] Hs. destruct s as [m n p k evs]; simpl in *.
  unfold consumer2 in Hs; simpl in Hs.
  destruct k as [|i|i|i|i|i|i|i| | ]; try done; simpl in Hs, Hx;
    [|destruct (Nat.ltb_spec i iters)|destruct (Z.eqb_spec n 0)| | | | | ]; mutex_step Ho;
    destruct p as [|j|j|j|j|j|j|j| | ]; try done; simplify_eq/=; solve_inv2.
Qed.

Lemma inv2_step a s s' : inv2 s -> step a s = Some s' -> inv2 s'.
Proof.
  destruct a; simpl; [apply prod_step_inv|apply cons_step_inv|..];
    intros [Ho Hx Hc Hb Hp Hk Hpw Hcw Hpu Hpo Hev] Hs; destruct s as [m n p k evs]; simpl in *;
    [destruct p; try done; destruct k|destruct k; try done; destruct p]; simplify_eq/=; solve_inv2.
Qed.

Lemma inv2_init : inv2 test_data.
Proof. split; done. Qed.

(** ** Termination and progress *)

Definition p_work (p : ppc) : nat :=
  match p with
  | P2Lock => 12 * iters + 12
  | P2For i => 12 * (iters - i) + 10
  | P2Relock i => 12 * (iters - i) + 9
  | P2Test i => 12 * (iters - i) + 8
  | P2Wait i => 12 * (iters - i) + 7
  | P2Inc i => 12 * (iters - i) + 6
  | P2Print i => 12 * (iters - i) + 5
  | P2Signal i => 12 * (iters - i) + 4
  | P2Unlock => 1
  | P2Done => 0
  end.
Definition c_work (c : cpc) : nat :=
  match c with
  | C2Lock => 12 * iters + 12
  | C2For i => 12 * (iters - i) + 10
  | C2Relock i => 12 * (iters - i) + 9
  | C2Test i => 12 * (iters - i) + 8
  | C2Wait i => 12 * (iters - i) + 7
  | C2Dec i => 12 * (iters - i) + 6
  | C2Print i => 12 * (iters - i) + 5
  | C2Signal i => 12 * (iters - i) + 4
  | C2Unlock => 1
  | C2Done => 0
  end.
Definition work (s : state) : nat := p_work (prod s) + c_work (cons s).

Definition kind_of (a : action) : kind :=
  match a with SpuriousProd | SpuriousCons => Env | _ => Stmt end.

Lemma work2_step a s s' :
  inv2 s -> step a s = Some s' -> work s' + 1 <= work s + 3 * count_kind kind_of Env [a].
Proof.
  intros [_ _ _ _ Hp Hk _ _ _ _ _] Hs. destruct s as [m n p k evs]; unfold work; simpl in *.
  destruct a; simpl in Hs; [unfold producer2 in Hs|unfold consumer2 in Hs|..]; simpl in Hs.
  - destruct p as [|i|i|i|i|i|i|i| | ]; try done; simpl in *;
      [destruct (pthread_mutex_lock 0 m)|destruct (Nat.ltb_spec i iters)
      |case_match; [destruct (pthread_mutex_unlock 0 m)|]|destruct (pthread_mutex_lock 0 m)| |
      |destruct k|destruct (pthread_mutex_unlock 0 m)]; simplify_eq/=; destruct_and?; lia.
  - destruct k as [|i|i|i|i|i|i|i| | ]; try done; simpl in *;
      [destruct (pthread_mutex_lock 1 m)|destruct (Nat.ltb_spec i iters)
      |case_match; [destruct (pthread_mutex_unlock 1 m)|]|destruct (pthread_mutex_lock 1 m)| |
      |destruct p|destruct (pthread_mutex_unlock 1 m)]; simplify_eq/=; destruct_and?; lia.
  - destruct p; simplify_eq/=; lia.
  - destruct k; simplify_eq/=; lia.
Qed.

Definition finished (s : state) : Prop := prod s = P2Done /\ cons s = C2Done.

(** The thread inside the critical section can go on. *)
Lemma prod_cs_progress s : inv2 s -> p_cs (prod s) = true -> is_Some (step Prod s).
Proof.
  intros [Ho _ _ _ _ _ _ _ _ _ _] Hcs. rewrite Hcs in Ho.
  destruct (owned_unlock_own _ _ Ho) as [m Hm]. simpl. unfold producer2.
  destruct (prod s); simpl; rewrite ?Hm; simpl; try done; case_match; simpl; eauto.
Qed.

Lemma cons_cs_progress s : inv2 s -> c_cs (cons s) = true -> is_Some (step Cons s).
Proof.
  intros [Ho Hx _ _ _ _ _ _ _ _ _] Hcs. rewrite Hcs, andb_true_r in Hx. rewrite Hx, Hcs in Ho.
  destruct (owned_unlock_own _ _ Ho) as [m Hm]. simpl. unfold consumer2.
  destruct (cons s); simpl; rewrite ?Hm; simpl; try done; case_match; simpl; eauto.
Qed.

Lemma progress2 s :
  inv2 s -> finished s \/ is_Some (step Prod s) \/ is_Some (step Cons s).
Proof.
  intros Hi. destruct (p_cs (prod s)) eqn:Ep; [right; left; by apply prod_cs_progress|].
  destruct (c_cs (cons s)) eqn:Ec; [right; right; by apply cons_cs_progress|].
  destruct Hi as [Ho _ Hc Hb Hp Hk Hpw Hcw _ _ _]. rewrite Ep, Ec in Ho.
  destruct (owned_lock_free _ 0 Ho) as [m0 H0], (owned_lock_free _ 1 Ho) as [m1 H1].
  unfold finished, p_waits, c_waits in *. simpl. unfold producer2, consumer2.
  destruct s as [m n p k evs]; simpl in *.
  destruct p; try done; destruct k; try done; simpl in *; rewrite ?H0, ?H1; simpl; eauto;
    exfalso; lia.
Qed.
End demo.


(** ** The demo *)

Definition cond2_workers (iters : nat) : workers :=
  mk_workers state action test_data (step iters) kind_of
    (fun a => match a with Prod | SpuriousProd => [0] | Cons | SpuriousCons => [1] end)
    (fun s t => match t with
                | 0 => match prod s with P2Done => true | _ => false end
                | 1 => match cons s with C2Done => true | _ => false end
                | _ => false
                end)
    (fun s => render <$> events s).

(** [iters] is 100 in the source. *)
Definition demo_cond_var2 (strerror : Z -> bytes) (iters : nat) : proc :=
  demo strerror (cond2_workers iters) (format (separator "Demo 3: Condition Variable — Producer/Consumer"))
    [Create 0; Create 1; Join 0; Join 1].

(** The lines are a legal history of a counter between 0 and 11 that ends at
    0, with [iters] lines from each thread. *)
Definition cond2_post (iters : nat) (ls : list bytes) : Prop :=
  exists evs, ls = render <$> evs /\ history cnt_step 0%Z evs = Some 0%Z /\
    length (List.filter is_push evs) = iters /\ length (List.filter is_pop evs) = iters.

Lemma inv2_reachable iters sched s :
  run (step iters) sched test_data = Some s ->
  inv2 iters s /\ length sched + work iters s <= 24 * (iters + 1) + 3 * count_kind kind_of Env sched.
Proof.
  intros Hrun. replace (24 * (iters + 1)) with (work iters test_data) by (unfold work; simpl; lia).
  revert Hrun. apply run_env_bound; [|apply inv2_init].
  intros a x y Hx Hy. split; [by eapply inv2_step|by eapply work2_step].
Qed.

Lemma cond2_done iters s :
  (forall t, t < 2 -> w_done (cond2_workers iters) s t = true) <-> finished s.
Proof.
  unfold finished. split.
  - intros H. pose proof (H 0 ltac:(lia)) as H0. pose proof (H 1 ltac:(lia)) as H1. simpl in *.
    by destruct (prod s), (cons s).
  - intros [Hp Hc] [|[|t]] Ht; simpl; [by rewrite Hp|by rewrite Hc|lia].
Qed.

#[export] Instance cond2_workers_ok iters :
  WorkersOk (cond2_workers iters) 2 (24 * (iters + 1)) (cond2_post iters).
Proof.
  split; simpl.
  - intros sched s Hrun. apply inv2_reachable in Hrun as [_ Hl]. lia.
  - intros sched s Hrun. apply inv2_reachable in Hrun as [Hi _].
    destruct (progress2 _ _ Hi) as [Hf|[[s' Hs]|[s' Hs]]]; [by left; apply (cond2_done iters)|..];
      right; [by exists Prod, s'|by exists Cons, s'].
  - intros sched s a s' _ _. destruct a; repeat constructor.
  - intros sched s a s' t _ Hs Ht. destruct s as [m n p k evs].
    destruct t as [|[|t]]; [destruct p|destruct k|]; try done; destruct a; try done; simpl in Hs;
      unfold producer2, consumer2 in Hs; simpl in Hs; repeat case_match; by simplify_option_eq.
  - intros sched s _ [Hp Hc]%(cond2_done iters) a.
    destruct a; simpl; unfold producer2, consumer2; rewrite ?Hp, ?Hc; done.
  - intros sched s Hrun Hd%(cond2_done iters). apply inv2_reachable in Hrun as [Hi _]. destruct Hd as [Hp Hc].
    destruct Hi as [_ _ Hn _ _ _ _ _ Hpu Hpo Hh]. exists (events s).
    unfold shown in Hh. rewrite Hp, Hc in *. simpl in *. split_and!; [done| |done|done].
    rewrite Hh. f_equal. lia.
  - by intros [].
Qed.

(** C12: in every interleaving of [demo_cond_var2]'s main thread with
    [producer2] and [consumer2], spurious wake-ups and failing calls included,
    [count] stays between 0 and 11 and equals increments minus decrements, at
    most one thread holds the mutex inside its loop, and the lines printed are
    a legal history of a counter: each is one more or one less than the line
    before it. *)
Theorem cond_var2_counts strerror iters sched d :
  prun (demo_cond_var2 strerror iters) sched d ->
  let s := d_w _ d in
  (0 <= count s <= 11)%Z /\
  count s = (Z.of_nat (incs iters (prod s)) - Z.of_nat (decs iters (cons s)))%Z /\
  p_cs (prod s) && c_cs (cons s) = false /\
  history cnt_step 0%Z (events s) = Some (shown s).
Proof.
  intros [ws Hrun]%demo_workers_run. apply inv2_reachable in Hrun as [[Ho Hx Hc Hb _ _ _ _ _ _ Hh] _].
  exact (conj Hb (conj Hc (conj Hx Hh))).
Qed.

Lemma cond2_ok strerror iters :
  proc_ok strerror (demo_cond_var2 strerror iters) (4 + 24 * (iters + 1))
    (titled (format (separator "Demo 3: Condition Variable — Producer/Consumer")) (cond2_post iters)).
Proof.
  assert (Hb : body_ok 2 [] [Create 0; Create 1; Join 0; Join 1] = true) by (vm_compute; reflexivity).
  exact (demo_ok strerror _ _ _ 2 _ (cond2_post iters) Hb ltac:(done)).
Qed.

(** C13: [demo_cond_var2] runs to its end: it never deadlocks nor loses a
    wake-up, its number of steps is bounded, up to three per spurious wake-up,
    it exits early only when [pthread_create] or [pthread_join] failed, which
    it reports, and when it returns both threads have printed [iters] lines
    that take the counter from 0 back to 0. *)
Theorem cond_var2_terminates strerror iters :
  proc_ok strerror (demo_cond_var2 strerror iters) (4 + 24 * (iters + 1))
    (titled (format (separator "Demo 3: Condition Variable — Producer/Consumer")) (cond2_post iters)).
Proof. apply cond2_ok. Qed.

(** ** Witness: 100 iterations, the producer first *)

Definition cond2_demo : proc := demo_cond_var2 (fun _ => []) 100.
Definition cond2_sched : list (p_action cond2_demo) :=
  let W := cond2_workers 100 in
  greedy (p_step cond2_demo) [Main W 0; Thr W Prod; Thr W Cons] 3000 (p_init cond2_demo).

Lemma cond_var2_counts_witness :
  exists d, prun cond2_demo cond2_sched d /\ p_ret cond2_demo d = true /\
    history cnt_step 0%Z (events (d_w _ d)) = Some (shown (d_w _ d)).
Proof.
  destruct (returns_by_prun cond2_demo cond2_sched) as (d & Hrun & Hret); [vm_compute; reflexivity|].
  exists d. split; [exact Hrun|]. split; [exact Hret|].
  apply (cond_var2_counts (fun _ => []) 100 cond2_sched d Hrun).
Defined.
