(* ===== verification/ThreadRw.v ===== *)
(** * The read-write lock demo

    src/02_threads/thread_demo.c, Demo 4: [reader] and [writer], for any list
    of readers and writers, and [demo_rwlock] with its main thread as in
    MainThread.v.  The abstract object is a register:
    the lines the threads print, in order, must be a legal history of it. *)

From S2P Require Import Prelude CLib Pthread MainThread.

Local Open Scope nat_scope.

Inductive pc :=
| RdLock (id : Z)      (* pthread_rwlock_rdlock(&g_rwlock) *)
| RdPrint (id : Z)     (* printf of g_shared_val *)
| RdUnlock (id : Z)
| RdDone (id : Z)
| WrLock (id : Z)      (* pthread_rwlock_wrlock(&g_rwlock) *)
| WrStore (id : Z)     (* g_shared_val = id * 100 *)
| WrPrint (id : Z)
| WrUnlock (id : Z)
| WrDone (id : Z).

Inductive event := EvRead (id v : Z) | EvSet (id v : Z).

Definition render (e : event) : bytes :=
  format match e with
         | EvRead id v => [FLit "[READER "; FD id; FLit "] shared_val = "; FD v; FRaw [x0a]]
         | EvSet id v => [FLit "[WRITER "; FD id; FLit "] set shared_val = "; FD v; FRaw [x0a]]
         end.

Record state := mk_state {
  g_shared_val : Z;
  g_rwlock : rwlock;
  thr : list pc;
  events : list event;
}.

Definition reader (t : nat) (p : pc) (s : state) : option (pc * Z * rwlock * list event) :=
  match p with
  | RdLock id => l ← rwlock_rdlock t (g_rwlock s); Some (RdPrint id, g_shared_val s, l, [])
  | RdPrint id =>
      Some (RdUnlock id, g_shared_val s, g_rwlock s, [EvRead id (g_shared_val s)])
  | RdUnlock id => l ← rwlock_unlock t (g_rwlock s); Some (RdDone id, g_shared_val s, l, [])
  | _ => None
  end.

Definition writer (t : nat) (p : pc) (s : state) : option (pc * Z * rwlock * list event) :=
  match p with
  | WrLock id => l ← rwlock_wrlock t (g_rwlock s); Some (WrStore id, g_shared_val s, l, [])
  | WrStore id => Some (WrPrint id, wrapS 32 (id * 100), g_rwlock s, [])
  | WrPrint id =>
      Some (WrUnlock id, g_shared_val s, g_rwlock s, [EvSet id (g_shared_val s)])
  | WrUnlock id => l ← rwlock_unlock t (g_rwlock s); Some (WrDone id, g_shared_val s, l, [])
  | _ => None
  end.

Definition is_reader (p : pc) : bool :=
  match p with RdLock _ | RdPrint _ | RdUnlock _ | RdDone _ => true | _ => false end.

Definition step (t : nat) (s : state) : option state :=
  p ← thr s !! t;
  '(p', v, l, evs) ← (if is_reader p then reader t p s else writer t p s);
  Some (mk_state v l (<[t := p']> (thr s)) (events s ++ evs)).

Definition start (threads : list pc) : state := mk_state 0 rwlock_init threads [].

Definition returned (p : pc) : bool := match p with RdDone _ | WrDone _ => true | _ => false end.

Definition rw_workers (threads : list pc) : workers :=
  mk_workers state nat (start threads) step (fun _ => Stmt) (fun t => [t])
    (fun s t => match thr s !! t with Some p => returned p | None => false end)
    (fun s => render <$> events s).

(** Threads 0 and 1 are the two writers (ids 98 and 99), created first; 2 to 4
    the [NR] readers (ids 1 to 3), joined first. *)
Definition rw_threads : list pc := [WrLock 98; WrLock 99; RdLock 1; RdLock 2; RdLock 3].

Definition demo_rwlock (strerror : Z -> bytes) : proc :=
  demo strerror (rw_workers rw_threads) (format (separator "Demo 4: Read-Write Lock"))
    ([Create 0; Create 1] ++ (Create <$> [2; 3; 4]) ++ (Join <$> [2; 3; 4]) ++ [Join 0; Join 1]).

(** ** The abstract register *)

Definition reg_step (r : Z) (e : event) : option Z :=
  match e with
  | EvSet id v => if (v =? wrapS 32 (id * 100))%Z then Some v else None
  | EvRead _ v => if (v =? r)%Z then Some r else None
  end.

(** ** The invariant *)

Definition w_cs (p : pc) : bool :=
  match p with WrStore _ | WrPrint _ | WrUnlock _ => true | _ => false end.
Definition r_cs (p : pc) : bool :=
  match p with RdPrint _ | RdUnlock _ => true | _ => false end.

(** A writer between its store and its line is ahead of the history. *)
Definition ahead (thr : list pc) (w : option nat) : option Z :=
  match w with
  | Some t => match thr !! t with Some (WrPrint id) => Some id | _ => None end
  | None => None
  end.

Record rw_inv (s : state) : Prop := {
  rw_w : cs_inv w_cs (rw_writer (g_rwlock s)) (thr s);
  rw_r : forall t, t ∈ rw_readers (g_rwlock s) <-> exists p, thr s !! t = Some p /\ r_cs p = true;
  rw_x : rw_writer (g_rwlock s) = None \/ rw_readers (g_rwlock s) = ∅;
  rw_reg : exists r, history reg_step 0%Z (events s) = Some r /\
    g_shared_val s = match ahead (thr s) (rw_writer (g_rwlock s)) with
                     | Some id => wrapS 32 (id * 100)
                     | None => r
                     end;
}.

Lemma readers_stay (R : gset nat) (thr : list pc) t p p' :
  (forall u, u ∈ R <-> exists x, thr !! u = Some x /\ r_cs x = true) ->
  thr !! t = Some p -> r_cs p' = r_cs p ->
  forall u, u ∈ R <-> exists x, <[t := p']> thr !! u = Some x /\ r_cs x = true.
Proof.
  intros HR Hp Hc u. rewrite HR. setoid_rewrite (lookup_insert_thr _ _ _ _ _ _ Hp).
  destruct (decide (u = t)) as [->|Hne]; [|naive_solver].
  rewrite Hp. split.
  - intros (x & [= <-] & Hx). exists p'. split; [by left|congruence].
  - intros (x & [[_ ->]|[? _]] & Hx); [|done]. exists p. split; [done|congruence].
Qed.

Lemma readers_enter (R : gset nat) (thr : list pc) t p p' :
  (forall u, u ∈ R <-> exists x, thr !! u = Some x /\ r_cs x = true) ->
  thr !! t = Some p -> r_cs p' = true ->
  forall u, u ∈ {[t]} ∪ R <-> exists x, <[t := p']> thr !! u = Some x /\ r_cs x = true.
Proof.
  intros HR Hp Hc u. rewrite elem_of_union, elem_of_singleton, HR.
  setoid_rewrite (lookup_insert_thr _ _ _ _ _ _ Hp).
  destruct (decide (u = t)) as [->|Hne]; naive_solver.
Qed.

Lemma readers_leave (R : gset nat) (thr : list pc) t p p' :
  (forall u, u ∈ R <-> exists x, thr !! u = Some x /\ r_cs x = true) ->
  thr !! t = Some p -> r_cs p' = false ->
  forall u, u ∈ R ∖ {[t]} <-> exists x, <[t := p']> thr !! u = Some x /\ r_cs x = true.
Proof.
  intros HR Hp Hc u. rewrite elem_of_difference, elem_of_singleton, HR.
  setoid_rewrite (lookup_insert_thr _ _ _ _ _ _ Hp).
  destruct (decide (u = t)) as [->|Hne]; [|naive_solver]. split; [naive_solver|].
  intros (x & [[_ ->]|[? _]] & ?); [congruence|done].
Qed.

Lemma ahead_other (thr : list pc) w t p' :
  w <> Some t -> ahead (<[t := p']> thr) w = ahead thr w.
Proof. intros Hne. destruct w; simpl; [|done]. rewrite list_lookup_insert_ne; [done|congruence]. Qed.

Lemma ahead_own (thr : list pc) t p p' :
  thr !! t = Some p ->
  ahead (<[t := p']> thr) (Some t) = match p' with WrPrint id => Some id | _ => None end.
Proof. intros Hp. simpl. rewrite list_lookup_insert_eq by (by eapply lookup_lt_Some). done. Qed.

Lemma rw_reader_step t p s s' :
  rw_inv s -> thr s !! t = Some p -> is_reader p = true -> step t s = Some s' -> rw_inv s'.
Proof.
  intros [Hw Hr Hx (r & Hreg & Hv)] Hp Hir Hs. unfold step in Hs. rewrite Hp in Hs. simpl in Hs.
  rewrite Hir in Hs.
  assert (Hne : rw_writer (g_rwlock s) <> Some t)
    by (eapply cs_inv_not_owner; [done|done|by destruct p]).
  destruct p as [id|id|id| | | | | | ]; try done; simpl in Hs.
  - unfold rwlock_rdlock in Hs. destruct (rw_writer (g_rwlock s)) eqn:E; simplify_eq/=.
    split; simpl.
    + by eapply cs_inv_stay.
    + by eapply readers_enter.
    + by left.
    + eexists. rewrite app_nil_r. done.
  - simplify_eq/=. split; simpl.
    + by eapply cs_inv_stay.
    + by eapply readers_stay.
    + done.
    + assert (rw_writer (g_rwlock s) = None) as Hn.
      { destruct Hx as [?|He]; [done|]. exfalso.
        apply (not_elem_of_empty (C := gset nat) t). rewrite <- He. apply Hr. eauto. }
      rewrite Hn in *. simpl in *. exists r. rewrite (history_snoc _ _ _ _ _ Hreg). simpl.
      by rewrite Hv, Z.eqb_refl.
  - unfold rwlock_unlock in Hs. rewrite decide_False in Hs by done. case_decide; simplify_eq/=.
    split; simpl.
    + by eapply cs_inv_stay.
    + by eapply readers_leave.
    + destruct Hx as [->|He]; [by left|]. right. rewrite He. set_solver.
    + eexists. rewrite app_nil_r, ahead_other by done. done.
Qed.

Lemma rw_writer_step t p s s' :
  rw_inv s -> thr s !! t = Some p -> is_reader p = false -> step t s = Some s' -> rw_inv s'.
Proof.
  intros [Hw Hr Hx (r & Hreg & Hv)] Hp Hir Hs. unfold step in Hs. rewrite Hp in Hs. simpl in Hs.
  rewrite Hir in Hs.
  destruct p as [| | | |id|id|id|id| ]; try done; simpl in Hs.
  - unfold rwlock_wrlock in Hs. destruct (rw_writer (g_rwlock s)) eqn:E; [done|].
    case_decide as He; simplify_eq/=. split; simpl.
    + by eapply cs_inv_acquire.
    + rewrite He in Hr. by eapply readers_stay.
    + by right.
    + eexists. rewrite app_nil_r, list_lookup_insert_eq by (by eapply lookup_lt_Some). done.
  - assert (rw_writer (g_rwlock s) = Some t) as Ho by (by eapply cs_inv_owner).
    simplify_eq/=. rewrite Ho in *. split; simpl; rewrite ?Ho.
    + by eapply cs_inv_stay.
    + by eapply readers_stay.
    + done.
    + eexists. rewrite app_nil_r, (ahead_own _ _ _ _ Hp). done.
  - assert (rw_writer (g_rwlock s) = Some t) as Ho by (by eapply cs_inv_owner).
    simplify_eq/=. rewrite Ho in *. simpl in Hv. rewrite Hp in Hv. split; simpl; rewrite ?Ho.
    + by eapply cs_inv_stay.
    + by eapply readers_stay.
    + done.
    + eexists. rewrite (history_snoc _ _ _ _ _ Hreg), (ahead_own _ _ _ _ Hp). simpl.
      rewrite Hv, Z.eqb_refl. done.
  - assert (rw_writer (g_rwlock s) = Some t) as Ho by (by eapply cs_inv_owner).
    unfold rwlock_unlock in Hs. rewrite decide_True in Hs by done. simplify_eq/=.
    rewrite Ho in *. simpl in Hv. rewrite Hp in Hv. split; simpl.
    + by eapply cs_inv_release.
    + by eapply readers_stay.
    + by left.
    + eexists. by rewrite app_nil_r.
Qed.

Lemma rw_inv_step t s s' : rw_inv s -> step t s = Some s' -> rw_inv s'.
Proof.
  intros Hi Hs. destruct (thr s !! t) as [p|] eqn:Hp; [|unfold step in Hs; by rewrite Hp in Hs].
  destruct (is_reader p) eqn:E; [by eapply rw_reader_step|by eapply rw_writer_step].
Qed.

Definition fresh_thread (p : pc) : Prop := exists id, p = RdLock id \/ p = WrLock id.

Lemma rw_inv_start threads : Forall fresh_thread threads -> rw_inv (start threads).
Proof.
  intros Hf. rewrite Forall_lookup in Hf. split; simpl.
  - intros t. split; [done|]. intros (p & Hp & Hc).
    destruct (Hf _ _ Hp) as [id [->| ->]]; done.
  - intros t. rewrite elem_of_empty. split; [done|]. intros (p & Hp & Hc).
    destruct (Hf _ _ Hp) as [id [->| ->]]; done.
  - by left.
  - by exists 0%Z.
Qed.

(** ** Progress and termination *)

Definition pc_work (p : pc) : nat :=
  match p with
  | RdLock _ => 3 | RdPrint _ => 2 | RdUnlock _ => 1 | RdDone _ => 0
  | WrLock _ => 4 | WrStore _ => 3 | WrPrint _ => 2 | WrUnlock _ => 1 | WrDone _ => 0
  end.

Definition work (s : state) : nat := sum_list_with pc_work (thr s).

Lemma rw_work_step t s s' : step t s = Some s' -> work s' < work s.
Proof.
  unfold step, work. intros Hs. destruct (thr s !! t) as [p|] eqn:Hp; [|done]. simpl in Hs.
  destruct p; simpl in Hs; try done;
    [destruct (rwlock_rdlock _ _)| |destruct (rwlock_unlock _ _)
    |destruct (rwlock_wrlock _ _)| | |destruct (rwlock_unlock _ _)]; simplify_eq/=;
    match goal with |- context [<[t := ?q]> _] =>
      pose proof (sum_list_with_insert pc_work _ _ _ q Hp) end; simpl in *; lia.
Qed.

Lemma rw_cs_progress s t p :
  rw_inv s -> thr s !! t = Some p -> r_cs p || w_cs p = true -> is_Some (step t s).
Proof.
  intros [Hw Hr Hx _] Hp Hc. unfold step. rewrite Hp. simpl.
  destruct p as [ |id|id| | |id|id|id| ]; try done; simpl; eauto; unfold rwlock_unlock.
  - case_decide; [eauto|]. rewrite decide_True by (apply Hr; eauto). eauto.
  - rewrite decide_True by (by eapply cs_inv_owner). eauto.
Qed.

(** If nobody is inside, every thread that still wants to enter can. *)
Lemma rw_progress s t p :
  rw_inv s -> thr s !! t = Some p -> returned p = false -> exists u, is_Some (step u s).
Proof.
  intros Hi Hp Hd. pose proof Hi as [Hw Hr Hx _].
  destruct (rw_writer (g_rwlock s)) as [o|] eqn:Eo.
  { destruct (proj1 (Hw o) eq_refl) as (x & Ho & Hc). exists o. eapply rw_cs_progress; eauto.
    by rewrite Hc, orb_true_r. }
  destruct (set_choose_or_empty (rw_readers (g_rwlock s))) as [[u Hu]|He].
  { apply Hr in Hu as (x & Hu & Hc). exists u. eapply rw_cs_progress; eauto. by rewrite Hc. }
  apply leibniz_equiv in He. exists t. unfold step. rewrite Hp. simpl.
  destruct p as [id|id|id| |id|id|id|id| ]; try done; simpl;
    unfold rwlock_rdlock, rwlock_wrlock, rwlock_unlock; rewrite ?Eo; simpl; eauto.
  - exfalso. apply (not_elem_of_empty (C := gset nat) t). rewrite <- He. apply Hr. eauto.
  - rewrite decide_True by done. simpl. eauto.
  - exfalso. by pose proof (cs_inv_owner _ _ _ _ _ Hw Hp eq_refl).
Qed.

(** C14: for any readers and writers and any interleaving, the lines printed are
    a legal sequential history of one register initialised to 0: every writer
    reports its own value [id * 100] and every reader reports the value of the
    last writer's line before it; a writer is alone in its critical section. *)
Theorem rwlock_register threads sched s :
  Forall fresh_thread threads -> run step sched (start threads) = Some s ->
  is_Some (history reg_step 0%Z (events s)) /\
  (forall t u p x, thr s !! t = Some p -> thr s !! u = Some x -> t <> u ->
     w_cs p = true -> w_cs x || r_cs x = false).
Proof.
  intros Hf Hrun. assert (rw_inv s) as [Hw Hr Hx (r & Hreg & _)].
  { revert Hrun. apply run_invariant; [apply rw_inv_step|by apply rw_inv_start]. }
  split; [eauto|]. intros t u p x Ht Hu Hne Hp.
  pose proof (cs_inv_owner _ _ _ _ _ Hw Ht Hp) as Ho. apply orb_false_iff. split.
  - destruct (w_cs x) eqn:E; [|done]. destruct Hne. by eapply cs_inv_excl.
  - destruct (r_cs x) eqn:E; [|done]. exfalso. rewrite Ho in Hx. destruct Hx as [?|He]; [done|].
    apply (not_elem_of_empty (C := gset nat) u). rewrite <- He. apply Hr. eauto.
Qed.

(** ** The demo *)

(** Who has printed, and who printed each line. *)
Definition printed (p : pc) : option Z :=
  match p with RdUnlock id | RdDone id | WrUnlock id | WrDone id => Some id | _ => None end.
Definition author (e : event) : Z := match e with EvRead id _ | EvSet id _ => id end.
Definition id_of (p : pc) : Z :=
  match p with
  | RdLock id | RdPrint id | RdUnlock id | RdDone id
  | WrLock id | WrStore id | WrPrint id | WrUnlock id | WrDone id => id
  end.

(** Each thread prints its line once. *)
Definition authors_inv (threads : list pc) (s : state) : Prop :=
  author <$> events s ≡ₚ omap printed (thr s) /\ id_of <$> thr s = id_of <$> threads.

Lemma fmap_insert_same {A B} (f : A -> B) (l : list A) i x y :
  l !! i = Some x -> f y = f x -> f <$> <[i := y]> l = f <$> l.
Proof. intros Hi Hf. rewrite list_fmap_insert, Hf. apply list_insert_id. by rewrite list_lookup_fmap, Hi. Qed.

Lemma authors_keep evs th t p p' :
  author <$> evs ≡ₚ omap printed th -> th !! t = Some p -> printed p' = printed p ->
  author <$> evs ++ [] ≡ₚ omap printed (<[t := p']> th).
Proof. intros He Hp Hf. by rewrite app_nil_r, (omap_insert_same _ _ _ _ _ Hp). Qed.

Lemma authors_new evs th t p p' e :
  author <$> evs ≡ₚ omap printed th -> th !! t = Some p -> printed p = None ->
  printed p' = Some (author e) -> author <$> evs ++ [e] ≡ₚ omap printed (<[t := p']> th).
Proof.
  intros He Hp Hn Hf. rewrite (omap_insert_new _ _ _ _ _ _ Hp Hn Hf), fmap_app, He.
  symmetry. apply Permutation_cons_append.
Qed.

Lemma authors_step threads t s s' :
  authors_inv threads s -> step t s = Some s' -> authors_inv threads s'.
Proof.
  unfold step. intros [He Hid] Hs. destruct (thr s !! t) as [p|] eqn:Hp; [|done]. simpl in Hs.
  destruct p; simpl in Hs; try done;
    [destruct (rwlock_rdlock _ _)| |destruct (rwlock_unlock _ _)
    |destruct (rwlock_wrlock _ _)| | |destruct (rwlock_unlock _ _)]; try done;
    cbn [mbind option_bind] in Hs; apply (inj Some) in Hs as <-;
    (split; cbn [thr events];
     [first [by eapply authors_keep|by eapply authors_new]|by rewrite (fmap_insert_same _ _ _ _ _ Hp)]).
Qed.

Definition rw_demo_inv (threads : list pc) (s : state) : Prop := rw_inv s /\ authors_inv threads s.

Lemma rw_reachable threads sched s :
  Forall fresh_thread threads -> run step sched (start threads) = Some s ->
  rw_demo_inv threads s /\ length sched <= 4 * length threads.
Proof.
  intros Hf Hrun. split.
  - revert Hrun. apply run_invariant.
    + intros a x y [Hx Ha] Hy. split; eauto using rw_inv_step, authors_step.
    + split; [by apply rw_inv_start|]. split; [|done]. simpl.
      replace (omap printed threads) with (@nil Z); [done|].
      induction Hf as [|p l [id [->| ->]] _ IH]; [done|exact IH..].
  - pose proof (run_measure step (fun _ => True) work (fun a x y _ Hy => conj I (rw_work_step a x y Hy))
      _ _ _ I Hrun) as Hm.
    assert (work (start threads) <= 4 * length threads); [|lia].
    unfold work. simpl. clear -Hf. induction Hf as [|p l [id [->| ->]] _ IH]; simpl in *; lia.
Qed.

(** The lines are a legal history of the register, one per thread. *)
Definition rw_post (threads : list pc) (ls : list bytes) : Prop :=
  exists evs, ls = render <$> evs /\ is_Some (history reg_step 0%Z evs) /\
    author <$> evs ≡ₚ id_of <$> threads.

Lemma rw_done threads s :
  id_of <$> thr s = id_of <$> threads ->
  (forall t, t < length threads -> w_done (rw_workers threads) s t = true) <->
  Forall (fun p => returned p = true) (thr s).
Proof.
  intros Hid. apply (f_equal length) in Hid. rewrite !length_fmap in Hid. rewrite Forall_lookup.
  simpl. rewrite <- Hid. split.
  - intros H t p Hp. specialize (H t (lookup_lt_Some _ _ _ Hp)). by rewrite Hp in H.
  - intros H t Ht. destruct (lookup_lt_is_Some_2 _ _ Ht) as [p Hp]. rewrite Hp. eauto.
Qed.

Lemma printed_all l :
  Forall (fun p => returned p = true) l -> omap printed l = id_of <$> l.
Proof. induction 1 as [|p l Hp _ IH]; [done|]. csimpl. rewrite IH. by destruct p. Qed.

#[export] Instance rw_workers_ok threads :
  Forall fresh_thread threads ->
  WorkersOk (rw_workers threads) (length threads) (4 * length threads) (rw_post threads).
Proof.
  intros Hf. split; simpl.
  - intros sched s Hrun. apply rw_reachable in Hrun as [_ Hl]; [lia|done].
  - intros sched s Hrun. apply rw_reachable in Hrun as [[Hi [_ Hid]] _]; [|done].
    destruct (decide (Forall (fun p => returned p = true) (thr s))) as [Hd|Hn];
      [by left; apply (rw_done threads)|right].
    apply not_Forall_Exists in Hn; [|apply _]. apply Exists_exists in Hn as (p & Hin & Hp).
    apply list_elem_of_lookup in Hin as [t Ht].
    destruct (rw_progress s t p Hi Ht) as (u & s' & Hs); [|by exists u, s'].
    destruct (returned p) eqn:E; [by destruct Hp|done].
  - intros sched s t s' Hrun Hs. apply rw_reachable in Hrun as [[_ [_ Hid]] _]; [|done].
    constructor; [|constructor]. apply (f_equal length) in Hid. rewrite !length_fmap in Hid.
    unfold step in Hs. destruct (thr s !! t) eqn:Hp; [|done]. apply lookup_lt_Some in Hp. lia.
  - intros sched s t s' u _ Hs Hd. unfold step in Hs. destruct (thr s !! t) as [p|] eqn:Hp; [|done].
    simpl in Hs. destruct (decide (u = t)) as [->|Hu].
    + rewrite Hp in Hd. by destruct p.
    + assert (thr s' !! u = thr s !! u) as ->; [|done].
      destruct (if is_reader p then _ else _) as [[[[p' v] l] evs]|]; simplify_eq/=.
      by rewrite list_lookup_insert_ne.
  - intros sched s Hrun Hd t. apply rw_reachable in Hrun as [[_ [_ Hid]] _]; [|done].
    apply (rw_done threads) in Hd; [|done]. rewrite Forall_lookup in Hd. unfold step.
    destruct (thr s !! t) as [p|] eqn:Hp; [|done]. specialize (Hd _ _ Hp). by destruct p.
  - intros sched s Hrun Hd. apply rw_reachable in Hrun as [[Hi [Ha Hid]] _]; [|done].
    apply (rw_done threads) in Hd; [|done]. exists (events s). split; [done|].
    destruct Hi as [_ _ _ (r & Hr & _)]. split; [eauto|]. by rewrite Ha, printed_all, Hid.
  - done.
Qed.

Lemma rw_threads_fresh : Forall fresh_thread rw_threads.
Proof. repeat constructor; eexists; eauto. Qed.

Lemma rw_ok strerror :
  proc_ok strerror (demo_rwlock strerror) (10 + 4 * 5)
    (titled (format (separator "Demo 4: Read-Write Lock")) (rw_post rw_threads)).
Proof.
  assert (Hb : body_ok 5 [] ([Create 0; Create 1] ++ (Create <$> [2; 3; 4]) ++ (Join <$> [2; 3; 4]) ++ [Join 0; Join 1])
    = true) by (vm_compute; reflexivity).
  pose proof (rw_workers_ok rw_threads rw_threads_fresh).
  exact (demo_ok strerror (rw_workers rw_threads) _ _ 5 _ (rw_post rw_threads) Hb ltac:(done)).
Qed.

(** C15: [demo_rwlock] never deadlocks, takes at most four steps per thread
    beside its creates and joins, exits early only after a failed one, which it
    reports, and when it returns each of the five threads has printed one line
    and the lines are a legal history of the register. *)
Theorem rwlock_terminates strerror :
  proc_ok strerror (demo_rwlock strerror) (10 + 4 * 5)
    (titled (format (separator "Demo 4: Read-Write Lock")) (rw_post rw_threads)).
Proof. apply rw_ok. Qed.

(** ** Witness: the demo's five threads *)

Definition rw_sched : list nat := [3; 3; 2; 2; 3; 2; 1; 1; 1; 1; 4; 4; 4; 0; 0; 0; 0].
Definition rw_end : state := default (start rw_threads) (run step rw_sched (start rw_threads)).

Lemma rwlock_register_witness :
  run step rw_sched (start rw_threads) = Some rw_end /\ is_Some (history reg_step 0%Z (events rw_end)) /\
  events rw_end = [EvRead 2 0; EvRead 1 0; EvSet 99 9900; EvRead 3 9900; EvSet 98 9800].
Proof.
  split; [vm_compute; reflexivity|]. split; [|vm_compute; reflexivity].
  destruct (rwlock_register _ rw_sched rw_end rw_threads_fresh) as [Hr _];
    [vm_compute; reflexivity|exact Hr].
Defined.
