(* ===== verification/ThreadBasic.v ===== *)
(** * Thread creation, join values and thread-local storage

    src/02_threads/thread_demo.c, Demo 1 ([basic_worker],
    [demo_basic_threads]) and Demo 5 ([tls_worker], [demo_tls]): the main
    thread creates threads 0 .. n-1, then joins them in order; a failed
    [pthread_create] or [pthread_join] ends the process.  The pthread_t
    values are the parameter [tid]. *)

From S2P Require Import Prelude CLib Pthread MainThread.

Local Open Scope nat_scope.

(** Where the main thread is. *)
Inductive main_pc := MCreate (i : nat) | MJoin (i : nat) | MDone | MExit.

#[export] Instance basic_main_pc_eq_dec : EqDecision main_pc.
Proof. solve_decision. Defined.

Inductive action := Main (err : Z) | Thr (t : nat).

Definition kind_of (a : action) : kind :=
  match a with Main e => if (e =? 0)%Z then Stmt else Failed | Thr _ => Stmt end.

(** ** Demo 1 *)
Module Basic.
Section basic.
(** [n] is [N_THREADS], 4 in the source. *)
Context (n : nat) (tid : nat -> Z) (strerror : Z -> bytes).

(** [basic_worker]: the argument and the result are [void *] casts of a long. *)
Inductive pc := BRun (id : Z) | BSleep (id : Z) | BRet (v : Z).

Definition running_line (t : nat) (id : Z) : bytes :=
  format [FLit "[Thread "; FD id; FLit "] TID="; FD (tid t); FLit " running"; FRaw [x0a]].
Definition done_line (id : Z) : bytes :=
  format [FLit "[Thread "; FD id; FLit "] done"; FRaw [x0a]].

Definition basic_worker (t : nat) (p : pc) : option (pc * list bytes) :=
  match p with
  | BRun id => Some (BSleep id, [running_line t id])
  | BSleep id => Some (BRet (wrapS 32 (id * 10)), [done_line id])
  | BRet _ => None
  end.

(** Standard output, each line with the thread that printed it. *)
Record state := mk_state {
  mpc : main_pc;
  thr : list pc;
  out : list (option nat * bytes);    (* None: the main thread *)
}.

(** The lines of one thread. *)
Definition lines_of (w : option nat) (o : list (option nat * bytes)) : list bytes :=
  omap (fun '(x, l) => if decide (x = w) then Some l else None) o.

Definition joined_line (i : nat) (v : Z) : bytes :=
  format [FLit "[MAIN ] thread "; FD (Z.of_nat i); FLit ", tids "; FD (tid i);
          FLit ", returned "; FD v; FRaw [x0a]].

(** One statement of the main thread, [err] being what its call returned.  The
    error line and the [exit(1)] that follows it are one step: that another
    thread prints between the two is not a behaviour of the model. *)
Definition demo_basic_threads (err : Z) (s : state) : option state :=
  let quit i := Some (mk_state MExit (thr s) (out s ++ [(None, error_line strerror i err)])) in
  match mpc s with
  | MCreate i =>
      if i <? n then
        if (err =? 0)%Z
        then Some (mk_state (MCreate (S i)) (thr s ++ [BRun (Z.of_nat i)]) (out s))
        else quit i
      else Some (mk_state (MJoin 0) (thr s) (out s))
  | MJoin i =>
      if i <? n then
        if (err =? 0)%Z
        then match thr s !! i with
             | Some (BRet v) =>
                 Some (mk_state (MJoin (S i)) (thr s) (out s ++ [(None, joined_line i v)]))
             | _ => None
             end
        else quit i
      else Some (mk_state MDone (thr s) (out s))
  | MDone | MExit => None
  end.

Definition step (a : action) (s : state) : option state :=
  match mpc s, a with
  | MExit, _ => None
  | _, Main err => demo_basic_threads err s
  | _, Thr t =>
      p ← thr s !! t;
      '(p', o) ← basic_worker t p;
      Some (mk_state (mpc s) (<[t := p']> (thr s)) (out s ++ (pair (Some t) <$> o)))
  end.

Definition title : bytes := format (separator "Demo 1: Thread Create & Join").

Definition init : state := mk_state (MCreate 0) [] [(None, title)].

Definition basic_proc : proc :=
  mk_proc state action init step kind_of
    (fun s => bool_decide (mpc s = MDone)) (fun s => bool_decide (mpc s = MExit))
    (fun s => snd <$> out s) (fun _ => []) (fun _ => false).

(** Thread [t] works on its own number. *)
Definition pc_of (t : nat) (p : pc) : Prop :=
  match p with
  | BRun id | BSleep id => id = Z.of_nat t
  | BRet v => v = wrapS 32 (Z.of_nat t * 10)
  end.

(** What it has printed, where it is. *)
Definition pc_lines (t : nat) (p : option pc) : list bytes :=
  match p with
  | None | Some (BRun _) => []
  | Some (BSleep _) => [running_line t (Z.of_nat t)]
  | Some (BRet _) => [running_line t (Z.of_nat t); done_line (Z.of_nat t)]
  end.

Definition lines (k : nat) : list bytes :=
  (fun i => joined_line i (wrapS 32 (Z.of_nat i * 10))) <$> seq 0 k.

Record basic_inv (s : state) : Prop := {
  bi_pc : forall t p, thr s !! t = Some p -> pc_of t p;
  bi_thr : forall t, lines_of (Some t) (out s) = pc_lines t (thr s !! t);
  bi_title : exists o, out s = (None, title) :: o;
  bi_main : match mpc s with
            | MCreate i => i <= n /\ length (thr s) = i /\ lines_of None (out s) = [title]
            | MJoin i => i <= n /\ length (thr s) = n /\ lines_of None (out s) = title :: lines i /\
                         (forall t, t < i -> exists v, thr s !! t = Some (BRet v))
            | MDone => length (thr s) = n /\ lines_of None (out s) = title :: lines n /\
                       (forall t, t < n -> exists v, thr s !! t = Some (BRet v))
            | MExit => exists i e, e <> 0%Z /\ last (out s) = Some (None, error_line strerror i e)
            end;
}.

Lemma lines_S k : lines (S k) = lines k ++ [joined_line k (wrapS 32 (Z.of_nat k * 10))].
Proof. unfold lines. by rewrite seq_S, fmap_app. Qed.

Lemma lines_of_snoc w o x l :
  lines_of w (o ++ [(x, l)]) = lines_of w o ++ (if decide (x = w) then [l] else []).
Proof. unfold lines_of. rewrite omap_app. simpl. by case_decide. Qed.
(** A step of the main thread that creates no thread and prints [o]. *)
Lemma lines_of_main t o l : lines_of (Some t) (o ++ [(None, l)]) = lines_of (Some t) o.
Proof. by rewrite lines_of_snoc, decide_False, app_nil_r. Qed.

Lemma basic_inv_main e s s' : basic_inv s -> demo_basic_threads e s = Some s' -> basic_inv s'.
Proof.
  intros [Hpc Ht [o Ho] Hm] Hs. unfold demo_basic_threads in Hs.
  assert (Hq : forall i, e <> 0%Z ->
    basic_inv (mk_state MExit (thr s) (out s ++ [(None, error_line strerror i e)]))).
  { intros i He. split; cbn [thr out mpc]; [done| |by rewrite Ho; eexists|].
    - intros t. by rewrite lines_of_main.
    - exists i, e. by rewrite last_snoc. }
  destruct (mpc s) as [i|i| | ]; try done; destruct_and?; destruct (Nat.ltb_spec i n).
  - destruct (Z.eqb_spec e 0); simplify_eq; [|by apply Hq].
    split; cbn [thr out mpc]; [| |by eexists|rewrite length_app; simpl; split_and!; [lia|lia|done]].
    + intros t p Hp. apply lookup_app_Some in Hp as [Hp|[Hle Hp]]; [by apply Hpc|].
      apply list_lookup_singleton_Some in Hp as [? <-]. simpl. lia.
    + intros t. rewrite Ht. destruct (decide (t < length (thr s))).
      * by rewrite lookup_app_l.
      * rewrite lookup_ge_None_2, lookup_app_r by lia. by destruct (t - length (thr s)).
  - assert (i = n) as -> by lia. simplify_eq. split; cbn [thr out mpc]; [done|done|by eexists|].
    split_and!; [lia|done|done|lia].
  - destruct (Z.eqb_spec e 0); [|simplify_eq; by apply Hq].
    destruct (thr s !! i) as [[ | |v]|] eqn:E; simplify_eq. pose proof (Hpc _ _ E) as Hv. simpl in Hv.
    split; cbn [thr out mpc]; [done| |by rewrite Ho; eexists|].
    + intros t. by rewrite lines_of_main.
    + rewrite lines_of_snoc, decide_True, lines_S by done. split_and!; [lia|done| |].
      * by match goal with H : lines_of None _ = _ |- _ => rewrite H end; subst v.
      * intros t Hlt. destruct (decide (t = i)) as [->|]; [eauto|]. naive_solver lia.
  - assert (i = n) as -> by lia. simplify_eq. by split; cbn [thr out mpc]; [|..|by eexists|].
Qed.

Lemma basic_inv_thr t p p' o s :
  basic_inv s -> thr s !! t = Some p -> basic_worker t p = Some (p', o) -> mpc s <> MExit ->
  basic_inv (mk_state (mpc s) (<[t := p']> (thr s)) (out s ++ (pair (Some t) <$> o))).
Proof.
  intros [Hpc Ht [o' Ho] Hm] Hp Hw Hx. pose proof (Hpc _ _ Hp) as Hid.
  assert (exists l, o = [l]) as [l ->] by (destruct p; simplify_eq/=; eauto). csimpl.
  split; cbn [thr out mpc]; [| |by rewrite Ho; eexists|].
  - intros u q Hq. apply (lookup_insert_thr _ _ _ _ _ _ Hp) in Hq as [[-> ->]|[_ Hq]]; [|eauto].
    destruct p; simplify_eq/=; congruence.
  - intros u. rewrite lines_of_snoc, Ht. destruct (decide (u = t)) as [->|Hu].
    + rewrite decide_True, Hp, list_lookup_insert_eq by (done || by eapply lookup_lt_Some).
      destruct p; simplify_eq/=; done.
    + by rewrite decide_False, app_nil_r, list_lookup_insert_ne by congruence.
  - rewrite lines_of_snoc, decide_False, app_nil_r, length_insert by done.
    assert (Hret : forall u, (exists v, thr s !! u = Some (BRet v)) ->
      exists v, <[t := p']> (thr s) !! u = Some (BRet v)).
    { intros u [v Hv]. exists v. rewrite list_lookup_insert_ne; [done|].
      intros ->. rewrite Hp in Hv. by simplify_eq/=. }
    destruct (mpc s); try done; destruct_and?; split_and!; eauto.
Qed.

Lemma basic_step_thr t s s' :
  step (Thr t) s = Some s' -> mpc s <> MExit /\ exists p p' o, thr s !! t = Some p /\
    basic_worker t p = Some (p', o) /\
    s' = mk_state (mpc s) (<[t := p']> (thr s)) (out s ++ (pair (Some t) <$> o)).
Proof.
  unfold step. intros Hs. destruct (mpc s) eqn:Em; try done; (split; [done|]);
    (destruct (thr s !! t) as [p|] eqn:Hp; [|done]); cbn [mbind option_bind] in Hs;
    (destruct (basic_worker t p) as [[p' o]|] eqn:Hw; [|done]);
    apply (inj Some) in Hs as <-; by exists p, p', o.
Qed.

Lemma basic_step_main e s s' :
  step (Main e) s = Some s' -> demo_basic_threads e s = Some s'.
Proof. unfold step. by destruct (mpc s). Qed.

Lemma basic_inv_step a s s' : basic_inv s -> step a s = Some s' -> basic_inv s'.
Proof.
  intros Hi Hs. destruct a as [e|t]; [by eapply basic_inv_main, basic_step_main|].
  apply basic_step_thr in Hs as (Hx & p & p' & o & Hp & Hw & ->). by eapply basic_inv_thr.
Qed.

Lemma basic_inv_init : basic_inv init.
Proof. split; simpl; [done|done|by eexists|split_and!; [lia|done|done]]. Qed.

(** Steps left: every thread has two, the main thread one per create and join. *)
Definition pc_work (p : pc) : nat := match p with BRun _ => 2 | BSleep _ => 1 | BRet _ => 0 end.
Definition work (s : state) : nat :=
  match mpc s with
  | MCreate i => 4 * (n - i) + n + 2
  | MJoin i => (n - i) + 1
  | _ => 0
  end + sum_list_with pc_work (thr s).

Lemma basic_work_step a s s' : basic_inv s -> step a s = Some s' -> work s' < work s.
Proof.
  intros [_ _ _ Hm] Hs. destruct a as [e|t].
  - apply basic_step_main in Hs. destruct s as [mp th o]; unfold work, demo_basic_threads in *.
    cbn [mpc thr out] in *. destruct mp as [i|i| | ]; try done;
      destruct_and?; destruct (Nat.ltb_spec i n); try destruct (e =? 0)%Z; simplify_eq/=;
      rewrite ?sum_list_with_app1; simpl; try lia.
    destruct (th !! i) as [[ | |v]|] eqn:E; simplify_eq/=. lia.
  - apply basic_step_thr in Hs as (_ & p & p' & o & Hp & Hw & ->). unfold work. cbn [mpc thr].
    pose proof (sum_list_with_insert pc_work _ _ _ p' Hp). destruct p; simplify_eq/=; lia.
Qed.

Lemma basic_progress s :
  basic_inv s -> mpc s = MDone \/ mpc s = MExit \/ exists a s', kind_of a = Stmt /\ step a s = Some s'.
Proof.
  intros [_ _ _ Hm]. destruct s as [mp th o]; cbn [mpc thr out] in *.
  destruct mp as [i|i| | ]; [| |by left|by right; left]; right; right.
  - exists (Main 0). unfold step, demo_basic_threads; simpl. case_match; eauto.
  - destruct (decide (i < n)) as [Hi|Hi].
    + destruct (lookup_lt_is_Some_2 th i) as [p Hp]; [lia|].
      destruct p as [id|id|v]; [exists (Thr i)|exists (Thr i)|exists (Main 0)]; unfold step; simpl.
      * rewrite Hp. simpl. eauto.
      * rewrite Hp. simpl. eauto.
      * unfold demo_basic_threads; simpl. rewrite Hp. destruct (Nat.ltb_spec i n); [eauto|lia].
    + exists (Main 0). unfold step, demo_basic_threads; simpl. destruct (Nat.ltb_spec i n); [lia|eauto].
Qed.

Lemma basic_exit_failure sched s :
  run step sched init = Some s -> mpc s = MExit -> 0 < count_kind kind_of Failed sched.
Proof.
  revert sched s. apply (run_trace_ind step
    (fun sched s => mpc s = MExit -> 0 < count_kind kind_of Failed sched)); [done|].
  intros sched s a s' _ _ Hs Hx. rewrite count_kind_app. destruct a as [e|t].
  - enough ((e =? 0)%Z = false) as He.
    { unfold count_kind at 2. simpl. rewrite He, decide_True by done. lia. }
    apply basic_step_main in Hs. unfold demo_basic_threads in Hs.
    destruct (mpc s) as [i|i| |]; try done; destruct (i <? n), (e =? 0)%Z; try done;
      try destruct (thr s !! i) as [[]|]; by simplify_eq/=.
  - apply basic_step_thr in Hs as (Hne & p & p' & o & _ & _ & ->). done.
Qed.

Lemma basic_reachable sched s : run step sched init = Some s -> basic_inv s.
Proof. apply run_invariant; [apply basic_inv_step|apply basic_inv_init]. Qed.

(** The main thread's lines, in order; every thread's two lines, in order. *)
Definition basic_post (o : list bytes) : Prop :=
  exists evs, o = snd <$> (None, title) :: evs /\ lines_of None evs = lines n /\
    forall t, t < n -> lines_of (Some t) evs = [running_line t (Z.of_nat t); done_line (Z.of_nat t)].

Lemma basic_ok : proc_ok strerror basic_proc (5 * n + 2) basic_post.
Proof.
  split; simpl.
  - done.
  - intros sched s Hrun.
    pose proof (run_measure step basic_inv work
      (fun a x y Hx Hy => conj (basic_inv_step a x y Hx Hy) (basic_work_step a x y Hx Hy))
      _ _ _ basic_inv_init Hrun) as Hm.
    unfold work in Hm at 2. simpl in Hm. lia.
  - intros sched s Hrun. rewrite !bool_decide_eq_true. by eapply basic_progress, basic_reachable.
  - intros sched s Hrun Hd%bool_decide_eq_true. rewrite Hd.
    destruct (basic_reachable _ _ Hrun) as [_ Ht [o Ho] Hm]. rewrite Hd, Ho in *.
    destruct Hm as (Hlen & Hl & Hret). split_and!; [|done|].
    + exists o. split; [done|]. split; [by injection Hl|]. intros t Hlt. specialize (Ht t).
      destruct (Hret t Hlt) as [v Hv]. rewrite Hv in Ht. exact Ht.
    + intros [e|t]; unfold step, demo_basic_threads; rewrite Hd; [done|].
      destruct (thr s !! t) as [p|] eqn:Hp; [|done].
      destruct (Hret t) as [v Hv]; [rewrite <- Hlen; by eapply lookup_lt_Some|]. by simplify_eq.
  - intros sched s Hrun. case_bool_decide as Hx; [|done].
    split; [exact (basic_exit_failure _ _ Hrun Hx)|].
    destruct (basic_reachable _ _ Hrun) as [_ _ _ Hm]. rewrite Hx in Hm. destruct Hm as (i & e & He & Hl).
    exists (error_line strerror i e). split; [by constructor|]. right. split; [done|].
    by rewrite fmap_last, Hl.
  - done.
Qed.

(** C16: in every interleaving, when [demo_basic_threads] returns the main
    thread has printed, in creation order, that thread [i] returned [i * 10],
    and every thread that it runs and that it is done; the demo never
    deadlocks, every schedule is bounded, and only a failed create or join,
    which is reported, ends it early. *)
Theorem basic_join_values : proc_ok strerror basic_proc (5 * n + 2) basic_post.
Proof. apply basic_ok. Qed.
End basic.
End Basic.

(** ** Demo 5 *)
Module Tls.

(** [tls_worker] before iteration [i] of its loop; the increment's read and
    write are separate steps. *)
Inductive pc := TLoad (id : Z) (i : nat) | TStore (id : Z) (i : nat) (v : Z) | TDone (id : Z).

(** Every thread has its own [tls_counter]. *)
Record state := mk_state {
  thr : list pc;
  tls_counter : list Z;
  out : list bytes;
}.

Definition tls_line (id v : Z) : bytes :=
  format [FLit "[Thread "; FD id; FLit "] tls_counter = "; FD v;
          FLit " (independent of other threads)"; FRaw [x0a]].

Definition tls_worker (p : pc) (c : Z) : option (pc * Z * list bytes) :=
  match p with
  | TLoad id i => if i <? 5 then Some (TStore id i c, c, []) else Some (TDone id, c, [tls_line id c])
  | TStore id i v => Some (TLoad id (S i), wrapS 32 (v + 1), [])
  | TDone _ => None
  end.

Definition step (t : nat) (s : state) : option state :=
  p ← thr s !! t;
  c ← tls_counter s !! t;
  '(p', c', o) ← tls_worker p c;
  Some (mk_state (<[t := p']> (thr s)) (<[t := c']> (tls_counter s)) (out s ++ o)).

(** [nt] threads with ids 1 .. nt. *)
Definition start (nt : nat) : state :=
  mk_state ((fun i => TLoad (Z.of_nat i + 1) 0) <$> seq 0 nt) (replicate nt 0%Z) [].

Definition returned (p : pc) : bool := match p with TDone _ => true | _ => false end.

Definition tls_workers (nt : nat) : workers :=
  mk_workers state nat (start nt) step (fun _ => Stmt) (fun t => [t])
    (fun s t => match thr s !! t with Some p => returned p | None => false end) out.

(** NT is 3 in the source. *)
Definition demo_tls (strerror : Z -> bytes) (nt : nat) : proc :=
  demo strerror (tls_workers nt) (format (separator "Demo 5: Thread-Local Storage (__thread)"))
    (create_join nt).

(** ** The invariant *)

Definition tls_ok (p : pc) (c : Z) : Prop :=
  match p with
  | TLoad _ i => i <= 5 /\ c = Z.of_nat i
  | TStore _ i v => i < 5 /\ c = Z.of_nat i /\ v = c
  | TDone _ => c = 5%Z
  end.

Definition id_of (p : pc) : Z := match p with TLoad id _ | TStore id _ _ | TDone id => id end.
Definition printed (p : pc) : option bytes :=
  match p with TDone id => Some (tls_line id 5) | _ => None end.

Record tls_inv (nt : nat) (s : state) : Prop := {
  ti_len : length (tls_counter s) = nt;
  ti_pc : forall t p c, thr s !! t = Some p -> tls_counter s !! t = Some c -> tls_ok p c;
  ti_ids : id_of <$> thr s = (fun i => Z.of_nat i + 1)%Z <$> seq 0 nt;
  ti_out : out s ≡ₚ omap printed (thr s);
}.

Lemma tls_inv_len nt s : tls_inv nt s -> length (thr s) = nt.
Proof. intros [_ _ Hid _]. apply (f_equal length) in Hid. by rewrite !length_fmap, length_seq in Hid. Qed.

Lemma tls_worker_ok p c p' c' o :
  tls_ok p c -> tls_worker p c = Some (p', c', o) ->
  tls_ok p' c' /\ id_of p' = id_of p /\ printed p = None /\ o = option_list (printed p').
Proof.
  intros Hok Hw. destruct p as [id i|id i v|]; simpl in *; [|..|done].
  - destruct (Nat.ltb_spec i 5); destruct_and?; subst.
    + apply (inj Some) in Hw as [= <- <- <-]. by split_and!.
    + assert (i = 5) as -> by lia. apply (inj Some) in Hw as [= <- <- <-]. by split_and!.
  - destruct_and?. subst. apply (inj Some) in Hw as [= <- <- <-]. split_and!; try done.
    simpl. split; [lia|]. rewrite wrapS_small; lia.
Qed.

Lemma tls_step_inv t s s' :
  step t s = Some s' -> exists p c p' c' o, thr s !! t = Some p /\ tls_counter s !! t = Some c /\
    tls_worker p c = Some (p', c', o) /\
    s' = mk_state (<[t := p']> (thr s)) (<[t := c']> (tls_counter s)) (out s ++ o).
Proof.
  unfold step. intros Hs. destruct (thr s !! t) as [p|] eqn:Hp; [|done]. cbn [mbind option_bind] in Hs.
  destruct (tls_counter s !! t) as [c|] eqn:Hc; [|done]. cbn [mbind option_bind] in Hs.
  destruct (tls_worker p c) as [[[p' c'] o]|] eqn:Hw; [|done]. apply (inj Some) in Hs as <-.
  by exists p, c, p', c', o.
Qed.

Lemma tls_inv_step nt t s s' : tls_inv nt s -> step t s = Some s' -> tls_inv nt s'.
Proof.
  intros [Hl Hpc Hid Hout] Hs. apply tls_step_inv in Hs as (p & c & p' & c' & o & Hp & Hc & Hw & ->).
  destruct (tls_worker_ok _ _ _ _ _ (Hpc _ _ _ Hp Hc) Hw) as (Hok & Hsame & Hnone & ->).
  split; cbn [thr tls_counter out].
  - by rewrite length_insert.
  - intros u q d Hq Hd. apply (lookup_insert_thr _ _ _ _ _ _ Hp) in Hq.
    apply (lookup_insert_thr _ _ _ _ _ _ Hc) in Hd. naive_solver.
  - rewrite list_fmap_insert, Hsame, <- Hid. apply list_insert_id. by rewrite list_lookup_fmap, Hp.
  - destruct (printed p') as [l|] eqn:Hq; cbn [option_list].
    + rewrite (omap_insert_new _ _ _ _ _ _ Hp Hnone Hq), Hout. symmetry. apply Permutation_cons_append.
    + by rewrite app_nil_r, (omap_insert_same _ _ _ _ _ Hp) by congruence.
Qed.

Definition pc_work (p : pc) : nat :=
  match p with TLoad _ i => 2 * (5 - i) + 1 | TStore _ i _ => 2 * (5 - i) | TDone _ => 0 end.
Definition work (s : state) : nat := sum_list_with pc_work (thr s).

Lemma tls_work_step nt t s s' : tls_inv nt s -> step t s = Some s' -> work s' < work s.
Proof.
  intros [_ Hpc _ _] Hs. apply tls_step_inv in Hs as (p & c & p' & c' & o & Hp & Hc & Hw & ->).
  pose proof (Hpc _ _ _ Hp Hc) as Hok. unfold work. cbn [thr].
  pose proof (sum_list_with_insert pc_work _ _ _ p' Hp).
  destruct p as [id i|id i v|id]; simpl in *; [|..|done].
  - destruct (Nat.ltb_spec i 5); apply (inj Some) in Hw as [= <- <- <-]; simpl in *; lia.
  - apply (inj Some) in Hw as [= <- <- <-]. simpl in *. lia.
Qed.

Lemma tls_inv_start nt : tls_inv nt (start nt).
Proof.
  split; cbn [start thr tls_counter out].
  - apply length_replicate.
  - intros t p c Hp Hc. apply lookup_replicate in Hc as [-> _].
    apply list_lookup_fmap_Some in Hp as (i & -> & _). split; [lia|done].
  - by rewrite <- list_fmap_compose.
  - by induction (seq 0 nt).
Qed.

Lemma tls_reachable nt sched s :
  run step sched (start nt) = Some s -> tls_inv nt s /\ length sched <= 11 * nt.
Proof.
  intros Hrun. split; [revert Hrun; apply run_invariant; [apply tls_inv_step|apply tls_inv_start]|].
  pose proof (run_measure step (tls_inv nt) work
    (fun a x y Hx Hy => conj (tls_inv_step nt a x y Hx Hy) (tls_work_step nt a x y Hx Hy))
    _ _ _ (tls_inv_start nt) Hrun) as Hm.
  assert (work (start nt) = nt * 11) as Hw; [|lia].
  unfold work. rewrite (sum_list_with_const _ 11); [cbn [start thr]; by rewrite length_fmap, length_seq|].
  intros j y Hj. cbn [start thr] in Hj. by apply list_lookup_fmap_Some in Hj as (i & -> & _).
Qed.

(** Exactly one line per thread, each reporting 5. *)
Definition tls_post (nt : nat) (ls : list bytes) : Prop :=
  ls ≡ₚ (fun i => tls_line (Z.of_nat i + 1) 5) <$> seq 0 nt.

Lemma tls_done nt s :
  tls_inv nt s -> (forall t, t < nt -> w_done (tls_workers nt) s t = true) <->
  Forall (fun p => returned p = true) (thr s).
Proof.
  intros Hi. rewrite Forall_lookup. simpl. rewrite <- (tls_inv_len _ _ Hi). split.
  - intros H t p Hp. specialize (H t (lookup_lt_Some _ _ _ Hp)). by rewrite Hp in H.
  - intros H t Ht. destruct (lookup_lt_is_Some_2 _ _ Ht) as [p Hp]. rewrite Hp. eauto.
Qed.

Lemma printed_returned l :
  Forall (fun p => returned p = true) l ->
  omap printed l = (fun id => tls_line id 5) <$> (id_of <$> l).
Proof. induction 1 as [|p l Hp _ IH]; [done|]. csimpl. rewrite IH. by destruct p. Qed.

#[global] Instance tls_workers_ok nt : WorkersOk (tls_workers nt) nt (11 * nt) (tls_post nt).
Proof.
  split; simpl.
  - intros sched s Hrun. apply tls_reachable in Hrun as [_ Hl]. lia.
  - intros sched s Hrun. apply tls_reachable in Hrun as [Hi _].
    destruct (decide (Forall (fun p => returned p = true) (thr s))) as [Hd|Hn];
      [by left; apply tls_done|right].
    apply not_Forall_Exists in Hn; [|apply _]. apply Exists_exists in Hn as (p & Hin & Hp).
    apply list_elem_of_lookup in Hin as [t Ht].
    destruct (lookup_lt_is_Some_2 (tls_counter s) t) as [c Hc].
    { rewrite (ti_len _ _ Hi), <- (tls_inv_len _ _ Hi). by eapply lookup_lt_Some. }
    exists t. unfold step. rewrite Ht, Hc. simpl.
    destruct p as [id i|id i v|id]; simpl in *; [case_match|..|done]; eauto.
  - intros sched s t s' Hrun Hs. apply tls_reachable in Hrun as [Hi _].
    apply tls_step_inv in Hs as (p & c & p' & c' & o & Hp & _). constructor; [|constructor].
    rewrite <- (tls_inv_len _ _ Hi). by eapply lookup_lt_Some.
  - intros sched s t s' u _ Hs Hd. apply tls_step_inv in Hs as (p & c & p' & c' & o & Hp & _ & Hw & ->).
    cbn [thr]. rewrite list_lookup_insert_ne; [done|]. intros ->. rewrite Hp in Hd. by destruct p.
  - intros sched s Hrun Hd t. apply tls_reachable in Hrun as [Hi _].
    apply tls_done in Hd; [|done]. destruct (step t s) as [s'|] eqn:Hs; [|done].
    apply tls_step_inv in Hs as (p & c & p' & c' & o & Hp & _ & Hw & _).
    rewrite Forall_lookup in Hd. specialize (Hd _ _ Hp). by destruct p.
  - intros sched s Hrun Hd. apply tls_reachable in Hrun as [Hi _].
    apply tls_done in Hd; [|done]. unfold tls_post. rewrite (ti_out _ _ Hi), printed_returned by done.
    by rewrite (ti_ids _ _ Hi), <- list_fmap_compose.
  - done.
Qed.

Lemma tls_demo_ok strerror nt :
  0 < nt ->
  proc_ok strerror (demo_tls strerror nt) (length (create_join nt) + 11 * nt)
    (titled (format (separator "Demo 5: Thread-Local Storage (__thread)")) (tls_post nt)).
Proof.
  intros Hnt. apply (demo_ok strerror (tls_workers nt) _ (create_join nt) nt _ (tls_post nt));
    [apply create_join_ok|]. by destruct nt; [lia|].
Qed.

(** C17: whatever the number of threads and the interleaving, [demo_tls]
    returns after a bounded number of steps unless a create or join fails, and
    then every [tls_worker] has printed one line that reports the count 5: no
    thread sees another's increments. *)
Theorem tls_independent strerror nt :
  0 < nt ->
  proc_ok strerror (demo_tls strerror nt) (length (create_join nt) + 11 * nt)
    (titled (format (separator "Demo 5: Thread-Local Storage (__thread)")) (tls_post nt)).
Proof. apply tls_demo_ok. Qed.

Definition tls_sched : list (p_action (demo_tls (fun _ => []) 3)) :=
  let W := tls_workers 3 in let P := demo_tls (fun _ => []) 3 in
  greedy (p_step P) [MainThread.Main W 0; MainThread.Thr W 2; MainThread.Thr W 1; MainThread.Thr W 0] 100 (p_init P).

Lemma tls_independent_witness :
  exists d, prun (demo_tls (fun _ => []) 3) tls_sched d /\ tls_post 3 (out (d_w _ d)).
Proof.
  destruct (returns_by_prun (demo_tls (fun _ => []) 3) tls_sched) as (d & Hrun & Hret);
    [vm_compute; reflexivity|].
  exists d. split; [exact Hrun|].
  destruct (ok_ret _ _ _ _ (tls_independent (fun _ => []) 3 ltac:(lia)) _ _ Hrun Hret) as [(ls & Ho & Hp) _].
  injection Ho as Ho. rewrite Ho. exact Hp.
Defined.
End Tls.
