(* ===== verification/ThreadMain.v ===== *)
(** * The thread demo program

    src/02_threads/thread_demo.c, [main]: the demos of ThreadBasic.v,
    ThreadCounter.v, ThreadCond2.v, ThreadSem.v and ThreadRw.v one after the
    other in one process, a failed [pthread_create] or [pthread_join] in any of
    them ending it.  [demo_cond_var] (ThreadQueue.v) is not called. *)

From S2P Require Import Prelude CLib Pthread MainThread ThreadCounter ThreadSem ThreadCond2 ThreadRw ThreadBasic.

Local Open Scope nat_scope.

(** The iterations of each thread of Demo 2. *)
Definition ITERS : nat := Z.to_nat 100000.

Definition header : bytes := format [FLit "=== Embedded Linux Demo: Threads (pthreads) ==="; FRaw [x0a]].
Definition footer : bytes := format [FRaw [x0a]; FLit "[DONE] Thread demo complete."; FRaw [x0a]].

Section main.
Context (strerror : Z -> bytes) (tid : nat -> Z) (iters : nat).

Definition main : proc :=
  pseq (puts header)
  (pseq (Basic.basic_proc 4 tid strerror)
  (pseq (demo_mutex_proc strerror 4 iters)
  (pseq (demo_cond_var2 strerror 100)
  (pseq (demo_sem_prod_consumer strerror 10)
  (pseq (demo_rwlock strerror)
  (pseq (Tls.demo_tls strerror 3)
  (puts footer))))))).

(** The output: the header, what each demo promises, and the footer. *)
Definition main_post : list bytes -> Prop :=
  then_post (fun o => o = [header])
  (then_post (Basic.basic_post 4 tid)
  (then_post (counter_post 4 iters)
  (then_post (titled (format (separator "Demo 3: Condition Variable — Producer/Consumer")) (cond2_post 100))
  (then_post (titled (format (separator "Demo 3.1: semaphor — Producer/Consumer")) (sem_printed 10))
  (then_post (titled (format (separator "Demo 4: Read-Write Lock")) (rw_post rw_threads))
  (then_post (titled (format (separator "Demo 5: Thread-Local Storage (__thread)")) (Tls.tls_post 3))
  (fun o => o = [footer]))))))).
End main.

(** C22: in every interleaving of the threads of each demo, spurious wake-ups
    included, the thread demo takes a bounded number of steps, three more for
    each spurious wake-up, and never deadlocks; it destroys nothing a thread
    could still use; it calls [exit(1)] only after a failed [pthread_create] or
    [pthread_join], having reported it; and when [main] returns no thread is
    left and the output is the header, for each demo in order its title and
    the lines it promises, and the footer.  Such a run exists. *)
Theorem threads_main strerror tid iters :
  (4 * Z.of_nat iters < 2 ^ 31)%Z ->
  proc_ok strerror (main strerror tid iters) (16 * iters + 2692) (main_post tid iters) /\
  exists sched s, prun (main strerror tid iters) sched s /\ p_ret (main strerror tid iters) s = true /\
    main_post tid iters (p_out (main strerror tid iters) s).
Proof.
  intros Hmax.
  assert (Hok : proc_ok strerror (main strerror tid iters) (16 * iters + 2692) (main_post tid iters)).
  { eapply proc_ok_mono.
    - repeat first [apply pseq_ok | apply puts_ok].
      + apply Basic.basic_ok.
      + by apply counter_ok.
      + apply cond2_ok.
      + by apply sem_ok.
      + apply rw_ok.
      + apply Tls.tls_demo_ok. lia.
    - change (length (create_join 3)) with 6. lia.
    - done. }
  split; [exact Hok|].
  destruct (proc_ok_returns _ _ _ _ [] _ Hok eq_refl eq_refl) as (l & s & Hrun & _ & Hr & Hp).
  by exists l, s.
Qed.

(** ** Witness

    A run in which the main thread moves whenever it can. *)

Definition wit_main : proc := main (fun _ => []) Z.of_nat 3.

Definition wit_acts : list (p_action wit_main) :=
  [inl tt; inr (inl (ThreadBasic.Main 0))] ++ ((fun t => inr (inl (ThreadBasic.Thr t))) <$> [3; 1; 0; 2]) ++
  [inr (inr (inl (ThreadCounter.Main 0)))] ++ ((fun t => inr (inr (inl (ThreadCounter.Thr t)))) <$> [2; 0; 3; 1]) ++
  ((fun a => inr (inr (inr (inl a)))) <$>
     [MainThread.Main _ 0; MainThread.Thr (cond2_workers 100) Prod; MainThread.Thr (cond2_workers 100) Cons]) ++
  ((fun a => inr (inr (inr (inr (inl a))))) <$>
     [MainThread.Main _ 0; MainThread.Thr (sem_workers 10) 1; MainThread.Thr (sem_workers 10) 0]) ++
  ((fun a => inr (inr (inr (inr (inr (inl a)))))) <$>
     (MainThread.Main _ 0 :: (MainThread.Thr (rw_workers rw_threads) <$> [4; 0; 3; 1; 2]))) ++
  ((fun a => inr (inr (inr (inr (inr (inr (inl a))))))) <$>
     (MainThread.Main _ 0 :: (MainThread.Thr (Tls.tls_workers 3) <$> [1; 0; 2]))) ++
  [inr (inr (inr (inr (inr (inr (inr tt))))))].

Definition wit_sched : list (p_action wit_main) :=
  greedy (p_step wit_main) wit_acts 4000 (p_init wit_main).

Lemma threads_main_witness :
  (4 * Z.of_nat ITERS < 2 ^ 31)%Z /\
  exists s, prun wit_main wit_sched s /\ p_ret wit_main s = true /\ main_post Z.of_nat 3 (p_out wit_main s).
Proof.
  split; [unfold ITERS; lia|].
  destruct (returns_by_prun wit_main wit_sched) as (s & Hrun & Hret); [vm_compute; reflexivity|].
  exists s. split; [exact Hrun|]. split; [exact Hret|].
  apply (ok_ret _ _ _ _ (proj1 (threads_main (fun _ => []) Z.of_nat 3 ltac:(lia))) _ _ Hrun Hret).
Defined.
