(* ===== verification/Shm.v ===== *)
(** * Shared memory with two named semaphores

    src/03_ipc/shm_demo.c: the set-up of the shared buffer and semaphores, the
    producer (the parent) and the consumer (the child) as two interleaved
    processes over the shared buffer, and the clean-up.  The theorems hold for
    any number [n] of messages; [pid] is the parent's process id. *)

From S2P Require Import Prelude CLib Pthread Ring.

Local Open Scope nat_scope.

Definition SHM_NAME : string := "/demo_shm".
Definition SEM_WRITE : string := "/demo_sem_write".
Definition SEM_READ : string := "/demo_sem_read".
Definition BUF_SIZE : Z := 256.
Definition N_MESSAGES : nat := 5.

(** [SharedBuf] *)
Record SharedBuf := mk_SharedBuf { data : bytes; msg_number : Z }.

Inductive ppc :=
| PWait (i : nat)      (* loop head; sem_wait(sem_w) *)
| PNum (i : nat)       (* shm->msg_number = i *)
| PData (i : nat)      (* snprintf into shm->data *)
| PPrint (i : nat)
| PPost (i : nat)      (* sem_post(sem_r) *)
| PReap                (* waitpid(pid) *)
| PClean               (* sem_close, sem_unlink, munmap, shm_unlink *)
| PDone.
Inductive cpc :=
| CWait (j : nat)      (* loop head; sem_wait(sem_r) *)
| CNum (j : nat)       (* printf: read shm->msg_number *)
| CData (j : nat) (m : Z)  (* printf: read shm->data *)
| CPost (j : nat)      (* sem_post(sem_w) *)
| CExit.

#[export] Instance shm_ppc_eq_dec : EqDecision ppc.
Proof. solve_decision. Defined.
#[export] Instance shm_cpc_eq_dec : EqDecision cpc.
Proof. solve_decision. Defined.

Inductive event := EvTitle | EvWrote (i : Z) | EvMsg (num : Z) (text : bytes) | EvDone.

Definition render (e : event) : bytes :=
  format match e with
         | EvTitle => [FLit "=== Embedded Linux Demo: POSIX Shared Memory + Semaphores ==="; FRaw [x0a; x0a]]
         | EvWrote i => [FLit "[PRODUCER] wrote msg #"; FD i; FRaw [x0a]]
         | EvMsg k t => [FLit "[CONSUMER] msg #"; FD k; FLit ": "; FRaw [x22]; FS t; FRaw [x22]; FRaw [x0a]]
         | EvDone => [FRaw [x0a]; FLit "[DONE] Shared memory demo complete."; FRaw [x0a]]
         end.

Record state := mk_state {
  shm : SharedBuf;
  sem_w : sem;
  sem_r : sem;
  prod : ppc;
  cons : cpc;
  names : gset string;        (* names in /dev/shm *)
  events : list event;
}.

Inductive action := Parent | Child.

Section run.
Context (n : nat) (pid : Z).

(** The text of message [i] and what [snprintf] stores of it. *)
Definition hello (i : nat) : list fmt :=
  [FLit "Hello #"; FD (Z.of_nat i); FLit " from producer (PID "; FD pid; FLit ")"].

Definition producer (s : state) : option state :=
  let go b w r p nm evs := Some (mk_state b w r p (cons s) nm (events s ++ evs)) in
  match prod s with
  | PWait i =>
      if i <? n then w ← sem_wait (sem_w s); go (shm s) w (sem_r s) (PNum i) (names s) []
      else go (shm s) (sem_w s) (sem_r s) PReap (names s) []
  | PNum i => go (mk_SharedBuf (data (shm s)) (Z.of_nat i)) (sem_w s) (sem_r s) (PData i) (names s) []
  | PData i =>
      d ← store_bytes (data (shm s)) 0 (snprintf BUF_SIZE (hello i)).2;
      go (mk_SharedBuf d (msg_number (shm s))) (sem_w s) (sem_r s) (PPrint i) (names s) []
  | PPrint i => go (shm s) (sem_w s) (sem_r s) (PPost i) (names s) [EvWrote (Z.of_nat i)]
  | PPost i => go (shm s) (sem_w s) (sem_post (sem_r s)) (PWait (S i)) (names s) []
  | PReap =>
      if decide (cons s = CExit) then go (shm s) (sem_w s) (sem_r s) PClean (names s) [] else None
  | PClean =>
      go (shm s) (sem_w s) (sem_r s) PDone (names s ∖ {[SEM_WRITE; SEM_READ; SHM_NAME]}) [EvDone]
  | PDone => None
  end.

Definition consumer (s : state) : option state :=
  let go w r c evs := Some (mk_state (shm s) w r (prod s) c (names s) (events s ++ evs)) in
  match cons s with
  | CWait j =>
      if j <? n then r ← sem_wait (sem_r s); go (sem_w s) r (CNum j) []
      else go (sem_w s) (sem_r s) CExit []
  | CNum j => go (sem_w s) (sem_r s) (CData j (msg_number (shm s))) []
  | CData j m => go (sem_w s) (sem_r s) (CPost j) [EvMsg m (cstr (data (shm s)))]
  | CPost j => go (sem_post (sem_w s)) (sem_r s) (CWait (S j)) []
  | CExit => None
  end.

Definition step (a : action) (s : state) : option state :=
  match a with Parent => producer s | Child => consumer s end.

(** ** Set-up *)

(** What the calls answer. *)
Record setup_env := {
  e_shm_open : bool;
  e_mmap : option SharedBuf;    (* what the object contains, or MAP_FAILED *)
  e_sem_w : bool;
  e_sem_r : bool;
  e_fork : Z;
  e_strerror : bytes;           (* errno's text when one of them has failed *)
}.

(** Either the two processes start, or the line written to stderr before
    [exit(1)] and the names left behind. *)
Definition setup (e : setup_env) (nm : gset string) : state + bytes * gset string :=
  if negb (e_shm_open e) then inr (perror_line "shm_open" (e_strerror e), nm)
  else
  let nm := {[SHM_NAME]} ∪ nm in
  match e_mmap e with
  | None => inr (perror_line "mmap" (e_strerror e), nm)
  | Some b =>
      let nm := nm ∖ {[SEM_WRITE]} ∖ {[SEM_READ]} in
      let nm := if e_sem_w e then {[SEM_WRITE]} ∪ nm else nm in
      let nm := if e_sem_r e then {[SEM_READ]} ∪ nm else nm in
      if negb (e_sem_w e) || negb (e_sem_r e) then inr (perror_line "sem_open" (e_strerror e), nm)
      else
      if (e_fork e <? 0)%Z then inr (perror_line "fork" (e_strerror e), nm)
      else inl (mk_state b 1 0 (PWait 0) (CWait 0) nm [EvTitle])
  end.

(** ** The invariant *)

Definition text (i : nat) : bytes := takeZ (BUF_SIZE - 1) (format (hello i)).

Definition posts_r (p : ppc) : nat :=
  match p with PWait i | PNum i | PData i | PPrint i | PPost i => i | _ => n end.
Definition waits_w (p : ppc) : nat :=
  match p with PWait i => i | PNum i | PData i | PPrint i | PPost i => S i | _ => n end.
Definition posts_w (c : cpc) : nat :=
  match c with CWait j | CNum j | CData j _ | CPost j => j | CExit => n end.
Definition waits_r (c : cpc) : nat :=
  match c with CWait j => j | CNum j | CData j _ | CPost j => S j | CExit => n end.
Definition printed (c : cpc) : nat :=
  match c with CWait j | CNum j | CData j _ => j | CPost j => S j | CExit => n end.

(** Message [i] is in the buffer. *)
Definition holds (b : SharedBuf) (i : nat) : Prop :=
  msg_number b = Z.of_nat i /\ cstr (data b) = text i.

Definition shm_rel (p : ppc) (b : SharedBuf) : Prop :=
  match p with
  | PWait (S i) => holds b i
  | PData i => msg_number b = Z.of_nat i
  | PPrint i | PPost i => holds b i
  | PReap | PClean | PDone => forall i, n = S i -> holds b i
  | _ => True
  end.

Definition p_ok (p : ppc) (c : cpc) : Prop :=
  match p with
  | PWait i => i <= n
  | PNum i | PData i | PPrint i | PPost i => i < n
  | PClean | PDone => c = CExit
  | _ => True
  end.
Definition c_ok (c : cpc) : Prop :=
  match c with
  | CWait j => j <= n
  | CNum j | CPost j => j < n
  | CData j m => j < n /\ m = Z.of_nat j
  | CExit => True
  end.

(** The messages the consumer has printed. *)
Definition received (evs : list event) : list (Z * bytes) :=
  omap (fun e => match e with EvMsg k t => Some (k, t) | _ => None end) evs.

(** The numbers the producer has announced. *)
Definition wrote (evs : list event) : list Z :=
  omap (fun e => match e with EvWrote i => Some i | _ => None end) evs.
Definition announced (p : ppc) : nat :=
  match p with PWait i | PNum i | PData i | PPrint i => i | PPost i => S i | _ => n end.

Definition expected (k : nat) : list (Z * bytes) := (fun i => (Z.of_nat i, text i)) <$> seq 0 k.

Record shm_inv (nm : gset string) (s : state) : Prop := {
  sh_len : lenZ (data (shm s)) = BUF_SIZE;
  sh_r : sem_r s + waits_r (cons s) = posts_r (prod s);
  sh_w : sem_w s + waits_w (prod s) = 1 + posts_w (cons s);
  sh_shm : shm_rel (prod s) (shm s);
  sh_p : p_ok (prod s) (cons s);
  sh_c : c_ok (cons s);
  sh_rcv : received (events s) = expected (printed (cons s));
  sh_wrote : wrote (events s) = seqZ 0 (Z.of_nat (announced (prod s)));
  sh_ends : exists evs, events s = EvTitle :: evs /\ (prod s = PDone -> last evs = Some EvDone);
  sh_names : names s = match prod s with
                       | PDone => nm ∖ {[SEM_WRITE; SEM_READ; SHM_NAME]}
                       | _ => nm
                       end;
}.

Lemma hello_no_nul i : Forall (fun b => b <> NUL) (format (hello i)).
Proof.
  unfold hello. cbn [format fmt_piece]. rewrite !Forall_app. split_and!; auto using itoa_no_nul;
    by_decision.
Qed.

(** [snprintf] fits the array and leaves the (possibly cut) text in it. *)
Lemma store_hello d i :
  lenZ d = BUF_SIZE ->
  exists d', store_bytes d 0 (snprintf BUF_SIZE (hello i)).2 = Some d' /\
    lenZ d' = BUF_SIZE /\ cstr d' = text i.
Proof.
  intros Hd. pose proof (snprintf_bound BUF_SIZE (hello i)) as Hb. unfold BUF_SIZE in *.
  specialize (Hb ltac:(lia)).
  destruct (store_bytes d 0 (snprintf 256 (hello i)).2) as [d'|] eqn:E;
    [|rewrite store_bytes_Some in E by lia; done].
  exists d'. split; [done|]. split; [by rewrite (store_bytes_length _ _ _ _ E)|].
  pose proof (takeZ_store _ _ _ _ E) as Ht. rewrite takeZ_0, app_nil_l in Ht.
  rewrite <- (takeZ_dropZ (0 + lenZ (snprintf 256 (hello i)).2) d'), Ht.
  unfold snprintf. cbn [snd]. change (256 <=? 0)%Z with false. cbv iota.
  rewrite <- (assoc_L (++)). cbn [app]. rewrite cstr_app_nul; [done|].
  unfold takeZ. apply Forall_take, hello_no_nul.
Qed.

Lemma expected_S k : expected (S k) = expected k ++ [(Z.of_nat k, text k)].
Proof. unfold expected. by rewrite seq_S, fmap_app. Qed.

Lemma received_app e1 e2 : received (e1 ++ e2) = received e1 ++ received e2.
Proof. apply omap_app. Qed.

(** While the consumer reads, the producer is not writing and the buffer holds
    the message the consumer is waiting for. *)
Lemma reading_holds nm s j :
  shm_inv nm s -> cons s = CNum j \/ (exists m, cons s = CData j m) -> holds (shm s) j.
Proof.
  intros [_ Hr Hw Hs Hp Hc _ _ _ _] Hcons.
  assert (waits_r (cons s) = S j /\ posts_w (cons s) = j) as [Er Ew]
    by (destruct Hcons as [->|[m ->]]; done).
  rewrite Er in Hr. rewrite Ew in Hw.
  destruct (prod s) as [i|i|i|i|i| | | ]; simpl in *; try lia.
  - destruct i as [|i]; [lia|]. by assert (i = j) as -> by lia.
  - apply Hs. lia.
  - destruct Hcons as [E|[m E]]; congruence.
  - destruct Hcons as [E|[m E]]; congruence.
Qed.

Lemma wrote_app e1 e2 : wrote (e1 ++ e2) = wrote e1 ++ wrote e2.
Proof. apply omap_app. Qed.

Lemma ends_app (p p' : ppc) evs l :
  (exists o, evs = EvTitle :: o /\ (p = PDone -> last o = Some EvDone)) ->
  p <> PDone -> (p' = PDone -> l = [EvDone]) ->
  exists o, evs ++ l = EvTitle :: o /\ (p' = PDone -> last o = Some EvDone).
Proof.
  intros (o & -> & _) _ Hl. exists (o ++ l). split; [done|]. intros Hp. by rewrite (Hl Hp), last_snoc.
Qed.

Lemma shm_producer_step nm s s' : shm_inv nm s -> producer s = Some s' -> shm_inv nm s'.
Proof.
  intros [Hl Hr Hw Hs Hp Hc He Hwr Hen Hn] Hst. destruct s as [[d num] w r p c ns evs].
  unfold producer in Hst.
  cbn [prod cons shm data msg_number sem_w sem_r names events] in *.
  destruct p as [i|i|i|i|i| | | ]; cbn [sem_wait shm_rel p_ok posts_r waits_w announced] in *;
    [ destruct (Nat.ltb_spec i n); [destruct w as [|w]; simpl in Hst|] | |
      destruct (store_hello d i Hl) as (d' & Hd' & Hl' & Hc'); rewrite Hd' in Hst | | |
      destruct (decide (c = CExit)) | | done ]; simplify_eq/=;
    (split; simpl; rewrite ?received_app, ?wrote_app; simpl; rewrite ?app_nil_r;
     try done; try lia; try (by rewrite <- (app_nil_r evs); eapply ends_app)).
  - intros k Hk. by replace (r + waits_r c) with (S k) in * by lia.
  - rewrite Hwr. do 2 f_equal. lia.
  - rewrite Hwr. by rewrite Nat2Z.inj_succ, <- Z.add_1_r, seqZ_snoc by lia.
  - by eapply ends_app.
  - by eapply ends_app.
Qed.

Lemma shm_consumer_step nm s s' : shm_inv nm s -> consumer s = Some s' -> shm_inv nm s'.
Proof.
  intros Hi Hst. pose proof (reading_holds nm s) as Hread.
  pose proof Hi as [Hl Hr Hw Hs Hp Hc He Hwr Hen Hn]. destruct s as [[d num] w r p c ns evs]; simpl in *.
  unfold consumer in Hst; simpl in Hst.
  destruct c as [j|j|j m|j| ]; simpl in *; [destruct (Nat.ltb_spec j n); [destruct r as [|r]; simpl in Hst|]| | | |done];
    simplify_eq/=; destruct_and?; (split; simpl; rewrite ?app_nil_r, ?received_app, ?wrote_app; simpl; rewrite ?app_nil_r;
      try done; try lia; try (by destruct p)).
  - rewrite He. f_equal. lia.
  - split; [done|]. apply Hread; [done|by left].
  - destruct (Hread j Hi ltac:(right; eauto)) as [_ Ht]. simpl in Ht. rewrite Ht, expected_S, He.
    congruence.
  - eapply ends_app; [done| |]; by destruct p.
Qed.

Lemma shm_inv_step nm a s s' : shm_inv nm s -> step a s = Some s' -> shm_inv nm s'.
Proof. destruct a; [apply shm_producer_step|apply shm_consumer_step]. Qed.

(** ** Termination and progress *)

Definition p_work (p : ppc) : nat :=
  match p with
  | PWait i => 5 * (n - i) + 3
  | PNum i => 5 * (n - i) + 2
  | PData i => 5 * (n - i) + 1
  | PPrint i => 5 * (n - i)
  | PPost i => 5 * (n - i) - 1
  | PReap => 2
  | PClean => 1
  | PDone => 0
  end.
Definition c_work (c : cpc) : nat :=
  match c with
  | CWait j => 4 * (n - j) + 1
  | CNum j => 4 * (n - j)
  | CData j _ => 4 * (n - j) - 1
  | CPost j => 4 * (n - j) - 2
  | CExit => 0
  end.
Definition work (s : state) : nat := p_work (prod s) + c_work (cons s).

Lemma shm_work_step nm a s s' : shm_inv nm s -> step a s = Some s' -> work s' < work s.
Proof.
  intros [Hl _ _ _ Hp Hc _ _ _ _] Hs. unfold work. destruct s as [[d num] w r p c ns evs].
  destruct a; simpl in Hs; [unfold producer in Hs|unfold consumer in Hs];
    cbn [prod cons shm data msg_number sem_w sem_r names events] in *.
  - destruct p as [i|i|i|i|i| | | ]; cbn [p_ok] in *;
      [ destruct (Nat.ltb_spec i n); [destruct w as [|w]; simpl in Hs|] | |
        destruct (store_hello d i Hl) as (d' & Hd' & _); rewrite Hd' in Hs | | |
        destruct (decide (c = CExit)) | | done ]; simplify_eq/=; lia.
  - destruct c as [j|j|j m|j| ]; simpl in *;
      [destruct (Nat.ltb_spec j n); [destruct r as [|r]; simpl in Hs|]| | | |done];
      simplify_eq/=; lia.
Qed.

Definition finished (s : state) : Prop := prod s = PDone /\ cons s = CExit.

(** The producer can move unless it waits for its semaphore or for the child. *)
Lemma parent_moves nm s :
  shm_inv nm s ->
  match prod s with
  | PWait i => i < n -> 0 < sem_w s
  | PReap => cons s = CExit
  | PDone => False
  | _ => True
  end -> is_Some (step Parent s).
Proof.
  intros [Hl _ _ _ _ _ _ _ _ _] Hm. simpl. unfold producer. destruct (prod s) as [i|i|i|i|i| | | ]; try done; eauto.
  - destruct (Nat.ltb_spec i n); [|eauto]. destruct (sem_w s); [lia|]. simpl. eauto.
  - destruct (store_hello _ i Hl) as (d' & -> & _). simpl. eauto.
  - rewrite decide_True by done. eauto.
Qed.

Lemma child_moves s :
  match cons s with CWait j => j < n -> 0 < sem_r s | CExit => False | _ => True end ->
  is_Some (step Child s).
Proof.
  intros Hm. simpl. unfold consumer. destruct (cons s) as [j|j|j m|j| ]; try done; eauto.
  destruct (Nat.ltb_spec j n); [|eauto]. destruct (sem_r s); [lia|]. simpl. eauto.
Qed.

Lemma shm_progress nm s :
  shm_inv nm s -> finished s \/ exists a, is_Some (step a s).
Proof.
  intros Hi. pose proof (parent_moves nm s Hi) as Hpar. pose proof (child_moves s) as Hch.
  destruct Hi as [_ Hr Hw _ Hp Hc _ _ _ _]. unfold finished.
  destruct (cons s) as [j|j|j m|j| ] eqn:Ec; try (right; exists Child; by apply Hch).
  - destruct (decide (j < n /\ sem_r s = 0)) as [[Hj Hz]|Hd].
    + right. exists Parent. apply Hpar. simpl in *. destruct (prod s); simpl in *; try done; lia.
    + right. exists Child. apply Hch. lia.
  - destruct (decide (prod s = PDone)) as [|Hd]; [by left|]. right. exists Parent. apply Hpar.
    simpl in *. destruct (prod s); simpl in *; try done; lia.
Qed.

Lemma shm_inv_init b nm :
  lenZ (data b) = BUF_SIZE ->
  shm_inv nm (mk_state b 1 0 (PWait 0) (CWait 0) nm [EvTitle]).
Proof. intros Hd. split; simpl; try done; try lia. by exists []. Qed.
End run.

Definition kernel_names : gset string := {[SEM_WRITE; SEM_READ; SHM_NAME]}.

(** The first call of the set-up that fails. *)
Definition first_failure (e : setup_env) : option string :=
  if negb (e_shm_open e) then Some "shm_open"
  else if negb (bool_decide (is_Some (e_mmap e))) then Some "mmap"
  else if negb (e_sem_w e && e_sem_r e) then Some "sem_open"
  else if (e_fork e <? 0)%Z then Some "fork"
  else None.

(** The set-up starts the processes, or reports the first failing call; it
    touches no other names. *)
Lemma setup_spec e nm :
  match setup e nm with
  | inl s0 => first_failure e = None /\
      exists b, e_mmap e = Some b /\ s0 = mk_state b 1 0 (PWait 0) (CWait 0) (names s0) [EvTitle] /\
        kernel_names ⊆ names s0 /\ names s0 ∖ kernel_names = nm ∖ kernel_names
  | inr (err, nm') => exists fn, first_failure e = Some fn /\ err = perror_line fn (e_strerror e) /\
      nm' ∖ kernel_names = nm ∖ kernel_names
  end.
Proof.
  unfold setup, first_failure, kernel_names. destruct (e_shm_open e); cbn [negb]; [|by eexists].
  destruct (e_mmap e) as [b|]; cbn [bool_decide negb];
    [|eexists; split_and!; [done|done|set_solver]].
  destruct (e_sem_w e), (e_sem_r e); cbn [negb orb andb];
    [destruct (e_fork e <? 0)%Z|..]; try (eexists; split_and!; [done|done|set_solver]).
  split; [done|]. exists b. cbn [names]. split_and!; [done|done|set_solver|set_solver].
Qed.

(** C28: when a call of the set-up fails the process reports the first one and
    exits.  Otherwise, in every interleaving of the two processes the consumer
    prints message numbers 0, 1, 2, ... each with the complete text the
    producer wrote for it, none skipped, repeated or torn, and never leaves
    the shared array; no interleaving deadlocks and every one is bounded; and
    when both processes have ended all [n] messages were written and printed
    between the title and the last line, and the three kernel names are removed
    and no other. *)
Theorem shm_handover n pid e nm :
  (forall b, e_mmap e = Some b -> lenZ (data b) = BUF_SIZE) ->
  match setup e nm with
  | inr (err, nm') => exists fn, first_failure e = Some fn /\ err = perror_line fn (e_strerror e) /\
      nm' ∖ kernel_names = nm ∖ kernel_names
  | inl s0 => first_failure e = None /\ forall sched s, run (step n pid) sched s0 = Some s ->
      received (events s) = expected pid (printed n (cons s)) /\
      length sched <= 9 * n + 4 /\
      (finished s \/ exists a, is_Some (step n pid a s)) /\
      (finished s -> received (events s) = expected pid n /\ wrote (events s) = seqZ 0 (Z.of_nat n) /\
         (exists evs, events s = EvTitle :: evs /\ last evs = Some EvDone) /\
         names s = nm ∖ kernel_names)
  end.
Proof.
  intros Hlen. pose proof (setup_spec e nm) as Hset. destruct (setup e nm) as [s0|[err nm']]; [|done].
  destruct Hset as (Hf & b & Hb & Hs0 & Hsub & Hnm). split; [done|]. intros sched s Hrun.
  specialize (Hlen b Hb). pose proof (shm_inv_init n pid b (names s0) Hlen) as H0. rewrite <- Hs0 in H0.
  assert (Hi : shm_inv n pid (names s0) s).
  { revert Hrun. apply run_invariant; [intros a x y; apply shm_inv_step|done]. }
  split_and!.
  - apply (sh_rcv _ _ _ _ Hi).
  - pose proof (run_measure (step n pid) _ (work n)
      (fun a x y Hx Hy => conj (shm_inv_step n pid _ a x y Hx Hy) (shm_work_step n pid _ a x y Hx Hy))
      _ _ _ H0 Hrun) as Hm.
    rewrite Hs0 in Hm. unfold work in Hm at 2. simpl in Hm. lia.
  - by eapply shm_progress.
  - intros [Hp Hc]. destruct Hi as [_ _ _ _ _ _ He Hwr (o & Ho & Hl) Hn]. rewrite Hc in He. rewrite Hp in Hn, Hwr.
    split_and!; [done|done|eauto|]. rewrite Hn. exact Hnm.
Qed.

(** ** Witness: the demo's five messages *)

Definition env5 : setup_env :=
  {| e_shm_open := true; e_mmap := Some (mk_SharedBuf (replicate 256 x00) 0); e_sem_w := true; e_sem_r := true;
     e_fork := 4321; e_strerror := [] |}.
Definition shm_start : state :=
  mk_state (mk_SharedBuf (replicate 256 x00) 0) 1 0 (PWait 0) (CWait 0)
    ({[SEM_READ]} ∪ ({[SEM_WRITE]} ∪ ({[SHM_NAME]} ∪ ∅) ∖ {[SEM_WRITE]} ∖ {[SEM_READ]})) [EvTitle].
Definition shm_sched : list action := greedy (step N_MESSAGES 4320) [Parent; Child] 100 shm_start.
Definition shm_end : state := default shm_start (run (step N_MESSAGES 4320) shm_sched shm_start).

Lemma shm_handover_witness :
  run (step N_MESSAGES 4320) shm_sched shm_start = Some shm_end /\
  received (events shm_end) = expected 4320 5.
Proof.
  split; [vm_compute; reflexivity|].
  assert (Hlen : forall b, e_mmap env5 = Some b -> lenZ (data b) = BUF_SIZE)
    by (intros d [= <-]; reflexivity).
  destruct (shm_handover N_MESSAGES 4320 env5 ∅ Hlen) as [_ H].
  destruct (H shm_sched shm_end) as (_ & _ & _ & Hf); [vm_compute; reflexivity|].
  apply Hf. vm_compute. split; reflexivity.
Defined.

(** A set-up that fails after [shm_open] exits with names left behind. *)
Example failed_setup_leaves_name :
  setup {| e_shm_open := true; e_mmap := None; e_sem_w := true; e_sem_r := true; e_fork := 1; e_strerror := [] |} ∅
  = inr (perror_line "mmap" [], {[SHM_NAME]} ∪ ∅).
Proof. reflexivity. Qed.
