(* ===== verification/Debug.v ===== *)
(** * The deliberately buggy program

    src/13_debugging/debug_demo.c: [main] runs one of seven faulty functions.
    The model makes the faults values: an execution ends with a result or
    with the kind of undefined behaviour it ran into, in the state at that
    point.  Heap blocks are byte arrays; freed blocks stay known, so that
    use after free and double free are told apart from a wild pointer. *)

From S2P Require Import Prelude CLib.

Local Open Scope Z_scope.

Inductive ub :=
| NullDeref          (* access through NULL *)
| OutOfBounds        (* access outside the object *)
| UseAfterFree
| DoubleFree
| Uninitialised.     (* a value that depends on an uninitialised object *)

Inductive block := Live (b : bytes) | Freed.

(** Pointers are NULL or the number of a block. *)
Definition ptr := option nat.

Record dstate := mk_dstate { blocks : list block; out : bytes }.

(** Either a result or undefined behaviour, and the state. *)
Definition D (A : Type) : Type := dstate -> (A + ub) * dstate.

#[export] Instance D_ret : MRet D := fun A a s => (inl a, s).
#[export] Instance D_bind : MBind D := fun A B k m s =>
  match m s with (inl a, s') => k a s' | (inr u, s') => (inr u, s') end.

Definition undefined {A} (u : ub) : D A := fun s => (inr u, s).
Definition printf (f : list fmt) : D unit :=
  fun s => (inl tt, mk_dstate (blocks s) (out s ++ format f)).

Section program.
(** The contents of a fresh block of each size, and whether a [malloc] made
    when there have been [i] blocks succeeds. *)
Context (junk : nat -> bytes) (malloc_ok : nat -> bool).

Definition malloc (size : nat) : D ptr := fun s =>
  if malloc_ok (length (blocks s))
  then (inl (Some (length (blocks s))), mk_dstate (blocks s ++ [Live (take size (junk size))]) (out s))
  else (inl None, s).

Definition free (p : ptr) : D unit := fun s =>
  match p with
  | None => (inl tt, s)
  | Some i =>
      match blocks s !! i with
      | Some (Live _) => (inl tt, mk_dstate (<[i := Freed]> (blocks s)) (out s))
      | _ => (inr DoubleFree, s)
      end
  end.

(** The block a pointer may be used with. *)
Definition access (p : ptr) : D bytes := fun s =>
  match p with
  | None => (inr NullDeref, s)
  | Some i =>
      match blocks s !! i with
      | Some (Live b) => (inl b, s)
      | Some Freed => (inr UseAfterFree, s)
      | None => (inr OutOfBounds, s)
      end
  end.

(** Replacing the block's contents by [f] of them; [None] is out of bounds. *)
Definition set_block (i : nat) (b : bytes) : D unit :=
  fun s => (inl tt, mk_dstate (<[i := Live b]> (blocks s)) (out s)).
Definition update (p : ptr) (f : bytes -> option bytes) : D unit :=
  b ← access p;
  match f b, p with
  | Some b', Some i => set_block i b'
  | _, _ => undefined OutOfBounds
  end.

Definition usage (prog : bytes) : D unit :=
  printf [FLit "Usage: "; FS prog; FLit " <bug_id>"; FRaw [x0a]] ;;
  printf [FLit "  1 — NULL pointer dereference"; FRaw [x0a]] ;;
  printf [FLit "  2 — Heap buffer overflow"; FRaw [x0a]] ;;
  printf [FLit "  3 — Memory leak"; FRaw [x0a]] ;;
  printf [FLit "  4 — Use-after-free"; FRaw [x0a]] ;;
  printf [FLit "  5 — Stack buffer overflow"; FRaw [x0a]] ;;
  printf [FLit "  6 — Double free"; FRaw [x0a]] ;;
  printf [FLit "  7 — Uninitialized variable read"; FRaw [x0a]].

Definition bug_null_deref : D unit :=
  printf [FLit "[Bug 1] NULL pointer dereference"; FRaw [x0a]] ;;
  let p : ptr := None in
  b ← access p;
  printf [FLit "Value: "; FD (le32_decode b); FRaw [x0a]].

(** [for (i = 0; i < 40; i++) buf[i] = (char)i] *)
Fixpoint fill (fuel : nat) (buf : ptr) (i : Z) : D unit :=
  match fuel with
  | O => mret tt
  | S fuel =>
      if i <? 40
      then update buf (fun b => store_bytes b i [byte_of_Z i]) ;; fill fuel buf (i + 1)
      else mret tt
  end.

Definition bug_heap_overflow : D unit :=
  printf [FLit "[Bug 2] Heap buffer overflow"; FRaw [x0a]] ;;
  buf ← malloc 16;
  fill 40 buf 0 ;;
  printf [FLit "Wrote past buffer end (UB)"; FRaw [x0a]] ;;
  free buf.

Definition bug_leak : D unit :=
  printf [FLit "[Bug 3] Memory leak — never freed"; FRaw [x0a]] ;;
  leak1 ← malloc 1024;
  leak2 ← malloc 4096;
  update leak1 (fun b => strncpy b 0 (bs "leaked allocation") 1024) ;;
  update leak2 (fun b => strncpy b 0 (bs "also leaked") 4096) ;;
  free leak2 ;;
  printf [FLit "Allocated 5120 bytes without freeing"; FRaw [x0a]].

Definition strcpy (buf : ptr) (s : bytes) : D unit :=
  update buf (fun b => store_bytes b 0 (cstr s ++ [NUL])).

Definition bug_use_after_free : D unit :=
  printf [FLit "[Bug 4] Use-after-free"; FRaw [x0a]] ;;
  buf ← malloc 64;
  strcpy buf (bs "original data") ;;
  free buf ;;
  b ← access buf;
  printf [FLit "After free: "; FRaw [x22]; FS b; FRaw [x22]; FLit " (UB!)"; FRaw [x0a]].

(** [local] is a 16-byte array with the contents [stack]. *)
Definition bug_stack_overflow (stack : bytes) : D unit :=
  printf [FLit "[Bug 5] Stack buffer overflow"; FRaw [x0a]] ;;
  match memset (takeZ 16 stack) x41 64 with
  | None => undefined OutOfBounds
  | Some local =>
      match store_bytes local 63 [NUL] with
      | None => undefined OutOfBounds
      | Some local => printf [FLit "Stack smashed with: "; FS local; FRaw [x0a]]
      end
  end.

Definition bug_double_free : D unit :=
  printf [FLit "[Bug 6] Double free"; FRaw [x0a]] ;;
  buf ← malloc 32;
  strcpy buf (bs "data") ;;
  free buf ;;
  free buf.

(** An [int] variable, without a value until one is assigned, and its use. *)
Definition var := option Z.
Definition read (x : var) : D Z :=
  match x with Some v => mret v | None => undefined Uninitialised end.

Definition bug_uninit : D unit :=
  printf [FLit "[Bug 7] Uninitialized variable read"; FRaw [x0a]] ;;
  let x : var := None in    (* int x; *)
  v ← read x;
  if 0 <? v
  then w ← read x; printf [FLit "x is positive ("; FD w; FLit ")"; FRaw [x0a]]
  else w ← read x; printf [FLit "x is not positive ("; FD w; FLit ")"; FRaw [x0a]].

Definition main (stack prog : bytes) (argv1 : option bytes) : D Z :=
  match argv1 with
  | None => usage prog ;; mret 1
  | Some a =>
      let id := atoi a in
      if id =? 1 then bug_null_deref ;; mret 0
      else if id =? 2 then bug_heap_overflow ;; mret 0
      else if id =? 3 then bug_leak ;; mret 0
      else if id =? 4 then bug_use_after_free ;; mret 0
      else if id =? 5 then bug_stack_overflow stack ;; mret 0
      else if id =? 6 then bug_double_free ;; mret 0
      else if id =? 7 then bug_uninit ;; mret 0
      else usage prog ;; mret 1
  end.

(** ** What each function does *)

Definition boot : dstate := mk_dstate [] [].

Definition usage_text (prog : bytes) : bytes :=
  format [FLit "Usage: "; FS prog; FLit " <bug_id>"; FRaw [x0a];
          FLit "  1 — NULL pointer dereference"; FRaw [x0a];
          FLit "  2 — Heap buffer overflow"; FRaw [x0a];
          FLit "  3 — Memory leak"; FRaw [x0a];
          FLit "  4 — Use-after-free"; FRaw [x0a];
          FLit "  5 — Stack buffer overflow"; FRaw [x0a];
          FLit "  6 — Double free"; FRaw [x0a];
          FLit "  7 — Uninitialized variable read"; FRaw [x0a]].

(** The fault each number announces; 3 is a leak, not a fault. *)
Definition announced (id : Z) : option (ub * string) :=
  if id =? 1 then Some (NullDeref, "[Bug 1] NULL pointer dereference")
  else if id =? 2 then Some (OutOfBounds, "[Bug 2] Heap buffer overflow")
  else if id =? 4 then Some (UseAfterFree, "[Bug 4] Use-after-free")
  else if id =? 5 then Some (OutOfBounds, "[Bug 5] Stack buffer overflow")
  else if id =? 6 then Some (DoubleFree, "[Bug 6] Double free")
  else if id =? 7 then Some (Uninitialised, "[Bug 7] Uninitialized variable read")
  else None.

(** Bytes of live blocks: what is leaked at exit. *)
Definition live_bytes (s : dstate) : Z :=
  foldr (fun b n => match b with Live l => lenZ l + n | Freed => n end) 0 (blocks s).

Hypothesis junk_length : forall n, length (junk n) = n.

Lemma malloc_run size s :
  malloc_ok (length (blocks s)) = true ->
  malloc size s =
  (inl (Some (length (blocks s))), mk_dstate (blocks s ++ [Live (junk size)]) (out s)).
Proof. intros Hm. unfold malloc. rewrite Hm, take_ge; [done|]. by rewrite junk_length. Qed.

Lemma malloc_fails size s : malloc_ok (length (blocks s)) = false -> malloc size s = (inl None, s).
Proof. intros Hm. unfold malloc. by rewrite Hm. Qed.

Lemma update_run i f b b' s :
  blocks s !! i = Some (Live b) -> f b = Some b' ->
  update (Some i) f s = (inl tt, mk_dstate (<[i := Live b']> (blocks s)) (out s)).
Proof. intros Hb Hf. unfold update, mbind, D_bind, access. rewrite Hb. simpl. by rewrite Hf. Qed.

Lemma update_oob i f b s :
  blocks s !! i = Some (Live b) -> f b = None -> update (Some i) f s = (inr OutOfBounds, s).
Proof. intros Hb Hf. unfold update, mbind, D_bind, access. rewrite Hb. simpl. by rewrite Hf. Qed.

Lemma d_bind_run {A B} (m : D A) (k : A -> D B) s a s' :
  m s = (inl a, s') -> (m ≫= k) s = k a s'.
Proof. intros H. unfold mbind, D_bind. by rewrite H. Qed.

Lemma d_bind_ub {A B} (m : D A) (k : A -> D B) s u s' :
  m s = (inr u, s') -> (m ≫= k) s = (inr u, s').
Proof. intros H. unfold mbind, D_bind. by rewrite H. Qed.

Lemma printf_run f s : printf f s = (inl tt, mk_dstate (blocks s) (out s ++ format f)).
Proof. done. Qed.

(** The loop runs into the end of the 16-byte block. *)
Lemma fill_overflows k fuel i b o :
  lenZ b = 16 -> i = 16 - Z.of_nat k -> (k <= 16)%nat -> (k < fuel)%nat ->
  exists s', fill fuel (Some 0%nat) i (mk_dstate [Live b] o) = (inr OutOfBounds, s') /\ out s' = o.
Proof.
  revert fuel i b. induction k as [|k IH]; intros fuel i b Hb Hi Hk Hf;
    (destruct fuel as [|fuel]; [lia|]); cbn [fill];
    (destruct (Z.ltb_spec i 40); [|lia]).
  - eexists. rewrite (d_bind_ub _ _ _ OutOfBounds (mk_dstate [Live b] o)); [done|].
    apply (update_oob 0 _ b); [done|]. unfold store_bytes. change (lenZ [byte_of_Z i]) with 1.
    destruct (Z.leb_spec (i + 1) (lenZ b)); [lia|]. by rewrite andb_false_r.
  - destruct (store_bytes b i [byte_of_Z i]) as [b'|] eqn:E.
    2: { rewrite store_bytes_Some in E; [done|lia|]. change (lenZ [byte_of_Z i]) with 1. lia. }
    rewrite (d_bind_run _ _ _ _ _ (update_run 0 _ b b' (mk_dstate [Live b] o) eq_refl E)).
    apply IH; [|lia|lia|lia]. rewrite (store_bytes_length _ _ _ _ E). done.
Qed.

Lemma overflow_run :
  malloc_ok 0 = true ->
  exists s', bug_heap_overflow boot = (inr OutOfBounds, s') /\
    out s' = format [FLit "[Bug 2] Heap buffer overflow"; FRaw [x0a]].
Proof.
  intros Hm. unfold bug_heap_overflow. rewrite (d_bind_run _ _ _ _ _ (printf_run _ _)).
  erewrite d_bind_run by (by apply malloc_run). cbn [blocks boot app out length].
  edestruct (fill_overflows 16 40 0 (junk 16)) as (s' & Hf & Ho);
    [unfold lenZ; by rewrite junk_length|lia|lia|lia|].
  exists s'. split; [|exact Ho]. by rewrite (d_bind_ub _ _ _ _ _ Hf).
Qed.

(** [strncpy] over a whole block of [k] bytes fits and keeps its length. *)
Lemma strncpy_whole b src k :
  lenZ b = k -> exists b', strncpy b 0 src k = Some b' /\ lenZ b' = k.
Proof.
  intros Hb. pose proof (lenZ_nonneg b). unfold strncpy. set (t := takeZ k (cstr src)).
  assert (Ht : lenZ t <= k) by (unfold t; rewrite lenZ_takeZ_min by lia; lia).
  pose proof (lenZ_nonneg t).
  destruct (store_bytes b 0 (t ++ replicate (Z.to_nat (k - lenZ t)) NUL)) as [b'|] eqn:E.
  - exists b'. split; [done|]. by rewrite (store_bytes_length _ _ _ _ E).
  - rewrite store_bytes_Some in E; [done|lia|]. rewrite lenZ_app, lenZ_replicate. lia.
Qed.

Lemma leak_run :
  malloc_ok 0 = true -> malloc_ok 1 = true ->
  exists s', bug_leak boot = (inl tt, s') /\ live_bytes s' = 1024 /\
    out s' = format [FLit "[Bug 3] Memory leak — never freed"; FRaw [x0a];
                     FLit "Allocated 5120 bytes without freeing"; FRaw [x0a]].
Proof.
  intros Hm0 Hm1. unfold bug_leak. rewrite (d_bind_run _ _ _ _ _ (printf_run _ _)).
  erewrite d_bind_run by (by apply malloc_run). erewrite d_bind_run by (by apply malloc_run).
  cbn [blocks boot app out length].
  destruct (strncpy_whole (junk 1024) (bs "leaked allocation") 1024) as (b1 & E1 & L1);
    [unfold lenZ; by rewrite junk_length|].
  destruct (strncpy_whole (junk 4096) (bs "also leaked") 4096) as (b2 & E2 & L2);
    [unfold lenZ; by rewrite junk_length|].
  erewrite d_bind_run; [|by eapply (update_run 0); [reflexivity|exact E1]]. cbn [blocks out].
  erewrite d_bind_run; [|by eapply (update_run 1); [reflexivity|exact E2]]. cbn [blocks out].
  erewrite d_bind_run; [|reflexivity]. rewrite printf_run.
  eexists. split; [reflexivity|]. split; [|cbn [out]; by rewrite <- format_app].
  unfold live_bytes. simpl. lia.
Qed.

Lemma strcpy_run k src o :
  (strlen src < Z.of_nat k) ->
  exists b', strcpy (Some 0%nat) src (mk_dstate [Live (junk k)] o) = (inl tt, mk_dstate [Live b'] o).
Proof.
  intros Hs. unfold strlen in Hs. pose proof (lenZ_nonneg (cstr src)). unfold strcpy.
  destruct (store_bytes (junk k) 0 (cstr src ++ [NUL])) as [b'|] eqn:E.
  - exists b'. by rewrite (update_run 0 _ (junk k) b').
  - rewrite store_bytes_Some in E; [done|lia|]. rewrite lenZ_app. change (lenZ [NUL]) with 1.
    unfold lenZ at 2. rewrite junk_length. lia.
Qed.

Lemma use_after_free_run :
  malloc_ok 0 = true ->
  exists s', bug_use_after_free boot = (inr UseAfterFree, s') /\
    out s' = format [FLit "[Bug 4] Use-after-free"; FRaw [x0a]].
Proof.
  intros Hm. unfold bug_use_after_free. rewrite (d_bind_run _ _ _ _ _ (printf_run _ _)).
  erewrite d_bind_run by (by apply malloc_run). cbn [blocks boot app out length].
  edestruct (strcpy_run 64 (bs "original data")) as [b' Hb]; [by vm_compute|].
  rewrite (d_bind_run _ _ _ _ _ Hb). eexists. split; reflexivity.
Qed.

Lemma double_free_run :
  malloc_ok 0 = true ->
  exists s', bug_double_free boot = (inr DoubleFree, s') /\
    out s' = format [FLit "[Bug 6] Double free"; FRaw [x0a]].
Proof.
  intros Hm. unfold bug_double_free. rewrite (d_bind_run _ _ _ _ _ (printf_run _ _)).
  erewrite d_bind_run by (by apply malloc_run). cbn [blocks boot app out length].
  edestruct (strcpy_run 32 (bs "data")) as [b' Hb]; [by vm_compute|].
  rewrite (d_bind_run _ _ _ _ _ Hb). eexists. split; reflexivity.
Qed.

Lemma stack_overflow_run stack :
  exists s', bug_stack_overflow stack boot = (inr OutOfBounds, s') /\
    out s' = format [FLit "[Bug 5] Stack buffer overflow"; FRaw [x0a]].
Proof.
  unfold bug_stack_overflow. rewrite (d_bind_run _ _ _ _ _ (printf_run _ _)).
  assert (memset (takeZ 16 stack) x41 64 = None) as ->; [|eexists; split; reflexivity].
  unfold memset, store_bytes. rewrite lenZ_replicate, lenZ_takeZ_min by lia.
  destruct (Z.leb_spec (0 + Z.of_nat (Z.to_nat 64)) (Z.min 16 (lenZ stack))); [lia|done].
Qed.

Lemma usage_run prog s : usage prog s = (inl tt, mk_dstate (blocks s) (out s ++ usage_text prog)).
Proof.
  unfold usage, usage_text. repeat rewrite (d_bind_run _ _ _ _ _ (printf_run _ _)).
  rewrite printf_run. cbn [blocks out]. rewrite <- !(assoc_L (++)), <- !format_app. done.
Qed.

(** A function whose [malloc] fails prints its first line and then uses the
    NULL pointer: no result is checked. *)
Lemma unchecked_malloc (line : list fmt) size (k : ptr -> D unit) :
  malloc_ok 0 = false ->
  k None (mk_dstate [] (format line)) = (inr NullDeref, mk_dstate [] (format line)) ->
  (printf line ;; p ← malloc size; k p) boot = (inr NullDeref, mk_dstate [] (format line)).
Proof.
  intros Hm Hk. rewrite (d_bind_run _ _ _ _ _ (printf_run _ _)).
  erewrite d_bind_run by (by apply malloc_fails). apply Hk.
Qed.

(** The second [malloc] of [bug_leak] fails. *)
Lemma leak_second_null :
  malloc_ok 0 = true -> malloc_ok 1 = false ->
  exists s', bug_leak boot = (inr NullDeref, s') /\
    out s' = format [FLit "[Bug 3] Memory leak — never freed"; FRaw [x0a]].
Proof.
  intros Hm0 Hm1. unfold bug_leak. rewrite (d_bind_run _ _ _ _ _ (printf_run _ _)).
  erewrite d_bind_run by (by apply malloc_run). erewrite d_bind_run by (by apply malloc_fails).
  cbn [blocks boot app out length].
  destruct (strncpy_whole (junk 1024) (bs "leaked allocation") 1024) as (b1 & E1 & L1);
    [unfold lenZ; by rewrite junk_length|].
  erewrite d_bind_run; [|by eapply (update_run 0); [reflexivity|exact E1]].
  eexists. split; reflexivity.
Qed.

Lemma leak_null :
  malloc_ok 0 && malloc_ok 1 = false ->
  exists s', bug_leak boot = (inr NullDeref, s') /\
    out s' = format [FLit "[Bug 3] Memory leak — never freed"; FRaw [x0a]].
Proof.
  intros Hm. destruct (malloc_ok 0) eqn:H0; [by apply leak_second_null|].
  eexists. split; [apply unchecked_malloc; [done|]|reflexivity].
  unfold mbind, D_bind, malloc. cbn [blocks length]. by rewrite H0.
Qed.

(** The numbers whose function starts with a [malloc]. *)
Definition on_heap (id : Z) : bool := (id =? 2) || (id =? 4) || (id =? 6).

(** C29: whatever its argument, read as [atoi] reads it, the program does what
    its menu says: numbers 1, 2, 4, 5, 6 and 7 print their announcement and
    run into exactly the fault they announce, and into no other before it; 3
    returns 0 with 1024 bytes still allocated; anything else prints the usage
    and returns 1.  When a [malloc] of 2, 3, 4 or 6 fails the fault is the use
    of the NULL pointer. *)
Theorem debug_menu stack prog argv1 :
  exists r s', main stack prog argv1 boot = (r, s') /\
    match argv1 with
    | None => r = inl 1 /\ out s' = usage_text prog
    | Some a =>
        match announced (atoi a) with
        | Some (u, line) =>
            r = inr (if on_heap (atoi a) && negb (malloc_ok 0) then NullDeref else u) /\
            out s' = format [FLit line; FRaw [x0a]]
        | None =>
            if atoi a =? 3
            then if negb (malloc_ok 0 && malloc_ok 1)
                 then r = inr NullDeref /\
                      out s' = format [FLit "[Bug 3] Memory leak — never freed"; FRaw [x0a]]
                 else
                 r = inl 0 /\ live_bytes s' = 1024 /\
                 out s' = format [FLit "[Bug 3] Memory leak — never freed"; FRaw [x0a];
                                  FLit "Allocated 5120 bytes without freeing"; FRaw [x0a]]
            else r = inl 1 /\ out s' = usage_text prog
        end
    end.
Proof.
  destruct argv1 as [a|]; simpl main.
  2: { eexists _, _. rewrite (d_bind_run _ _ _ _ _ (usage_run _ _)). split; [reflexivity|done]. }
  unfold announced. generalize (atoi a). intros id.
  unfold on_heap. destruct (Z.eqb_spec id 1) as [->|]; [eexists _, _; split; [reflexivity|done]|].
  destruct (Z.eqb_spec id 2) as [->|].
  { destruct (malloc_ok 0) eqn:Hm; [destruct (overflow_run Hm) as (s' & H & Ho)|].
    - eexists _, _. rewrite (d_bind_ub _ _ _ _ _ H). by split.
    - eexists _, _. erewrite d_bind_ub by (apply unchecked_malloc; done). by split. }
  destruct (Z.eqb_spec id 3) as [->|].
  { destruct (malloc_ok 0 && malloc_ok 1) eqn:Hm.
    - apply andb_true_iff in Hm as [Hm0 Hm1]. destruct (leak_run Hm0 Hm1) as (s' & H & Hl & Ho).
      eexists _, _. rewrite (d_bind_run _ _ _ _ _ H). by split.
    - destruct (leak_null Hm) as (s' & H & Ho). eexists _, _. rewrite (d_bind_ub _ _ _ _ _ H). by split. }
  destruct (Z.eqb_spec id 4) as [->|].
  { destruct (malloc_ok 0) eqn:Hm; [destruct (use_after_free_run Hm) as (s' & H & Ho)|].
    - eexists _, _. rewrite (d_bind_ub _ _ _ _ _ H). by split.
    - eexists _, _. erewrite d_bind_ub by (apply unchecked_malloc; done). by split. }
  destruct (Z.eqb_spec id 5) as [->|].
  { destruct (stack_overflow_run stack) as (s' & H & Ho). eexists _, _. rewrite (d_bind_ub _ _ _ _ _ H). by split. }
  destruct (Z.eqb_spec id 6) as [->|].
  { destruct (malloc_ok 0) eqn:Hm; [destruct (double_free_run Hm) as (s' & H & Ho)|].
    - eexists _, _. rewrite (d_bind_ub _ _ _ _ _ H). by split.
    - eexists _, _. erewrite d_bind_ub by (apply unchecked_malloc; done). by split. }
  destruct (Z.eqb_spec id 7) as [->|]; [eexists _, _; split; [reflexivity|done]|].
  eexists _, _. rewrite (d_bind_run _ _ _ _ _ (usage_run _ _)). split; [reflexivity|done].
Qed.
End program.

Lemma debug_menu_witness :
  exists r s', main (fun n => replicate n xff) (fun _ => true) [] (bs "debug_demo") (Some (bs "6")) boot
               = (r, s') /\ r = inr DoubleFree.
Proof.
  destruct (debug_menu (fun n => replicate n xff) (fun _ => true)
              (fun n => length_replicate n xff) [] (bs "debug_demo") (Some (bs "6")))
    as (r & s' & Hr & Hu & _).
  exists r, s'. split; [exact Hr|exact Hu].
Defined.

(** 2^32 + 1 is read as 1. *)
Example wide_argument :
  (main (fun n => replicate n xff) (fun _ => true) [] (bs "debug_demo") (Some (bs "4294967297")) boot).1
  = inr NullDeref.
Proof. vm_compute. reflexivity. Qed.
