(* ===== verification/Uart.v ===== *)
(** * The UART demo

    src/16_uart/uart_demo.c: [demo_uart_send_receive] and [main].  The line
    settings are the [c_cflag] word of [struct termios], whose bits are those
    of asm-generic/termbits.h; [cfsetospeed] stores the speed in its baud
    field, as glibc does. *)

From S2P Require Import Prelude CLib Sys.

Local Open Scope Z_scope.

Definition CBAUD : Z := 4111.       (* 0010017 octal, CBAUDEX included *)
Definition B9600 : Z := 13.         (* 0000015 *)
Definition CSIZE : Z := 48.         (* 0000060 *)
Definition CS8 : Z := 48.           (* 0000060 *)
Definition CSTOPB : Z := 64.        (* 0000100 *)
Definition PARENB : Z := 256.       (* 0000400 *)

Record termios := mk_termios { c_cflag : Z; c_ispeed : Z; c_ospeed : Z }.

Definition cfsetospeed (t : termios) (speed : Z) : termios :=
  mk_termios (Z.lor (Z.ldiff (c_cflag t) CBAUD) speed) (c_ispeed t) speed.
(** With a speed other than 0 the input speed is kept beside the word. *)
Definition cfsetispeed (t : termios) (speed : Z) : termios :=
  mk_termios (Z.lor (Z.ldiff (c_cflag t) CBAUD) speed) speed (c_ospeed t).
Definition set_cflag (f : Z -> Z) (t : termios) : termios :=
  mk_termios (f (c_cflag t)) (c_ispeed t) (c_ospeed t).

(** The settings of the line and what was written to it. *)
Record uart := mk_uart { line : option termios; written : bytes }.

Record uart_env := {
  e_open : Z;
  e_getattr : option termios;      (* None: the call failed *)
  e_setattr : bool;
  e_write : Z;                     (* bytes of the message taken, or negative *)
  e_read : option bytes;           (* None: error; [] : end of file *)
  e_strerror : bytes;
}.

(** Lines 34-39. *)
Definition configure (tty : termios) : termios :=
  let tty := cfsetospeed tty B9600 in
  let tty := cfsetispeed tty B9600 in
  let tty := set_cflag (fun c => Z.ldiff c PARENB) tty in
  let tty := set_cflag (fun c => Z.ldiff c CSTOPB) tty in
  let tty := set_cflag (fun c => Z.ldiff c CSIZE) tty in
  set_cflag (fun c => Z.lor c CS8) tty.

Definition msg : bytes := bs "Hello UART" ++ [x0a].

Definition demo_uart_send_receive (e : uart_env) (junk : bytes) : ST (proc uart) unit :=
  sys_printf (separator "UART demo1: send and receive data") ;;
  fd ← new_fd (e_open e) O_RDWR;
  if fd <? 0 then perror "open uart" (e_strerror e)
  else
  tty ← on_fd fd None (e_getattr e);
  match tty with
  | None => perror "tcgetattr" (e_strerror e) ;; close fd ;; mret tt
  | Some tty =>
      let tty := configure tty in
      ok ← on_fd fd false (e_setattr e);
      if negb ok then perror "tcsetattr" (e_strerror e) ;; close fd ;; mret tt
      else
      set_ext (fun u => mk_uart (Some tty) (written u)) ;;
      k ← on_fd fd (-1) (e_write e);
      set_ext (fun u => mk_uart (line u) (written u ++ takeZ k (takeZ (strlen msg) msg))) ;;
      sys_printf [FLit "Sent: "; FS msg] ;;
      r ← on_fd fd None (e_read e);
      (let n := match r with Some l => lenZ l | None => -1 end in
       if 0 <? n then
         match store_bytes junk 0 (default [] r) ≫= fun b => store_bytes b n [NUL] with
         | None => st_stuck
         | Some buf => sys_printf [FLit "Received: "; FS buf]
         end
       else perror "read uart" (e_strerror e)) ;;
      close fd ;;
      mret tt
  end.

Definition main (e : uart_env) (junk : bytes) : ST (proc uart) Z :=
  demo_uart_send_receive e junk ;; mret 0.

(** ** The line settings *)

Definition touched : Z := Z.lor CBAUD (Z.lor PARENB (Z.lor CSTOPB CSIZE)).

(** Constants of the word have no bit above 12. *)
Lemma high_bit c k : 0 <= c < 2 ^ 13 -> 13 <= k -> Z.testbit c k = false.
Proof.
  intros Hc Hk. destruct (decide (c = 0)) as [->|Hne]; [apply Z.bits_0|].
  apply Z.bits_above_log2; [lia|]. apply Z.log2_lt_pow2; [lia|].
  apply (Z.lt_le_trans _ (2 ^ 13)); [lia|]. apply Z.pow_le_mono_r; lia.
Qed.

Lemma configure_cflag t :
  c_cflag (configure t) = Z.lor (Z.ldiff (c_cflag t) touched) (Z.lor B9600 CS8).
Proof.
  unfold configure, set_cflag, cfsetospeed, cfsetispeed. cbn [c_cflag].
  apply Z.bits_inj'. intros k Hk. rewrite !Z.lor_spec, !Z.ldiff_spec, !Z.lor_spec, !Z.ldiff_spec,
    !Z.lor_spec, !Z.ldiff_spec.
  destruct (decide (13 <= k)) as [Hh|Hl].
  - assert (Hc : forall c, c ∈ [CBAUD; B9600; CSIZE; CS8; CSTOPB; PARENB; touched] -> Z.testbit c k = false).
    { intros c Hin. apply high_bit; [|done].
      repeat (apply elem_of_cons in Hin as [->|Hin]; [by vm_compute|]). by apply elem_of_nil in Hin. }
    rewrite !(Hc CBAUD), !(Hc B9600), !(Hc CSIZE), !(Hc CS8), !(Hc CSTOPB), !(Hc PARENB), !(Hc touched)
      by by_decision.
    by destruct (Z.testbit (c_cflag t) k).
  - assert (k = 0 \/ k = 1 \/ k = 2 \/ k = 3 \/ k = 4 \/ k = 5 \/ k = 6 \/ k = 7 \/ k = 8 \/ k = 9 \/
            k = 10 \/ k = 11 \/ k = 12) as Hc by lia.
    destruct_or? Hc; subst k; destruct (Z.testbit (c_cflag t) _); reflexivity.
Qed.

(** ** Every path *)

Lemma recv_store junk l :
  lenZ junk = 256 -> 0 < lenZ l <= 255 ->
  exists buf, (store_bytes junk 0 l ≫= fun b => store_bytes b (lenZ l) [NUL]) = Some buf /\
    cstr buf = cstr l.
Proof.
  intros Hj Hl. rewrite store_bytes_Some by lia. cbn [mbind option_bind].
  set (b := takeZ 0 junk ++ l ++ dropZ (0 + lenZ l) junk).
  assert (Hb : lenZ b = 256) by (unfold b; rewrite takeZ_0; simpl; len).
  rewrite store_bytes_Some by (change (lenZ [NUL]) with 1; lia).
  eexists. split; [reflexivity|].
  assert (takeZ (lenZ l) b = l) as -> by (unfold b; rewrite takeZ_0; simpl; by apply takeZ_app_exact).
  apply cstr_nul.
Qed.

Record uart_env_ok (t : gmap Z Z) (e : uart_env) : Prop := {
  ue_open : 0 <= e_open e -> t !! e_open e = None;
  ue_read : forall l, e_read e = Some l -> lenZ l <= 255;
}.

(** The settings found on a port that opens and can be configured. *)
Definition ready (e : uart_env) : option termios :=
  if e_open e <? 0 then None
  else tty ← e_getattr e; if e_setattr e then Some tty else None.

(** The last line of output: what was received, if anything. *)
Definition received (e : uart_env) : bytes :=
  match e_read e with
  | Some (b :: l) => bs "Received: " ++ cstr (b :: l)
  | _ => []
  end.

Definition uart_out (e : uart_env) : bytes :=
  format (separator "UART demo1: send and receive data") ++
  match ready e with Some _ => bs "Sent: " ++ msg ++ received e | None => [] end.

(** The call reported on stderr: the first that failed, the read also when it
    found the end of file. *)
Definition complaint (e : uart_env) : option string :=
  if e_open e <? 0 then Some "open uart"
  else match e_getattr e with
       | None => Some "tcgetattr"
       | Some _ =>
           if negb (e_setattr e) then Some "tcsetattr"
           else match e_read e with Some (_ :: _) => None | _ => Some "read uart" end
       end.

Definition uart_err (e : uart_env) : bytes :=
  match complaint e with
  | Some what => format [FLit what; FLit ": "; FRaw (e_strerror e); FRaw [x0a]]
  | None => []
  end.

(** The line afterwards. *)
Definition uart_line (e : uart_env) (u : uart) : uart :=
  match ready e with
  | Some tty => mk_uart (Some (configure tty)) (written u ++ takeZ (e_write e) msg)
  | None => u
  end.

(** The state afterwards: the descriptors as before. *)
Definition uart_after (e : uart_env) (p : proc uart) : proc uart :=
  mk_proc (fdt p) (stdout p ++ uart_out e) (stderr p ++ uart_err e) (faults p)
    (uart_line e (ext p)).

Lemma opened_closed (t : gmap Z Z) fd fl : t !! fd = None -> delete fd (<[fd := fl]> t) = t.
Proof. apply delete_insert_id. Qed.

(** The branch of the read: its output and what it reports. *)
Lemma receive_wp e junk Q (p : proc uart) :
  lenZ junk = 256 -> (forall l, e_read e = Some l -> lenZ l <= 255) ->
  Q tt (mk_proc (fdt p) (stdout p ++ received e)
          (stderr p ++ match e_read e with
                       | Some (_ :: _) => []
                       | _ => format [FLit "read uart"; FLit ": "; FRaw (e_strerror e); FRaw [x0a]]
                       end) (faults p) (ext p)) ->
  st_wp (let n := match e_read e with Some l => lenZ l | None => -1 end in
         if 0 <? n then
           match store_bytes junk 0 (default [] (e_read e)) ≫= fun b => store_bytes b n [NUL] with
           | None => st_stuck
           | Some buf => sys_printf [FLit "Received: "; FS buf]
           end
         else perror "read uart" (e_strerror e)) Q p.
Proof.
  intros Hj Hrd HQ. unfold received in HQ. destruct (e_read e) as [[|b l]|]; cbv zeta.
  - change (0 <? lenZ []) with false. cbv iota. unfold perror, sys_eprintf. wp_step.
    by rewrite app_nil_r in HQ.
  - specialize (Hrd _ eq_refl). assert (0 < lenZ (b :: l)) by (unfold lenZ; simpl; lia).
    destruct (Z.ltb_spec 0 (lenZ (b :: l))); [|lia].
    change (default [] (Some (b :: l))) with (b :: l).
    destruct (recv_store junk (b :: l) Hj) as (buf & -> & Hc); [lia|].
    unfold sys_printf. wp_step. rewrite app_nil_r in HQ.
    assert (format [FLit "Received: "; FS buf] = bs "Received: " ++ cstr (b :: l)) as ->
      by (cbn [format fmt_piece]; by rewrite Hc, app_nil_r).
    done.
  - change (0 <? -1) with false. cbv iota. unfold perror, sys_eprintf. wp_step.
    by rewrite app_nil_r in HQ.
Qed.

Lemma uart_wp e junk p :
  uart_env_ok (fdt p) e -> lenZ junk = 256 ->
  st_wp (main e junk) (fun r p' => r = 0 /\ p' = uart_after e p) p.
Proof.
  intros [Hop Hrd] Hj. unfold main, demo_uart_send_receive, uart_after, uart_out, uart_err,
    uart_line, ready, complaint.
  wp_step. wp_step. unfold sys_printf at 1. wp_step. wp_step. apply wp_new_fd.
  { intros Hneg. change (-1 <? 0) with true. cbv iota. unfold perror, sys_eprintf. wp_step. wp_step.
    destruct (Z.ltb_spec (e_open e) 0); [|lia]. by rewrite app_nil_r. }
  intros Hpos. specialize (Hop Hpos). destruct (Z.ltb_spec (e_open e) 0); [lia|].
  cbn [with_fdt fdt stdout stderr faults ext].
  assert (Hfd : is_Some (<[e_open e := O_RDWR]> (fdt p) !! e_open e))
    by (rewrite lookup_insert_eq; eauto).
  pose proof (opened_closed (fdt p) (e_open e) O_RDWR Hop) as Hcl.
  wp_step. apply wp_on_fd; [done|]. destruct (e_getattr e) as [tty|]; cbn [mbind option_bind].
  2: { unfold perror, sys_eprintf. wp_step. wp_step. wp_step. apply wp_close; [done|].
       wp_step. wp_step. unfold with_fdt. cbn [fdt stdout stderr faults ext]. by rewrite Hcl, app_nil_r. }
  wp_step. apply wp_on_fd; [done|]. destruct (e_setattr e); cbn [negb].
  2: { unfold perror, sys_eprintf. wp_step. wp_step. wp_step. apply wp_close; [done|].
       wp_step. wp_step. unfold with_fdt. cbn [fdt stdout stderr faults ext]. by rewrite Hcl, app_nil_r. }
  unfold set_ext. wp_step. wp_step. wp_step. apply wp_on_fd; [done|]. wp_step. wp_step.
  unfold sys_printf. wp_step. wp_step. wp_step. apply wp_on_fd; [done|]. wp_step.
  apply receive_wp; [done|done|]. wp_step. apply wp_close; [done|]. wp_step. wp_step.
  unfold with_fdt. cbn [fdt stdout stderr faults ext line written]. rewrite Hcl.
  split; [done|]. f_equal.
  - change (format [FLit "Sent: "; FS msg]) with (bs "Sent: " ++ msg).
    by rewrite <- !(assoc_L (++)).
  - by destruct (e_read e) as [[]|].
Qed.

(** C30: on every path [demo_uart_send_receive] closes the port it opened and
    stays inside its buffer; what it prints is exactly its title, the message
    and the bytes received up to their first NUL, and what it reports is the
    first call that failed.  When the port can be configured it is set to 9600
    baud, 8 data bits, no parity and one stop bit with every other bit of
    [c_cflag] left as it was, and of the message is sent what the port takes. *)
Theorem uart_configured e junk p :
  uart_env_ok (fdt p) e -> lenZ junk = 256 ->
  exists p', main e junk p = Some (0, p') /\
    fdt p' = fdt p /\ faults p' = faults p /\
    stdout p' = stdout p ++ uart_out e /\ stderr p' = stderr p ++ uart_err e /\
    match ready e with
    | Some tty =>
        (exists t, line (ext p') = Some t /\ c_ispeed t = B9600 /\ c_ospeed t = B9600 /\
           c_cflag t = Z.lor (Z.ldiff (c_cflag tty) touched) (Z.lor B9600 CS8)) /\
        written (ext p') = written (ext p) ++ takeZ (e_write e) msg
    | None => ext p' = ext p
    end.
Proof.
  intros He Hj. pose proof (uart_wp e junk p He Hj) as Hw.
  apply wp_run in Hw as (r & p' & Hr & -> & ->). eexists. split; [exact Hr|].
  unfold uart_after. cbn [fdt stdout stderr faults ext]. split_and!; [done..|].
  unfold uart_line. destruct (ready e) as [tty|]; [|done]. split; [|done].
  exists (configure tty). split_and!; [done..|apply configure_cflag].
Qed.

(** ** Witness: a port that answers "OK" *)

Definition uart_good : uart_env :=
  {| e_open := 3; e_getattr := Some (mk_termios 3261 0 0); e_setattr := true; e_write := 11;
     e_read := Some (bs "OK"); e_strerror := [] |}.
Definition uart_boot : proc uart :=
  mk_proc {[ 0 := O_RDWR; 1 := O_RDWR; 2 := O_RDWR ]} [] [] 0%nat (mk_uart None []).

Lemma uart_configured_witness :
  exists p', main uart_good (replicate 256 xff) uart_boot = Some (0, p') /\
    written (ext p') = bs "Hello UART" ++ [x0a] /\ fdt p' = fdt uart_boot.
Proof.
  destruct (uart_configured uart_good (replicate 256 xff) uart_boot)
    as (p' & Hr & Hf & _ & _ & _ & _ & Hw).
  - split; [done|]. intros l [= <-]. by vm_compute.
  - reflexivity.
  - exists p'. split; [exact Hr|]. split; [exact Hw|exact Hf].
Defined.

(** The text for a port whose read finds the end of file: no call has failed,
    yet an error is reported. *)
Example uart_eof_reported :
  let e := {| e_open := 3; e_getattr := Some (mk_termios 0 0 0); e_setattr := true; e_write := 11;
              e_read := Some []; e_strerror := bs "Success" |} in
  (fun r => stderr r.2) <$> main e (replicate 256 xff) uart_boot
  = Some (bs "read uart: Success" ++ [x0a]).
Proof. vm_compute. reflexivity. Qed.
