(* ===== verification/Gpio.v ===== *)
(** * The GPIO and watchdog demos

    src/15_gpio/gpio_demo.c: [demo_toggle_gpio], [demo_gpio_events],
    [watchdog_demo] and [main].  libgpiod and the watchdog driver are not part
    of the program: what their calls answered is an input, and what the
    program must keep in order (chip and line handles, the bytes written to
    the watchdog) is the state. *)

From S2P Require Import Prelude CLib Sys.

Local Open Scope Z_scope.

Record gpio := mk_gpio {
  chips : nat;               (* open chip handles *)
  requested : bool;          (* line 17 is requested *)
  values : list Z;           (* values driven on it *)
  watchdog : bytes;          (* bytes written to /dev/watchdog *)
}.
Definition P := proc gpio.

Definition chip_open (ok : bool) : ST P bool :=
  (if ok then set_ext (fun g => mk_gpio (S (chips g)) (requested g) (values g) (watchdog g))
   else mret tt) ;; mret ok.
(** Closing a chip releases its lines; without an open chip it is a fault. *)
Definition chip_close : ST P unit :=
  p ← st_get;
  match chips (ext p) with
  | O => fault
  | S n => set_ext (fun g => mk_gpio n false (values g) (watchdog g))
  end.
(** [gpiod_line_request_output] drives the line at once, with the value [v] it
    is given; a request for events drives nothing. *)
Definition line_request (ok : bool) (v : list Z) : ST P unit :=
  if ok then set_ext (fun g => mk_gpio (chips g) true (values g ++ v) (watchdog g)) else mret tt.
Definition line_release : ST P unit :=
  set_ext (fun g => mk_gpio (chips g) false (values g) (watchdog g)).
(** Setting a value has an effect only on a requested line. *)
Definition set_value (v : Z) : ST P unit :=
  set_ext (fun g => if requested g
                    then mk_gpio (chips g) (requested g) (values g ++ [v]) (watchdog g) else g).

Record gpio_env := {
  e_chip : bool;
  e_line : bool;
  e_request : bool;
  e_strerror : bytes;
}.

(** The [for] loop of the toggle demo, [k] iterations from [i]. *)
Fixpoint toggle (k : nat) (i : Z) : ST P unit :=
  match k with
  | O => mret tt
  | S k =>
      set_value (i mod 2) ;;
      sys_printf [FLit "Set GPIO 17 to "; FD (i mod 2); FRaw [x0a]] ;;
      toggle k (i + 1)
  end.

Definition demo_toggle_gpio (e : gpio_env) : ST P unit :=
  sys_printf (separator "GPIO demo1: toggle GPIO 17 (BCM numbering) every second") ;;
  ok ← chip_open (e_chip e);
  if negb ok then perror "gpiod_chip_open" (e_strerror e)
  else if negb (e_line e) then perror "gpiod_chip_get_line" (e_strerror e) ;; chip_close
  else
  line_request (e_request e) [0] ;;
  toggle 4 0 ;;
  line_release ;;
  chip_close.

(** One return of [gpiod_line_event_wait]: its result, and what [event] holds
    after [gpiod_line_event_read], whose result the program ignores: rising or
    not, seconds and nanoseconds. *)
Record edge := { g_ret : Z; g_rising : bool; g_sec : Z; g_nsec : Z }.

(** [%09ld]: padded with zeros to nine characters. *)
Definition pad9 (n : Z) : bytes := replicate (9 - length (itoa n)) x30 ++ itoa n.

Definition on_edge (g : edge) : ST P unit :=
  if g_ret g =? 1 then
    if g_rising g
    then sys_printf [FLit "Rising edge at "; FD (g_sec g); FLit "."; FRaw (pad9 (g_nsec g)); FRaw [x0a]]
    else sys_printf [FLit "Falling edge at "; FD (g_sec g); FLit "."; FRaw (pad9 (g_nsec g)); FRaw [x0a]]
  else mret tt.

Fixpoint edges (l : list edge) : ST P unit :=
  match l with [] => mret tt | g :: l => on_edge g ;; edges l end.

(** [Some ret] if it returns; the loop has no exit, so after any number of
    events it is still waiting. *)
Definition demo_gpio_events (e : gpio_env) (l : list edge) : ST P (option Z) :=
  sys_printf (separator "GPIO demo: wait for edges on GPIO 17 (BCM numbering)") ;;
  ok ← chip_open (e_chip e);
  if negb ok then perror "gpiod_chip_open" (e_strerror e) ;; mret (Some (-1))
  else if negb (e_line e)
  then perror "gpiod_chip_get_line" (e_strerror e) ;; chip_close ;; mret (Some (-1))
  else
  line_request (e_request e) [] ;;
  edges l ;;
  mret None.

Record wd_env := {
  e_access : Z;          (* 0 if /dev/watchdog exists *)
  e_system : Z;          (* modprobe's status *)
  e_open : Z;
  e_write : nat -> bool; (* whether the i-th write succeeds *)
  e_wd_strerror : bytes;
}.

(** [write(fd, &b, 1)], whose result is ignored. *)
Definition wd_write (fd : Z) (b : byte) (taken : bool) : ST P unit :=
  ok ← on_fd fd false taken;
  if ok : bool
  then set_ext (fun g => mk_gpio (chips g) (requested g) (values g) (watchdog g ++ [b]))
  else mret tt.

(** The [for] loop of the watchdog demo, [k] iterations from [i]. *)
Fixpoint kick (fd : Z) (w : wd_env) (k i : nat) : ST P unit :=
  match k with
  | O => mret tt
  | S k =>
      wd_write fd x00 (e_write w i) ;;
      sys_printf [FLit "Kicked the watchdog"; FRaw [x0a]] ;;
      kick fd w k (S i)
  end.

Definition watchdog_demo (w : wd_env) : ST P unit :=
  if negb (e_access w =? 0) && negb (e_system w =? 0)
  then sys_eprintf [FLit "failed to load softdog module"; FRaw [x0a]]
  else
  fd ← new_fd (e_open w) 1;
  if fd =? -1 then perror "open" (e_wd_strerror w)
  else
  sys_printf [FLit "Watchdog demo: if you kill the process within 5s, system will reboot after 10s";
              FRaw [x0a]] ;;
  kick fd w 5 0 ;;
  wd_write fd x56 (e_write w 5) ;;
  close fd ;;
  mret tt.

Definition main (e1 : gpio_env) (w : wd_env) (e2 : gpio_env) (l : list edge) : ST P (option Z) :=
  demo_toggle_gpio e1 ;;
  watchdog_demo w ;;
  r ← demo_gpio_events e2 l;
  match r with Some _ => mret (Some 0) | None => mret None end.

(** ** Specifications *)

(** [p] with more output and another device state. *)
Definition after (p : P) (o er : bytes) (g : gpio) : P :=
  mk_proc (fdt p) (stdout p ++ o) (stderr p ++ er) (faults p) g.

Definition perror_text (what : string) (text : bytes) : bytes :=
  format [FLit what; FLit ": "; FRaw text; FRaw [x0a]].

(** Run a call whose outcome is known by evaluation. *)
Ltac run_call := erewrite st_bind_run by reflexivity; cbn [negb].

(** What a demo reports when the chip or the line cannot be had. *)
Definition chip_err (e : gpio_env) : bytes :=
  if negb (e_chip e) then perror_text "gpiod_chip_open" (e_strerror e)
  else if negb (e_line e) then perror_text "gpiod_chip_get_line" (e_strerror e) else [].

(** The values of [k] iterations of the toggle loop from [i]. *)
Fixpoint parity (k : nat) (i : Z) : list Z :=
  match k with O => [] | S k => i mod 2 :: parity k (i + 1) end.
Definition value_lines (l : list Z) : bytes :=
  concat ((fun v => format [FLit "Set GPIO 17 to "; FD v; FRaw [x0a]]) <$> l).

Lemma toggle_run k i (p : P) :
  toggle k i p = Some (tt, mk_proc (fdt p) (stdout p ++ value_lines (parity k i)) (stderr p) (faults p)
    (mk_gpio (chips (ext p)) (requested (ext p))
       (values (ext p) ++ if requested (ext p) then parity k i else []) (watchdog (ext p)))).
Proof.
  revert i p. induction k as [|k IH]; intros i [t o er f [c [] vs wd]]; cbn [toggle parity].
  1,2: cbn; by rewrite ?app_nil_r.
  all: erewrite st_bind_run by reflexivity; erewrite st_bind_run by reflexivity; rewrite IH;
    cbn [fdt stdout stderr faults ext chips requested values watchdog];
    by rewrite <- ?(assoc_L (++)).
Qed.

(** The value of the request, then the four of the loop. *)
Definition toggled (e : gpio_env) : list Z :=
  if e_chip e && e_line e && e_request e then [0; 0; 1; 0; 1] else [].

Definition toggle_out (e : gpio_env) : bytes :=
  format (separator "GPIO demo1: toggle GPIO 17 (BCM numbering) every second") ++
  if e_chip e && e_line e then value_lines [0; 1; 0; 1] else [].

Lemma toggle_wp e p :
  requested (ext p) = false -> chips (ext p) = 0%nat ->
  demo_toggle_gpio e p = Some (tt, after p (toggle_out e) (chip_err e)
    (mk_gpio 0 false (values (ext p) ++ toggled e) (watchdog (ext p)))).
Proof.
  intros Hr Hc. destruct p as [t o er f [c r vs wd]]. simpl in Hr, Hc. subst.
  unfold demo_toggle_gpio, toggled, toggle_out, chip_err, after, chip_open, line_request.
  destruct e as [[] [] [] s]; cbn [e_chip e_line e_request andb negb].
  1,2: do 3 run_call; erewrite st_bind_run by apply toggle_run;
    change (parity 4 0) with [0; 1; 0; 1];
    cbn [fdt stdout stderr faults ext chips requested values watchdog];
    by rewrite ?app_nil_r, <- !(assoc_L (++)).
  all: by rewrite !app_nil_r.
Qed.

(** The bytes the watchdog takes: of five kicks, and of the magic character
    that disarms the timer before the close, those whose write succeeds. *)
Definition wd_up (w : wd_env) : bool :=
  (e_access w =? 0) || (e_system w =? 0).
Definition kicks (w : wd_env) (k i : nat) : bytes :=
  concat ((fun j => if e_write w j then [x00] else []) <$> seq i k).
Definition wd_bytes (w : wd_env) : bytes :=
  if wd_up w && (0 <=? e_open w)
  then kicks w 5 0 ++ if e_write w 5 then [x56] else [] else [].

Definition wd_out (w : wd_env) : bytes :=
  if wd_up w && (0 <=? e_open w)
  then format [FLit "Watchdog demo: if you kill the process within 5s, system will reboot after 10s";
               FRaw [x0a]] ++
       concat (replicate 5 (format [FLit "Kicked the watchdog"; FRaw [x0a]]))
  else [].

Definition wd_err (w : wd_env) : bytes :=
  if wd_up w then if 0 <=? e_open w then [] else perror_text "open" (e_wd_strerror w)
  else format [FLit "failed to load softdog module"; FRaw [x0a]].

Lemma wd_write_run fd b taken (p : P) :
  is_Some (fdt p !! fd) ->
  wd_write fd b taken p = Some (tt, mk_proc (fdt p) (stdout p) (stderr p) (faults p)
    (mk_gpio (chips (ext p)) (requested (ext p)) (values (ext p))
             (watchdog (ext p) ++ if taken then [b] else []))).
Proof.
  intros [fl H]. unfold wd_write, on_fd, mbind, ST_bind, st_get. rewrite H.
  destruct p as [t o er f [c r vs wd]], taken; [done|]. simpl. by rewrite app_nil_r.
Qed.

Lemma kick_run fd w k i (p : P) :
  is_Some (fdt p !! fd) ->
  kick fd w k i p = Some (tt, mk_proc (fdt p)
    (stdout p ++ concat (replicate k (format [FLit "Kicked the watchdog"; FRaw [x0a]])))
    (stderr p) (faults p)
    (mk_gpio (chips (ext p)) (requested (ext p)) (values (ext p)) (watchdog (ext p) ++ kicks w k i))).
Proof.
  revert i p. induction k as [|k IH]; intros i p Hf; cbn [kick].
  - destruct p as [t o er f [c r vs wd]]. cbn. by rewrite !app_nil_r.
  - rewrite (st_bind_run _ _ _ _ _ (wd_write_run fd x00 (e_write w i) p Hf)).
    erewrite st_bind_run by reflexivity. rewrite IH by done.
    cbn [fdt stdout stderr faults ext chips requested values watchdog].
    by rewrite <- !(assoc_L (++)).
Qed.

Lemma watchdog_wp w p :
  (0 <= e_open w -> fdt p !! e_open w = None) ->
  watchdog_demo w p = Some (tt, after p (wd_out w) (wd_err w)
    (mk_gpio (chips (ext p)) (requested (ext p)) (values (ext p))
             (watchdog (ext p) ++ wd_bytes w))).
Proof.
  intros Hf. unfold watchdog_demo, wd_bytes, wd_out, wd_err, after.
  replace (negb (e_access w =? 0) && negb (e_system w =? 0)) with (negb (wd_up w))
    by (unfold wd_up; by destruct (e_access w =? 0), (e_system w =? 0)).
  destruct (wd_up w); cbn [negb andb].
  2: { rewrite !app_nil_r. by destruct p as [? ? ? ? []]. }
  unfold new_fd. destruct (Z.ltb_spec (e_open w) 0), (Z.leb_spec 0 (e_open w)); try lia.
  { rewrite !app_nil_r. by destruct p as [? ? ? ? []]. }
  specialize (Hf ltac:(done)). erewrite st_bind_run by reflexivity.
  destruct (Z.eqb_spec (e_open w) (-1)); [lia|].
  erewrite st_bind_run by reflexivity.
  assert (Hop : is_Some (<[e_open w := 1]> (fdt p) !! e_open w)) by (rewrite lookup_insert_eq; eauto).
  erewrite st_bind_run by (by apply kick_run). erewrite st_bind_run by (by apply wd_write_run).
  unfold close, mbind, ST_bind, st_get, set_fdt, st_modify. cbn [fdt stdout stderr faults ext].
  destruct Hop as [fl ->]. cbn [fdt stdout stderr faults ext chips requested values watchdog].
  rewrite delete_insert_id by done. rewrite app_nil_r. by rewrite <- !(assoc_L (++)).
Qed.

(** The line printed for an event; none for a failed or timed-out wait. *)
Definition edge_text (g : edge) : bytes :=
  if g_ret g =? 1
  then format [FLit (if g_rising g then "Rising edge at " else "Falling edge at ");
               FD (g_sec g); FLit "."; FRaw (pad9 (g_nsec g)); FRaw [x0a]]
  else [].

Lemma edges_run l p :
  edges l p = Some (tt, mk_proc (fdt p) (stdout p ++ concat (edge_text <$> l)) (stderr p) (faults p) (ext p)).
Proof.
  revert p. induction l as [|g l IH]; intros p; cbn [edges].
  - simpl. rewrite app_nil_r. by destruct p.
  - erewrite st_bind_run.
    2: { instantiate (1 := mk_proc (fdt p) (stdout p ++ edge_text g) (stderr p) (faults p) (ext p)).
         instantiate (1 := tt). unfold on_edge, edge_text.
         destruct (g_ret g =? 1); [by destruct (g_rising g)|]. rewrite app_nil_r. by destruct p. }
    rewrite IH. cbn [fdt stdout stderr faults ext]. rewrite <- (assoc_L (++)). done.
Qed.

(** The demo waits for ever, with the chip open, once it has the line. *)
Definition waits (e : gpio_env) : bool := e_chip e && e_line e.

Definition events_out (e : gpio_env) (l : list edge) : bytes :=
  format (separator "GPIO demo: wait for edges on GPIO 17 (BCM numbering)") ++
  if waits e then concat (edge_text <$> l) else [].

Lemma events_wp e l p :
  chips (ext p) = 0%nat -> requested (ext p) = false ->
  demo_gpio_events e l p = Some (if waits e then None else Some (-1),
    after p (events_out e l) (chip_err e)
      (mk_gpio (if waits e then 1 else 0) (waits e && e_request e)
               (values (ext p)) (watchdog (ext p)))).
Proof.
  intros Hc Hr. destruct p as [t o er f [c r vs wd]]. simpl in Hc, Hr. subst.
  unfold demo_gpio_events, waits, events_out, chip_err, after, chip_open, line_request.
  destruct e as [[] [] [] s]; cbn [e_chip e_line e_request andb negb waits].
  1,2: do 3 run_call; erewrite st_bind_run by apply edges_run;
    cbn [fdt stdout stderr faults ext]; by rewrite !app_nil_r, <- (assoc_L (++)).
  all: by rewrite app_nil_r.
Qed.

(** C31: on every path each chip handle and descriptor the demos opened is
    closed exactly once, except the chip the event loop waits on for ever;
    when the line can be requested it is driven 0 by the request and then
    0, 1, 0, 1; a watchdog that
    can be opened is kicked five times and sent 'V' before the close, which is
    what it takes unless a write fails; and the output is exact: each failed
    call is reported, each value, kick and edge is printed once, in order. *)
Theorem gpio_main e1 w e2 l p :
  ext p = mk_gpio 0 false [] [] -> (0 <= e_open w -> fdt p !! e_open w = None) ->
  exists p', main e1 w e2 l p = Some (if waits e2 then None else Some 0, p') /\
    fdt p' = fdt p /\ faults p' = faults p /\
    values (ext p') = toggled e1 /\ watchdog (ext p') = wd_bytes w /\
    chips (ext p') = (if waits e2 then 1%nat else 0%nat) /\
    stdout p' = stdout p ++ toggle_out e1 ++ wd_out w ++ events_out e2 l /\
    stderr p' = stderr p ++ chip_err e1 ++ wd_err w ++ chip_err e2.
Proof.
  intros Hx Hf. unfold main.
  erewrite st_bind_run by (apply toggle_wp; by rewrite Hx).
  erewrite st_bind_run by (by apply watchdog_wp).
  erewrite st_bind_run by (by apply events_wp).
  rewrite Hx. destruct (waits e2); (eexists; split; [reflexivity|]);
    cbn [after fdt stdout stderr faults ext chips values watchdog];
    by rewrite <- !(assoc_L (++)).
Qed.

(** ** Witness *)

Definition board : gpio_env := {| e_chip := true; e_line := true; e_request := true; e_strerror := [] |}.
Definition softdog : wd_env :=
  {| e_access := -1; e_system := 0; e_open := 3; e_write := fun _ => true; e_wd_strerror := [] |}.
Definition gpio_boot : P :=
  mk_proc {[ 0 := O_RDWR; 1 := O_RDWR; 2 := O_RDWR ]} [] [] 0%nat (mk_gpio 0 false [] []).

Lemma gpio_main_witness :
  exists p', main board softdog board [ {| g_ret := 1; g_rising := true; g_sec := 7; g_nsec := 42 |} ] gpio_boot
             = Some (None, p') /\
    values (ext p') = [0; 0; 1; 0; 1] /\ watchdog (ext p') = [x00; x00; x00; x00; x00; x56].
Proof.
  destruct (gpio_main board softdog board [ {| g_ret := 1; g_rising := true; g_sec := 7; g_nsec := 42 |} ]
              gpio_boot) as (p' & Hr & _ & _ & Hv & Hw & _);
    [reflexivity|reflexivity|].
  exists p'. split; [exact Hr|]. split; [exact Hv|exact Hw].
Defined.
