(* ===== verification/Files.v ===== *)
(** * Files, pipes and epoll instances of one process

    The part of the kernel the single-process I/O demos (src/06_file_io, the
    self-pipe of src/04_signals, the file mapping of src/05_memory) talk to:
    descriptors with their open file description, inodes and directory
    entries, pipes with their capacity, epoll instances with their interest
    and ready lists.  As POSIX says, a new descriptor is the lowest number
    that is free; a call on a descriptor that is not open fails with EBADF
    and is counted in [kfaults].  A call that would block has nobody to wake
    it here, so it is stuck ([None]).  The disk is not full: a write to a
    regular file takes all its bytes.  [kext] is the program's own state. *)

From S2P Require Import Prelude CLib.

Local Open Scope Z_scope.

Inductive obj :=
| OFile (ino : Z)
| OPipeR (p : Z)
| OPipeW (p : Z)
| OEpoll (e : Z)
| OOther.              (* terminals, signalfd and the like *)
#[export] Instance obj_eq_dec : EqDecision obj.
Proof. solve_decision. Defined.

Inductive access := RDONLY | WRONLY | RDWR.
#[export] Instance access_eq_dec : EqDecision access.
Proof. solve_decision. Defined.

Record ofile := mk_ofile { o_obj : obj; o_acc : access; o_nonblock : bool; o_off : Z }.

(** An entry of an interest list: the descriptor registered (its [data.fd])
    and whether it is edge-triggered. *)
Record interest := mk_interest { i_fd : Z; i_obj : obj; i_et : bool }.
Record epoll := mk_epoll { ep_set : list interest; ep_ready : list interest }.

Record kproc (X : Type) := mk_kproc {
  kfds : gmap Z ofile;
  inodes : gmap Z bytes;
  names : gmap string Z;
  pipes : gmap Z bytes;
  epolls : gmap Z epoll;
  kout : bytes;
  kerr : bytes;
  kfaults : nat;
  kext : X;
}.
Arguments mk_kproc {X}.
Arguments kfds {X}.
Arguments inodes {X}.
Arguments names {X}.
Arguments pipes {X}.
Arguments epolls {X}.
Arguments kout {X}.
Arguments kerr {X}.
Arguments kfaults {X}.
Arguments kext {X}.

(** The least non-negative integer that is not a key of [t]. *)
Fixpoint free_from {V} (t : gmap Z V) (n : nat) (i : Z) : Z :=
  match n with
  | O => i
  | S n => match t !! i with Some _ => free_from t n (i + 1) | None => i end
  end.
Definition lowest {V} (t : gmap Z V) : Z := free_from t (size t) 0.

Definition PIPE_SIZE : Z := 65536.

Section calls.
Context {X : Type}.
Implicit Types (p : kproc X) (fd : Z).

(** ** Field updates *)

Definition with_fds t p : kproc X :=
  mk_kproc t (inodes p) (names p) (pipes p) (epolls p) (kout p) (kerr p) (kfaults p) (kext p).
Definition with_inodes i p : kproc X :=
  mk_kproc (kfds p) i (names p) (pipes p) (epolls p) (kout p) (kerr p) (kfaults p) (kext p).
Definition with_names n p : kproc X :=
  mk_kproc (kfds p) (inodes p) n (pipes p) (epolls p) (kout p) (kerr p) (kfaults p) (kext p).
Definition with_pipes q p : kproc X :=
  mk_kproc (kfds p) (inodes p) (names p) q (epolls p) (kout p) (kerr p) (kfaults p) (kext p).
Definition with_epolls e p : kproc X :=
  mk_kproc (kfds p) (inodes p) (names p) (pipes p) e (kout p) (kerr p) (kfaults p) (kext p).
Definition with_io o e f p : kproc X :=
  mk_kproc (kfds p) (inodes p) (names p) (pipes p) (epolls p) o e f (kext p).
Definition with_kext x p : kproc X :=
  mk_kproc (kfds p) (inodes p) (names p) (pipes p) (epolls p) (kout p) (kerr p) (kfaults p) x.

Definition kprintf (f : list fmt) : ST (kproc X) unit :=
  st_modify (fun p => with_io (kout p ++ format f) (kerr p) (kfaults p) p).
Definition kperror (what : string) (msg : bytes) : ST (kproc X) unit :=
  st_modify (fun p => with_io (kout p)
    (kerr p ++ format [FLit what; FLit ": "; FRaw msg; FRaw [x0a]]) (kfaults p) p).
Definition kfault : ST (kproc X) unit :=
  st_modify (fun p => with_io (kout p) (kerr p) (S (kfaults p)) p).

(** ** Descriptors *)

Definition install (f : ofile) : ST (kproc X) Z :=
  p ← st_get;
  let fd := lowest (kfds p) in
  st_modify (with_fds (<[fd := f]> (kfds p))) ;; mret fd.

(** The open file description behind [fd], or EBADF. *)
Definition getf fd : ST (kproc X) (option ofile) :=
  p ← st_get;
  match kfds p !! fd with
  | Some f => mret (Some f)
  | None => kfault ;; mret None
  end.

Definition kclose fd : ST (kproc X) Z :=
  f ← getf fd;
  match f with
  | Some _ => p ← st_get; st_modify (with_fds (delete fd (kfds p))) ;; mret 0
  | None => mret (-1)
  end.

(** [fcntl(fd, F_SETFL, flags)] with or without O_NONBLOCK. *)
Definition set_nonblock fd (nb : bool) : ST (kproc X) Z :=
  f ← getf fd;
  match f with
  | Some f => p ← st_get;
      st_modify (with_fds (<[fd := mk_ofile (o_obj f) (o_acc f) nb (o_off f)]> (kfds p))) ;; mret 0
  | None => mret (-1)
  end.

Definition set_off fd (f : ofile) (off : Z) : ST (kproc X) unit :=
  p ← st_get;
  st_modify (with_fds (<[fd := mk_ofile (o_obj f) (o_acc f) (o_nonblock f) off]> (kfds p))).

(** ** Regular files *)

(** [open(path, flags)]; [ok] is false when the call fails for a reason
    outside the process (permissions, no space, too many files). *)
Definition kopen (path : string) (creat trunc : bool) (acc : access) (ok : bool) : ST (kproc X) Z :=
  if negb ok then mret (-1)
  else
  p ← st_get;
  match names p !! path with
  | Some ino =>
      (if trunc then st_modify (with_inodes (<[ino := []]> (inodes p))) else mret tt) ;;
      install (mk_ofile (OFile ino) acc false 0)
  | None =>
      if creat then
        let ino := lowest (inodes p) in
        st_modify (with_inodes (<[ino := []]> (inodes p))) ;;
        st_modify (with_names (<[path := ino]> (names p))) ;;
        install (mk_ofile (OFile ino) acc false 0)
      else mret (-1)
  end.

Definition kunlink (path : string) : ST (kproc X) Z :=
  p ← st_get;
  match names p !! path with
  | Some _ => st_modify (with_names (delete path (names p))) ;; mret 0
  | None => mret (-1)
  end.

Definition contents p (ino : Z) : bytes := default [] (inodes p !! ino).

(** The file [c] after [l] has been written at [off]: a gap reads as zeros. *)
Definition pwritten (c : bytes) (off : Z) (l : bytes) : bytes :=
  takeZ off (c ++ replicate (Z.to_nat (off - lenZ c)) NUL) ++ l ++ dropZ (off + lenZ l) c.

Definition file_write (ino off : Z) (l : bytes) : ST (kproc X) unit :=
  p ← st_get;
  st_modify (with_inodes (<[ino := pwritten (contents p ino) off l]> (inodes p))).

Definition file_read p (ino off n : Z) : bytes := takeZ n (dropZ off (contents p ino)).

Inductive whence := SEEK_SET | SEEK_END.
Definition klseek fd (off : Z) (w : whence) : ST (kproc X) Z :=
  f ← getf fd;
  match f with
  | Some f => p ← st_get;
      match o_obj f with
      | OFile ino =>
          let pos := match w with SEEK_SET => off | SEEK_END => lenZ (contents p ino) + off end in
          if pos <? 0 then mret (-1) else set_off fd f pos ;; mret pos
      | _ => mret (-1)
      end
  | None => mret (-1)
  end.

(** [fstat]: the size, or [None] when it fails and fills in nothing. *)
Definition kfstat fd : ST (kproc X) (option Z) :=
  f ← getf fd;
  match f with
  | Some f => p ← st_get;
      mret (match o_obj f with OFile ino => Some (lenZ (contents p ino)) | _ => Some 0 end)
  | None => mret None
  end.

(** ** Pipes *)

Definition kpipe (ok : bool) : ST (kproc X) (option (Z * Z)) :=
  if negb ok then mret None
  else
  p ← st_get;
  let id := lowest (pipes p) in
  st_modify (with_pipes (<[id := []]> (pipes p))) ;;
  r ← install (mk_ofile (OPipeR id) RDONLY false 0);
  w ← install (mk_ofile (OPipeW id) WRONLY false 0);
  mret (Some (r, w)).

Definition pipe_buf p (id : Z) : bytes := default [] (pipes p !! id).
Definition is_open (o : obj) p : bool :=
  bool_decide (Exists (fun f => o_obj f.2 = o) (map_to_list (kfds p))).

(** Data arriving in a pipe is an edge: every entry watching its read end
    goes to the ready list of its epoll instance, once. *)
Definition ep_wake (o : obj) (e : epoll) : epoll :=
  mk_epoll (ep_set e)
    (ep_ready e ++ filter (fun i => i_obj i = o /\ i_fd i ∉ (i_fd <$> ep_ready e)) (ep_set e)).

Definition pipe_write (id : Z) (nonblock : bool) (l : bytes) : ST (kproc X) Z :=
  p ← st_get;
  if negb (is_open (OPipeR id) p) then st_stuck        (* SIGPIPE *)
  else if PIPE_SIZE <? lenZ (pipe_buf p id) + lenZ l
  then if nonblock then mret (-1) else st_stuck
  else
  st_modify (with_pipes (<[id := pipe_buf p id ++ l]> (pipes p))) ;;
  st_modify (with_epolls (ep_wake (OPipeR id) <$> epolls p)) ;;
  mret (lenZ l).

(** ** [write] and [read] *)

Definition kwrite fd (l : bytes) : ST (kproc X) Z :=
  f ← getf fd;
  match f with
  | None => mret (-1)
  | Some f =>
      if decide (o_acc f = RDONLY) then mret (-1)
      else
      match o_obj f with
      | OFile ino => file_write ino (o_off f) l ;; set_off fd f (o_off f + lenZ l) ;; mret (lenZ l)
      | OPipeW id => pipe_write id (o_nonblock f) l
      | OOther => st_modify (fun p => with_io (kout p ++ l) (kerr p) (kfaults p) p) ;; mret (lenZ l)
      | _ => mret (-1)
      end
  end.

(** The bytes stored at the caller's buffer; [None] is a result of -1. *)
Definition kread fd (n : Z) : ST (kproc X) (option bytes) :=
  f ← getf fd;
  match f with
  | None => mret None
  | Some f =>
      if decide (o_acc f = WRONLY) then mret None
      else
      p ← st_get;
      match o_obj f with
      | OFile ino =>
          let l := file_read p ino (o_off f) n in
          set_off fd f (o_off f + lenZ l) ;; mret (Some l)
      | OPipeR id =>
          if decide (pipe_buf p id = [])
          then if negb (is_open (OPipeW id) p) then mret (Some [])
               else if o_nonblock f then mret None else st_stuck
          else
          st_modify (with_pipes (<[id := dropZ n (pipe_buf p id)]> (pipes p))) ;;
          mret (Some (takeZ n (pipe_buf p id)))
      | _ => mret None
      end
  end.

(** [writev] writes the buffers as one; [readv] fills buffers of the lengths
    given one after the other. *)
Definition kwritev fd (iov : list bytes) : ST (kproc X) Z := kwrite fd (concat iov).

Fixpoint scatter (lens : list Z) (l : bytes) : list bytes :=
  match lens with
  | [] => []
  | n :: lens => takeZ n l :: scatter lens (dropZ n l)
  end.
Definition kreadv fd (lens : list Z) : ST (kproc X) (option (list bytes)) :=
  r ← kread fd (foldr Z.add 0 lens);
  mret (scatter lens <$> r).

(** [sendfile(dst, src, &off, n)]: the bytes at [off] of [src], whose own
    offset stays, are written to [dst].  The result and the new [off]. *)
Definition ksendfile dst src (off n : Z) : ST (kproc X) (Z * Z) :=
  s ← getf src;
  match s with
  | Some s => p ← st_get;
      match o_obj s with
      | OFile ino =>
          r ← kwrite dst (file_read p ino off n);
          mret (if r <? 0 then (-1, off) else (r, off + r))
      | _ => mret (-1, off)
      end
  | None => mret (-1, off)
  end.

(** ** Readiness *)

(** A read on [o] would not block. *)
Definition readable p (o : obj) : bool :=
  match o with
  | OPipeR id => negb (bool_decide (pipe_buf p id = [])) || negb (is_open (OPipeW id) p)
  | _ => true
  end.

(** [select] on one read descriptor: its result, the descriptors left in the
    set, and the time left; [failed] when it is interrupted.  Nobody else
    writes, so a descriptor that is not ready stays so until the timeout. *)
Definition kselect fd (usec : Z) (failed : bool) : ST (kproc X) (Z * bool * Z) :=
  f ← getf fd;
  match f with
  | None => mret (-1, true, usec)
  | Some f => p ← st_get;
      mret (if failed then (-1, true, usec)
            else if readable p (o_obj f) then (1, true, usec) else (0, false, 0))
  end.

Definition kepoll_create (ok : bool) : ST (kproc X) Z :=
  if negb ok then mret (-1)
  else
  p ← st_get;
  let id := lowest (epolls p) in
  st_modify (with_epolls (<[id := mk_epoll [] []]> (epolls p))) ;;
  install (mk_ofile (OEpoll id) RDWR false 0).

Definition on_epoll {A} epfd (bad : A) (k : Z -> epoll -> ST (kproc X) A) : ST (kproc X) A :=
  f ← getf epfd;
  match f with
  | Some f =>
      match o_obj f with
      | OEpoll id => p ← st_get; k id (default (mk_epoll [] []) (epolls p !! id))
      | _ => mret bad
      end
  | None => mret bad
  end.

(** [epoll_ctl(epfd, EPOLL_CTL_ADD, fd, EPOLLIN [| EPOLLET])] *)
Definition kepoll_add epfd fd (et : bool) : ST (kproc X) Z :=
  on_epoll epfd (-1) (fun id e =>
    f ← getf fd;
    match f with
    | None => mret (-1)
    | Some f =>
        if decide (fd ∈ (i_fd <$> ep_set e)) then mret (-1)   (* EEXIST *)
        else
        p ← st_get;
        let i := mk_interest fd (o_obj f) et in
        let ready := if readable p (o_obj f) then ep_ready e ++ [i] else ep_ready e in
        st_modify (with_epolls (<[id := mk_epoll (ep_set e ++ [i]) ready]> (epolls p))) ;; mret 0
    end).

(** [epoll_wait]: the descriptors of the ready entries that are readable, at
    most [max] of them in the order they became ready; edge-triggered entries
    leave the ready list, level-triggered ones go to its end.  With nothing
    ready it returns 0 after the timeout. *)
Definition kepoll_wait epfd (max : nat) : ST (kproc X) (option (list Z)) :=
  on_epoll epfd None (fun id e =>
    p ← st_get;
    let live := filter (fun i => readable p (i_obj i) = true) (ep_ready e) in
    let now := take max live in
    let stay := filter (fun i => i_et i = false) now in
    st_modify (with_epolls (<[id := mk_epoll (ep_set e) (drop max live ++ stay)]> (epolls p))) ;;
    mret (Some (i_fd <$> now))).

End calls.

(** ** The lowest free number *)

Lemma free_from_spec {V} (t : gmap Z V) n i :
  t !! free_from t n i = None \/
  free_from t n i = i + Z.of_nat n /\ forall j, i <= j < i + Z.of_nat n -> is_Some (t !! j).
Proof.
  revert i. induction n as [|n IH]; intros i; cbn [free_from].
  - right. split; [lia|]. intros; lia.
  - destruct (t !! i) as [v|] eqn:E; [|by left].
    destruct (IH (i + 1)) as [H|[H1 H2]]; [by left|right]. split; [lia|].
    intros j Hj. destruct (decide (j = i)) as [->|]; [by exists v|]. apply H2. lia.
Qed.

Lemma free_from_ge {V} (t : gmap Z V) n i : i <= free_from t n i.
Proof.
  revert i. induction n as [|n IH]; intros i; cbn [free_from]; [lia|].
  case_match; [|lia]. specialize (IH (i + 1)). lia.
Qed.

Lemma lowest_nonneg {V} (t : gmap Z V) : 0 <= lowest t.
Proof. apply free_from_ge. Qed.

Lemma lowest_le {V} (t : gmap Z V) : lowest t <= Z.of_nat (size t).
Proof.
  assert (H : forall n i, free_from t n i <= i + Z.of_nat n).
  { induction n as [|n IH]; intros i; cbn [free_from]; [lia|]. case_match; [|lia].
    specialize (IH (i + 1)). lia. }
  apply (H _ 0).
Qed.

(** A map with [n] keys cannot contain the [n + 1] numbers from 0 to [n]. *)
Lemma lowest_free {V} (t : gmap Z V) : t !! lowest t = None.
Proof.
  unfold lowest. destruct (free_from_spec t (size t) 0) as [H|[E H]]; [done|].
  destruct (t !! free_from t (size t) 0) as [v|] eqn:Ev; [|done]. exfalso.
  rewrite E in Ev.
  assert (Hs : list_to_set (seqZ 0 (Z.of_nat (size t) + 1)) ⊆ dom t).
  { intros j Hj. apply elem_of_list_to_set, elem_of_seqZ in Hj. apply elem_of_dom.
    destruct (decide (j = 0 + Z.of_nat (size t))) as [->|]; [by exists v|]. apply H. lia. }
  apply (subseteq_size (C := gset Z)) in Hs.
  rewrite size_list_to_set in Hs by apply NoDup_seqZ. rewrite length_seqZ, size_dom in Hs. lia.
Qed.

Lemma pwritten_end c l : pwritten c (lenZ c) l = c ++ l.
Proof.
  unfold pwritten. rewrite Z.sub_diag. cbn [Z.to_nat replicate]. rewrite app_nil_r.
  rewrite takeZ_all by lia. pose proof (lenZ_nonneg l).
  unfold dropZ. rewrite drop_ge by (unfold lenZ in *; lia). by rewrite app_nil_r.
Qed.

Lemma scatter_concat ls : scatter (lenZ <$> ls) (concat ls) = ls.
Proof.
  induction ls as [|l ls IH]; simpl; [done|]. rewrite takeZ_app_exact by done. f_equal.
  unfold dropZ, lenZ. rewrite Nat2Z.id, drop_app_length. exact IH.
Qed.

Lemma foldr_lenZ (ls : list bytes) : foldr Z.add 0 (lenZ <$> ls) = lenZ (concat ls).
Proof. induction ls as [|l ls IH]; [done|]. rewrite fmap_cons. cbn [foldr concat]. by rewrite IH, lenZ_app. Qed.

(** ** What the calls do *)

Section effects.
Context {X : Type}.
Implicit Types (p : kproc X) (fd : Z).

(** All open descriptors are non-negative, so that -1 never is one. *)
Definition fds_ok p : Prop := forall fd, is_Some (kfds p !! fd) -> 0 <= fd.

Lemma fds_ok_neg p fd : fds_ok p -> fd < 0 -> kfds p !! fd = None.
Proof.
  intros H Hn. destruct (kfds p !! fd) eqn:E; [|done]. specialize (H fd). rewrite E in H.
  assert (0 <= fd) by (apply H; eauto). lia.
Qed.

Lemma wp_kprintf f (Q : unit -> kproc X -> Prop) p :
  Q tt (with_io (kout p ++ format f) (kerr p) (kfaults p) p) -> st_wp (kprintf f) Q p.
Proof. done. Qed.

Lemma wp_kperror w m (Q : unit -> kproc X -> Prop) p :
  Q tt (with_io (kout p) (kerr p ++ format [FLit w; FLit ": "; FRaw m; FRaw [x0a]]) (kfaults p) p) ->
  st_wp (kperror w m) Q p.
Proof. done. Qed.

Lemma wp_getf fd f (Q : option ofile -> kproc X -> Prop) p :
  kfds p !! fd = Some f -> Q (Some f) p -> st_wp (getf fd) Q p.
Proof. intros H HQ. unfold getf, st_wp, mbind, ST_bind, st_get. by rewrite H. Qed.

Lemma wp_install_low f (Q : Z -> kproc X -> Prop) p :
  (forall fd, 0 <= fd <= Z.of_nat (size (kfds p)) -> kfds p !! fd = None ->
     Q fd (with_fds (<[fd := f]> (kfds p)) p)) ->
  st_wp (install f) Q p.
Proof. intros H. apply H; [split; [apply lowest_nonneg | apply lowest_le] | apply lowest_free]. Qed.

Lemma wp_install f (Q : Z -> kproc X -> Prop) p :
  (forall fd, 0 <= fd -> kfds p !! fd = None -> Q fd (with_fds (<[fd := f]> (kfds p)) p)) ->
  st_wp (install f) Q p.
Proof. intros H. apply wp_install_low. intros fd [Hfd _]. by apply H. Qed.

Lemma wp_kclose fd f (Q : Z -> kproc X -> Prop) p :
  kfds p !! fd = Some f -> Q 0 (with_fds (delete fd (kfds p)) p) -> st_wp (kclose fd) Q p.
Proof. intros H HQ. unfold kclose. apply wp_bind. by apply (wp_getf _ f). Qed.

Lemma wp_set_nonblock fd nb f (Q : Z -> kproc X -> Prop) p :
  kfds p !! fd = Some f ->
  Q 0 (with_fds (<[fd := mk_ofile (o_obj f) (o_acc f) nb (o_off f)]> (kfds p)) p) ->
  st_wp (set_nonblock fd nb) Q p.
Proof. intros H HQ. unfold set_nonblock. apply wp_bind. by apply (wp_getf _ f). Qed.

(** Opening [path] with O_CREAT uses the inode it names, or a new one. *)
Definition opens p (path : string) (ino : Z) : Prop :=
  names p !! path = Some ino \/ names p !! path = None /\ inodes p !! ino = None.

(** Every name leads to an inode. *)
Definition fs_ok p : Prop := forall path ino, names p !! path = Some ino -> is_Some (inodes p !! ino).

Lemma opens_fresh p path1 path2 ino1 ino2 :
  fs_ok p -> opens p path2 ino2 -> names p !! path1 = Some ino1 -> names p !! path2 <> Some ino1 ->
  ino2 <> ino1.
Proof. intros Hok [H|[_ H]] H1 Hne ->; [done|]. destruct (Hok _ _ H1). congruence. Qed.

(** Opening [path] does not lend the inode of another name. *)
Lemma opens_ne p path path' ino :
  fs_ok p -> opens p path ino -> (forall i, names p !! path = Some i -> names p !! path' <> Some i) ->
  names p !! path' <> Some ino.
Proof. intros Hok [H|[_ H]] Hne H'; [by eapply Hne|]. destruct (Hok _ _ H'). congruence. Qed.

Lemma fs_ok_name p p' path ino c :
  fs_ok p -> names p' = <[path := ino]> (names p) -> inodes p' = <[ino := c]> (inodes p) -> fs_ok p'.
Proof.
  intros Hok Hn Hi q j. rewrite Hn, Hi. destruct (decide (j = ino)) as [->|]; [rewrite lookup_insert_eq; eauto|].
  rewrite (lookup_insert_ne (inodes p)) by done. intros [[_ ->]|[_ Hq]]%lookup_insert_Some; [done|]. by apply (Hok q).
Qed.

Lemma fs_ok_sub p p' : fs_ok p -> names p' ⊆ names p -> dom (inodes p) ⊆ dom (inodes p') -> fs_ok p'.
Proof.
  intros Hok Hn Hi q j Hq. apply elem_of_dom, Hi, elem_of_dom. apply (Hok q). by eapply lookup_weaken.
Qed.

(** Creating or truncating a file: an empty inode under that name. *)
Lemma wp_kopen_trunc path acc (Q : Z -> kproc X -> Prop) p :
  (forall fd ino, 0 <= fd -> kfds p !! fd = None -> opens p path ino ->
     Q fd (with_fds (<[fd := mk_ofile (OFile ino) acc false 0]> (kfds p))
          (with_names (<[path := ino]> (names p)) (with_inodes (<[ino := []]> (inodes p)) p)))) ->
  st_wp (kopen path true true acc true) Q p.
Proof.
  intros HQ. unfold kopen. cbn [negb]. wp_step. wp_step.
  destruct (names p !! path) as [ino|] eqn:E.
  - wp_step. wp_step. apply wp_install. intros fd Hfd Hf.
    specialize (HQ fd ino Hfd Hf (or_introl E)). rewrite (insert_id _ _ _ E) in HQ. by destruct p.
  - wp_step. wp_step. wp_step. wp_step. apply wp_install. intros fd Hfd Hf. apply HQ; [done..|].
    right. split; [done | apply lowest_free].
Qed.

Lemma wp_kopen_existing path acc ino (Q : Z -> kproc X -> Prop) p :
  names p !! path = Some ino ->
  (forall fd, 0 <= fd -> kfds p !! fd = None ->
     Q fd (with_fds (<[fd := mk_ofile (OFile ino) acc false 0]> (kfds p)) p)) ->
  st_wp (kopen path false false acc true) Q p.
Proof.
  intros E HQ. unfold kopen. cbn [negb]. wp_step. wp_step. rewrite E. wp_step. wp_step.
  by apply wp_install.
Qed.

Lemma wp_kunlink path ino (Q : Z -> kproc X -> Prop) p :
  names p !! path = Some ino -> Q 0 (with_names (delete path (names p)) p) ->
  st_wp (kunlink path) Q p.
Proof. intros E HQ. unfold kunlink. wp_step. wp_step. rewrite E. by wp_step. Qed.

Lemma wp_kwrite_file fd ino acc nb off l (Q : Z -> kproc X -> Prop) p :
  kfds p !! fd = Some (mk_ofile (OFile ino) acc nb off) -> acc <> RDONLY ->
  Q (lenZ l) (with_fds (<[fd := mk_ofile (OFile ino) acc nb (off + lenZ l)]> (kfds p))
             (with_inodes (<[ino := pwritten (contents p ino) off l]> (inodes p)) p)) ->
  st_wp (kwrite fd l) Q p.
Proof.
  intros H Ha HQ. unfold kwrite. wp_step. apply (wp_getf _ _ _ _ H). cbn [o_acc o_obj].
  rewrite decide_False by done. exact HQ.
Qed.

Lemma wp_kread_file fd ino acc nb off n (Q : option bytes -> kproc X -> Prop) p :
  kfds p !! fd = Some (mk_ofile (OFile ino) acc nb off) -> acc <> WRONLY ->
  Q (Some (file_read p ino off n))
    (with_fds (<[fd := mk_ofile (OFile ino) acc nb (off + lenZ (file_read p ino off n))]> (kfds p)) p) ->
  st_wp (kread fd n) Q p.
Proof.
  intros H Ha HQ. unfold kread. wp_step. apply (wp_getf _ _ _ _ H). cbn [o_acc o_obj].
  rewrite decide_False by done. exact HQ.
Qed.

Lemma wp_klseek fd ino acc nb off o w (Q : Z -> kproc X -> Prop) p pos :
  kfds p !! fd = Some (mk_ofile (OFile ino) acc nb off) ->
  pos = match w with SEEK_SET => o | SEEK_END => lenZ (contents p ino) + o end -> 0 <= pos ->
  Q pos (with_fds (<[fd := mk_ofile (OFile ino) acc nb pos]> (kfds p)) p) ->
  st_wp (klseek fd o w) Q p.
Proof.
  intros H Hp H0 HQ. unfold klseek. wp_step. apply (wp_getf _ _ _ _ H). wp_step. wp_step.
  cbn [o_obj]. rewrite <- Hp. destruct (Z.ltb_spec pos 0); [lia|]. exact HQ.
Qed.

Lemma wp_kfstat fd ino acc nb off (Q : option Z -> kproc X -> Prop) p :
  kfds p !! fd = Some (mk_ofile (OFile ino) acc nb off) ->
  Q (Some (lenZ (contents p ino))) p -> st_wp (kfstat fd) Q p.
Proof. intros H HQ. unfold kfstat. wp_step. apply (wp_getf _ _ _ _ H). exact HQ. Qed.

(** A new pipe: two new descriptors for an empty buffer. *)
Lemma wp_kpipe (Q : option (Z * Z) -> kproc X -> Prop) p :
  (forall id r w, pipes p !! id = None ->
     0 <= r <= Z.of_nat (size (kfds p)) -> 0 <= w -> r <> w -> kfds p !! r = None -> kfds p !! w = None ->
     Q (Some (r, w))
       (with_fds (<[w := mk_ofile (OPipeW id) WRONLY false 0]>
                 (<[r := mk_ofile (OPipeR id) RDONLY false 0]> (kfds p)))
       (with_pipes (<[id := []]> (pipes p)) p))) ->
  st_wp (kpipe true) Q p.
Proof.
  intros HQ. unfold kpipe. cbn [negb]. wp_step. wp_step. wp_step. wp_step.
  wp_step. apply wp_install_low. intros r Hr Hfr. wp_step. apply wp_install. intros w Hw Hfw.
  cbn [kfds with_fds with_pipes] in *. apply lookup_insert_None in Hfw as [Hfw Hne].
  wp_step. apply HQ; try done. apply lowest_free.
Qed.

Lemma is_open_true fd f o p : kfds p !! fd = Some f -> o_obj f = o -> is_open o p = true.
Proof.
  intros H Ho. apply bool_decide_eq_true. apply Exists_exists. exists (fd, f).
  split; [|done]. by apply elem_of_map_to_list.
Qed.

Lemma wp_kwrite_pipe fd id nb l c rd fr (Q : Z -> kproc X -> Prop) p :
  kfds p !! fd = Some (mk_ofile (OPipeW id) WRONLY nb 0) ->
  kfds p !! rd = Some fr -> o_obj fr = OPipeR id ->
  pipes p !! id = Some c -> lenZ c + lenZ l <= PIPE_SIZE ->
  Q (lenZ l) (with_epolls (ep_wake (OPipeR id) <$> epolls p)
             (with_pipes (<[id := c ++ l]> (pipes p)) p)) ->
  st_wp (kwrite fd l) Q p.
Proof.
  intros H Hr Ho Hc Hl HQ. unfold kwrite. wp_step. apply (wp_getf _ _ _ _ H). cbn [o_acc o_obj o_nonblock].
  rewrite decide_False by done. unfold pipe_write, pipe_buf. wp_step. wp_step.
  rewrite (is_open_true rd fr), Hc by done. change (default [] (Some c)) with c. cbn [negb].
  destruct (Z.ltb_spec PIPE_SIZE (lenZ c + lenZ l)); [lia|]. exact HQ.
Qed.

Lemma wp_kread_pipe fd id nb n c (Q : option bytes -> kproc X -> Prop) p :
  kfds p !! fd = Some (mk_ofile (OPipeR id) RDONLY nb 0) -> pipes p !! id = Some c -> c <> [] ->
  Q (Some (takeZ n c)) (with_pipes (<[id := dropZ n c]> (pipes p)) p) ->
  st_wp (kread fd n) Q p.
Proof.
  intros H Hc Hb HQ. unfold kread. wp_step. apply (wp_getf _ _ _ _ H). cbn [o_acc o_obj].
  rewrite decide_False by done. wp_step. wp_step. unfold pipe_buf. rewrite Hc.
  by rewrite decide_False by done.
Qed.

(** A non-blocking read of an empty pipe that can still be written: EAGAIN. *)
Lemma wp_kread_again fd id n wr fw (Q : option bytes -> kproc X -> Prop) p :
  kfds p !! fd = Some (mk_ofile (OPipeR id) RDONLY true 0) -> pipes p !! id = Some [] ->
  kfds p !! wr = Some fw -> o_obj fw = OPipeW id ->
  Q None p -> st_wp (kread fd n) Q p.
Proof.
  intros H Hb Hw Ho HQ. unfold kread. wp_step. apply (wp_getf _ _ _ _ H). cbn [o_acc o_obj].
  rewrite decide_False by done. wp_step. wp_step. unfold pipe_buf. rewrite Hb, decide_True by done.
  by rewrite (is_open_true wr fw).
Qed.

(** ** A process with one file in use

    [put fd acc off ino c p]: descriptor [fd] is open on inode [ino] at offset
    [off], and the inode holds [c]. *)
Definition put fd acc (off ino : Z) (c : bytes) p : kproc X :=
  with_fds (<[fd := mk_ofile (OFile ino) acc false off]> (kfds p))
    (with_inodes (<[ino := c]> (inodes p)) p).

Lemma put_lookup fd acc off ino c p :
  kfds (put fd acc off ino c p) !! fd = Some (mk_ofile (OFile ino) acc false off).
Proof. apply lookup_insert_eq. Qed.

Lemma put_contents fd acc off ino c p : contents (put fd acc off ino c p) ino = c.
Proof. unfold contents, put. cbn. by rewrite lookup_insert_eq. Qed.

Lemma put_file_twice fd acc off ino c off' c' p :
  put fd acc off ino c (put fd acc off' ino c' p) = put fd acc off ino c p.
Proof. unfold put. cbn. by rewrite !insert_insert_eq. Qed.

Lemma put_move fd acc off ino c off' p :
  with_fds (<[fd := mk_ofile (OFile ino) acc false off']> (kfds (put fd acc off ino c p)))
    (put fd acc off ino c p) = put fd acc off' ino c p.
Proof. unfold put, with_fds. cbn. by rewrite insert_insert_eq. Qed.

Lemma wp_put_open path acc (Q : Z -> kproc X -> Prop) p :
  (forall fd ino, 0 <= fd -> kfds p !! fd = None -> opens p path ino ->
     Q fd (put fd acc 0 ino [] (with_names (<[path := ino]> (names p)) p))) ->
  st_wp (kopen path true true acc true) Q p.
Proof. intros HQ. apply wp_kopen_trunc. exact HQ. Qed.

Lemma wp_put_write fd acc off ino c l (Q : Z -> kproc X -> Prop) p :
  acc <> RDONLY -> Q (lenZ l) (put fd acc (off + lenZ l) ino (pwritten c off l) p) ->
  st_wp (kwrite fd l) Q (put fd acc off ino c p).
Proof.
  intros Ha HQ. eapply wp_kwrite_file; [apply put_lookup|done|]. rewrite put_contents.
  unfold put in *. cbn. by rewrite !insert_insert_eq.
Qed.

(** Appending at the end of the file. *)
Lemma wp_put_append fd acc off ino c l (Q : Z -> kproc X -> Prop) p :
  acc <> RDONLY -> off = lenZ c -> Q (lenZ l) (put fd acc (lenZ (c ++ l)) ino (c ++ l) p) ->
  st_wp (kwrite fd l) Q (put fd acc off ino c p).
Proof. intros Ha -> HQ. apply wp_put_write; [done|]. by rewrite pwritten_end, <- lenZ_app. Qed.

Lemma wp_put_read fd acc off ino c n (Q : option bytes -> kproc X -> Prop) p :
  acc <> WRONLY ->
  Q (Some (takeZ n (dropZ off c))) (put fd acc (off + lenZ (takeZ n (dropZ off c))) ino c p) ->
  st_wp (kread fd n) Q (put fd acc off ino c p).
Proof.
  intros Ha HQ. eapply wp_kread_file; [apply put_lookup|done|].
  unfold file_read. by rewrite put_contents, put_move.
Qed.

Lemma wp_put_lseek fd acc off ino c o w pos (Q : Z -> kproc X -> Prop) p :
  pos = match w with SEEK_SET => o | SEEK_END => lenZ c + o end -> 0 <= pos ->
  Q pos (put fd acc pos ino c p) -> st_wp (klseek fd o w) Q (put fd acc off ino c p).
Proof.
  intros Hp H0 HQ. eapply wp_klseek; [apply put_lookup| |exact H0|].
  - rewrite put_contents. exact Hp.
  - by rewrite put_move.
Qed.

Lemma wp_put_printf fd acc off ino c f (Q : unit -> kproc X -> Prop) p :
  Q tt (put fd acc off ino c (with_io (kout p ++ format f) (kerr p) (kfaults p) p)) ->
  st_wp (kprintf f) Q (put fd acc off ino c p).
Proof. intros HQ. apply wp_kprintf. exact HQ. Qed.

(** Closing it leaves the descriptors as they were. *)
Lemma wp_put_close fd acc off ino c (Q : Z -> kproc X -> Prop) p :
  kfds p !! fd = None -> Q 0 (with_inodes (<[ino := c]> (inodes p)) p) ->
  st_wp (kclose fd) Q (put fd acc off ino c p).
Proof.
  intros Hf HQ. eapply wp_kclose; [apply put_lookup|]. unfold put, with_fds. cbn.
  rewrite delete_insert_id by done. by destruct p.
Qed.
End effects.

(** ** Automation *)

(** Compute the fields of a state built by the calls; look a key up in them. *)
Ltac kcbn :=
  cbn [kfds inodes names pipes epolls kout kerr kfaults kext with_fds with_inodes with_names
       with_pipes with_epolls with_io o_obj o_acc o_off o_nonblock].
Ltac klk :=
  unfold pipe_buf, contents, put; kcbn;
  repeat first [ rewrite lookup_insert_eq
               | rewrite lookup_insert_ne by first [done | by apply not_eq_sym]
               | rewrite lookup_delete_ne by first [done | by apply not_eq_sym] ];
  first [reflexivity | done].

(** Equal maps, by looking every key up. *)
Ltac kmap :=
  apply map_eq; intros ?; rewrite ?lookup_delete, ?lookup_insert;
  repeat (rewrite ?lookup_delete, ?lookup_insert; case_decide); simplify_eq; done.
