(* ===== verification/FileIO.v ===== *)
(** * The file I/O demos

    src/06_file_io/fileio_demo.c, over the kernel model of Files.v: plain file
    I/O, the terminal size, [select], edge-triggered [epoll], [sendfile] and
    scatter/gather I/O.  What the system answered where it may fail, and what
    uninitialised buffers hold, is an input. *)

From S2P Require Import Prelude CLib Files.

Local Open Scope Z_scope.

Definition P := kproc unit.

Record winsize := { ws_col : Z; ws_row : Z; ws_xpixel : Z; ws_ypixel : Z }.

Record io_env := {
  e_open1 : bool;                (* Demo 1: open *)
  e_read1 : bool;                (*         read: false is an I/O error *)
  e_buf1 : bytes;                (*         char buf[256] *)
  e_ioctl : option winsize;      (* Demo 2: None is an error *)
  e_pipe3 : bool;                (* Demo 3 *)
  e_select1 : bool;              (*         true: interrupted *)
  e_select2 : bool;
  e_pipe4 : bool;                (* Demo 4 *)
  e_pipe4' : bool;
  e_epoll4 : bool;
  e_buf4 : bytes;                (*         char buf[32] *)
  e_src5 : bool;                 (* Demo 5: the three calls of open *)
  e_src5' : bool;
  e_dst5 : bool;
  e_open6 : bool;                (* Demo 6 *)
  e_r6 : bytes * bytes * bytes;  (*         char r1[32], r2[32], r3[32] *)
  e_strerror : bytes;
}.

(** An access outside an array is undefined. *)
Definition mem {A} (o : option A) : ST P A := match o with Some a => mret a | None => st_stuck end.

(** ** Demo 1 *)

Definition path1 : string := "/tmp/fileio_demo.txt".
Definition lines : list bytes :=
  [bs "Line 1: Embedded Linux" ++ [x0a]; bs "Line 2: Kernel Drivers" ++ [x0a];
   bs "Line 3: System Calls" ++ [x0a]].

Fixpoint write_lines (fd : Z) (ls : list bytes) : ST P unit :=
  match ls with
  | [] => mret tt
  | l :: ls => kwrite fd l ;; write_lines fd ls
  end.

Definition demo_basic_fileio (e : io_env) : ST P unit :=
  kprintf (separator "Demo 1: Basic File I/O (open/write/lseek/read)") ;;
  fd ← kopen path1 true true RDWR (e_open1 e);
  if fd <? 0 then kperror "open" (e_strerror e)
  else
  write_lines fd lines ;;
  klseek fd 0 SEEK_SET ;;
  r ← (if e_read1 e then kread fd (256 - 1) else mret None);
  let n := match r with Some l => lenZ l | None => -1 end in
  buf ← mem (store_bytes (e_buf1 e) 0 (default [] r));
  buf ← mem (store_bytes buf n [NUL]);
  kprintf [FLit "Read back "; FD n; FLit " bytes:"; FRaw [x0a]; FS buf] ;;
  size ← klseek fd 0 SEEK_END;
  kprintf [FLit "File size: "; FD size; FLit " bytes"; FRaw [x0a]] ;;
  kclose fd ;;
  kunlink path1 ;;
  mret tt.

(** ** Demo 2 *)

Definition demo_ioctl (e : io_env) : ST P unit :=
  kprintf (separator "Demo 2: ioctl() — Terminal Window Size") ;;
  match e_ioctl e with
  | Some ws =>
      kprintf [FLit "Terminal: "; FD (ws_col ws); FLit " cols x "; FD (ws_row ws);
               FLit " rows   (pixel: "; FD (ws_xpixel ws); FLit " x "; FD (ws_ypixel ws); FLit ")";
               FRaw [x0a]]
  | None =>
      kprintf [FLit "ioctl TIOCGWINSZ not available (not a terminal): "; FRaw (e_strerror e); FRaw [x0a]]
  end.

(** ** Demo 3 *)

Definition FD_SETSIZE : Z := 1024.
(** [FD_SET]: a descriptor beyond the set is a store outside the array. *)
Definition FD_SET (fd : Z) : ST P unit :=
  mem (if (0 <=? fd) && (fd <? FD_SETSIZE) then Some tt else None).

Definition demo_select (e : io_env) : ST P unit :=
  kprintf (separator "Demo 3: select() with Timeout") ;;
  pr ← kpipe (e_pipe3 e);
  match pr with
  | None => kperror "pipe" (e_strerror e)
  | Some (rd, wr) =>
      let tv := 500000 in
      FD_SET rd ;;
      kprintf [FLit "select() waiting 500ms for data on pipe read-end…"; FRaw [x0a]] ;;
      '(ret, isset, tv) ← kselect rd tv (e_select1 e);
      (if ret =? 0 then kprintf [FLit "select() timed out — no data (expected)"; FRaw [x0a]]
       else if 0 <? ret then kprintf [FLit "select() says data is ready"; FRaw [x0a]]
       else kperror "select" (e_strerror e)) ;;
      kwrite wr (bs "X") ;;
      FD_SET rd ;;
      '(ret, isset, tv) ← kselect rd tv (e_select2 e);
      (if (0 <? ret) && isset
       then kprintf [FLit "select() immediately detected data — fd is readable ✓"; FRaw [x0a]]
       else mret tt) ;;
      kclose rd ;; kclose wr ;; mret tt
  end.

(** ** Demo 4 *)

(** The inner [while]: until [read] returns 0 or an error.  Each turn takes at
    least a byte out of a pipe, so the bytes in the pipes bound the turns. *)
Fixpoint drain_fd (fuel : nat) (fd : Z) (buf : bytes) (total : Z) : ST P (bytes * Z) :=
  match fuel with
  | O => st_stuck
  | S fuel =>
      r ← kread fd 32;
      match r with
      | Some (b :: l) =>
          buf ← mem (store_bytes buf total (b :: l));
          kprintf [FLit "  fd="; FD fd; FLit " drained "; FD (lenZ (b :: l)); FLit " bytes"; FRaw [x0a]] ;;
          drain_fd fuel fd buf (total + lenZ (b :: l))
      | _ => mret (buf, total)
      end
  end.

Definition pipes_total (p : P) : nat := length (concat (map_to_list (pipes p)).*2).

Fixpoint drain_all (fds : list Z) (buf : bytes) (total : Z) : ST P (bytes * Z) :=
  match fds with
  | [] => mret (buf, total)
  | fd :: fds =>
      p ← st_get;
      '(buf, total) ← drain_fd (S (pipes_total p)) fd buf total;
      drain_all fds buf total
  end.

Definition nfds (r : option (list Z)) : Z := match r with Some l => lenZ l | None => -1 end.

(** From the registration of the two read ends to the last message. *)
Definition epoll_session (epfd rd wr rd2 wr2 : Z) (buf : bytes) : ST P unit :=
  kepoll_add epfd rd true ;;
  kepoll_add epfd rd2 true ;;
  kwrite wr (bs "Hello") ;;
  kwrite wr2 (bs "Hello2") ;;
  evs ← kepoll_wait epfd 4;
  kprintf [FLit "1st epoll_wait returned "; FD (nfds evs); FLit " event(s), write again without read";
           FRaw [x0a]] ;;
  kwrite wr (bs "World") ;;
  evs ← kepoll_wait epfd 4;
  kprintf [FLit "2nd epoll_wait returned "; FD (nfds evs); FLit " event(s)"; FRaw [x0a]] ;;
  '(buf, total) ← drain_all (default [] evs) buf 0;
  buf ← mem (store_bytes buf total [NUL]);
  kprintf [FLit " total get "; FD total; FLit " bytes: "; FS buf; FLit " )"; FRaw [x0a]].

Definition demo_epoll (e : io_env) : ST P unit :=
  kprintf (separator "Demo 4: epoll() — Level-Triggered & Edge-Triggered") ;;
  pr ← kpipe (e_pipe4 e);
  match pr with None => kperror "pipe" (e_strerror e) | Some (rd, wr) =>
  set_nonblock rd true ;;
  pr ← kpipe (e_pipe4' e);
  match pr with None => kperror "pipe" (e_strerror e) | Some (rd2, wr2) =>
  set_nonblock rd2 true ;;
  epfd ← kepoll_create (e_epoll4 e);
  if epfd <? 0 then kperror "epoll_create1" (e_strerror e)
  else
  epoll_session epfd rd wr rd2 wr2 (e_buf4 e) ;;
  kclose epfd ;;
  kclose rd ;; kclose wr ;;
  kclose rd2 ;; kclose wr2 ;; mret tt
  end end.

(** ** Demo 5 *)

Definition src_path : string := "/tmp/sendfile_src.bin".
Definition dst_path : string := "/tmp/sendfile_dst.bin".

Definition data_line (i : nat) : list fmt := [FLit "Data line "; FD (Z.of_nat i); FRaw [x0a]].

(** The loop [for (i = 0; i < n; i++)]: [snprintf] into [line], then [write]
    of [strlen(line)] bytes. *)
Fixpoint write_data (fd : Z) (n i : nat) : ST P unit :=
  match n with
  | O => mret tt
  | S n =>
      let line := (snprintf 64 (data_line i)).2 in
      kwrite fd (cstr line) ;;
      write_data fd n (S i)
  end.

(** Up to the line that reports the copy; the two descriptors. *)
Definition send_copy (e : io_env) : ST P (Z * Z) :=
  kprintf (separator "Demo 5: sendfile() — Zero-Copy Transfer") ;;
  src ← kopen src_path true true WRONLY (e_src5 e);
  write_data src 100 0 ;;
  kclose src ;;
  src ← kopen src_path false false RDONLY (e_src5' e);
  dst ← kopen dst_path true true WRONLY (e_dst5 e);
  st ← kfstat src;
  st_size ← mem st;              (* uninitialised when fstat failed *)
  '(sent, offset) ← ksendfile dst src 0 st_size;
  kprintf [FLit "sendfile: copied "; FD sent; FLit " bytes without user-space buffer ✓"; FRaw [x0a]] ;;
  mret (src, dst).

Definition demo_sendfile (e : io_env) : ST P unit :=
  '(src, dst) ← send_copy e;
  kclose src ;; kclose dst ;;
  kunlink src_path ;; kunlink dst_path ;; mret tt.

(** ** Demo 6 *)

Definition path6 : string := "/tmp/iov_demo.bin".
Definition h1 : bytes := bs "[HEADER] ".
Definition h2 : bytes := bs "payload data ".
Definition h3 : bytes := bs "[TRAILER]" ++ [x0a].

(** [iov_base] after [readv], and the terminator at [strlen(h)]. *)
Definition fill_iov (r got h : bytes) : ST P bytes :=
  r ← mem (store_bytes r 0 got);
  mem (store_bytes r (lenZ h) [NUL]).

Definition demo_scatter_gather (e : io_env) : ST P unit :=
  kprintf (separator "Demo 6: writev() / readv() — Scatter/Gather I/O") ;;
  fd ← kopen path6 true true RDWR (e_open6 e);
  written ← kwritev fd [h1; h2; h3];
  kprintf [FLit "writev: "; FD written; FLit " bytes written"; FRaw [x0a]] ;;
  klseek fd 0 SEEK_SET ;;
  got ← kreadv fd [lenZ h1; lenZ h2; lenZ h3];
  let '(g1, g2, g3) := match got with Some [a; b; c] => (a, b, c) | _ => ([], [], []) end in
  let '(r1, r2, r3) := e_r6 e in
  r1 ← fill_iov r1 g1 h1;
  r2 ← fill_iov r2 g2 h2;
  r3 ← fill_iov r3 g3 h3;
  kprintf [FLit "readv:  ["; FS r1; FLit "] ["; FS r2; FLit "] ["; FS r3; FLit "]"; FRaw [x0a]] ;;
  kclose fd ;; kunlink path6 ;; mret tt.

Definition main (e : io_env) : ST P Z :=
  kprintf [FLit "=== Embedded Linux Demo: File I/O & Multiplexing ==="; FRaw [x0a]] ;;
  demo_basic_fileio e ;;
  demo_ioctl e ;;
  demo_select e ;;
  demo_epoll e ;;
  demo_sendfile e ;;
  demo_scatter_gather e ;;
  kprintf [FRaw [x0a]; FLit "[DONE] File I/O demo complete."; FRaw [x0a]] ;;
  mret 0.

(** ** What each demo does *)

(** Descriptors and error count are as before, and only [path] is gone. *)
Definition cleaned (opened : bool) (path : string) (p p' : P) : Prop :=
  kfds p' = kfds p /\ kfaults p' = kfaults p /\
  (names p' = if opened then delete path (names p) else names p) /\
  dom (inodes p) ⊆ dom (inodes p').

Lemma wp_mem {A} o (a : A) (Q : A -> P -> Prop) p : o = Some a -> Q a p -> st_wp (mem o) Q p.
Proof. by intros ->. Qed.

Lemma write_lines_wp fd ino ls c off (Q : unit -> P -> Prop) p :
  off = lenZ c -> Q tt (put fd RDWR (lenZ (c ++ concat ls)) ino (c ++ concat ls) p) ->
  st_wp (write_lines fd ls) Q (put fd RDWR off ino c p).
Proof.
  revert off c. induction ls as [|l ls IH]; intros off c -> HQ; cbn [write_lines concat] in *.
  - wp_step. by rewrite app_nil_r in HQ.
  - wp_step. apply wp_put_append; [done|done|]. apply IH; [done|]. by rewrite <- !(assoc_L (++)).
Qed.

(** The string in a buffer into which [l] was read and terminated. *)
Lemma read_terminated buf l :
  Forall (fun b => b <> NUL) l -> lenZ l < lenZ buf ->
  exists b1 b2, store_bytes buf 0 l = Some b1 /\ store_bytes b1 (lenZ l) [NUL] = Some b2 /\ cstr b2 = l.
Proof.
  intros Hl Hn. pose proof (lenZ_nonneg l).
  destruct (store_bytes buf 0 l) as [b1|] eqn:E1; [|by rewrite store_bytes_Some in E1 by lia].
  pose proof (store_bytes_length _ _ _ _ E1). pose proof (takeZ_store _ _ _ _ E1) as T.
  change (takeZ 0 buf) with (@nil byte) in T. rewrite app_nil_l, Z.add_0_l in T.
  exists b1. eexists. split; [done|]. rewrite store_bytes_Some; [|lia|change (lenZ [NUL]) with 1; lia].
  split; [done|]. rewrite T. by apply cstr_app_nul.
Qed.

Definition out1 (e : io_env) : bytes :=
  format (separator "Demo 1: Basic File I/O (open/write/lseek/read)") ++
  if e_open1 e
  then format [FLit "Read back "; FD 67; FLit " bytes:"; FRaw [x0a]; FRaw (concat lines)] ++
       format [FLit "File size: "; FD 67; FLit " bytes"; FRaw [x0a]]
  else [].

Lemma demo1_wp e p :
  lenZ (e_buf1 e) = 256 -> e_read1 e = true ->
  st_wp (demo_basic_fileio e)
    (fun _ p' => cleaned (e_open1 e) path1 p p' /\ kout p' = kout p ++ out1 e) p.
Proof.
  intros Hb Hr. unfold demo_basic_fileio, out1. wp_step. apply wp_kprintf. wp_step.
  destruct (e_open1 e) eqn:Eo.
  2: { apply wp_ret. cbn [Z.ltb]. apply wp_kperror. by rewrite app_nil_r. }
  apply wp_put_open. intros fd ino Hfd Hf _. cbn in Hf.
  destruct (Z.ltb_spec fd 0); [lia|]. wp_step. apply write_lines_wp; [done|]. rewrite app_nil_l.
  wp_step. eapply wp_put_lseek; [done|lia|]. rewrite Hr. wp_step. apply wp_put_read; [done|].
  change (dropZ 0 (concat lines)) with (concat lines).
  change (takeZ (256 - 1) (concat lines)) with (concat lines).
  destruct (read_terminated (e_buf1 e) (concat lines)) as (b1 & b2 & E1 & E2 & E3).
  { by_decision. }
  { by rewrite Hb. }
  cbv zeta beta. change (default [] (Some (concat lines))) with (concat lines).
  wp_step. apply (wp_mem _ _ _ _ E1). wp_step. apply (wp_mem _ _ _ _ E2).
  wp_step. apply wp_put_printf. wp_step. eapply wp_put_lseek; [done|by vm_compute|].
  wp_step. apply wp_put_printf. wp_step. apply wp_put_close; [done|].
  wp_step. eapply wp_kunlink; [apply lookup_insert_eq|]. wp_step.
  split; [split_and!; cbn; try done; [by rewrite delete_insert_eq|set_solver]|].
  cbn [kout with_io with_names with_inodes]. unfold format at 4. cbn [format fmt_piece]. rewrite E3.
  by rewrite <- !(assoc_L (++)).
Qed.

Lemma wp_kselect fd f us (fl : bool) (Q : Z * bool * Z -> P -> Prop) p :
  kfds p !! fd = Some f ->
  Q (if fl then (-1, true, us) else if readable p (o_obj f) then (1, true, us) else (0, false, 0)) p ->
  st_wp (kselect fd us fl) Q p.
Proof. intros H HQ. unfold kselect. wp_step. by apply (wp_getf _ _ _ _ H). Qed.

Lemma readable_empty (p : P) id wr f :
  pipes p !! id = Some [] -> kfds p !! wr = Some f -> o_obj f = OPipeW id ->
  readable p (OPipeR id) = false.
Proof. intros Hb Hw Ho. unfold readable, pipe_buf. by rewrite Hb, (is_open_true wr f). Qed.

Lemma readable_data (p : P) id b l : pipes p !! id = Some (b :: l) -> readable p (OPipeR id) = true.
Proof. intros Hb. unfold readable, pipe_buf. by rewrite Hb. Qed.

Definition out3 (e : io_env) : bytes :=
  format (separator "Demo 3: select() with Timeout") ++
  if e_pipe3 e
  then format [FLit "select() waiting 500ms for data on pipe read-end…"; FRaw [x0a]] ++
       (if e_select1 e then []
        else format [FLit "select() timed out — no data (expected)"; FRaw [x0a]]) ++
       (if e_select2 e then []
        else format [FLit "select() immediately detected data — fd is readable ✓"; FRaw [x0a]])
  else [].

Lemma wp_FD_SET fd (Q : unit -> P -> Prop) p : 0 <= fd < FD_SETSIZE -> Q tt p -> st_wp (FD_SET fd) Q p.
Proof.
  intros H HQ. unfold FD_SET. destruct (Z.leb_spec 0 fd), (Z.ltb_spec fd FD_SETSIZE); try lia. exact HQ.
Qed.

Ltac kstep :=
  lazymatch goal with
  | |- st_wp (kprintf _) _ _ => apply wp_kprintf
  | |- st_wp (kperror _ _) _ _ => apply wp_kperror
  | |- st_wp (FD_SET _) _ _ => apply wp_FD_SET; [done|]
  | |- st_wp (kselect _ _ _) _ _ => eapply wp_kselect; [klk|]
  | |- st_wp (kclose _) _ _ => eapply wp_kclose; [klk|]
  | |- st_wp (set_nonblock _ _) _ _ => eapply wp_set_nonblock; [klk|]
  | |- st_wp (kunlink _) _ _ => eapply wp_kunlink; [klk|]
  | _ => wp_step
  end; cbv beta iota; kcbn.

Lemma demo3_wp e p :
  (size (kfds p) < 1024)%nat ->
  st_wp (demo_select e)
    (fun _ p' => cleaned false path1 p p' /\ kout p' = kout p ++ out3 e) p.
Proof.
  destruct p as [t i n q ep o er fl []]. cbn [kfds]. intros Hsz. unfold demo_select, out3, cleaned. repeat kstep.
  destruct (e_pipe3 e).
  2: { repeat kstep. by rewrite app_nil_r. }
  apply wp_kpipe. intros id r w _ Hr Hw Hne Hfr Hfw. kcbn. cbn in Hr, Hfr, Hfw.
  assert (Hset : 0 <= r < FD_SETSIZE) by (unfold FD_SETSIZE; lia). repeat kstep.
  rewrite (readable_empty _ id w (mk_ofile (OPipeW id) WRONLY false 0)) by klk.
  destruct (e_select1 e); cbn [Z.eqb Z.ltb Z.compare]; repeat kstep.
  all: eapply (wp_kwrite_pipe _ _ _ _ _ r); [klk|klk|done|klk|done|]; repeat kstep.
  all: rewrite (readable_data _ _ x58 []) by klk.
  all: destruct (e_select2 e); cbn [Z.eqb Z.ltb Z.compare andb]; repeat kstep.
  all: rewrite (delete_insert_ne _ r w), !delete_insert_id by klk.
  all: rewrite <- ?(assoc_L (++)), ?app_nil_r; done.
Qed.

(** ** [sendfile] and scatter/gather *)

Definition data_text (n i : nat) : bytes := concat ((fun i => format (data_line i)) <$> seq i n).

(** No line is cut by the 64-byte buffer. *)
Lemma data_line_fits i : (i < 100)%nat -> cstr (snprintf 64 (data_line i)).2 = format (data_line i).
Proof.
  intros Hi. assert (H : Forall (fun i => cstr (snprintf 64 (data_line i)).2 = format (data_line i)) (seq 0 100))
    by by_decision.
  rewrite Forall_forall in H. apply H. apply elem_of_seq. lia.
Qed.

Lemma write_data_wp fd ino n i c off (Q : unit -> P -> Prop) p :
  (i + n <= 100)%nat -> off = lenZ c ->
  Q tt (put fd WRONLY (lenZ (c ++ data_text n i)) ino (c ++ data_text n i) p) ->
  st_wp (write_data fd n i) Q (put fd WRONLY off ino c p).
Proof.
  revert i off c. induction n as [|n IH]; intros i off c Hi -> HQ; cbn [write_data].
  - wp_step. unfold data_text in HQ. cbn in HQ. by rewrite app_nil_r in HQ.
  - wp_step. apply wp_put_append; [done|done|]. rewrite data_line_fits by lia.
    apply IH; [lia|done|]. rewrite <- (assoc_L (++)). exact HQ.
Qed.

Definition out5 : bytes :=
  format (separator "Demo 5: sendfile() — Zero-Copy Transfer") ++
  format [FLit "sendfile: copied "; FD 1290; FLit " bytes without user-space buffer ✓"; FRaw [x0a]].

Lemma wp_ksendfile dst src ino off n (Q : Z * Z -> P -> Prop) p f :
  kfds p !! src = Some f -> o_obj f = OFile ino ->
  st_wp (kwrite dst (file_read p ino off n)) (fun r p' => Q (if r <? 0 then (-1, off) else (r, off + r)) p') p ->
  st_wp (ksendfile dst src off n) Q p.
Proof.
  intros H Ho HQ. unfold ksendfile. wp_step. apply (wp_getf _ _ _ _ H). wp_step. wp_step.
  rewrite Ho. wp_step. exact HQ.
Qed.

(** The contents of the file a path names. *)
Definition file_at (p : P) (path : string) : option bytes := names p !! path ≫= fun ino => inodes p !! ino.

(** Both descriptors are open beside those of [p]; the destination has become
    a second file with the contents of the source. *)
Record copied (p : P) (src dst : Z) (p' : P) : Prop := {
  cp_fds : exists f g, kfds p' = <[dst := g]> (<[src := f]> (kfds p)) /\
             kfds p !! src = None /\ kfds p !! dst = None /\ dst <> src;
  cp_names : exists i j, i <> j /\ names p' = <[dst_path := j]> (<[src_path := i]> (names p));
  cp_src : file_at p' src_path = Some (data_text 100 0);
  cp_dst : file_at p' dst_path = Some (data_text 100 0);
  cp_faults : kfaults p' = kfaults p;
  cp_out : kout p' = kout p ++ out5;
}.

Lemma send_copy_wp e p :
  fs_ok p ->
  (forall ino, names p !! src_path = Some ino -> names p !! dst_path <> Some ino) ->
  e_src5 e = true -> e_src5' e = true -> e_dst5 e = true ->
  st_wp (send_copy e) (fun '(src, dst) p' => copied p src dst p') p.
Proof.
  intros Hfs Hne H1 H2 H3. unfold send_copy. rewrite H1, H2, H3.
  wp_step. apply wp_kprintf. wp_step. apply wp_put_open. intros src ino Hsrc Hf Hop. cbn in Hf.
  wp_step. apply write_data_wp; [lia|done|]. rewrite app_nil_l.
  wp_step. apply wp_put_close; [done|].
  wp_step. eapply wp_kopen_existing; [klk|]. intros src' Hsrc' Hf'. kcbn. cbn in Hf'.
  wp_step. apply wp_kopen_trunc. intros dst ino2 Hdst Hf2 Hop2. kcbn. cbn in Hf2.
  apply lookup_insert_None in Hf2 as [Hf2 Hd].
  assert (names p !! dst_path <> Some ino) by by eapply opens_ne.
  assert (ino2 <> ino).
  { eapply (opens_fresh _ src_path dst_path); [|exact Hop2|klk|].
    - eapply (fs_ok_name p _ src_path ino); [done|klk..].
    - kcbn. by rewrite lookup_insert_ne. }
  wp_step. eapply wp_kfstat; [klk|]. wp_step. eapply wp_mem; [done|]. wp_step.
  eapply wp_ksendfile; [klk|done|].
  eapply wp_kwrite_file; [klk|done|]. unfold file_read.
  match goal with |- context [contents ?q ino] =>
    replace (contents q ino) with (data_text 100 0) by klk;
    replace (contents q ino2) with (@nil byte) by klk end.
  change (dropZ 0 ?l) with l. rewrite takeZ_all by lia.
  change (pwritten [] 0 (data_text 100 0)) with (data_text 100 0 ++ dropZ (0 + lenZ (data_text 100 0)) []).
  change (lenZ (data_text 100 0)) with 1290. cbn [Z.ltb Z.compare]. cbv iota.
  repeat kstep.
  unfold out5. rewrite <- (assoc_L (++)). split; kcbn.
  - eexists _, _. split; [apply insert_insert_eq|]. by split_and!; [..|apply not_eq_sym].
  - exists ino, ino2. split; [by apply not_eq_sym|done].
  - unfold file_at. kcbn. rewrite lookup_insert_ne, lookup_insert_eq by done. cbn [mbind option_bind]. klk.
  - unfold file_at. kcbn. rewrite lookup_insert_eq. cbn [mbind option_bind]. rewrite app_nil_r. klk.
  - done.
  - done.
Qed.

Lemma send_done_wp p0 src dst p :
  copied p0 src dst p ->
  st_wp (kclose src ;; kclose dst ;; kunlink src_path ;; kunlink dst_path ;; mret tt)
    (fun _ p' => kfds p' = kfds p0 /\ kfaults p' = kfaults p0 /\
       names p' = delete dst_path (delete src_path (names p0)) /\ kout p' = kout p0 ++ out5) p.
Proof.
  intros [(f & g & Hf & Hs & Hd & Hne) (i & j & _ & Hn) _ _ Hfa Ho].
  wp_step. eapply wp_kclose; [rewrite Hf, lookup_insert_ne by done; apply lookup_insert_eq|].
  wp_step. eapply wp_kclose; [kcbn; rewrite Hf, lookup_delete_ne by done; apply lookup_insert_eq|].
  wp_step. eapply wp_kunlink; [kcbn; rewrite Hn, lookup_insert_ne by done; apply lookup_insert_eq|].
  wp_step. eapply wp_kunlink; [kcbn; rewrite Hn, lookup_delete_ne by done; apply lookup_insert_eq|].
  wp_step. kcbn. rewrite Hf, Hn. split_and!; [kmap|done|kmap|done].
Qed.

Definition out6 : bytes :=
  format (separator "Demo 6: writev() / readv() — Scatter/Gather I/O") ++
  format [FLit "writev: "; FD 32; FLit " bytes written"; FRaw [x0a]] ++
  format [FLit "readv:  ["; FRaw h1; FLit "] ["; FRaw h2; FLit "] ["; FRaw h3; FLit "]"; FRaw [x0a]].

Lemma fill_iov_wp r h (Q : bytes -> P -> Prop) p :
  Forall (fun b => b <> NUL) h -> lenZ h < lenZ r ->
  (forall b, cstr b = h -> Q b p) -> st_wp (fill_iov r h h) Q p.
Proof.
  intros Hh Hn HQ. destruct (read_terminated r h Hh Hn) as (b1 & b2 & E1 & E2 & E3).
  unfold fill_iov. wp_step. apply (wp_mem _ _ _ _ E1). apply (wp_mem _ _ _ _ E2). by apply HQ.
Qed.

Lemma demo6_wp e p :
  e_open6 e = true ->
  (let '(r1, r2, r3) := e_r6 e in lenZ r1 = 32 /\ lenZ r2 = 32 /\ lenZ r3 = 32) ->
  st_wp (demo_scatter_gather e)
    (fun _ p' => cleaned true path6 p p' /\ kout p' = kout p ++ out6) p.
Proof.
  intros Ho Hr. unfold demo_scatter_gather, cleaned. rewrite Ho.
  destruct (e_r6 e) as [[r1 r2] r3]. destruct Hr as (L1 & L2 & L3).
  wp_step. apply wp_kprintf. wp_step. apply wp_put_open. intros fd ino Hfd Hf _. cbn in Hf.
  wp_step. unfold kwritev. apply wp_put_append; [done|done|]. rewrite app_nil_l.
  wp_step. apply wp_put_printf. wp_step. eapply wp_put_lseek; [done|lia|].
  wp_step. unfold kreadv. wp_step. apply wp_put_read; [done|].
  change (takeZ _ (dropZ 0 (concat [h1; h2; h3]))) with (concat [h1; h2; h3]).
  wp_step. change (fmap (scatter _) (Some (concat [h1; h2; h3]))) with (Some [h1; h2; h3]). cbv iota.
  wp_step. apply fill_iov_wp; [by_decision|by rewrite L1|]. intros b1 B1.
  wp_step. apply fill_iov_wp; [by_decision|by rewrite L2|]. intros b2 B2.
  wp_step. apply fill_iov_wp; [by_decision|by rewrite L3|]. intros b3 B3.
  wp_step. apply wp_put_printf. wp_step. apply wp_put_close; [done|]. repeat kstep.
  split; [split_and!; [done|done|kmap|set_solver]|].
  unfold out6. cbn [format fmt_piece]. rewrite B1, B2, B3. by rewrite <- !(assoc_L (++)).
Qed.

(** ** The epoll demo *)

Lemma wp_kepoll_create (Q : Z -> P -> Prop) p :
  (forall fd id, 0 <= fd -> kfds p !! fd = None ->
     Q fd (with_fds (<[fd := mk_ofile (OEpoll id) RDWR false 0]> (kfds p))
          (with_epolls (<[id := mk_epoll [] []]> (epolls p)) p))) ->
  st_wp (kepoll_create true) Q p.
Proof.
  intros HQ. unfold kepoll_create. cbn [negb]. wp_step. wp_step. wp_step. wp_step.
  apply wp_install. intros fd H0 Hf. by apply HQ.
Qed.

Lemma wp_on_epoll {A} epfd f id e (bad : A) k (Q : A -> P -> Prop) p :
  kfds p !! epfd = Some f -> o_obj f = OEpoll id -> epolls p !! id = Some e ->
  st_wp (k id e) Q p -> st_wp (on_epoll epfd bad k) Q p.
Proof.
  intros Hf Ho He HQ. unfold on_epoll. wp_step. apply (wp_getf _ _ _ _ Hf). rewrite Ho.
  wp_step. wp_step. by rewrite He.
Qed.

Lemma wp_kepoll_add epfd f0 id e fd f et (Q : Z -> P -> Prop) p :
  kfds p !! epfd = Some f0 -> o_obj f0 = OEpoll id -> epolls p !! id = Some e ->
  kfds p !! fd = Some f -> fd ∉ (i_fd <$> ep_set e) -> readable p (o_obj f) = false ->
  Q 0 (with_epolls (<[id := mk_epoll (ep_set e ++ [mk_interest fd (o_obj f) et]) (ep_ready e)]> (epolls p)) p) ->
  st_wp (kepoll_add epfd fd et) Q p.
Proof.
  intros H0 Ho He Hf Hn Hr HQ. unfold kepoll_add. eapply wp_on_epoll; [done..|]. wp_step.
  apply (wp_getf _ _ _ _ Hf). rewrite decide_False by done. wp_step. wp_step. by rewrite Hr.
Qed.

(** With every ready entry edge-triggered, readable, and at most [max] of
    them: all are reported and the ready list is empty. *)
Lemma wp_kepoll_wait epfd f0 id e max (Q : option (list Z) -> P -> Prop) p :
  kfds p !! epfd = Some f0 -> o_obj f0 = OEpoll id -> epolls p !! id = Some e ->
  Forall (fun i => i_et i = true /\ readable p (i_obj i) = true) (ep_ready e) ->
  (length (ep_ready e) <= max)%nat ->
  Q (Some (i_fd <$> ep_ready e)) (with_epolls (<[id := mk_epoll (ep_set e) []]> (epolls p)) p) ->
  st_wp (kepoll_wait epfd max) Q p.
Proof.
  intros H0 Ho He Hall Hmax HQ. unfold kepoll_wait. eapply wp_on_epoll; [done..|]. wp_step. wp_step.
  assert (L : filter (fun i => readable p (i_obj i) = true) (ep_ready e) = ep_ready e).
  { clear -Hall. induction Hall as [|i l [_ Hi] _ IH]; [done|]. by rewrite filter_cons_True, IH. }
  assert (N : filter (fun i => i_et i = false) (ep_ready e) = []).
  { clear -Hall. induction Hall as [|i l [Hi _] _ IH]; [done|].
    rewrite filter_cons_False; [done|]. by rewrite Hi. }
  rewrite L, take_ge, drop_ge, N by done. exact HQ.
Qed.

(** The lines printed while [c] is drained from [fd] in reads of 32 bytes. *)
Fixpoint drain_text (fuel : nat) (fd : Z) (c : bytes) : bytes :=
  match fuel, c with
  | S fuel, _ :: _ =>
      format [FLit "  fd="; FD fd; FLit " drained "; FD (lenZ (takeZ 32 c)); FLit " bytes"; FRaw [x0a]]
      ++ drain_text fuel fd (dropZ 32 c)
  | _, _ => []
  end.

Lemma drain_text_nil fuel fd : drain_text fuel fd [] = [].
Proof. by destruct fuel. Qed.

(** Draining a non-blocking pipe reads all of it, in order, into the buffer
    behind what is there, provided it fits. *)
Lemma drain_fd_wp fd id wr fw fuel c buf total (Q : bytes * Z -> P -> Prop) p :
  kfds p !! fd = Some (mk_ofile (OPipeR id) RDONLY true 0) ->
  kfds p !! wr = Some fw -> o_obj fw = OPipeW id -> pipes p !! id = Some c ->
  (length c < fuel)%nat -> 0 <= total -> total + lenZ c <= lenZ buf ->
  (forall buf', lenZ buf' = lenZ buf -> takeZ (total + lenZ c) buf' = takeZ total buf ++ c ->
     Q (buf', total + lenZ c)
       (with_io (kout p ++ drain_text fuel fd c) (kerr p) (kfaults p)
          (with_pipes (<[id := []]> (pipes p)) p))) ->
  st_wp (drain_fd fuel fd buf total) Q p.
Proof.
  revert c buf total p. induction fuel as [|fuel IH]; intros c buf total p Hf Hw Ho Hp Hl Ht Hfit HQ; [lia|].
  cbn [drain_fd]. wp_step. destruct c as [|b c].
  - eapply wp_kread_again; [done..|]. wp_step. specialize (HQ buf eq_refl).
    change (lenZ []) with 0 in HQ. rewrite Z.add_0_r, !app_nil_r in HQ.
    rewrite (insert_id (pipes p)) in HQ by done. specialize (HQ eq_refl). by destruct p.
  - eapply wp_kread_pipe; [done|done|done|].
    set (l := takeZ 32 (b :: c)). assert (El : exists l', l = b :: l') by (by eexists).
    assert (Hsplit : l ++ dropZ 32 (b :: c) = b :: c) by apply takeZ_dropZ.
    assert (Hlen : lenZ l + lenZ (dropZ 32 (b :: c)) = lenZ (b :: c)) by (by rewrite <- lenZ_app, Hsplit).
    assert (lenZ l > 0) by (destruct El as [l' ->]; unfold lenZ; cbn; lia).
    destruct (store_bytes buf total l) as [buf1|] eqn:E.
    2: { rewrite store_bytes_Some in E; [done|lia|]. pose proof (lenZ_nonneg (dropZ 32 (b :: c))). lia. }
    pose proof (store_bytes_length _ _ _ _ E). pose proof (takeZ_store _ _ _ _ E) as T.
    destruct El as [l' El]. rewrite El. rewrite <- El. wp_step. apply (wp_mem _ _ _ _ E).
    wp_step. apply wp_kprintf.
    assert (length (dropZ 32 (b :: c)) <= length c)%nat by (unfold dropZ; rewrite length_drop; cbn; lia).
    cbn in Hl. eapply IH; [done|done|done|apply lookup_insert_eq|lia|lia|lia|].
    intros buf' L' T'. replace (total + lenZ l + lenZ (dropZ 32 (b :: c))) with (total + lenZ (b :: c)) in * by lia.
    specialize (HQ buf' ltac:(congruence)). kcbn. rewrite insert_insert_eq.
    cbn [drain_text] in HQ. fold l in HQ. rewrite <- (assoc_L (++)). apply HQ.
    by rewrite T', T, <- (assoc_L (++)), Hsplit.
Qed.

Lemma length_concat_ge (ls : list bytes) l : l ∈ ls -> (length l <= length (concat ls))%nat.
Proof. induction 1 as [|? ? ? _ IH]; cbn [concat]; rewrite length_app; lia. Qed.

Lemma pipes_total_ge p id c : pipes p !! id = Some c -> (length c <= pipes_total p)%nat.
Proof.
  intros H. apply length_concat_ge, list_elem_of_fmap. exists (id, c). split; [done|].
  by apply elem_of_map_to_list.
Qed.

(** The ready list after data arrives in one of two watched pipes. *)
Lemma ep_wake_first i1 i2 :
  i_obj i1 <> i_obj i2 -> ep_wake (i_obj i1) (mk_epoll [i1; i2] []) = mk_epoll [i1; i2] [i1].
Proof.
  intros Hne. unfold ep_wake. cbn [ep_set ep_ready]. rewrite filter_cons_True by set_solver.
  rewrite filter_cons_False by naive_solver. by rewrite filter_nil.
Qed.

Lemma ep_wake_second i1 i2 :
  i_obj i1 <> i_obj i2 -> i_fd i1 <> i_fd i2 ->
  ep_wake (i_obj i2) (mk_epoll [i1; i2] [i1]) = mk_epoll [i1; i2] [i1; i2].
Proof.
  intros Hne Hf. unfold ep_wake. cbn [ep_set ep_ready]. rewrite filter_cons_False by naive_solver.
  rewrite filter_cons_True by set_solver. by rewrite filter_nil.
Qed.

Definition hello : bytes := bs "HelloWorld".

Definition session_text (rd : Z) : bytes :=
  format [FLit "1st epoll_wait returned "; FD 2; FLit " event(s), write again without read"; FRaw [x0a]] ++
  format [FLit "2nd epoll_wait returned "; FD 1; FLit " event(s)"; FRaw [x0a]] ++
  format [FLit "  fd="; FD rd; FLit " drained "; FD 10; FLit " bytes"; FRaw [x0a]] ++
  format [FLit " total get "; FD 10; FLit " bytes: "; FRaw hello; FLit " )"; FRaw [x0a]].

Definition out4 (e : io_env) (rd : Z) : bytes :=
  format (separator "Demo 4: epoll() — Level-Triggered & Edge-Triggered") ++
  if e_pipe4 e && e_pipe4' e && e_epoll4 e then session_text rd else [].

(** Descriptors the error paths of Demo 4 leave open. *)
Definition leaks (e : io_env) : nat :=
  if e_pipe4 e then if e_pipe4' e then if e_epoll4 e then 0 else 4 else 2 else 0.

Section session.
Context (epfd rd wr rd2 wr2 id id2 ep : Z).

(** The two pipes and the epoll instance as the session finds them. *)
Record session_start (p : P) : Prop := {
  s_epfd : kfds p !! epfd = Some (mk_ofile (OEpoll ep) RDWR false 0);
  s_rd : kfds p !! rd = Some (mk_ofile (OPipeR id) RDONLY true 0);
  s_wr : kfds p !! wr = Some (mk_ofile (OPipeW id) WRONLY false 0);
  s_rd2 : kfds p !! rd2 = Some (mk_ofile (OPipeR id2) RDONLY true 0);
  s_wr2 : kfds p !! wr2 = Some (mk_ofile (OPipeW id2) WRONLY false 0);
  s_p1 : pipes p !! id = Some [];
  s_p2 : pipes p !! id2 = Some [];
  s_ep : epolls p !! ep = Some (mk_epoll [] []);
  s_ids : id <> id2;
}.

Lemma session_wp buf p :
  session_start p -> lenZ buf = 32 ->
  st_wp (epoll_session epfd rd wr rd2 wr2 buf)
    (fun _ p' => kfds p' = kfds p /\ kfaults p' = kfaults p /\ names p' = names p /\
       inodes p' = inodes p /\ kout p' = kout p ++ session_text rd) p.
Proof.
  intros [Ee Er Ew Er2 Ew2 P1 P2 Ep Hid] Hb. destruct p as [t i n q eps o er fl []]. cbn in Ee, Er, Ew, Er2, Ew2, P1, P2, Ep.
  assert (Hr : rd <> rd2) by (intros ->; congruence).
  unfold epoll_session. repeat kstep.
  eapply wp_kepoll_add; [exact Ee|done|exact Ep|exact Er|set_solver|by eapply (readable_empty _ id wr)|].
  repeat kstep.
  eapply wp_kepoll_add; [exact Ee|done|klk|exact Er2|set_solver|by eapply (readable_empty _ id2 wr2)|].
  repeat kstep. eapply (wp_kwrite_pipe _ id _ _ _ rd); [exact Ew|exact Er|done|exact P1|done|].
  repeat kstep.
  eapply (wp_kwrite_pipe _ id2 _ _ [] rd2); [exact Ew2|exact Er2|done|kcbn; by rewrite lookup_insert_ne|done|].
  repeat kstep.
  set (i1 := mk_interest rd (OPipeR id) true). set (i2 := mk_interest rd2 (OPipeR id2) true).
  assert (Ho : i_obj i1 <> i_obj i2) by (cbn; congruence).
  rewrite !fmap_insert, !insert_insert_eq. cbn [ep_set ep_ready app].
  change (OPipeR id) with (i_obj i1). change (OPipeR id2) with (i_obj i2).
  rewrite ep_wake_first, ep_wake_second by done.
  eapply wp_kepoll_wait; [exact Ee|done|klk| |cbn; lia|].
  { repeat constructor; eapply readable_data; klk. }
  repeat kstep.
  eapply (wp_kwrite_pipe _ id _ _ (bs "Hello") rd); [exact Ew|exact Er|done|klk|done|].
  repeat kstep. rewrite !fmap_insert, !insert_insert_eq. cbn [ep_set ep_ready].
  change (OPipeR id) with (i_obj i1). rewrite ep_wake_first by done.
  eapply wp_kepoll_wait; [exact Ee|done|klk| |cbn; lia|].
  { repeat constructor. eapply readable_data; klk. }
  repeat kstep. change (default [] _) with [rd]. cbn [drain_all]. repeat kstep.
  eapply (drain_fd_wp _ id wr _ _ hello); [exact Er|exact Ew|done|klk| |done|by rewrite Hb|].
  { apply Nat.lt_succ_r, (pipes_total_ge _ id). klk. }
  intros buf' L T. change (takeZ 0 buf ++ hello) with hello in T. cbn [drain_text].
  change (dropZ 32 hello) with (@nil byte). rewrite drain_text_nil. repeat kstep.
  change (0 + lenZ hello) with (lenZ hello) in *.
  assert (E : store_bytes buf' (lenZ hello) [NUL]
              = Some (hello ++ [NUL] ++ dropZ (lenZ hello + 1) buf')).
  { rewrite store_bytes_Some; [by rewrite T|done|rewrite L, Hb; done]. }
  apply (wp_mem _ _ _ _ E). repeat kstep. split_and!; try done.
  cbn [fmt_piece]. unfold session_text. rewrite <- !(assoc_L (++)). do 4 f_equal.
  exact (app_nil_r _).
Qed.
End session.

(** [t'] is [t] with [n] more descriptors. *)
Definition grows (t t' : gmap Z ofile) (n : nat) : Prop := t ⊆ t' /\ size t' = (size t + n)%nat.

Lemma grows_insert t t' n k v :
  grows t t' n -> t' !! k = None -> grows t (<[k := v]> t') (S n).
Proof.
  intros [Hs Hn] Hk. split; [apply insert_subseteq_r; [by eapply lookup_weaken_None|done]|]. rewrite map_size_insert_None by done. lia.
Qed.

Lemma grows_update t t' n k v :
  grows t t' n -> t !! k = None -> is_Some (t' !! k) -> grows t (<[k := v]> t') n.
Proof.
  intros [Hs Hn] Hk [w Hw]. split; [|by rewrite map_size_insert_Some by (by exists w)].
  by apply insert_subseteq_r.
Qed.

Lemma demo4_wp e p :
  lenZ (e_buf4 e) = 32 ->
  st_wp (demo_epoll e)
    (fun _ p' => grows (kfds p) (kfds p') (leaks e) /\
       kfaults p' = kfaults p /\ names p' = names p /\ inodes p' = inodes p /\
       exists rd, kout p' = kout p ++ out4 e rd) p.
Proof.
  intros Hb. destruct p as [t i n q ep o er fl []]. unfold demo_epoll, out4, leaks. repeat kstep.
  assert (G0 : grows t t 0) by (split; [done|lia]).
  destruct (e_pipe4 e).
  2: { repeat kstep. split_and!; try done. exists 0. by rewrite app_nil_r. }
  apply wp_kpipe. intros id r w Hid Hr Hw Hne Hfr Hfw. cbn in Hid, Hfr, Hfw. kcbn. repeat kstep.
  set (t1 := <[r := _]> _).
  assert (G1 : grows t t1 2).
  { apply grows_update; [|done|rewrite lookup_insert_ne, lookup_insert_eq by done; eauto].
    apply grows_insert; [|by rewrite lookup_insert_ne]. by apply grows_insert. }
  destruct (e_pipe4' e).
  2: { repeat kstep. split_and!; try done. exists 0. by rewrite app_nil_r. }
  apply wp_kpipe. intros id2 r2 w2 Hid2 Hr2 Hw2 Hne2 Hfr2 Hfw2. cbn in Hid2, Hfr2, Hfw2. kcbn. repeat kstep.
  set (t2 := <[r2 := _]> _).
  assert (Hr2' : t !! r2 = None) by (by eapply lookup_weaken_None, G1).
  assert (Hw2' : t !! w2 = None) by (by eapply lookup_weaken_None, G1).
  assert (G2 : grows t t2 4).
  { apply grows_update; [|done|rewrite lookup_insert_ne, lookup_insert_eq by done; eauto].
    apply grows_insert; [|by rewrite lookup_insert_ne]. by apply grows_insert. }
  destruct (e_epoll4 e).
  2: { apply wp_ret. cbn [Z.ltb Z.compare]. repeat kstep. split_and!; try done. exists 0. by rewrite app_nil_r. }
  apply wp_kepoll_create. intros ef eid He Hfe. kcbn. cbn in Hfe.
  destruct (Z.ltb_spec ef 0); [lia|]. repeat kstep.
  apply lookup_insert_None in Hid2 as [_ Hids].
  unfold t1 in Hfr2, Hfw2. unfold t2, t1 in Hfe.
  repeat match goal with H : <[_ := _]> _ !! _ = None |- _ => apply lookup_insert_None in H as [H ?] end.
  eapply wp_mono; [apply (session_wp ef r w r2 w2 id id2 eid)|].
  { constructor; unfold t2, t1; first [done | klk]. }
  { done. }
  intros [] [t' i' n' q' ep' o' er' fl' []] (F & A & N & I & O). cbn in F, A, N, I. kcbn. subst.
  unfold t2, t1. repeat kstep. split_and!; try done.
  - match goal with |- grows t ?x _ => replace x with t by (symmetry; kmap) end. done.
  - exists r. cbn in O. by rewrite <- (assoc_L (++)) in O.
Qed.

(** ** The program *)

Definition out2 (e : io_env) : bytes :=
  format (separator "Demo 2: ioctl() — Terminal Window Size") ++
  match e_ioctl e with
  | Some ws =>
      format [FLit "Terminal: "; FD (ws_col ws); FLit " cols x "; FD (ws_row ws);
              FLit " rows   (pixel: "; FD (ws_xpixel ws); FLit " x "; FD (ws_ypixel ws); FLit ")"; FRaw [x0a]]
  | None =>
      format [FLit "ioctl TIOCGWINSZ not available (not a terminal): "; FRaw (e_strerror e); FRaw [x0a]]
  end.

Lemma demo2_wp e p :
  st_wp (demo_ioctl e) (fun _ p' => cleaned false path1 p p' /\ kout p' = kout p ++ out2 e) p.
Proof.
  unfold demo_ioctl, out2, cleaned. destruct p, (e_ioctl e); repeat kstep; by rewrite <- (assoc_L (++)).
Qed.

(** The arrays have their declared sizes, and the calls whose result the code
    does not check succeed. *)
Record io_ok (e : io_env) : Prop := {
  ok_buf1 : lenZ (e_buf1 e) = 256;
  ok_buf4 : lenZ (e_buf4 e) = 32;
  ok_r6 : let '(r1, r2, r3) := e_r6 e in lenZ r1 = 32 /\ lenZ r2 = 32 /\ lenZ r3 = 32;
  ok_read1 : e_read1 e = true;
  ok_src5 : e_src5 e = true;
  ok_src5' : e_src5' e = true;
  ok_dst5 : e_dst5 e = true;
  ok_open6 : e_open6 e = true;
}.

Definition transcript (e : io_env) (rd : Z) : bytes :=
  format [FLit "=== Embedded Linux Demo: File I/O & Multiplexing ==="; FRaw [x0a]] ++
  out1 e ++ out2 e ++ out3 e ++ out4 e rd ++ out5 ++ out6 ++
  format [FRaw [x0a]; FLit "[DONE] File I/O demo complete."; FRaw [x0a]].

(** [main] up to the copy of Demo 5, and the rest of it. *)
Definition until_copied (e : io_env) : ST P (Z * Z) :=
  kprintf [FLit "=== Embedded Linux Demo: File I/O & Multiplexing ==="; FRaw [x0a]] ;;
  demo_basic_fileio e ;;
  demo_ioctl e ;;
  demo_select e ;;
  demo_epoll e ;;
  send_copy e.
Definition after_copy (e : io_env) (src dst : Z) : ST P Z :=
  (kclose src ;; kclose dst ;; kunlink src_path ;; kunlink dst_path ;; mret tt) ;;
  demo_scatter_gather e ;;
  kprintf [FRaw [x0a]; FLit "[DONE] File I/O demo complete."; FRaw [x0a]] ;;
  mret 0.

Lemma main_split e p src dst p1 :
  until_copied e p = Some ((src, dst), p1) -> main e p = after_copy e src dst p1.
Proof.
  unfold main, until_copied, after_copy, demo_sendfile. unfold mbind, ST_bind.
  destruct (kprintf _ p) as [[[] q0]|]; [|done].
  destruct (demo_basic_fileio e q0) as [[[] q1]|]; [|done].
  destruct (demo_ioctl e q1) as [[[] q2]|]; [|done].
  destruct (demo_select e q2) as [[[] q3]|]; [|done].
  destruct (demo_epoll e q3) as [[[] q4]|]; [|done].
  intros ->. done.
Qed.

Lemma until_copied_wp e p :
  io_ok e -> fs_ok p -> (size (kfds p) < 1024)%nat ->
  (forall ino, names p !! src_path = Some ino -> names p !! dst_path <> Some ino) ->
  st_wp (until_copied e) (fun '(src, dst) p1 => exists p4 rd, copied p4 src dst p1 /\
    kout p4 = kout p ++ format [FLit "=== Embedded Linux Demo: File I/O & Multiplexing ==="; FRaw [x0a]] ++
                out1 e ++ out2 e ++ out3 e ++ out4 e rd /\
    grows (kfds p) (kfds p4) (leaks e) /\ kfaults p4 = kfaults p /\
    names p4 = if e_open1 e then delete path1 (names p) else names p) p.
Proof.
  intros [B1 B4 R6 R1 S5 S5' D5 O6] Hfs Hsz Hne.
  unfold until_copied. wp_step. apply wp_kprintf. wp_step.
  eapply wp_mono; [by apply demo1_wp|]. intros [] p1 ((F1 & A1 & N1 & I1) & O1). cbn in F1, A1, N1, I1.
  wp_step. eapply wp_mono; [by apply demo2_wp|]. intros [] p2 ((F2 & A2 & N2 & I2) & O2). cbn in F2, A2, N2, I2.
  wp_step. eapply wp_mono; [apply demo3_wp; by rewrite F2, F1|]. intros [] p3 ((F3 & A3 & N3 & I3) & O3). cbn in F3, A3, N3, I3.
  wp_step. eapply wp_mono; [by apply demo4_wp|]. intros [] p4 (G4 & A4 & N4 & I4 & rd & O4).
  assert (N : names p4 = if e_open1 e then delete path1 (names p) else names p) by congruence.
  eapply wp_mono; [apply send_copy_wp; try done|].
  { apply (fs_ok_sub p); [done| |by rewrite I4; etrans; [exact I1|]; etrans; [exact I2|]].
    rewrite N. destruct (e_open1 e); [apply delete_subseteq|done]. }
  { intros ino. rewrite N. destruct (e_open1 e); [|apply Hne]. rewrite !lookup_delete_ne by done. apply Hne. }
  intros [src dst] p1' Hc. exists p4, rd. split_and!; [done| |by rewrite F3, F2, F1 in G4|congruence|done].
  rewrite O4, O3, O2, O1. kcbn. by rewrite <- !(assoc_L (++)).
Qed.

(** C34: from any files, the two paths of Demo 5 not being links to one file,
    and fewer than 1024 descriptors, and whichever checked calls fail, when
    those that are not checked succeed ([io_ok]) the program ends with status
    0 without touching a descriptor that is not open or leaving an array.
    What was written to a file is what is read back: by [read] and by [readv]
    into the three buffers, as the lines printed say, and by [sendfile], after
    which the second file holds the hundred lines written to the first.  The
    edge-triggered waits report 2 and 1 descriptors and the drain gets the 10
    bytes of the first pipe; its files are gone again, and all descriptors are
    closed except those a failure in the epoll demo leaves open. *)
Theorem fileio_main e p :
  io_ok e -> fs_ok p -> (size (kfds p) < 1024)%nat ->
  (forall ino, names p !! src_path = Some ino -> names p !! dst_path <> Some ino) ->
  exists p' rd, main e p = Some (0, p') /\
    kout p' = kout p ++ transcript e rd /\
    grows (kfds p) (kfds p') (leaks e) /\ kfaults p' = kfaults p /\
    names p' = delete path6 (delete dst_path (delete src_path
                 (if e_open1 e then delete path1 (names p) else names p))) /\
    exists src dst p1, until_copied e p = Some ((src, dst), p1) /\ main e p = after_copy e src dst p1 /\
      (exists i j, names p1 !! src_path = Some i /\ names p1 !! dst_path = Some j /\ i <> j) /\
      file_at p1 src_path = Some (data_text 100 0) /\ file_at p1 dst_path = Some (data_text 100 0).
Proof.
  intros Hio Hfs Hsz Hne. pose proof (until_copied_wp e p Hio Hfs Hsz Hne) as Hu.
  apply wp_run in Hu as ([src dst] & p1 & Hu & p4 & rd & Hc & O4 & G4 & A4 & N4).
  pose proof (main_split _ _ _ _ _ Hu) as Hm.
  assert (H : st_wp (after_copy e src dst) (fun r p' => r = 0 /\
    kout p' = kout p ++ transcript e rd /\
    grows (kfds p) (kfds p') (leaks e) /\ kfaults p' = kfaults p /\
    names p' = delete path6 (delete dst_path (delete src_path
                 (if e_open1 e then delete path1 (names p) else names p)))) p1).
  { unfold after_copy. wp_step. eapply wp_mono; [by apply (send_done_wp p4)|].
    intros [] p5 (F5 & A5 & N5 & O5). wp_step.
    eapply wp_mono; [apply demo6_wp; apply Hio|]. intros [] p6 ((F6 & A6 & N6 & I6) & O6').
    wp_step. apply wp_kprintf. wp_step. kcbn. split_and!; [done| |by rewrite F6, F5|congruence|by rewrite N6, N5, N4].
    rewrite O6', O5, O4. unfold transcript. by rewrite <- !(assoc_L (++)). }
  apply wp_run in H as (r & p' & Hr & -> & H1 & H2 & H3 & H4). exists p', rd.
  split_and!; [congruence|done|done|done|done|]. exists src, dst, p1.
  destruct Hc as [_ (i & j & Hij & Hn) Hs Hd _ _].
  split_and!; try done. exists i, j. rewrite Hn, lookup_insert_ne, !lookup_insert_eq by done. done.
Qed.

(** ** Witness and boundary cases *)

Definition sunny : io_env :=
  {| e_open1 := true; e_read1 := true; e_buf1 := replicate 256 x41; e_ioctl := None;
     e_pipe3 := true; e_select1 := false; e_select2 := false;
     e_pipe4 := true; e_pipe4' := true; e_epoll4 := true; e_buf4 := replicate 32 x41;
     e_src5 := true; e_src5' := true; e_dst5 := true; e_open6 := true;
     e_r6 := (replicate 32 x41, replicate 32 x42, replicate 32 x43); e_strerror := bs "error" |}.

Definition tty : ofile := mk_ofile OOther RDWR false 0.
Definition io_boot : P := mk_kproc {[ 0 := tty; 1 := tty; 2 := tty ]} ∅ ∅ ∅ ∅ [] [] 0%nat tt.

Lemma fileio_main_witness :
  exists p' rd, main sunny io_boot = Some (0, p') /\ kout p' = transcript sunny rd /\ names p' = ∅.
Proof.
  destruct (fileio_main sunny io_boot) as (p' & rd & Hm & Ho & _ & _ & Hn & _).
  - constructor; vm_compute; repeat split.
  - intros path ino H. discriminate H.
  - vm_compute. lia.
  - intros ino H. discriminate H.
  - exists p', rd. split; [exact Hm|]. split; [exact Ho|exact Hn].
Defined.

(** With a failing [read] the terminator is stored before the array. *)
Example read_error_stores_before_buf :
  demo_basic_fileio {| e_open1 := true; e_read1 := false; e_buf1 := replicate 256 x41; e_ioctl := None;
     e_pipe3 := true; e_select1 := false; e_select2 := false;
     e_pipe4 := true; e_pipe4' := true; e_epoll4 := true; e_buf4 := replicate 32 x41;
     e_src5 := true; e_src5' := true; e_dst5 := true; e_open6 := true;
     e_r6 := ([], [], []); e_strerror := [] |} io_boot = None.
Proof. vm_compute. reflexivity. Qed.

(** A pipe with more than 32 bytes in it would be drained past the array. *)
Definition full_pipe : P :=
  mk_kproc {[ 3 := mk_ofile (OPipeR 0) RDONLY true 0; 4 := mk_ofile (OPipeW 0) WRONLY false 0 ]}
    ∅ ∅ {[ 0 := replicate 40 x41 ]} ∅ [] [] 0%nat tt.
Example drain_overflows : drain_all [3] (replicate 32 x00) 0 full_pipe = None.
Proof. vm_compute. reflexivity. Qed.

(** A process that inherits 1024 descriptors gets a pipe [FD_SET] has no bit for. *)
Definition crowded : P :=
  mk_kproc (list_to_map (imap (fun i _ => (Z.of_nat i, tty)) (replicate 1024 tt))) ∅ ∅ ∅ ∅ [] [] 0%nat tt.
Example select_outside_set : demo_select sunny crowded = None.
Proof. vm_compute. reflexivity. Qed.
