(* ===== verification/Signal.v ===== *)
(** * Signals of a process

    Dispositions, the signal mask, pending signals and delivery, as Linux
    does them for a process with one thread; used by the signal and timer
    demos (src/04_signals, src/08_timers).

    A program is cut into statements.  At the end of each, the environment may
    have sent signals ([arrive]); a pending signal that is not blocked is then
    delivered before the next statement runs, and its handler is itself a
    sequence of such statements, so that handlers nest exactly as the masks
    allow.  [boundary] is that moment.  Its fuel bounds the number of signals
    it can deliver; the weight of a state (pending signals and signals still
    to come) is enough. *)

From S2P Require Import Prelude CLib.

Local Open Scope Z_scope.

Definition SIGINT : Z := 2.
Definition SIGUSR1 : Z := 10.
Definition SIGUSR2 : Z := 12.
Definition SIGPIPE : Z := 13.
Definition SIGALRM : Z := 14.
Definition SIGTERM : Z := 15.
Definition SIGRTMIN : Z := 34.

(** ** Code that may be killed by a signal *)

Definition PM (S A : Type) : Type := S -> option ((A + Z) * S).

#[export] Instance PM_ret S : MRet (PM S) := fun A a s => Some (inl a, s).
#[export] Instance PM_bind S : MBind (PM S) := fun A B k c s =>
  match c s with
  | Some (inl a, s') => k a s'
  | Some (inr sig, s') => Some (inr sig, s')
  | None => None
  end.
Definition lift {S A} (m : ST S A) : PM S A := fun s =>
  match m s with Some (a, s') => Some (inl a, s') | None => None end.

(** [m] returns normally from [s], in a state that satisfies [Q]. *)
Definition pm_wp {S A} (m : PM S A) (Q : A -> S -> Prop) (s : S) : Prop :=
  match m s with Some (inl a, s') => Q a s' | _ => False end.

Lemma pm_wp_ret {S A} (a : A) (Q : A -> S -> Prop) s : Q a s -> pm_wp (mret a) Q s.
Proof. done. Qed.

Lemma pm_wp_bind {S A B} (m : PM S A) (k : A -> PM S B) (Q : B -> S -> Prop) s :
  pm_wp m (fun a => pm_wp (k a) Q) s -> pm_wp (m ≫= k) Q s.
Proof. unfold pm_wp, mbind, PM_bind. by destruct (m s) as [[[a|sig] s']|]. Qed.

Lemma pm_wp_mono {S A} (m : PM S A) (Q R : A -> S -> Prop) s :
  pm_wp m Q s -> (forall a s', Q a s' -> R a s') -> pm_wp m R s.
Proof. unfold pm_wp. destruct (m s) as [[[a|sig] s']|]; eauto. Qed.

Lemma pm_wp_lift {S A} (m : ST S A) (Q : A -> S -> Prop) s : st_wp m Q s -> pm_wp (lift m) Q s.
Proof. unfold st_wp, pm_wp, lift. by destruct (m s) as [[a s']|]. Qed.

Lemma pm_wp_run {S A} (m : PM S A) (Q : A -> S -> Prop) s :
  pm_wp m Q s <-> exists a s', m s = Some (inl a, s') /\ Q a s'.
Proof.
  unfold pm_wp. split.
  - destruct (m s) as [[[a|sig] s']|]; [|done..]. eauto.
  - by intros (a & s' & -> & H).
Qed.

(** ** Signal state *)

Section signals.
Context {H : Type}.      (* the handlers of the program *)

Inductive disp := SIG_DFL | SIG_IGN | SIG_FN (h : H).

Record sigact := mk_sigact { sa_handler : disp; sa_mask : gset Z }.
Record siginfo := mk_siginfo { si_signo : Z; si_value : Z }.

Record sigs := mk_sigs {
  acts : gmap Z sigact;          (* no entry: SIG_DFL *)
  blocked : gset Z;
  pending : list siginfo;
  handled : list siginfo;        (* the signals for which a handler was entered *)
}.

Definition action (g : sigs) (sig : Z) : sigact := default (mk_sigact SIG_DFL ∅) (acts g !! sig).

(** Signals whose default action is to be ignored: SIGCHLD, SIGCONT, SIGURG, SIGWINCH. *)
Definition default_ignored (sig : Z) : bool := (sig =? 17) || (sig =? 18) || (sig =? 23) || (sig =? 28).

Definition ignores (sig : Z) (d : disp) : bool :=
  match d with SIG_IGN => true | SIG_DFL => default_ignored sig | SIG_FN _ => false end.

Definition valid_sig (sig : Z) : bool :=
  (1 <=? sig) && (sig <=? 64) && negb (sig =? 9) && negb (sig =? 19).

(** [sigaction]: an ignoring disposition also discards pending instances. *)
Definition set_action (sig : Z) (a : sigact) (g : sigs) : sigs :=
  mk_sigs (<[sig := a]> (acts g)) (blocked g)
    (if ignores sig (sa_handler a) then filter (fun i => si_signo i <> sig) (pending g) else pending g)
    (handled g).

Definition set_blocked (b : gset Z) (g : sigs) : sigs :=
  mk_sigs (acts g) b (pending g) (handled g).

(** A signal is generated.  An ignored signal is discarded, unless it is
    blocked; a standard signal that is already pending is not queued again. *)
Definition send (i : siginfo) (g : sigs) : sigs :=
  if ignores (si_signo i) (sa_handler (action g (si_signo i))) && negb (bool_decide (si_signo i ∈ blocked g))
  then g
  else if (si_signo i <? 32) && bool_decide (si_signo i ∈ (si_signo <$> pending g))
  then g
  else mk_sigs (acts g) (blocked g) (pending g ++ [i]) (handled g).

Definition send_all (l : list siginfo) (g : sigs) : sigs := foldl (fun g i => send i g) g l.

(** The first of the signals with the lowest number. *)
Fixpoint best (l : list siginfo) : option siginfo :=
  match l with
  | [] => None
  | i :: l =>
      match best l with
      | Some j => if si_signo j <? si_signo i then Some j else Some i
      | None => Some i
      end
  end.

(** Take the first instance of signal [sig] out of the queue. *)
Fixpoint dequeue (sig : Z) (l : list siginfo) : list siginfo :=
  match l with
  | [] => []
  | i :: l => if si_signo i =? sig then l else i :: dequeue sig l
  end.

Definition next (g : sigs) : option siginfo :=
  best (filter (fun i => si_signo i ∉ blocked g) (pending g)).

Definition take_signal (i : siginfo) (g : sigs) : sigs :=
  mk_sigs (acts g) (blocked g) (dequeue (si_signo i) (pending g)) (handled g).

(** Entering a handler blocks its signal and the signals of its [sa_mask]. *)
Definition enter (i : siginfo) (g : sigs) : sigs :=
  mk_sigs (acts g) (blocked g ∪ sa_mask (action g (si_signo i)) ∪ {[si_signo i]})
    (dequeue (si_signo i) (pending g)) (handled g ++ [i]).

(** ** Delivery *)

Section deliver.
Context {S : Type} (sigs_of : S -> sigs) (set_sigs : sigs -> S -> S).
Context (arrive : S -> S) (body : PM S unit -> H -> siginfo -> PM S unit).

Fixpoint boundary (fuel : nat) : PM S unit := fun s =>
  match fuel with
  | O => None
  | Datatypes.S fuel =>
      let s := arrive s in
      let g := sigs_of s in
      match next g with
      | None => Some (inl tt, s)
      | Some i =>
          match sa_handler (action g (si_signo i)) with
          | SIG_FN h =>
              (body (boundary fuel) h i ≫= fun _ =>
               lift (st_modify (fun s => set_sigs (set_blocked (blocked g) (sigs_of s)) s)) ≫= fun _ =>
               boundary fuel) (set_sigs (enter i g) s)
          | d =>
              if ignores (si_signo i) d then boundary fuel (set_sigs (take_signal i g) s)
              else Some (inr (si_signo i), set_sigs (take_signal i g) s)
          end
      end
  end.
End deliver.
End signals.
Arguments disp : clear implicits.
Arguments sigact : clear implicits.
Arguments sigs : clear implicits.

(** ** Facts about the queue *)

Section facts.
Context {H : Type}.
Implicit Types (g : sigs H) (l : list siginfo).

Lemma best_None l : best l = None -> l = [].
Proof. destruct l as [|i l]; [done|]. simpl. destruct (best l) as [j|]; [case_match|]; done. Qed.

Lemma best_elem l i : best l = Some i -> i ∈ l.
Proof.
  revert i. induction l as [|j l IH]; intros i; simpl; [done|].
  destruct (best l) as [k|]; [|intros; simplify_eq; constructor].
  case_match; intros; simplify_eq; constructor. by apply IH.
Qed.

Lemma next_Some g i : next g = Some i -> i ∈ pending g /\ si_signo i ∉ blocked g.
Proof. intros E%best_elem. by apply list_elem_of_filter in E as [? ?]. Qed.

Lemma next_None g i : next g = None -> i ∈ pending g -> si_signo i ∈ blocked g.
Proof.
  intros E%best_None Hi. destruct (decide (si_signo i ∈ blocked g)); [done|].
  assert (i ∈ filter (fun i => si_signo i ∉ blocked g) (pending g)) as X by by apply list_elem_of_filter.
  rewrite E in X. by apply not_elem_of_nil in X.
Qed.

Lemma dequeue_length sig l : sig ∈ (si_signo <$> l) -> length l = S (length (dequeue sig l)).
Proof.
  induction l as [|i l IH]; cbn [dequeue fmap list_fmap]; [by intros ?%not_elem_of_nil|].
  intros Hs. destruct (Z.eqb_spec (si_signo i) sig) as [E|E]; [done|].
  apply elem_of_cons in Hs as [?|Hs]; [congruence|]. cbn. by rewrite <- (IH Hs).
Qed.

Lemma dequeue_sub sig l i : i ∈ dequeue sig l -> i ∈ l.
Proof.
  induction l as [|j l IH]; cbn [dequeue]; [done|]. case_test; intros Hi; [by constructor|].
  apply elem_of_cons in Hi as [->|Hi]; constructor. by apply IH.
Qed.

Lemma send_spec i g :
  (pending (send i g) = pending g \/ pending (send i g) = pending g ++ [i]) /\
  acts (send i g) = acts g /\ blocked (send i g) = blocked g /\ handled (send i g) = handled g.
Proof. unfold send. repeat case_test; cbn; auto. Qed.

Lemma send_all_spec l g :
  (forall i, i ∈ pending (send_all l g) -> i ∈ pending g \/ i ∈ l) /\
  pending g ⊆ pending (send_all l g) /\
  (length (pending (send_all l g)) <= length (pending g) + length l)%nat /\
  acts (send_all l g) = acts g /\ blocked (send_all l g) = blocked g /\ handled (send_all l g) = handled g.
Proof.
  revert g. induction l as [|i l IH]; intros g; cbn [send_all foldl].
  - cbn. split_and!; auto. lia.
  - destruct (IH (send i g)) as (H1 & H0 & H2 & H3 & H4 & H5).
    destruct (send_spec i g) as (Hp & Ha & Hb & Hh).
    assert (L : (length (pending (send i g)) <= length (pending g) + 1)%nat)
      by (destruct Hp as [-> | ->]; rewrite ?length_app; cbn; lia).
    assert (pending g ⊆ pending (send i g)) by (destruct Hp as [-> | ->]; set_solver).
    unfold send_all in *. split_and!; [|set_solver|cbn [length]; lia|congruence..].
    intros j [Hj|Hj]%H1; [|right; by constructor].
    destruct Hp as [E|E]; rewrite E in Hj; [by left|].
    apply elem_of_app in Hj as [Hj|Hj%list_elem_of_singleton]; [by left|right; subst; constructor].
Qed.
End facts.

(** ** Reasoning about delivery

    [I] is an invariant under which no deliverable signal kills the process,
    [R] relates the state before to the state after, and [weight] bounds the
    signals that can still be delivered. *)
Section rule.
Context {H S : Type} (sigs_of : S -> sigs H) (set_sigs : sigs H -> S -> S).
Context (arrive : S -> S) (body : PM S unit -> H -> siginfo -> PM S unit).
Context (weight : S -> nat) (I : S -> Prop) (R : S -> S -> Prop) `{!PreOrder R}.

Definition restore (b : gset Z) : PM S unit :=
  lift (st_modify (fun s => set_sigs (set_blocked b (sigs_of s)) s)).

(** What a boundary promises to the statements around it. *)
Definition tick_ok (n : nat) (tick : PM S unit) : Prop :=
  forall s, I s -> (weight s <= n)%nat ->
  pm_wp tick (fun _ s' => I s' /\ R s s' /\ (weight s' <= weight s)%nat) s.

Hypothesis arrive_ok : forall s,
  I s -> I (arrive s) /\ R s (arrive s) /\ (weight (arrive s) <= weight s)%nat.
Hypothesis caught : forall s i,
  I s -> next (sigs_of s) = Some i ->
  (0 < weight s)%nat /\ exists h, sa_handler (action (sigs_of s) (si_signo i)) = SIG_FN h.
Hypothesis handler_ok : forall n tick s i h,
  I s -> next (sigs_of s) = Some i -> sa_handler (action (sigs_of s) (si_signo i)) = SIG_FN h ->
  (weight s <= n + 1)%nat -> tick_ok n tick ->
  pm_wp (body tick h i)
    (fun _ s' => let s' := set_sigs (set_blocked (blocked (sigs_of s)) (sigs_of s')) s' in
                 I s' /\ R s s' /\ (weight s' < weight s)%nat)
    (set_sigs (enter i (sigs_of s)) s).

Lemma boundary_wp fuel s :
  I s -> (weight s < fuel)%nat ->
  pm_wp (boundary sigs_of set_sigs arrive body fuel)
    (fun _ s' => I s' /\ R (arrive s) s' /\ (weight s' <= weight s)%nat /\ next (sigs_of s') = None) s.
Proof.
  revert s. induction fuel as [|fuel IH]; intros s Hs Hw; [lia|].
  destruct (arrive_ok s Hs) as (Ha & Hr & Hwa). unfold pm_wp. cbn [boundary].
  destruct (next (sigs_of (arrive s))) as [i|] eqn:En; [|by split_and!].
  destruct (caught _ _ Ha En) as [H0 [h Eh]]. rewrite Eh.
  assert (Ht : tick_ok (fuel - 1) (boundary sigs_of set_sigs arrive body fuel)).
  { intros s2 H2 Hw2. eapply pm_wp_mono; [apply IH; [done|lia]|].
    intros [] s3 (Hi3 & Hr3 & Hw3 & _). destruct (arrive_ok s2 H2) as (_ & Hr2 & _).
    split_and!; [done|by etrans|done]. }
  set (s1 := arrive s) in *.
  assert (Hn : (weight s1 <= fuel - 1 + 1)%nat) by lia.
  pose proof (handler_ok _ _ _ _ _ Ha En Eh Hn Ht) as Hb.
  change (pm_wp (body (boundary sigs_of set_sigs arrive body fuel) h i ≫= fun _ =>
     restore (blocked (sigs_of s1)) ≫= fun _ => boundary sigs_of set_sigs arrive body fuel)
     (fun _ s' => I s' /\ R s1 s' /\ (weight s' <= weight s)%nat /\ next (sigs_of s') = None)
     (set_sigs (enter i (sigs_of s1)) s1)).
  apply pm_wp_bind. eapply pm_wp_mono; [exact Hb|]. intros [] s2 (Hi2 & Hr2 & Hw2). cbv beta.
  apply pm_wp_bind. apply pm_wp_lift, wp_modify. eapply pm_wp_mono; [apply IH; [done|lia]|].
  intros [] s3 (Hi3 & Hr3 & Hw3 & Hn3). split_and!; [done| |lia|done].
  destruct (arrive_ok _ Hi2) as (_ & Hra & _). etrans; [exact Hr2|]. by etrans.
Qed.
End rule.

(** One delivery, when nothing arrives. *)
Lemma boundary_handle {H S} (sigs_of : S -> sigs H) set_sigs arrive body n i h (Q : unit -> S -> Prop) s :
  arrive s = s -> next (sigs_of s) = Some i -> sa_handler (action (sigs_of s) (si_signo i)) = SIG_FN h ->
  pm_wp (body (boundary sigs_of set_sigs arrive body n) h i)
    (fun _ s' => pm_wp (boundary sigs_of set_sigs arrive body n) Q
                   (set_sigs (set_blocked (blocked (sigs_of s)) (sigs_of s')) s'))
    (set_sigs (enter i (sigs_of s)) s) ->
  pm_wp (boundary sigs_of set_sigs arrive body (Datatypes.S n)) Q s.
Proof.
  intros Ha Hn Hh Hb. unfold pm_wp at 1. cbn [boundary]. rewrite Ha, Hn, Hh.
  change (pm_wp (body (boundary sigs_of set_sigs arrive body n) h i ≫= fun _ =>
    restore sigs_of set_sigs (blocked (sigs_of s)) ≫= fun _ => boundary sigs_of set_sigs arrive body n) Q
    (set_sigs (enter i (sigs_of s)) s)).
  apply pm_wp_bind. eapply pm_wp_mono; [exact Hb|]. intros [] s' Hs'. cbv beta.
  apply pm_wp_bind. apply pm_wp_lift, wp_modify. exact Hs'.
Qed.
