(* ===== verification/SignalDemo.v ===== *)
(** * The signal demos

    src/04_signals/signal_demo.c, over the signals of Signal.v and the
    descriptors of Files.v.  Every statement of the program and of its
    handlers is followed by a boundary at which signals sent by other
    processes (Ctrl-C, [kill]) may arrive and be delivered; [env] is the list
    of what arrives, one entry per boundary, empty ever after.  [pid] is the
    process id. *)

From S2P Require Import Prelude CLib Files Signal.

Local Open Scope Z_scope.

Inductive handler := H_int1 | H_int3 | H_rt | H_pipe.
#[export] Instance handler_eq_dec : EqDecision handler.
Proof. solve_decision. Defined.

(** Signals arriving at one boundary; if the statement is a sleep they cut
    short, how much of it is left. *)
Record moment := mk_moment { m_sigs : list Z; m_left : Z }.

(** The globals, the signal state and the environment. *)
Record globals := mk_globals {
  g_sigint_count : Z;
  g_rt_recv : Z;
  g_rt_val : Z;
  g_pipe_fds : Z * Z;
  g_sigs : sigs handler;
  env : list moment;
}.
Definition P := kproc globals.

Definition set_count v x := mk_globals v (g_rt_recv x) (g_rt_val x) (g_pipe_fds x) (g_sigs x) (env x).
Definition set_rt r v x := mk_globals (g_sigint_count x) r v (g_pipe_fds x) (g_sigs x) (env x).
Definition set_pipe_fds f x := mk_globals (g_sigint_count x) (g_rt_recv x) (g_rt_val x) f (g_sigs x) (env x).
Definition set_gsigs g x := mk_globals (g_sigint_count x) (g_rt_recv x) (g_rt_val x) (g_pipe_fds x) g (env x).
Definition set_env e x := mk_globals (g_sigint_count x) (g_rt_recv x) (g_rt_val x) (g_pipe_fds x) (g_sigs x) e.

Definition upd (f : globals -> globals) (p : P) : P := with_kext (f (kext p)) p.
Definition sigs_of (p : P) : sigs handler := g_sigs (kext p).
Definition set_sigs (g : sigs handler) : P -> P := upd (set_gsigs g).

Definition arrive (p : P) : P :=
  match env (kext p) with
  | [] => p
  | m :: ms => upd (set_env ms) (set_sigs (send_all ((fun s => mk_siginfo s 0) <$> m_sigs m) (sigs_of p)) p)
  end.

(** Compute the fields of a state built by the operations. *)
Ltac scbn :=
  unfold set_sigs, upd, sigs_of in *;
  cbn [kfds inodes names pipes epolls kout kerr kfaults kext with_kext with_io with_fds with_pipes
       with_epolls g_sigint_count g_rt_recv g_rt_val g_pipe_fds g_sigs env set_count set_rt set_pipe_fds
       set_gsigs set_env acts blocked pending handled enter set_blocked take_signal set_action] in *.

Section program.
Context (pid : Z) (strerror : bytes).   (* strerror: the C library's text in perror *)

(** An access outside an array, or overflow of an [int], is undefined. *)
Definition mem {A} (o : option A) : ST P A := match o with Some a => mret a | None => st_stuck end.

(** ** The handlers *)

Section handlers.
Context (tick : PM P unit).

Definition caught_line (signo : Z) : list fmt := [FLit "[SIGNAL] Caught signal "; FD signo; FRaw [x0a]].

(** [g_sigint_count++] is a load and a store: a signal may come between them. *)
Definition incr_count : PM P unit :=
  v ← lift (p ← st_get; mret (g_sigint_count (kext p)));
  tick ;;
  lift (if v + 1 <? 2 ^ 31 then st_modify (upd (set_count (v + 1))) else st_stuck) ;;
  tick.

Definition sigint_handler_1_arg (signo : Z) : PM P unit :=
  msg ← lift (mem (store_bytes (replicate 100 NUL) 0 (format (caught_line signo) ++ [NUL])));
  tick ;;
  lift (kwrite 1 (cstr msg)) ;;
  tick ;;
  incr_count.

Definition sigint_handler_3_arg (signo : Z) : PM P unit :=
  lift (kwrite 1 (format [FLit "[SIGNAL] Caught SIGINT"; FRaw [x0a]])) ;;
  tick ;;
  incr_count.

Definition rt_handler (info : siginfo) : PM P unit :=
  lift (st_modify (upd (fun x => set_rt 1 (g_rt_val x) x))) ;;
  tick ;;
  lift (st_modify (upd (fun x => set_rt (g_rt_recv x) (si_value info) x))) ;;
  tick ;;
  lift (kwrite 1 (format [FLit "[RT SIGNAL] received"; FRaw [x0a]])) ;;
  tick.

Definition pipe_sig_handler (signo : Z) : PM P unit :=
  lift (p ← st_get; kwrite (g_pipe_fds (kext p)).2 (bs "S")) ;;
  tick.

Definition handle (h : handler) (i : siginfo) : PM P unit :=
  match h with
  | H_int1 => sigint_handler_1_arg (si_signo i)
  | H_int3 => sigint_handler_3_arg (si_signo i)
  | H_rt => rt_handler i
  | H_pipe => pipe_sig_handler (si_signo i)
  end.
End handlers.

(** Signals pending and still to come. *)
Definition weight (p : P) : nat :=
  length (pending (sigs_of p)) + sum_list_with (fun m => length (m_sigs m)) (env (kext p)).

Definition tick : PM P unit := fun p => boundary sigs_of set_sigs arrive handle (S (weight p)) p.

(** A statement of the main program and the boundary after it. *)
Definition stmt {A} (m : ST P A) : PM P A := a ← lift m; tick ;; mret a.

Definition printf (f : list fmt) : PM P unit := stmt (kprintf f).

(** ** Calls *)

(** [signal]: the old disposition; [None] is SIG_ERR. *)
Definition signal (sig : Z) (d : disp handler) : PM P (option (disp handler)) :=
  stmt (p ← st_get;
        if valid_sig sig
        then st_modify (set_sigs (set_action sig (mk_sigact d ∅) (sigs_of p))) ;;
             mret (Some (sa_handler (action (sigs_of p) sig)))
        else mret None).

Definition sigaction (sig : Z) (d : disp handler) (mask : gset Z) : PM P Z :=
  stmt (p ← st_get;
        if valid_sig sig
        then st_modify (set_sigs (set_action sig (mk_sigact d mask) (sigs_of p))) ;; mret 0
        else mret (-1)).

(** [raise], [kill(getpid(), sig)] and [sigqueue(getpid(), sig, value)] *)
Definition sigqueue (sig value : Z) : PM P unit :=
  stmt (st_modify (fun p => set_sigs (send (mk_siginfo sig value) (sigs_of p)) p)).
Definition raise (sig : Z) : PM P unit := sigqueue sig 0.

Definition sig_block (s : gset Z) : PM P (gset Z) :=
  stmt (p ← st_get; st_modify (set_sigs (set_blocked (blocked (sigs_of p) ∪ s) (sigs_of p))) ;;
        mret (blocked (sigs_of p))).
Definition sig_setmask (s : gset Z) : PM P unit :=
  stmt (p ← st_get; st_modify (set_sigs (set_blocked s (sigs_of p)))).
Definition sigpending : PM P (gset Z) :=
  stmt (p ← st_get; mret (list_to_set (filter (fun s => s ∈ blocked (sigs_of p))
                                              (si_signo <$> pending (sigs_of p))))).

(** A sleep of [r] units (seconds, nanoseconds): [Some left] if a handler ran
    meanwhile.  Nothing but a handled signal cuts it short. *)
Definition sleep_for (r : Z) : PM P (option Z) :=
  p ← lift st_get;
  tick ;;
  p' ← lift st_get;
  mret (if (length (handled (sigs_of p)) <? length (handled (sigs_of p')))%nat
        then Some (Z.max 0 (Z.min r (from_option m_left 0 (head (env (kext p))))))
        else None).

(** ** Demo 0 *)

(** [while (remaining > 0) remaining = sleep(remaining);]  A turn that is not
    the last uses up an entry of the environment. *)
Fixpoint sleep_loop (fuel : nat) (remaining : Z) : PM P unit :=
  if 0 <? remaining then
    match fuel with
    | O => fun _ => None
    | S fuel => r ← sleep_for remaining; sleep_loop fuel (default 0 r)
    end
  else mret tt.
Definition sleep_all (secs : Z) : PM P unit := fun p => sleep_loop (S (length (env (kext p)))) secs p.

(** Two signals to oneself, then the wait for others. *)
Definition raise_and_sleep : PM P unit := raise SIGINT ;; raise SIGTERM ;; sleep_all 10.

Definition demo_signal : PM P unit :=
  printf (separator "Demo 0: signal() —  Handler") ;;
  printf [FLit "press ctrl+c to rais a SIGINT signal,         or send SIGTERM by [kill pid="; FD pid;
          FLit "]"; FRaw [x0a]] ;;
  old_handler ← signal SIGINT (SIG_FN H_int1);
  term_handler ← signal SIGTERM (SIG_FN H_int1);
  match old_handler, term_handler with
  | Some old_handler, Some term_handler =>
      raise_and_sleep ;;
      signal SIGINT old_handler ;;
      signal SIGTERM term_handler ;;
      p ← lift st_get;
      printf [FLit "g_sigint_count = "; FD (g_sigint_count (kext p)); FRaw [x0a]]
  | _, _ => stmt (kperror "signal error" strerror)
  end.

(** ** Demo 1 *)

(** [while (nanosleep(&ts, &ts) == -1 && errno == EINTR);] *)
Fixpoint nanosleep_loop (fuel : nat) (ts : Z) : PM P unit :=
  match fuel with
  | O => fun _ => None
  | S fuel =>
      r ← sleep_for ts;
      match r with Some ts => nanosleep_loop fuel ts | None => mret tt end
  end.
Definition nanosleep_all (ts : Z) : PM P unit := fun p => nanosleep_loop (S (S (length (env (kext p))))) ts p.

Definition raise_and_nanosleep : PM P unit :=
  raise SIGINT ;; raise SIGTERM ;; nanosleep_all (10 * 1000000000 + 500000000).

Definition demo_sigaction : PM P unit :=
  printf (separator "Demo 1: sigaction() — Reliable Handler") ;;
  stmt (st_modify (upd (set_count 0))) ;;
  let mask : gset Z := {[SIGTERM]} in
  r ← sigaction SIGINT (SIG_FN H_int1) mask;
  if r =? -1 then stmt (kperror "sigaction sig int" strerror)
  else
  r ← sigaction SIGTERM (SIG_FN H_int1) mask;
  if r =? -1 then stmt (kperror "sigaction sig term" strerror)
  else
  printf [FLit "Sending 2 SIGINT to self with raise()…"; FRaw [x0a]] ;;
  printf [FLit "press ctrl+c also raise SIGINT"; FRaw [x0a]] ;;
  printf [FLit "try to raise SIGTERM by [kill "; FD pid; FLit "] by sleep in the handler"; FRaw [x0a]] ;;
  raise_and_nanosleep ;;
  p ← lift st_get;
  printf [FLit "g_sigint_count = "; FD (g_sigint_count (kext p)); FLit ")"; FRaw [x0a]] ;;
  sigaction SIGINT SIG_DFL mask ;;
  mret tt.

(** ** Demo 2 *)

Definition demo_sigprocmask : PM P unit :=
  printf (separator "Demo 2: sigprocmask() — Block / Unblock") ;;
  old_set ← sig_block {[SIGUSR1]};
  printf [FLit "SIGUSR1 blocked. Sending it now — it won't be delivered yet."; FRaw [x0a]] ;;
  raise SIGUSR1 ;;
  pend ← sigpending;
  (if decide (SIGUSR1 ∈ pend) then printf [FLit "SIGUSR1 is PENDING (queued by kernel)"; FRaw [x0a]]
   else mret tt) ;;
  sigaction SIGUSR1 SIG_IGN ∅ ;;
  sig_setmask old_set ;;
  printf [FLit "SIGUSR1 unblocked (and ignored)."; FRaw [x0a]].

(** ** Demo 3 *)

Definition demo_realtime_signal : PM P unit :=
  printf (separator "Demo 3: Real-time Signal + sigqueue()") ;;
  let rtsig := SIGRTMIN + 1 in
  printf [FLit "Using signal SIGRTMIN+1 = "; FD rtsig; FRaw [x0a]] ;;
  sigaction rtsig (SIG_FN H_rt) ∅ ;;
  let sival_int := 12345 in
  printf [FLit "Sending RT signal with data "; FD sival_int; FLit " via sigqueue()…"; FRaw [x0a]] ;;
  sigqueue rtsig sival_int ;;
  sleep_for 10000 ;;
  p ← lift st_get;
  printf [FLit "Received="; FD (g_rt_recv (kext p)); FLit ", value="; FD (g_rt_val (kext p)); FRaw [x0a]].

(** ** Demo 4 *)

Definition demo_self_pipe (ok : bool) : PM P unit :=
  printf (separator "Demo 4: Self-Pipe Trick") ;;
  pr ← stmt (kpipe ok);
  match pr with None => stmt (kperror "pipe" strerror) | Some fds =>
  stmt (st_modify (upd (set_pipe_fds fds))) ;;
  stmt (set_nonblock fds.2 true) ;;
  sigaction SIGUSR2 (SIG_FN H_pipe) ∅ ;;
  printf [FLit "Sending SIGUSR2 — handler writes to pipe…"; FRaw [x0a]] ;;
  raise SIGUSR2 ;;
  r ← stmt (kread fds.1 8);
  (match r with
   | Some (b :: l) =>
       printf [FLit "Read "; FD (lenZ (b :: l)); FLit " byte(s) from self-pipe — signal safely converted!"; FRaw [x0a]]
   | _ => mret tt
   end) ;;
  stmt (kclose fds.1) ;;
  stmt (kclose fds.2) ;; mret tt
  end.

(** [buf] is uninitialised; [buf[0]] is printed. *)
Definition demo_pipe (ok : bool) (buf : bytes) : PM P unit :=
  printf (separator "Demo 4.1: Self-Pipe Trick simple") ;;
  pr ← stmt (kpipe ok);
  match pr with None => stmt (kperror "pipe" strerror) | Some fds =>
  stmt (st_modify (upd (set_pipe_fds fds))) ;;
  stmt (kwrite fds.2 (bs "A")) ;;
  r ← stmt (kread fds.1 1);
  buf ← lift (mem (store_bytes buf 0 (default [] r)));
  c ← lift (mem (load_bytes buf 0 1));
  printf [FLit "pip read amout "; FD (match r with Some l => lenZ l | None => -1 end); FLit ": "; FRaw c] ;;
  stmt (kclose fds.1) ;;
  stmt (kclose fds.2) ;; mret tt
  end.

(** ** Demo 5 *)

(** [read] on a signalfd: the pending signal of the set that comes first;
    with none it would wait for ever. *)
Definition read_signalfd (fd : Z) (mask : gset Z) : ST P (option siginfo) :=
  f ← getf fd;
  match f with
  | None => mret None
  | Some _ => p ← st_get;
      match best (filter (fun i => si_signo i ∈ mask) (pending (sigs_of p))) with
      | Some i => st_modify (set_sigs (take_signal i (sigs_of p))) ;; mret (Some i)
      | None => st_stuck
      end
  end.

Definition demo_signalfd (ok : bool) : PM P unit :=
  printf (separator "Demo 5: signalfd() — Read Signals Like a File") ;;
  let mask : gset Z := {[SIGUSR1]} in
  sig_block mask ;;
  sfd ← stmt (if ok then install (mk_ofile OOther RDONLY false 0) else mret (-1));
  if sfd =? -1 then stmt (kperror "signalfd" strerror)
  else
  printf [FLit "Sending SIGUSR1 — will be read via signalfd…"; FRaw [x0a]] ;;
  raise SIGUSR1 ;;
  s ← stmt (read_signalfd sfd mask);
  (match s with
   | Some i => printf [FLit "signalfd read: signo="; FD (si_signo i); FLit ", PID="; FD pid; FRaw [x0a]]
   | None => mret tt
   end) ;;
  stmt (kclose sfd) ;; mret tt.

Record sig_env := {
  e_pipe4 : bool;
  e_pipe41 : bool;
  e_buf41 : bytes;            (* char buf[8] *)
  e_signalfd : bool;
}.

Definition main (e : sig_env) : PM P Z :=
  printf [FLit "=== Embedded Linux Demo: Signals ==="; FRaw [x0a]] ;;
  p ← lift st_get;
  (match sa_handler (action (sigs_of p) SIGPIPE) with
   | SIG_IGN => printf [FLit "SIGPIPE is already ignored (inherited)"; FRaw [x0a]]
   | _ => printf [FLit "SIGPIPE is active"; FRaw [x0a]]
   end) ;;
  demo_signal ;;
  demo_sigaction ;;
  demo_sigprocmask ;;
  demo_realtime_signal ;;
  demo_self_pipe (e_pipe4 e) ;;
  demo_pipe (e_pipe41 e) (e_buf41 e) ;;
  demo_signalfd (e_signalfd e) ;;
  printf [FRaw [x0a]; FLit "[DONE] Signal demo complete."; FRaw [x0a]] ;;
  mret 0.
End program.

(** A process started from a terminal. *)
Definition tty : ofile := mk_ofile OOther RDWR false 0.
Definition sig_boot (acts : gmap Z (sigact handler)) (e : list moment) : P :=
  mk_kproc {[ 0 := tty; 1 := tty; 2 := tty ]} ∅ ∅ ∅ ∅ [] [] 0%nat
    (mk_globals 0 0 0 (-1, -1) (mk_sigs acts ∅ [] []) e).
