(* ===== verification/SignalCaught.v ===== *)
(** * Signals arriving while the demos wait

    Demo 0 and Demo 1 of src/04_signals/signal_demo.c raise SIGINT and SIGTERM
    and then sleep, while further SIGINT and SIGTERM signals may come from
    outside at any moment, also inside a handler.  What holds then of the
    handler runs, of what they print and of the counter. *)

From S2P Require Import Prelude CLib Files Signal SignalDemo.

Local Open Scope Z_scope.

Section window.

Definition is_int_term (sig : Z) : Prop := sig = SIGINT \/ sig = SIGTERM.

Definition arrivals (p : P) : nat := sum_list_with (fun m => length (m_sigs m)) (env (kext p)).
Definition caught_text (i : siginfo) : bytes := format (caught_line (si_signo i)).

Context (A : gmap Z (sigact handler)) (C M : Z).

(** Both signals are handled by [sigint_handler_1_arg], nothing else is
    pending or arrives, standard output is open, and the counter cannot reach
    INT_MAX. *)
Record window (p : P) : Prop := {
  w_acts : acts (sigs_of p) = A;
  w_int : sa_handler (action (sigs_of p) SIGINT) = SIG_FN H_int1;
  w_term : sa_handler (action (sigs_of p) SIGTERM) = SIG_FN H_int1;
  w_pending : forall i, i ∈ pending (sigs_of p) -> is_int_term (si_signo i);
  w_env : forall m sig, m ∈ env (kext p) -> sig ∈ m_sigs m -> is_int_term sig;
  w_out : exists a nb off, kfds p !! 1 = Some (mk_ofile OOther a nb off) /\ a <> RDONLY;
  w_count : g_sigint_count (kext p) <= C + lenZ (handled (sigs_of p));
  w_total : lenZ (handled (sigs_of p)) + Z.of_nat (weight p) <= M;
}.

(** What happens between two points of the program: the handlers of [l] ran,
    and printed their lines in the order [l']. *)
Record ran (p p' : P) (l l' : list siginfo) : Prop := {
  r_fds : kfds p' = kfds p;
  r_names : names p' = names p;
  r_inodes : inodes p' = inodes p;
  r_pipes : pipes p' = pipes p;
  r_epolls : epolls p' = epolls p;
  r_err : kerr p' = kerr p;
  r_faults : kfaults p' = kfaults p;
  r_acts : acts (sigs_of p') = acts (sigs_of p);
  r_blocked : blocked (sigs_of p') = blocked (sigs_of p);
  r_handled : handled (sigs_of p') = handled (sigs_of p) ++ l;
  r_perm : l' ≡ₚ l;
  r_text : kout p' = kout p ++ concat (caught_text <$> l');
  r_low : g_sigint_count (kext p) + (if decide (l = []) then 0 else 1) <= g_sigint_count (kext p');
  r_high : g_sigint_count (kext p') <= g_sigint_count (kext p) + lenZ l;
  r_pending : l = [] -> pending (sigs_of p) ⊆ pending (sigs_of p');
  r_env : exists k, env (kext p') = drop k (env (kext p));
}.

(** Signals handled, pending or still to come: never more. *)
Definition total (p : P) : nat := length (handled (sigs_of p)) + weight p.

Definition runs (p p' : P) : Prop := (exists l l', ran p p' l l') /\ (total p' <= total p)%nat.

Lemma ran_refl p : ran p p [] [].
Proof. split; rewrite ?app_nil_r; try done;
  [case_decide; [lia|done]|unfold lenZ; cbn; lia|by exists 0%nat]. Qed.

Lemma ran_trans p1 p2 p3 l1 l1' l2 l2' :
  ran p1 p2 l1 l1' -> ran p2 p3 l2 l2' -> ran p1 p3 (l1 ++ l2) (l1' ++ l2').
Proof.
  intros [] []. split; try congruence.
  - rewrite r_handled1, r_handled0. by rewrite (assoc_L (++)).
  - by rewrite r_perm0, r_perm1.
  - rewrite r_text1, r_text0, fmap_app, concat_app. by rewrite (assoc_L (++)).
  - destruct l1, l2; repeat case_decide; try done; lia.
  - rewrite lenZ_app. lia.
  - intros [-> ->]%app_eq_nil. etrans; [by apply r_pending0|by apply r_pending1].
  - destruct r_env0 as [k1 E1], r_env1 as [k2 E2]. exists (k1 + k2)%nat. by rewrite E2, E1, drop_drop.
Qed.

#[local] Instance runs_preorder : PreOrder runs.
Proof.
  split; [intros p; split; [exists [], []; apply ran_refl|done]|].
  intros p1 p2 p3 [(l1 & l1' & H1) T1] [(l2 & l2' & H2) T2]. split; [|lia].
  eexists _, _. by eapply ran_trans.
Qed.

Lemma lenZ_pending_weight p : Z.of_nat (weight p) = lenZ (pending (sigs_of p)) + Z.of_nat (arrivals p).
Proof. unfold weight, lenZ, arrivals. lia. Qed.

Lemma arrive_ok p :
  window p -> window (arrive p) /\ runs p (arrive p) /\ (weight (arrive p) <= weight p)%nat.
Proof.
  intros [Ha Hi Ht Hp He Ho Hc Hm]. unfold arrive. destruct (env (kext p)) as [|m ms] eqn:Ee.
  { split_and!; [split; by rewrite ?Ee|reflexivity|done]. }
  destruct (send_all_spec ((fun s => mk_siginfo s 0) <$> m_sigs m) (sigs_of p)) as (S1 & S6 & S2 & S3 & S4 & S5).
  rewrite length_fmap in S2.
  set (g := send_all _ _) in *.
  assert (Hw : (weight (upd (set_env ms) (set_sigs g p)) <= weight p)%nat).
  { unfold weight. cbn. rewrite Ee. cbn. unfold sigs_of in *. cbn. lia. }
  assert (Hw2 : (length (handled g) + weight (upd (set_env ms) (set_sigs g p))
                 <= length (handled (sigs_of p)) + weight p)%nat) by (rewrite S5; lia).
  assert (Hact : forall s, action g s = action (sigs_of p) s) by (intros s; unfold action; by rewrite S3).
  split_and!; [| |done].
  - split; try done; unfold sigs_of; cbn -[weight].
    + by rewrite S3.
    + by rewrite Hact.
    + by rewrite Hact.
    + intros i [H1|H1]%S1; [by apply Hp|]. apply list_elem_of_fmap in H1 as (s & -> & Hs).
      apply (He m); [constructor|done].
    + intros m' s Hm' Hs. apply (He m'); [by constructor|done].
    + by rewrite S5.
    + rewrite S5. unfold sigs_of in *. lia.
  - split; [|exact Hw2]. exists [], []. split; try done; unfold sigs_of; cbn.
    + by rewrite S5, app_nil_r.
    + by rewrite app_nil_r.
    + case_decide; [lia|done].
    + unfold lenZ. cbn. lia.
    + exists 1%nat. by rewrite Ee.
Qed.

(** A deliverable signal is SIGINT or SIGTERM, so it is handled. *)
Lemma window_action p sig :
  window p -> is_int_term sig -> sa_handler (action (sigs_of p) sig) = SIG_FN H_int1.
Proof. intros Hw [-> | ->]; [apply (w_int _ Hw)|apply (w_term _ Hw)]. Qed.

Lemma window_caught p i :
  window p -> next (sigs_of p) = Some i ->
  (0 < weight p)%nat /\ exists h, sa_handler (action (sigs_of p) (si_signo i)) = SIG_FN h.
Proof.
  intros Hw [Hp _]%next_Some. split.
  - unfold weight. destruct (pending (sigs_of p)); [by apply not_elem_of_nil in Hp|cbn; lia].
  - exists H_int1. apply window_action; [done|]. by apply (w_pending _ Hw).
Qed.

Lemma caught_msg sig :
  is_int_term sig ->
  exists msg, store_bytes (replicate 100 NUL) 0 (format (caught_line sig) ++ [NUL]) = Some msg /\
    cstr msg = format (caught_line sig).
Proof. intros [-> | ->]; eexists; split; by vm_compute. Qed.

Lemma window_write p l Q :
  window p -> Q (lenZ l) (with_io (kout p ++ l) (kerr p) (kfaults p) p) -> st_wp (kwrite 1 l) Q p.
Proof.
  intros Hw HQ. destruct (w_out _ Hw) as (a & nb & off & Hf & Ha). unfold kwrite. wp_step.
  apply (wp_getf _ _ _ _ Hf). cbn [o_acc o_obj]. rewrite decide_False by done. exact HQ.
Qed.

(** Changing only what was printed keeps the window. *)
Lemma window_print p o : window p -> window (with_io o (kerr p) (kfaults p) p).
Proof. intros []. by split. Qed.

Lemma window_count p v :
  window p -> v <= C + lenZ (handled (sigs_of p)) -> window (upd (set_count v) p).
Proof. intros [] Hv. by split. Qed.

Lemma window_blocked p b : window p -> window (set_sigs (set_blocked b (sigs_of p)) p).
Proof. intros []. by split. Qed.

Lemma window_enter p i :
  window p -> next (sigs_of p) = Some i ->
  window (set_sigs (enter i (sigs_of p)) p) /\
  weight p = S (weight (set_sigs (enter i (sigs_of p)) p)).
Proof.
  intros [Ha Hi Ht Hp He Ho Hc Hm] [Hn _]%next_Some.
  assert (Hw : weight p = S (weight (set_sigs (enter i (sigs_of p)) p))).
  { unfold weight. cbn. unfold sigs_of in *. rewrite (dequeue_length (si_signo i)); [cbn; lia|].
    apply list_elem_of_fmap. eauto. }
  split; [|done]. split; try done; unfold sigs_of at 1; cbn -[weight].
  - intros j Hj%dequeue_sub. by apply Hp.
  - unfold sigs_of in *. rewrite lenZ_app. change (lenZ [i]) with 1. lia.
  - unfold sigs_of in *. rewrite lenZ_app. change (lenZ [i]) with 1. lia.
Qed.

(** One run of the handler, from its parts: the boundaries before and after
    the message, between the load and the store, and after the store. *)
Lemma ran_handler p i p2 p3 p4 p5 l2 l2' l3 l3' l4 l4' l5 l5' :
  ran (set_sigs (enter i (sigs_of p)) p) p2 l2 l2' ->
  ran (with_io (kout p2 ++ caught_text i) (kerr p2) (kfaults p2) p2) p3 l3 l3' ->
  ran p3 p4 l4 l4' ->
  ran (upd (set_count (g_sigint_count (kext p3) + 1)) p4) p5 l5 l5' ->
  ran p (set_sigs (set_blocked (blocked (sigs_of p)) (sigs_of p5)) p5)
    (i :: l2 ++ l3 ++ l4 ++ l5) (l2' ++ i :: l3' ++ l4' ++ l5').
Proof.
  intros [] [] [] []. scbn. split; scbn; try congruence.
  - rewrite r_handled3, r_handled2, r_handled1, r_handled0.
    by rewrite <- !(assoc_L (++)).
  - rewrite r_perm0, r_perm1, r_perm2, r_perm3. symmetry. apply Permutation_middle.
  - rewrite r_text3, r_text2, r_text1, r_text0.
    rewrite fmap_app, fmap_cons, !fmap_app, concat_app. cbn [concat]. rewrite !concat_app.
    by rewrite <- !(assoc_L (++)).
  - rewrite decide_False by done. repeat case_decide; lia.
  - change (i :: l2 ++ l3 ++ l4 ++ l5) with ([i] ++ l2 ++ l3 ++ l4 ++ l5).
    rewrite !lenZ_app. change (lenZ [i]) with 1. pose proof (lenZ_nonneg l4). lia.
  - destruct r_env0 as [k0 E0], r_env1 as [k1 E1], r_env2 as [k2 E2], r_env3 as [k3 E3].
    exists (k0 + (k1 + (k2 + k3)))%nat. by rewrite E3, E2, E1, E0, !drop_drop.
Qed.

Lemma handler_ok n tick p i h :
  C + M < 2 ^ 31 ->
  window p -> next (sigs_of p) = Some i -> sa_handler (action (sigs_of p) (si_signo i)) = SIG_FN h ->
  (weight p <= n + 1)%nat -> tick_ok weight window runs n tick ->
  pm_wp (handle tick h i)
    (fun _ p' => let p' := set_sigs (set_blocked (blocked (sigs_of p)) (sigs_of p')) p' in
                 window p' /\ runs p p' /\ (weight p' < weight p)%nat)
    (set_sigs (enter i (sigs_of p)) p).
Proof.
  intros HM Hw Hn Hh Hwt Ht.
  assert (Hit : is_int_term (si_signo i)) by (apply (w_pending _ Hw); by apply next_Some in Hn as [? _]).
  rewrite (window_action _ _ Hw Hit) in Hh. injection Hh as <-. cbn [handle].
  destruct (window_enter _ _ Hw Hn) as [H1 W1]. set (p1 := set_sigs _ p) in *.
  destruct (caught_msg _ Hit) as (msg & Em & Ec).
  unfold sigint_handler_1_arg, incr_count.
  apply pm_wp_bind, pm_wp_lift. rewrite Em. apply wp_ret.
  apply pm_wp_bind. eapply pm_wp_mono; [apply Ht; [done|lia]|]. intros [] p2 (H2 & [(l2 & l2' & R2) T2] & W2). cbv beta.
  apply pm_wp_bind, pm_wp_lift, window_write; [done|]. rewrite Ec.
  set (p2' := with_io _ _ _ p2). assert (H2' : window p2') by by apply window_print.
  apply pm_wp_bind. eapply pm_wp_mono; [apply Ht; [done|exact ltac:(change (weight p2') with (weight p2); lia)]|].
  intros [] p3 (H3 & [(l3 & l3' & R3) T3] & W3). change (weight p2') with (weight p2) in W3. cbv beta.
  apply pm_wp_bind, pm_wp_lift. wp_step. wp_step. wp_step.
  set (v := g_sigint_count (kext p3)).
  apply pm_wp_bind. eapply pm_wp_mono; [apply Ht; [done|lia]|]. intros [] p4 (H4 & [(l4 & l4' & R4) T4] & W4). cbv beta.
  apply pm_wp_bind, pm_wp_lift.
  assert (Hv : v + 1 <= C + lenZ (handled (sigs_of p3))).
  { pose proof (w_count _ Hw). unfold p1, p2' in *. destruct R2, R3. scbn.
    rewrite r_handled1, r_handled0, !lenZ_app. change (lenZ [i]) with 1. lia. }
  assert (Hv' : v + 1 <= C + lenZ (handled (sigs_of p4))).
  { pose proof (r_handled _ _ _ _ R4) as E. rewrite E, lenZ_app. pose proof (lenZ_nonneg l4). lia. }
  assert (Hlt : v + 1 < 2 ^ 31) by (pose proof (w_total _ H4); lia).
  destruct (Z.ltb_spec (v + 1) (2 ^ 31)); [|lia]. apply wp_modify.
  assert (H4' : window (upd (set_count (v + 1)) p4)) by by apply window_count.
  eapply pm_wp_mono; [apply Ht; [done|exact ltac:(change (weight (upd (set_count (v + 1)) p4)) with (weight p4); lia)]|].
  intros [] p5 (H5 & [(l5 & l5' & R5) T5] & W5).
  change (weight (upd (set_count (v + 1)) p4)) with (weight p4) in W5. cbv zeta.
  split_and!; [by apply window_blocked| |].
  - split; [eexists _, _; by eapply ran_handler|].
    change (total (set_sigs _ p5)) with (total p5). change (total (upd _ p4)) with (total p4) in T5.
    change (total p2') with (total p2) in T3. assert (total p1 = total p); [|lia].
    unfold total. rewrite W1. unfold p1, set_sigs, upd, sigs_of. cbn -[weight]. rewrite length_app. cbn. lia.
  - change (weight (set_sigs _ p5)) with (weight p5). lia.
Qed.

Hypothesis no_overflow : C + M < 2 ^ 31.

Lemma tick_wp p :
  window p ->
  pm_wp tick (fun _ p' => window p' /\ runs (arrive p) p' /\ next (sigs_of p') = None) p.
Proof.
  intros Hw. unfold tick. eapply pm_wp_mono.
  - apply (boundary_wp sigs_of set_sigs arrive handle weight window runs); [exact arrive_ok|..|done|lia].
    + exact window_caught.
    + intros. by eapply handler_ok.
  - naive_solver.
Qed.

(** Sending a signal that is caught. *)
Lemma send_caught sig p :
  window p -> is_int_term sig -> Z.of_nat (total p) + 1 <= M ->
  let p1 := set_sigs (send (mk_siginfo sig 0) (sigs_of p)) p in
  window p1 /\ ran p p1 [] [] /\ (total p1 <= total p + 1)%nat /\
  exists i, i ∈ pending (sigs_of p1) /\ si_signo i = sig.
Proof.
  intros Hw Hs HM p1. pose proof (window_action _ _ Hw Hs) as Hact.
  destruct (send_spec (mk_siginfo sig 0) (sigs_of p)) as (Hp & Ha & Hb & Hh).
  assert (Hin : exists i, i ∈ pending (sigs_of p1) /\ si_signo i = sig).
  { unfold p1, send. scbn. cbn [si_signo]. rewrite Hact. cbn [ignores andb].
    case_test; [|eexists; split; [apply elem_of_app; right; by apply list_elem_of_singleton|done]].
    zbool. apply bool_decide_eq_true, list_elem_of_fmap in H0 as (i & Hi & ?). eauto. }
  assert (Hlen : (length (pending (send (mk_siginfo sig 0) (sigs_of p))) <= length (pending (sigs_of p)) + 1)%nat)
    by (destruct Hp as [-> | ->]; rewrite ?length_app; cbn; lia).
  assert (Ht : (total p1 <= total p + 1)%nat).
  { unfold total, weight, p1. scbn. rewrite Hh. lia. }
  split_and!; [| |done|done].
  - destruct Hw. split; try done; unfold p1; scbn; unfold action; rewrite ?Ha, ?Hh; try done.
    + intros i Hi. destruct Hp as [E|E]; rewrite E in Hi; [by apply w_pending0|].
      apply elem_of_app in Hi as [Hi|Hi%list_elem_of_singleton]; [by apply w_pending0|by subst].
    + unfold total, p1 in Ht, HM. scbn. rewrite Hh in Ht. unfold lenZ. lia.
  - unfold p1. split; try done; scbn; rewrite ?app_nil_r; try done.
    + case_decide; [lia|done].
    + unfold lenZ. cbn. lia.
    + intros _. destruct Hp as [E|E]; rewrite E; set_solver.
    + by exists 0%nat.
Qed.

(** A raised signal that is not blocked is handled before [raise] returns. *)
Lemma raise_wp sig p :
  window p -> is_int_term sig -> sig ∉ blocked (sigs_of p) -> Z.of_nat (total p) + 1 <= M ->
  pm_wp (raise sig) (fun _ p' => window p' /\ next (sigs_of p') = None /\
    (total p' <= total p + 1)%nat /\ exists l l', ran p p' l l' /\ l <> []) p.
Proof.
  intros Hw Hs Hb HM. destruct (send_caught sig p Hw Hs HM) as (W1 & R1 & T1 & i & Hi & Ei).
  unfold raise, sigqueue, stmt. apply pm_wp_bind, pm_wp_lift, wp_modify.
  set (p1 := set_sigs _ p) in *. destruct (arrive_ok p1 W1) as (_ & [(l0 & l0' & R0) T0] & _).
  apply pm_wp_bind. eapply pm_wp_mono; [by apply tick_wp|].
  intros [] p2 (W2 & [(l2 & l2' & R2) T2] & N2). apply pm_wp_ret. split_and!; [done|done|lia|].
  pose proof (ran_trans _ _ _ _ _ _ _ R0 R2) as R. exists (l0 ++ l2), (l0' ++ l2').
  split; [exact (ran_trans _ _ _ _ _ _ _ R1 R)|].
  intros E. apply (r_pending _ _ _ _ R) in E. apply E, (next_None _ _ N2) in Hi.
  rewrite Ei, (r_blocked _ _ _ _ R), (r_blocked _ _ _ _ R1) in Hi. done.
Qed.

(** A sleep is cut short only by an entry of the environment. *)
Lemma sleep_for_wp r p :
  window p -> next (sigs_of p) = None ->
  pm_wp (sleep_for r) (fun o p' => window p' /\ next (sigs_of p') = None /\ runs p p' /\
    (is_Some o -> (length (env (kext p')) < length (env (kext p)))%nat)) p.
Proof.
  intros Hw Hn. unfold sleep_for. apply pm_wp_bind, pm_wp_lift, wp_get.
  destruct (arrive_ok p Hw) as (Ha & Hra & _).
  destruct (env (kext p)) as [|m ms] eqn:Ee.
  - assert (Et : tick p = Some (inl tt, p)).
    { unfold tick. cbn [boundary]. unfold arrive. rewrite Ee. by rewrite Hn. }
    apply pm_wp_bind. unfold pm_wp at 1. rewrite Et. apply pm_wp_bind, pm_wp_lift, wp_get, pm_wp_ret.
    rewrite (proj2 (Nat.ltb_ge _ _)) by done. split_and!; [done|done|reflexivity|by intros []].
  - apply pm_wp_bind. eapply pm_wp_mono; [by apply tick_wp|]. intros [] p' (W2 & Hr & N2).
    apply pm_wp_bind, pm_wp_lift, wp_get, pm_wp_ret. split_and!; [done|done|by etrans|]. intros _.
    destruct Hr as [(l & l' & R) _]. destruct (r_env _ _ _ _ R) as [k ->].
    unfold arrive. rewrite Ee. cbn. rewrite length_drop. lia.
Qed.

Lemma sleep_loop_wp fuel r p :
  window p -> next (sigs_of p) = None -> (length (env (kext p)) < fuel)%nat ->
  pm_wp (sleep_loop fuel r) (fun _ p' => window p' /\ next (sigs_of p') = None /\ runs p p') p.
Proof.
  revert r p. induction fuel as [|fuel IH]; intros r p Hw Hn Hf; [lia|]. cbn [sleep_loop].
  destruct (0 <? r); [|apply pm_wp_ret; split_and!; [done|done|reflexivity]].
  apply pm_wp_bind. eapply pm_wp_mono; [by apply sleep_for_wp|]. intros o p' (W & N & R & E).
  destruct o as [left|]; cbn [default from_option].
  - eapply pm_wp_mono; [apply IH; [done|done|]|].
    + specialize (E ltac:(eauto)). lia.
    + intros [] p2 (? & ? & ?). split_and!; [done|done|by etrans].
  - destruct fuel; by apply pm_wp_ret.
Qed.

Lemma nanosleep_loop_wp fuel r p :
  window p -> next (sigs_of p) = None -> (length (env (kext p)) < fuel)%nat ->
  pm_wp (nanosleep_loop fuel r) (fun _ p' => window p' /\ next (sigs_of p') = None /\ runs p p') p.
Proof.
  revert r p. induction fuel as [|fuel IH]; intros r p Hw Hn Hf; [lia|]. cbn [nanosleep_loop].
  apply pm_wp_bind. eapply pm_wp_mono; [by apply sleep_for_wp|]. intros o p' (W & N & R & E).
  destruct o as [left|]; [|by apply pm_wp_ret].
  eapply pm_wp_mono; [apply IH; [done|done|]|].
  - specialize (E ltac:(eauto)). lia.
  - intros [] p2 (? & ? & ?). split_and!; [done|done|by etrans].
Qed.

Lemma ran_mono p p' l l' : ran p p' l l' -> g_sigint_count (kext p) <= g_sigint_count (kext p').
Proof. intros R. pose proof (r_low _ _ _ _ R). case_decide; lia. Qed.

Lemma ran_pos p p' l l' :
  ran p p' l l' -> l <> [] -> g_sigint_count (kext p) + 1 <= g_sigint_count (kext p') /\ 1 <= lenZ l.
Proof.
  intros R Hl. pose proof (r_low _ _ _ _ R). rewrite decide_False in * by done.
  split; [done|]. destruct l; [done|]. unfold lenZ. cbn. lia.
Qed.

(** Two raises and a wait. *)
Lemma raise_and_wait_wp (wait : PM P unit) p :
  window p -> SIGINT ∉ blocked (sigs_of p) -> SIGTERM ∉ blocked (sigs_of p) ->
  Z.of_nat (total p) + 2 <= M ->
  (forall p1, window p1 -> next (sigs_of p1) = None ->
     pm_wp wait (fun _ p' => window p' /\ next (sigs_of p') = None /\ runs p1 p') p1) ->
  pm_wp (raise SIGINT ;; raise SIGTERM ;; wait) (fun _ p' => window p' /\ next (sigs_of p') = None /\
    (total p' <= total p + 2)%nat /\ exists l l', ran p p' l l' /\
    g_sigint_count (kext p) + 2 <= g_sigint_count (kext p') /\ 2 <= lenZ l) p.
Proof.
  intros Hw Hi Ht HM Hwait.
  apply pm_wp_bind. eapply pm_wp_mono; [apply raise_wp; [done|by left|done|lia]|].
  intros [] p1 (W1 & N1 & T1 & l1 & l1' & R1 & L1).
  apply pm_wp_bind. eapply pm_wp_mono.
  { apply raise_wp; [done|by right| |lia]. by rewrite (r_blocked _ _ _ _ R1). }
  intros [] p2 (W2 & N2 & T2 & l2 & l2' & R2 & L2).
  eapply pm_wp_mono; [by apply Hwait|]. intros [] p3 (W3 & N3 & [(l3 & l3' & R3) T3]).
  split_and!; [done|done|lia|]. eexists _, _. split; [exact (ran_trans _ _ _ _ _ _ _ R1 (ran_trans _ _ _ _ _ _ _ R2 R3))|].
  pose proof (ran_pos _ _ _ _ R1 L1). pose proof (ran_pos _ _ _ _ R2 L2). pose proof (ran_mono _ _ _ _ R3).
  rewrite !lenZ_app. pose proof (lenZ_nonneg l3). lia.
Qed.
End window.

(** Both signals are caught and unblocked, nothing is pending, only SIGINT and
    SIGTERM come from outside, standard output is open, and the counter is
    far enough from INT_MAX. *)
Record listening (p : P) : Prop := {
  li_int : sa_handler (action (sigs_of p) SIGINT) = SIG_FN H_int1;
  li_term : sa_handler (action (sigs_of p) SIGTERM) = SIG_FN H_int1;
  li_pending : pending (sigs_of p) = [];
  li_open_int : SIGINT ∉ blocked (sigs_of p);
  li_open_term : SIGTERM ∉ blocked (sigs_of p);
  li_env : forall m sig, m ∈ env (kext p) -> sig ∈ m_sigs m -> is_int_term sig;
  li_out : exists a nb off, kfds p !! 1 = Some (mk_ofile OOther a nb off) /\ a <> RDONLY;
  li_count : g_sigint_count (kext p) + Z.of_nat (arrivals p) + 2 < 2 ^ 31;
}.

(** C32: with both handlers installed, whatever SIGINT and SIGTERM signals
    arrive and whenever they arrive (inside a handler, between the load and
    the store of the counter, during a sleep), the part of Demo 0 and of
    Demo 1 that raises the two signals and sleeps is not killed and
    terminates, leaving nothing pending and mask, dispositions and
    descriptors as they were.  The handler ran for the two raised signals and
    for at most every signal that arrived, each run printed its whole line
    once, and the counter went up by at least 2 and at most the number of
    runs, so by exactly 2 when nothing arrives. *)
Theorem caught_signals (waiting : PM P unit) p :
  listening p -> waiting = raise_and_sleep \/ waiting = raise_and_nanosleep ->
  exists p' l l', waiting p = Some (inl tt, p') /\ ran p p' l l' /\
    2 <= lenZ l <= 2 + Z.of_nat (arrivals p) /\ pending (sigs_of p') = [] /\
    g_sigint_count (kext p) + 2 <= g_sigint_count (kext p') <= g_sigint_count (kext p) + lenZ l /\
    (arrivals p = 0%nat -> g_sigint_count (kext p') = g_sigint_count (kext p) + 2).
Proof.
  intros [Hi Ht Hp Bi Bt He Ho Hc] Hwait.
  set (C := g_sigint_count (kext p) - lenZ (handled (sigs_of p))).
  set (M := lenZ (handled (sigs_of p)) + Z.of_nat (arrivals p) + 2).
  assert (Et : total p = (length (handled (sigs_of p)) + arrivals p)%nat)
    by (unfold total, weight; rewrite Hp; done).
  assert (Hw : window (acts (sigs_of p)) C M p).
  { split; try done; [rewrite Hp; by intros i ?%not_elem_of_nil|unfold C; lia|].
    unfold weight, M. rewrite Hp. unfold arrivals. cbn. lia. }
  assert (HCM : C + M < 2 ^ 31) by (unfold C, M; lia).
  assert (H : pm_wp waiting (fun _ p' => window (acts (sigs_of p)) C M p' /\ next (sigs_of p') = None /\
    (total p' <= total p + 2)%nat /\ exists l l', ran p p' l l' /\
    g_sigint_count (kext p) + 2 <= g_sigint_count (kext p') /\ 2 <= lenZ l) p).
  { destruct Hwait as [-> | ->]; apply raise_and_wait_wp; try done;
      try (rewrite Et; unfold M, lenZ; lia); intros p1 W1 N1.
    - unfold pm_wp, sleep_all. eapply (sleep_loop_wp _ _ _ HCM _ 10 p1); [done..|lia].
    - unfold pm_wp, nanosleep_all. eapply (nanosleep_loop_wp _ _ _ HCM _ _ p1); [done..|lia]. }
  apply pm_wp_run in H as ([] & p' & Hr & W' & N' & T' & l & l' & R & Lc & Ll).
  pose proof (r_high _ _ _ _ R).
  assert (Hl : lenZ l <= 2 + Z.of_nat (arrivals p)).
  { rewrite Et in T'. unfold total in T'. rewrite (r_handled _ _ _ _ R), length_app in T'. unfold lenZ. lia. }
  exists p', l, l'. split_and!; try done; [|lia].
  destruct (pending (sigs_of p')) as [|i q] eqn:E; [done|]. exfalso.
  assert (Hin : i ∈ pending (sigs_of p')) by (rewrite E; constructor).
  pose proof (next_None _ _ N' Hin) as Hb. rewrite (r_blocked _ _ _ _ R) in Hb.
  destruct (w_pending _ _ _ _ W' i Hin) as [Es|Es]; rewrite Es in Hb; done.
Qed.

(** ** Witness and boundary cases *)

Definition caught0 : gmap Z (sigact handler) :=
  {[ SIGINT := mk_sigact (SIG_FN H_int1) ∅; SIGTERM := mk_sigact (SIG_FN H_int1) ∅ ]}.

(** SIGTERM arrives between the load and the store of the SIGINT handler. *)
Definition in_between : list moment :=
  [mk_moment [] 0; mk_moment [] 0; mk_moment [] 0; mk_moment [SIGTERM] 0].

Lemma caught_signals_witness :
  exists p' l l', raise_and_sleep (sig_boot caught0 in_between) = Some (inl tt, p') /\
    ran (sig_boot caught0 in_between) p' l l' /\ pending (sigs_of p') = [] /\
    2 <= g_sigint_count (kext p').
Proof.
  destruct (caught_signals raise_and_sleep (sig_boot caught0 in_between))
    as (p' & l & l' & Hr & R & _ & Hp & Hc & _).
  - split; [reflexivity|reflexivity|reflexivity|apply not_elem_of_empty|apply not_elem_of_empty| | |reflexivity].
    + intros m sig Hm Hs. unfold in_between, sig_boot in Hm. cbn in Hm.
      repeat (apply elem_of_cons in Hm as [->|Hm]; [cbn in Hs|]); try by apply not_elem_of_nil in Hm.
      all: repeat (apply elem_of_cons in Hs as [->|Hs]; [right; reflexivity|]); by apply not_elem_of_nil in Hs.
    + exists RDWR, false, 0. split; [reflexivity|discriminate].
  - left. reflexivity.
  - exists p', l, l'. split; [exact Hr|]. split; [exact R|]. split; [exact Hp|]. cbn in Hc. lia.
Defined.

(** Then an increment is lost: three runs of the handler, and a count of 2. *)
Example sigint_count_lost_update :
  exists p', raise_and_sleep (sig_boot caught0 in_between) = Some (inl tt, p') /\
    length (handled (sigs_of p')) = 3%nat /\ g_sigint_count (kext p') = 2.
Proof. eexists. vm_compute. repeat split. Qed.
