(* ===== verification/SignalMain.v ===== *)
(** * The signal program, undisturbed

    The whole of src/04_signals/signal_demo.c when no signal comes from
    outside: then a boundary does nothing unless the statement before it made
    a signal deliverable.  One lemma per demo, and their composition in
    [main]. *)

From S2P Require Import Prelude CLib Files Signal SignalDemo SignalCaught.

Local Open Scope Z_scope.


Definition quiet (p : P) : Prop := env (kext p) = [] /\ next (sigs_of p) = None.

Lemma boundary_quiet n p :
  quiet p -> boundary sigs_of set_sigs arrive handle (S n) p = Some (inl tt, p).
Proof. intros [He Hn]. cbn [boundary]. unfold arrive. rewrite He. by rewrite Hn. Qed.

Lemma stmt_wp {A} (m : ST P A) (Q : A -> P -> Prop) p :
  st_wp m (fun a p' => quiet p' /\ Q a p') p -> pm_wp (stmt m) Q p.
Proof.
  intros H. unfold stmt. apply pm_wp_bind, pm_wp_lift. eapply wp_mono; [exact H|].
  intros a p' [Hq HQ]. apply pm_wp_bind. unfold pm_wp at 1, tick. by rewrite boundary_quiet.
Qed.

(** The boundary after a statement that sent the process a caught signal. *)
Lemma tick_handle i h (Q : unit -> P -> Prop) p :
  env (kext p) = [] -> pending (sigs_of p) = [i] -> si_signo i ∉ blocked (sigs_of p) ->
  sa_handler (action (sigs_of p) (si_signo i)) = SIG_FN h ->
  (forall t, (forall p', quiet p' -> t p' = Some (inl tt, p')) ->
     pm_wp (handle t h i)
       (fun _ p' => let p' := set_sigs (set_blocked (blocked (sigs_of p)) (sigs_of p')) p' in
                    quiet p' /\ Q tt p') (set_sigs (enter i (sigs_of p)) p)) ->
  pm_wp tick Q p.
Proof.
  intros He Hp Hb Hh Hbody.
  assert (Hw : weight p = 1%nat) by (unfold weight; by rewrite Hp, He).
  assert (Hn : next (sigs_of p) = Some i).
  { unfold next. rewrite Hp, filter_cons_True by done. by rewrite filter_nil. }
  unfold pm_wp, tick. rewrite Hw. eapply (boundary_handle _ _ _ _ 1 i h Q p); [|done|done|].
  { unfold arrive. by rewrite He. }
  eapply pm_wp_mono; [apply Hbody; intros; by apply boundary_quiet|]. intros [] p' [Hq HQ].
  unfold pm_wp. by rewrite boundary_quiet.
Qed.

Lemma tick_quiet p : quiet p -> tick p = Some (inl tt, p).
Proof. apply boundary_quiet. Qed.

Lemma sleep_for_quiet r p : quiet p -> sleep_for r p = Some (inl None, p).
Proof.
  intros Hq. unfold sleep_for, mbind, PM_bind, lift, st_get. rewrite tick_quiet by done.
  by rewrite (proj2 (Nat.ltb_ge _ _)).
Qed.

Lemma sleep_all_quiet r p : quiet p -> sleep_all r p = Some (inl tt, p).
Proof.
  intros Hq. unfold sleep_all. cbn [sleep_loop]. destruct (0 <? r); [|done].
  unfold mbind, PM_bind. rewrite sleep_for_quiet by done. by destruct (length (env (kext p))).
Qed.

Lemma nanosleep_all_quiet r p : quiet p -> nanosleep_all r p = Some (inl tt, p).
Proof.
  intros Hq. unfold nanosleep_all. cbn [nanosleep_loop]. unfold mbind, PM_bind. by rewrite sleep_for_quiet.
Qed.

(** The process after handler [h] ran for [i] with the effect [f]. *)
Definition after (i : siginfo) (f : P -> P) (p : P) : P :=
  let p' := f (set_sigs (enter i (sigs_of p)) p) in
  set_sigs (set_blocked (blocked (sigs_of p)) (sigs_of p')) p'.

(** Sending oneself a caught signal runs its handler. *)
Lemma sigqueue_caught sig v h f (Q : unit -> P -> Prop) p :
  env (kext p) = [] -> pending (sigs_of p) = [] -> sig ∉ blocked (sigs_of p) ->
  sa_handler (action (sigs_of p) sig) = SIG_FN h ->
  (forall t p', (forall p', quiet p' -> t p' = Some (inl tt, p')) -> env (kext p') = [] ->
     pending (sigs_of p') = [] -> kfds p' = kfds p -> kout p' = kout p -> pipes p' = pipes p ->
     g_sigint_count (kext p') = g_sigint_count (kext p) -> g_pipe_fds (kext p') = g_pipe_fds (kext p) ->
     pm_wp (handle t h (mk_siginfo sig v)) (fun _ p2 => p2 = f p' /\ env (kext p2) = [] /\
       pending (sigs_of p2) = []) p') ->
  Q tt (after (mk_siginfo sig v) f p) ->
  pm_wp (sigqueue sig v) Q p.
Proof.
  intros He Hp Hb Hh Hbody HQ. unfold sigqueue, stmt. apply pm_wp_bind, pm_wp_lift, wp_modify.
  set (i := mk_siginfo sig v) in *. set (p1 := set_sigs _ p).
  assert (Hs : sigs_of p1 = mk_sigs (acts (sigs_of p)) (blocked (sigs_of p)) [i] (handled (sigs_of p))).
  { unfold p1, send. scbn. cbn [si_signo i]. rewrite Hh, Hp. cbn [ignores andb fmap list_fmap].
    rewrite bool_decide_eq_false_2 by apply not_elem_of_nil. by rewrite andb_false_r. }
  assert (Hin : enter i (sigs_of p1) = enter i (sigs_of p)).
  { rewrite Hs. unfold enter, action. cbn. rewrite Hp. by rewrite Z.eqb_refl. }
  apply pm_wp_bind. eapply pm_wp_mono; [|intros [] p2 H2; apply pm_wp_ret; exact H2].
  apply (tick_handle i h); [done|by rewrite Hs|by rewrite Hs|unfold action; by rewrite Hs|].
  intros t Ht. rewrite Hin, Hs. cbn [blocked].
  change (set_sigs (enter i (sigs_of p)) p1) with (set_sigs (enter i (sigs_of p)) p).
  eapply pm_wp_mono; [apply Hbody; try done|].
  { unfold sigs_of, set_sigs, upd. cbn. unfold sigs_of in Hp. by rewrite Hp. }
  intros [] p2 (-> & He2 & Hp2). split; [|exact HQ]. split; [done|].
  unfold next. unfold sigs_of in *. scbn. by rewrite Hp2.
Qed.

Lemma int1_quiet t sig p :
  (forall p', quiet p' -> t p' = Some (inl tt, p')) -> env (kext p) = [] -> pending (sigs_of p) = [] ->
  is_int_term sig -> kfds p !! 1 = Some (mk_ofile OOther RDWR false 0) ->
  g_sigint_count (kext p) + 1 < 2 ^ 31 ->
  pm_wp (sigint_handler_1_arg t sig) (fun _ p' =>
    p' = upd (set_count (g_sigint_count (kext p) + 1))
           (with_io (kout p ++ format (caught_line sig)) (kerr p) (kfaults p) p) /\
    env (kext p') = [] /\ pending (sigs_of p') = []) p.
Proof.
  intros Ht He Hp Hs Hf Hc. destruct (caught_msg _ Hs) as (msg & Em & Ec).
  assert (Hq : forall p', env (kext p') = [] -> pending (sigs_of p') = [] -> quiet p').
  { intros p' E1 E2. split; [done|]. unfold next. by rewrite E2. }
  assert (Htick : forall p' (Q : unit -> P -> Prop), env (kext p') = [] -> pending (sigs_of p') = [] ->
    Q tt p' -> pm_wp t Q p') by (intros p' Q E1 E2 HQ; unfold pm_wp; rewrite Ht; auto).
  unfold sigint_handler_1_arg, incr_count.
  apply pm_wp_bind, pm_wp_lift. rewrite Em. apply wp_ret. apply pm_wp_bind, Htick; [done..|].
  apply pm_wp_bind, pm_wp_lift. unfold kwrite. wp_step. apply (wp_getf _ _ _ _ Hf). rewrite Ec.
  apply pm_wp_bind, Htick; [done..|]. apply pm_wp_bind, pm_wp_lift. wp_step. wp_step. wp_step.
  apply pm_wp_bind, Htick; [done..|]. apply pm_wp_bind, pm_wp_lift.
  change (kext (with_io _ _ _ p)) with (kext p). rewrite (proj2 (Z.ltb_lt _ _) Hc).
  apply wp_modify. by apply Htick.
Qed.

(** Nothing pending and nothing to come. *)
Definition calm (p : P) : Prop := env (kext p) = [] /\ pending (sigs_of p) = [].

Lemma calm_quiet p : calm p -> quiet p.
Proof. intros [He Hp]. split; [done|]. unfold next. by rewrite Hp. Qed.

Lemma set_action_calm sig a p :
  calm p -> set_sigs (set_action sig a (sigs_of p)) p
            = set_sigs (mk_sigs (<[sig := a]> (acts (sigs_of p))) (blocked (sigs_of p)) [] (handled (sigs_of p))) p.
Proof. intros [_ Hp]. unfold set_action. rewrite Hp. by destruct (ignores sig (sa_handler a)). Qed.

Lemma sigaction_wp sig d m (Q : Z -> P -> Prop) p :
  valid_sig sig = true -> calm p ->
  Q 0 (set_sigs (mk_sigs (<[sig := mk_sigact d m]> (acts (sigs_of p))) (blocked (sigs_of p)) [] (handled (sigs_of p))) p) ->
  pm_wp (sigaction sig d m) Q p.
Proof.
  intros Hv Hc HQ. apply stmt_wp. wp_step. wp_step. rewrite Hv. wp_step. wp_step. wp_step.
  rewrite set_action_calm by done. split; [|done]. apply calm_quiet. split; [apply Hc|done].
Qed.

Lemma signal_wp sig d (Q : option (disp handler) -> P -> Prop) p :
  valid_sig sig = true -> calm p ->
  Q (Some (sa_handler (action (sigs_of p) sig)))
    (set_sigs (mk_sigs (<[sig := mk_sigact d ∅]> (acts (sigs_of p))) (blocked (sigs_of p)) [] (handled (sigs_of p))) p) ->
  pm_wp (signal sig d) Q p.
Proof.
  intros Hv Hc HQ. apply stmt_wp. wp_step. wp_step. rewrite Hv. wp_step. wp_step. wp_step.
  rewrite set_action_calm by done. split; [|done]. apply calm_quiet. split; [apply Hc|done].
Qed.

Lemma printf_wp f (Q : unit -> P -> Prop) p :
  quiet p -> Q tt (with_io (kout p ++ format f) (kerr p) (kfaults p) p) -> pm_wp (printf f) Q p.
Proof. intros Hq HQ. by apply stmt_wp, wp_kprintf. Qed.

(** [raise] with [sigint_handler_1_arg] installed. *)
Lemma raise_int1_wp sig (Q : unit -> P -> Prop) p :
  calm p -> is_int_term sig -> sig ∉ blocked (sigs_of p) ->
  sa_handler (action (sigs_of p) sig) = SIG_FN H_int1 ->
  kfds p !! 1 = Some (mk_ofile OOther RDWR false 0) -> g_sigint_count (kext p) + 1 < 2 ^ 31 ->
  Q tt (set_sigs (mk_sigs (acts (sigs_of p)) (blocked (sigs_of p)) []
                    (handled (sigs_of p) ++ [mk_siginfo sig 0]))
         (upd (set_count (g_sigint_count (kext p) + 1))
            (with_io (kout p ++ format (caught_line sig)) (kerr p) (kfaults p) p))) ->
  pm_wp (raise sig) Q p.
Proof.
  intros [He Hp] Hs Hb Hh Hf Hc HQ. unfold raise.
  apply (sigqueue_caught sig 0 H_int1 (fun p' => upd (set_count (g_sigint_count (kext p') + 1))
    (with_io (kout p' ++ format (caught_line sig)) (kerr p') (kfaults p') p')));
    [exact He|exact Hp|exact Hb|exact Hh| |].
  - intros t p' Ht He' Hp' Ef Eo _ Ec _. apply int1_quiet; [exact Ht|exact He'|exact Hp'|exact Hs|by rewrite Ef|by rewrite Ec].
  - unfold after, enter. unfold sigs_of in Hp. scbn. rewrite Hp. exact HQ.
Qed.

(** The same for a goal, down to the fields. *)
Ltac flat :=
  lazy beta iota zeta delta
    [set_sigs upd sigs_of kfds inodes names pipes epolls kout kerr kfaults kext with_kext with_io with_fds
     with_pipes with_epolls g_sigint_count g_rt_recv g_rt_val g_pipe_fds g_sigs env set_count set_rt set_pipe_fds
     set_gsigs set_env acts blocked pending handled enter set_blocked take_signal after].

Ltac sstep :=
  lazymatch goal with
  | |- pm_wp (_ ≫= _) _ _ => apply pm_wp_bind
  | |- pm_wp (mret _) _ _ => apply pm_wp_ret
  | |- pm_wp (lift st_get) _ _ => apply pm_wp_lift, wp_get
  | |- pm_wp (printf _) _ _ => apply printf_wp; [by apply calm_quiet|]
  | |- pm_wp (signal _ _) _ _ => apply signal_wp; [done|done|]
  | |- pm_wp (sigaction _ _ _) _ _ => apply sigaction_wp; [done|done|]
  end; flat.

Section demos.
Context (pid : Z) (strerror : bytes).

Definition out0 (n : Z) : bytes :=
  format (separator "Demo 0: signal() —  Handler") ++
  format [FLit "press ctrl+c to rais a SIGINT signal,         or send SIGTERM by [kill pid="; FD pid;
          FLit "]"; FRaw [x0a]] ++
  format (caught_line SIGINT) ++ format (caught_line SIGTERM) ++
  format [FLit "g_sigint_count = "; FD n; FRaw [x0a]].

(** Where every demo starts and ends. *)
Record settled (p : P) : Prop := {
  se_calm : calm p;
  se_out : kfds p !! 1 = Some (mk_ofile OOther RDWR false 0);
}.

Lemma action_insert sig sig' a (A : gmap Z (sigact handler)) b pd h :
  action (mk_sigs (<[sig := a]> A) b pd h) sig' = if decide (sig = sig') then a else action (mk_sigs A b pd h) sig'.
Proof. unfold action. cbn [acts]. rewrite lookup_insert. by case_decide. Qed.

(** The disposition of a given signal after some calls of [sigaction]. *)
Ltac act :=
  flat; rewrite ?action_insert;
  repeat first [rewrite decide_True by done | rewrite decide_False by done]; try done.

Lemma demo_signal_wp (Q : unit -> P -> Prop) p :
  settled p -> SIGINT ∉ blocked (sigs_of p) -> SIGTERM ∉ blocked (sigs_of p) ->
  g_sigint_count (kext p) + 2 < 2 ^ 31 ->
  (forall p', settled p' -> kfds p' = kfds p -> kfaults p' = kfaults p ->
     blocked (sigs_of p') = blocked (sigs_of p) ->
     (forall sig, sa_handler (action (sigs_of p') sig) = sa_handler (action (sigs_of p) sig)) ->
     kout p' = kout p ++ out0 (g_sigint_count (kext p) + 2) -> Q tt p') ->
  pm_wp (demo_signal pid strerror) Q p.
Proof.
  intros [Hc Ho] Bi Bt Hn HQ. destruct p as [t i n q ep o er fl [c rr rv pf [A b pd h] ev]].
  destruct Hc as [He Hp]. scbn. subst pd ev. unfold demo_signal, raise_and_sleep.
  repeat sstep.
  apply raise_int1_wp; [done|by left|done|act|done|flat; lia|]. flat. sstep.
  apply raise_int1_wp; [done|by right|done|act|done|flat; lia|]. flat.
  unfold pm_wp at 1. rewrite sleep_all_quiet by (by apply calm_quiet). repeat sstep.
  apply HQ; [by split|done|done|done| |].
  - intros sig. flat. rewrite !action_insert. repeat case_decide; subst; try done.
  - flat. unfold out0. replace (c + 1 + 1) with (c + 2) by lia. by rewrite <- !(assoc_L (++)).
Qed.

Definition out1 : bytes :=
  format (separator "Demo 1: sigaction() — Reliable Handler") ++
  format [FLit "Sending 2 SIGINT to self with raise()…"; FRaw [x0a]] ++
  format [FLit "press ctrl+c also raise SIGINT"; FRaw [x0a]] ++
  format [FLit "try to raise SIGTERM by [kill "; FD pid; FLit "] by sleep in the handler"; FRaw [x0a]] ++
  format (caught_line SIGINT) ++ format (caught_line SIGTERM) ++
  format [FLit "g_sigint_count = "; FD 2; FLit ")"; FRaw [x0a]].

(** Only SIGINT is given back its default disposition. *)
Lemma demo_sigaction_wp (Q : unit -> P -> Prop) p :
  settled p -> SIGINT ∉ blocked (sigs_of p) -> SIGTERM ∉ blocked (sigs_of p) ->
  (forall p', settled p' -> kfds p' = kfds p -> kfaults p' = kfaults p ->
     blocked (sigs_of p') = blocked (sigs_of p) ->
     (forall sig, sa_handler (action (sigs_of p') sig) =
        if decide (sig = SIGINT) then SIG_DFL else if decide (sig = SIGTERM) then SIG_FN H_int1
        else sa_handler (action (sigs_of p) sig)) ->
     g_sigint_count (kext p') = 2 -> kout p' = kout p ++ out1 -> Q tt p') ->
  pm_wp (demo_sigaction pid strerror) Q p.
Proof.
  intros [Hc Ho] Bi Bt HQ. destruct p as [t i n q ep o er fl [c rr rv pf [A b pd h] ev]].
  destruct Hc as [He Hp]. scbn. subst pd ev. unfold demo_sigaction, raise_and_nanosleep.
  sstep. sstep. sstep. apply stmt_wp, wp_modify. split; [by apply calm_quiet|]. flat.
  repeat (sstep; cbn [Z.eqb]).
  apply raise_int1_wp; [done|by left|done|act|done|flat; lia|]. flat. sstep.
  apply raise_int1_wp; [done|by right|done|act|done|flat; lia|]. flat.
  unfold pm_wp at 1. rewrite nanosleep_all_quiet by (by apply calm_quiet). repeat sstep.
  apply HQ; [by split|done|done|done| |done|].
  - intros sig. flat. rewrite !action_insert. repeat case_decide; subst; try done.
  - flat. unfold out1. by rewrite <- !(assoc_L (++)).
Qed.

(** ** Demo 2 *)

Definition out2 : bytes :=
  format (separator "Demo 2: sigprocmask() — Block / Unblock") ++
  format [FLit "SIGUSR1 blocked. Sending it now — it won't be delivered yet."; FRaw [x0a]] ++
  format [FLit "SIGUSR1 is PENDING (queued by kernel)"; FRaw [x0a]] ++
  format [FLit "SIGUSR1 unblocked (and ignored)."; FRaw [x0a]].

Lemma quiet_blocked i p :
  env (kext p) = [] -> pending (sigs_of p) = [i] -> si_signo i ∈ blocked (sigs_of p) -> quiet p.
Proof.
  intros He Hp Hb. split; [done|]. unfold next. rewrite Hp, filter_cons_False by naive_solver. done.
Qed.

(** A blocked signal stays pending, whatever its disposition. *)
Lemma raise_blocked_wp sig (Q : unit -> P -> Prop) p :
  calm p -> sig ∈ blocked (sigs_of p) ->
  Q tt (set_sigs (mk_sigs (acts (sigs_of p)) (blocked (sigs_of p)) [mk_siginfo sig 0] (handled (sigs_of p))) p) ->
  pm_wp (raise sig) Q p.
Proof.
  intros [He Hp] Hb HQ. unfold raise, sigqueue. apply stmt_wp, wp_modify.
  assert (E : send (mk_siginfo sig 0) (sigs_of p)
    = mk_sigs (acts (sigs_of p)) (blocked (sigs_of p)) [mk_siginfo sig 0] (handled (sigs_of p))).
  { unfold send. cbn [si_signo]. rewrite (bool_decide_eq_true_2 _ Hb), andb_false_r, Hp.
    rewrite bool_decide_eq_false_2 by apply not_elem_of_nil. by rewrite andb_false_r. }
  rewrite E. split; [|done]. by eapply (quiet_blocked (mk_siginfo sig 0)).
Qed.

Lemma demo_sigprocmask_wp (Q : unit -> P -> Prop) p :
  settled p ->
  (forall p', settled p' -> kfds p' = kfds p -> kfaults p' = kfaults p ->
     blocked (sigs_of p') = blocked (sigs_of p) ->
     (forall sig, sa_handler (action (sigs_of p') sig) =
        if decide (sig = SIGUSR1) then SIG_IGN else sa_handler (action (sigs_of p) sig)) ->
     g_sigint_count (kext p') = g_sigint_count (kext p) -> kout p' = kout p ++ out2 -> Q tt p') ->
  pm_wp demo_sigprocmask Q p.
Proof.
  intros [Hc Ho] HQ. destruct p as [t i n q ep o er fl [c rr rv pf [A b pd h] ev]].
  destruct Hc as [He Hp]. scbn. subst pd ev. unfold demo_sigprocmask.
  sstep. sstep. sstep. apply stmt_wp. wp_step. wp_step. wp_step. wp_step. wp_step.
  split; [by apply calm_quiet|]. flat. sstep. sstep. sstep.
  assert (Hu : SIGUSR1 ∈ b ∪ {[SIGUSR1]}) by set_solver.
  apply raise_blocked_wp; [done|done|]. flat. sstep.
  set (u := mk_siginfo SIGUSR1 0). unfold sigpending. apply stmt_wp. wp_step. wp_step. wp_step.
  split; [by apply (quiet_blocked u)|]. flat. cbn [fmap list_fmap].
  rewrite filter_cons_True by done. rewrite decide_True by set_solver. sstep.
  apply printf_wp; [by apply (quiet_blocked u)|]. flat. sstep. apply stmt_wp. wp_step. wp_step.
  change (valid_sig SIGUSR1) with true. cbv iota. wp_step. wp_step. wp_step.
  unfold set_action. flat. change (filter (fun i => si_signo i <> SIGUSR1) [u]) with (@nil siginfo).
  cbn [ignores sa_handler]. split; [by apply calm_quiet|]. sstep.
  apply stmt_wp. wp_step. wp_step. wp_step. split; [by apply calm_quiet|]. flat. sstep.
  apply HQ; [by split|done|done|done| |done|].
  - intros sig. flat. rewrite action_insert. repeat case_decide; subst; try done.
  - flat. unfold out2. by rewrite <- !(assoc_L (++)).
Qed.

(** ** Demo 3 *)

Definition out3 : bytes :=
  format (separator "Demo 3: Real-time Signal + sigqueue()") ++
  format [FLit "Using signal SIGRTMIN+1 = "; FD 35; FRaw [x0a]] ++
  format [FLit "Sending RT signal with data "; FD 12345; FLit " via sigqueue()…"; FRaw [x0a]] ++
  format [FLit "[RT SIGNAL] received"; FRaw [x0a]] ++
  format [FLit "Received="; FD 1; FLit ", value="; FD 12345; FRaw [x0a]].

(** The boundaries inside a handler do nothing. *)
Definition still (t : PM P unit) : Prop := forall p, quiet p -> t p = Some (inl tt, p).

Lemma still_wp t (Q : unit -> P -> Prop) p : still t -> calm p -> Q tt p -> pm_wp t Q p.
Proof. intros Ht Hc HQ. unfold pm_wp. rewrite Ht; [done|by apply calm_quiet]. Qed.

Lemma rt_quiet t v p :
  still t -> calm p -> kfds p !! 1 = Some (mk_ofile OOther RDWR false 0) ->
  pm_wp (rt_handler t (mk_siginfo 35 v)) (fun _ p' =>
    p' = with_io (kout p ++ format [FLit "[RT SIGNAL] received"; FRaw [x0a]]) (kerr p) (kfaults p)
           (upd (set_rt 1 v) p) /\ env (kext p') = [] /\ pending (sigs_of p') = []) p.
Proof.
  intros Ht [He Hp] Hf. unfold rt_handler.
  apply pm_wp_bind, pm_wp_lift, wp_modify. apply pm_wp_bind, still_wp; [done|done|].
  apply pm_wp_bind, pm_wp_lift, wp_modify. apply pm_wp_bind, still_wp; [done|done|].
  apply pm_wp_bind, pm_wp_lift. unfold kwrite. wp_step. eapply wp_getf; [exact Hf|].
  apply still_wp; [done|done|]. done.
Qed.

Lemma demo_realtime_wp (Q : unit -> P -> Prop) p :
  settled p -> SIGRTMIN + 1 ∉ blocked (sigs_of p) ->
  (forall p', settled p' -> kfds p' = kfds p -> kfaults p' = kfaults p ->
     blocked (sigs_of p') = blocked (sigs_of p) ->
     (forall sig, sa_handler (action (sigs_of p') sig) =
        if decide (sig = SIGRTMIN + 1) then SIG_FN H_rt else sa_handler (action (sigs_of p) sig)) ->
     g_sigint_count (kext p') = g_sigint_count (kext p) -> g_rt_val (kext p') = 12345 ->
     kout p' = kout p ++ out3 -> Q tt p') ->
  pm_wp demo_realtime_signal Q p.
Proof.
  intros [Hc Ho] Br HQ. destruct p as [t i n q ep o er fl [c rr rv pf [A b pd h] ev]].
  destruct Hc as [He Hp]. scbn. subst pd ev. unfold demo_realtime_signal. repeat sstep.
  apply (sigqueue_caught 35 12345 H_rt (fun p' => with_io (kout p' ++ format [FLit "[RT SIGNAL] received"; FRaw [x0a]])
    (kerr p') (kfaults p') (upd (set_rt 1 12345) p'))); [done|done|done|act| |].
  { intros t' p' Ht He' Hp' Ef _ _ _ _. apply rt_quiet; [done|done|by rewrite Ef]. }
  flat. sstep. unfold pm_wp at 1. rewrite sleep_for_quiet by (by apply calm_quiet). repeat sstep.
  apply HQ; [by split|done|done|done| |done|done|].
  - intros sig. flat. rewrite action_insert. repeat case_decide; subst; try done.
  - flat. unfold out3. by rewrite <- !(assoc_L (++)).
Qed.

(** ** Demo 4 *)

Definition out4 (ok : bool) : bytes :=
  format (separator "Demo 4: Self-Pipe Trick") ++
  if ok
  then format [FLit "Sending SIGUSR2 — handler writes to pipe…"; FRaw [x0a]] ++
       format [FLit "Read "; FD 1; FLit " byte(s) from self-pipe — signal safely converted!"; FRaw [x0a]]
  else [].

Lemma pipe_quiet t id r w p :
  still t -> calm p -> g_pipe_fds (kext p) = (r, w) ->
  kfds p !! r = Some (mk_ofile (OPipeR id) RDONLY false 0) ->
  kfds p !! w = Some (mk_ofile (OPipeW id) WRONLY true 0) -> pipes p !! id = Some [] ->
  pm_wp (pipe_sig_handler t SIGUSR2) (fun _ p' =>
    p' = with_epolls (ep_wake (OPipeR id) <$> epolls p) (with_pipes (<[id := bs "S"]> (pipes p)) p) /\
    env (kext p') = [] /\ pending (sigs_of p') = []) p.
Proof.
  intros Ht [He Hp] Eg Hr Hw Hi. unfold pipe_sig_handler. apply pm_wp_bind, pm_wp_lift. wp_step. wp_step.
  rewrite Eg. cbn [snd]. eapply wp_kwrite_pipe; [done|exact Hr|done|exact Hi|done|].
  apply still_wp; [done|done|]. done.
Qed.

Lemma demo_self_pipe_wp ok (Q : unit -> P -> Prop) p :
  settled p -> SIGUSR2 ∉ blocked (sigs_of p) ->
  (forall p', settled p' -> kfds p' = kfds p -> kfaults p' = kfaults p ->
     blocked (sigs_of p') = blocked (sigs_of p) ->
     (forall sig, sa_handler (action (sigs_of p') sig) =
        if decide (sig = SIGUSR2 /\ ok = true) then SIG_FN H_pipe else sa_handler (action (sigs_of p) sig)) ->
     g_sigint_count (kext p') = g_sigint_count (kext p) -> g_rt_val (kext p') = g_rt_val (kext p) ->
     kout p' = kout p ++ out4 ok -> Q tt p') ->
  pm_wp (demo_self_pipe strerror ok) Q p.
Proof.
  intros [Hc Ho] Bu HQ. destruct p as [t i n q ep o er fl [c rr rv pf [A b pd h] ev]].
  destruct Hc as [He Hp]. scbn. subst pd ev. unfold demo_self_pipe, out4 in *. sstep. sstep. sstep.
  apply stmt_wp. destruct ok.
  2: { apply wp_ret. split; [by apply calm_quiet|]. apply stmt_wp, wp_kperror. split; [by apply calm_quiet|].
       apply HQ; flat; [by split|done..| |done|done|by rewrite app_nil_r].
       intros sig. rewrite decide_False by naive_solver. done. }
  apply wp_kpipe. flat. intros id r w _ Hr Hw Hne Hfr Hfw. split; [by apply calm_quiet|]. sstep.
  apply stmt_wp, wp_modify. split; [by apply calm_quiet|]. flat. sstep. cbn [fst snd].
  apply stmt_wp. eapply wp_set_nonblock; [flat; apply lookup_insert_eq|].
  split; [by apply calm_quiet|]. flat. cbn [o_obj o_acc o_off]. rewrite insert_insert_eq. repeat sstep.
  assert (Hr1 : r <> 1) by congruence. assert (Hw1 : w <> 1) by congruence.
  apply (sigqueue_caught SIGUSR2 0 H_pipe (fun p' => with_epolls (ep_wake (OPipeR id) <$> epolls p')
    (with_pipes (<[id := bs "S"]> (pipes p')) p'))); [done|done|done|act| |].
  { intros t' p' Ht He' Hp' Ef _ Ep _ Eg. apply (pipe_quiet t' id r w); [done|done|done|..].
    - rewrite Ef. flat. by rewrite lookup_insert_ne, lookup_insert_eq by done.
    - rewrite Ef. apply lookup_insert_eq.
    - rewrite Ep. apply lookup_insert_eq. }
  flat. sstep. apply stmt_wp. eapply wp_kread_pipe; [|apply lookup_insert_eq|done|].
  { flat. rewrite lookup_insert_ne by done. apply lookup_insert_eq. }
  split; [by apply calm_quiet|]. flat. change (takeZ 8 (bs "S")) with [x53]. cbv iota. sstep. sstep. sstep.
  apply stmt_wp. eapply wp_kclose; [flat; rewrite lookup_insert_ne by done; apply lookup_insert_eq|].
  split; [by apply calm_quiet|]. flat. sstep. apply stmt_wp.
  eapply wp_kclose; [flat; rewrite lookup_delete_ne by done; apply lookup_insert_eq|].
  split; [by apply calm_quiet|]. flat. sstep.
  match goal with |- Q tt (mk_kproc ?x _ _ _ _ _ _ _ _) => assert (Ex : x = t) end.
  { kmap. }
  apply HQ; flat; [split; [done|by rewrite Ex]|done..| |done|done|by rewrite <- !(assoc_L (++))].
  intros sig. rewrite action_insert. repeat case_decide; try done; naive_solver.
Qed.

Definition out41 (ok : bool) : bytes :=
  format (separator "Demo 4.1: Self-Pipe Trick simple") ++
  if ok then format [FLit "pip read amout "; FD 1; FLit ": "; FRaw [x41]] else [].

(** What a demo that installs no handler leaves alone. *)
Definition same_signals (p p' : P) : Prop :=
  settled p' /\ kfds p' = kfds p /\ kfaults p' = kfaults p /\ acts (sigs_of p') = acts (sigs_of p) /\
  g_sigint_count (kext p') = g_sigint_count (kext p) /\ g_rt_val (kext p') = g_rt_val (kext p).

Lemma demo_pipe_wp ok buf (Q : unit -> P -> Prop) p :
  settled p -> lenZ buf = 8 ->
  (forall p', same_signals p p' -> blocked (sigs_of p') = blocked (sigs_of p) ->
     kout p' = kout p ++ out41 ok -> Q tt p') ->
  pm_wp (demo_pipe strerror ok buf) Q p.
Proof.
  intros [Hc Ho] Hb HQ. destruct p as [t i n q ep o er fl [c rr rv pf [A b pd h] ev]].
  destruct Hc as [He Hp]. scbn. subst pd ev. unfold demo_pipe, out41 in *. sstep. sstep. sstep.
  apply stmt_wp. destruct ok.
  2: { apply wp_ret. split; [by apply calm_quiet|]. apply stmt_wp, wp_kperror. split; [by apply calm_quiet|].
       apply HQ; flat; [by split|done|by rewrite app_nil_r]. }
  apply wp_kpipe. flat. intros id r w _ Hr Hw Hne Hfr Hfw. split; [by apply calm_quiet|]. sstep.
  apply stmt_wp, wp_modify. split; [by apply calm_quiet|]. flat. sstep. cbn [fst snd].
  assert (Hr1 : r <> 1) by congruence. assert (Hw1 : w <> 1) by congruence.
  apply stmt_wp. eapply (wp_kwrite_pipe _ id _ _ [] r); [klk|klk|done|klk|done|].
  split; [by apply calm_quiet|]. flat. sstep. apply stmt_wp. eapply wp_kread_pipe; [klk|klk|done|].
  split; [by apply calm_quiet|]. flat. change (default [] (Some (takeZ 1 ([] ++ bs "A")))) with [x41].
  sstep. apply pm_wp_lift. rewrite store_bytes_Some; [|done|rewrite Hb; done]. apply wp_ret. sstep.
  apply pm_wp_lift. rewrite load_bytes_Some; [|done|done|].
  2: { rewrite !lenZ_app. pose proof (lenZ_nonneg (takeZ 0 buf)). pose proof (lenZ_nonneg (dropZ (0 + lenZ [x41]) buf)).
       change (lenZ [x41]) with 1 in *. lia. }
  apply wp_ret. sstep. sstep. sstep. apply stmt_wp. eapply wp_kclose; [klk|].
  split; [by apply calm_quiet|]. flat. sstep. apply stmt_wp. eapply wp_kclose; [klk|].
  split; [by apply calm_quiet|]. flat. sstep.
  match goal with |- Q tt (mk_kproc ?x _ _ _ _ _ _ _ _) => assert (Ex : x = t) by kmap end.
  apply HQ; [|done|flat; by rewrite <- !(assoc_L (++))].
  unfold same_signals. flat. split_and!; try done. split; [done|by flat; rewrite Ex].
Qed.

(** ** Demo 5 *)

Definition out5 (ok : bool) : bytes :=
  format (separator "Demo 5: signalfd() — Read Signals Like a File") ++
  if ok
  then format [FLit "Sending SIGUSR1 — will be read via signalfd…"; FRaw [x0a]] ++
       format [FLit "signalfd read: signo="; FD SIGUSR1; FLit ", PID="; FD pid; FRaw [x0a]]
  else [].

Lemma demo_signalfd_wp ok (Q : unit -> P -> Prop) p :
  settled p ->
  (forall p', same_signals p p' -> blocked (sigs_of p') = blocked (sigs_of p) ∪ {[SIGUSR1]} ->
     kout p' = kout p ++ out5 ok -> Q tt p') ->
  pm_wp (demo_signalfd pid strerror ok) Q p.
Proof.
  intros [Hc Ho] HQ. destruct p as [t i n q ep o er fl [c rr rv pf [A b pd h] ev]].
  destruct Hc as [He Hp]. scbn. subst pd ev. unfold demo_signalfd, out5 in *. sstep. sstep. sstep.
  apply stmt_wp. wp_step. wp_step. wp_step. wp_step. wp_step. split; [by apply calm_quiet|]. flat. sstep.
  apply stmt_wp. destruct ok.
  2: { apply wp_ret. split; [by apply calm_quiet|]. cbn [Z.eqb Pos.eqb]. apply stmt_wp, wp_kperror.
       split; [by apply calm_quiet|]. apply HQ; flat; [by split|done|by rewrite app_nil_r]. }
  apply wp_install. flat. intros sfd Hsfd Hf. split; [by apply calm_quiet|].
  destruct (Z.eqb_spec sfd (-1)); [lia|]. assert (sfd <> 1) by congruence. sstep. sstep. sstep.
  assert (Hu : SIGUSR1 ∈ b ∪ {[SIGUSR1]}) by set_solver.
  apply raise_blocked_wp; [done|done|]. flat. sstep. apply stmt_wp. unfold read_signalfd. wp_step.
  eapply wp_getf; [klk|]. wp_step. wp_step. flat. rewrite filter_cons_True by (cbn [si_signo]; set_solver).
  change (filter _ (@nil siginfo)) with (@nil siginfo). cbn [best]. wp_step. wp_step. wp_step.
  unfold take_signal. cbn [dequeue si_signo pending]. flat. rewrite Z.eqb_refl.
  split; [by apply calm_quiet|]. sstep. sstep. sstep. apply stmt_wp. eapply wp_kclose; [klk|].
  split; [by apply calm_quiet|]. flat. sstep.
  match goal with |- Q tt (mk_kproc ?x _ _ _ _ _ _ _ _) => assert (Ex : x = t) by kmap end.
  apply HQ; [|done|flat; by rewrite <- !(assoc_L (++))].
  unfold same_signals. flat. split_and!; try done. split; [done|by flat; rewrite Ex].
Qed.

Definition banner_line (d : disp handler) : bytes :=
  match d with
  | SIG_IGN => format [FLit "SIGPIPE is already ignored (inherited)"; FRaw [x0a]]
  | _ => format [FLit "SIGPIPE is active"; FRaw [x0a]]
  end.

Definition transcript (e : sig_env) (d : disp handler) (n : Z) : bytes :=
  format [FLit "=== Embedded Linux Demo: Signals ==="; FRaw [x0a]] ++ banner_line d ++ out0 n ++ out1 ++ out2 ++ out3 ++ out4 (e_pipe4 e) ++ out41 (e_pipe41 e) ++ out5 (e_signalfd e) ++
  format [FRaw [x0a]; FLit "[DONE] Signal demo complete."; FRaw [x0a]].

(** The dispositions the program leaves behind. *)
Definition left_behind (e : sig_env) (old : disp handler) (sig : Z) : disp handler :=
  if decide (sig = SIGUSR2 /\ e_pipe4 e = true) then SIG_FN H_pipe
  else if decide (sig = SIGRTMIN + 1) then SIG_FN H_rt
  else if decide (sig = SIGUSR1) then SIG_IGN
  else if decide (sig = SIGINT) then SIG_DFL
  else if decide (sig = SIGTERM) then SIG_FN H_int1
  else old.

(** The line about SIGPIPE. *)
Lemma banner_wp d (Q : unit -> P -> Prop) p :
  quiet p ->
  Q tt (with_io (kout p ++ banner_line d) (kerr p) (kfaults p) p) ->
  pm_wp match d with
        | SIG_IGN => printf [FLit "SIGPIPE is already ignored (inherited)"; FRaw [x0a]]
        | _ => printf [FLit "SIGPIPE is active"; FRaw [x0a]]
        end Q p.
Proof. intros Hq HQ. destruct d; by apply printf_wp. Qed.

Lemma main_wp e (Q : Z -> P -> Prop) p :
  settled p -> lenZ (e_buf41 e) = 8 -> g_sigint_count (kext p) + 2 < 2 ^ 31 ->
  blocked (sigs_of p) ## {[SIGINT; SIGTERM; SIGUSR2; SIGRTMIN + 1]} ->
  (forall p',
    kout p' = kout p ++ transcript e (sa_handler (action (sigs_of p) SIGPIPE)) (g_sigint_count (kext p) + 2) ->
    kfds p' = kfds p -> kfaults p' = kfaults p -> calm p' ->
    g_sigint_count (kext p') = 2 -> g_rt_val (kext p') = 12345 ->
    blocked (sigs_of p') = blocked (sigs_of p) ∪ {[SIGUSR1]} ->
    (forall sig, sa_handler (action (sigs_of p') sig) = left_behind e (sa_handler (action (sigs_of p) sig)) sig) ->
    Q 0 p') ->
  pm_wp (main pid strerror e) Q p.
Proof.
  intros Hs Hb Hn Hd HQ.
  assert (D : forall sig, sig ∈ ({[SIGINT; SIGTERM; SIGUSR2; SIGRTMIN + 1]} : gset Z) -> sig ∉ blocked (sigs_of p))
    by set_solver.
  unfold main. apply pm_wp_bind, printf_wp; [apply calm_quiet, Hs|].
  apply pm_wp_bind, pm_wp_lift, wp_get, pm_wp_bind, banner_wp; [apply calm_quiet, Hs|].
  apply pm_wp_bind. apply demo_signal_wp; [by destruct Hs|apply D; set_solver|apply D; set_solver|exact Hn|].
  intros p1 S1 F1 A1 B1 H1 O1.
  apply pm_wp_bind. apply demo_sigaction_wp; [done|rewrite B1; apply D; set_solver|rewrite B1; apply D; set_solver|].
  intros p2 S2 F2 A2 B2 H2 C2 O2. apply pm_wp_bind. apply demo_sigprocmask_wp; [done|].
  intros p3 S3 F3 A3 B3 H3 C3 O3. apply pm_wp_bind.
  apply demo_realtime_wp; [done|rewrite B3, B2, B1; apply D; set_solver|].
  intros p4 S4 F4 A4 B4 H4 C4 V4 O4. apply pm_wp_bind.
  apply demo_self_pipe_wp; [done|rewrite B4, B3, B2, B1; apply D; set_solver|].
  intros p5 S5 F5 A5 B5 H5 C5 V5 O5. apply pm_wp_bind. apply demo_pipe_wp; [done|done|].
  intros p6 (S6 & F6 & A6 & H6 & C6 & V6) B6 O6. apply pm_wp_bind. apply demo_signalfd_wp; [done|].
  intros p7 (S7 & F7 & A7 & H7 & C7 & V7) B7 O7.
  apply pm_wp_bind, printf_wp; [apply calm_quiet, S7|]. apply pm_wp_ret.
  assert (Hacts : forall sig, action (sigs_of p7) sig = action (sigs_of p5) sig)
    by (intros; unfold action; by rewrite H7, H6).
  apply HQ; kcbn.
  - rewrite O7, O6, O5, O4, O3, O2, O1. kcbn. unfold transcript. by rewrite <- !(assoc_L (++)).
  - by rewrite F7, F6, F5, F4, F3, F2, F1.
  - by rewrite A7, A6, A5, A4, A3, A2, A1.
  - apply S7.
  - by rewrite C7, C6, C5, C4, C3, C2.
  - by rewrite V7, V6, V5, V4.
  - change (blocked (sigs_of p7) = blocked (sigs_of p) ∪ {[SIGUSR1]}). by rewrite B7, B6, B5, B4, B3, B2, B1.
  - intros sig. change (sa_handler (action (sigs_of p7) sig) = left_behind e (sa_handler (action (sigs_of p) sig)) sig).
    rewrite Hacts, H5, H4, H3, H2, H1. done.
Qed.

(** C33: undisturbed, and whichever of its checked calls fail, the program
    runs to the end with status 0 and prints exactly its transcript: both
    handlers run once per raised signal, SIGUSR1 is pending while blocked and
    is not delivered, the real-time signal brings its value 12345, the byte
    of the self-pipe is read back, and the blocked and ignored SIGUSR1 is
    read from the signalfd.  All descriptors are closed and nothing is left
    pending; what stays behind is SIGUSR1 blocked and ignored, and the
    handlers of SIGTERM, of SIGRTMIN+1 and, when its pipe could be created,
    of SIGUSR2. *)
Theorem signals_main e p :
  settled p -> lenZ (e_buf41 e) = 8 -> g_sigint_count (kext p) + 2 < 2 ^ 31 ->
  blocked (sigs_of p) ## {[SIGINT; SIGTERM; SIGUSR2; SIGRTMIN + 1]} ->
  exists p', main pid strerror e p = Some (inl 0, p') /\
    kout p' = kout p ++ transcript e (sa_handler (action (sigs_of p) SIGPIPE)) (g_sigint_count (kext p) + 2) /\
    kfds p' = kfds p /\ kfaults p' = kfaults p /\ calm p' /\
    g_sigint_count (kext p') = 2 /\ g_rt_val (kext p') = 12345 /\
    blocked (sigs_of p') = blocked (sigs_of p) ∪ {[SIGUSR1]} /\
    forall sig, sa_handler (action (sigs_of p') sig) = left_behind e (sa_handler (action (sigs_of p) sig)) sig.
Proof.
  intros Hs Hb Hn Hd.
  assert (H : pm_wp (main pid strerror e) (fun r p' => r = 0 /\
    kout p' = kout p ++ transcript e (sa_handler (action (sigs_of p) SIGPIPE)) (g_sigint_count (kext p) + 2) /\
    kfds p' = kfds p /\ kfaults p' = kfaults p /\ calm p' /\
    g_sigint_count (kext p') = 2 /\ g_rt_val (kext p') = 12345 /\
    blocked (sigs_of p') = blocked (sigs_of p) ∪ {[SIGUSR1]} /\
    forall sig, sa_handler (action (sigs_of p') sig) = left_behind e (sa_handler (action (sigs_of p) sig)) sig) p)
    by (apply main_wp; [done..|]; intros; split_and!; done).
  apply pm_wp_run in H as (r & p' & Hm & -> & H). by exists p'.
Qed.
End demos.

(** ** Witness *)

Definition sunny_signals : sig_env :=
  {| e_pipe4 := true; e_pipe41 := true; e_buf41 := replicate 8 x00; e_signalfd := true |}.

Lemma signals_main_witness :
  exists p', main 77 [] sunny_signals (sig_boot ∅ []) = Some (inl 0, p') /\
    kout p' = transcript 77 sunny_signals SIG_DFL 2 /\
    sa_handler (action (sigs_of p') SIGTERM) = SIG_FN H_int1.
Proof.
  destruct (signals_main 77 [] sunny_signals (sig_boot ∅ []))
    as (p' & Hm & Ho & _ & _ & _ & _ & _ & _ & Ha).
  - split; [split; reflexivity|reflexivity].
  - reflexivity.
  - reflexivity.
  - apply disjoint_empty_l.
  - exists p'. split; [exact Hm|]. split; [exact Ho|exact (Ha SIGTERM)].
Defined.
