(* ===== verification/Pipes.v ===== *)
(** * Anonymous and named pipes between two processes

    src/03_ipc/pipe_demo.c.  Each demo is its set-up with its error returns,
    and then a parent and a child interleaved call by call over the kernel's
    pipe.  [msg] is the message sent (a string of 37 bytes in Demo 1, 25 in
    Demo 2).  A read that finds no data waits while a write end is open in
    either process; a write waits for room, and kills its process with
    SIGPIPE when no read end is open. *)

From S2P Require Import Prelude CLib.

Local Open Scope Z_scope.

Definition PIPE_SIZE : Z := 65536.
Definition PIPE_BUF : Z := 4096.

(** How many of the bytes of [l] a write can put into [buf] now: up to
    PIPE_BUF bytes go in as one. *)
Definition writable (buf l : bytes) : Z :=
  let room := Z.max 0 (PIPE_SIZE - lenZ buf) in
  if lenZ l <=? PIPE_BUF then if lenZ l <=? room then lenZ l else 0
  else Z.min room (lenZ l).

(** ** Demo 1: [demo_anon_pipe] *)
Module Anon.

Inductive ppc :=
| PShow                   (* printf fd[0], fd[1] *)
| PCloseR
| PWrite (rest : bytes)   (* what write() has still to put into the pipe *)
| PSent
| PCloseW
| PWait                   (* waitpid *)
| PDone
| PKilled.                (* by SIGPIPE *)
Inductive cpc :=
| CShow
| CCloseW
| CRead
| CPrint (l : bytes)      (* the bytes read are in buf *)
| CEof
| CErr
| CCloseR
| CExit.
#[global] Instance anon_ppc_eq_dec : EqDecision ppc.
Proof. solve_decision. Defined.
#[global] Instance anon_cpc_eq_dec : EqDecision cpc.
Proof. solve_decision. Defined.

Record state := mk_state {
  buf : bytes;            (* the pipe *)
  p_r : bool;             (* ends open in the parent *)
  p_w : bool;
  c_r : bool;             (* ends open in the child *)
  c_w : bool;
  par : ppc;
  chi : cpc;
  plog : list bytes;      (* what each process printed, on either stream *)
  clog : list bytes;
}.

Inductive action := Parent | Child | ReadError.
#[global] Instance anon_action_eq_dec : EqDecision action.
Proof. solve_decision. Defined.

Section run.
Context (r w : Z) (msg : bytes) (strerror : bytes).     (* fd[0], fd[1]; the text of errno *)

Definition quoted (l : bytes) : list fmt := [FRaw [x22]; FS l; FRaw [x22]; FRaw [x0a]].
Definition p_show : bytes := format [FLit "[parent] fd[0]="; FD r; FLit ", fd[1]="; FD w; FRaw [x0a]].
Definition p_sent : bytes := format ([FLit "[PARENT] via fd[1]="; FD w; FLit " sent: "] ++ quoted msg).
Definition c_show : bytes := format [FLit "[child] fd[0]="; FD r; FLit ", fd[1]="; FD w; FRaw [x0a]].
Definition c_received (l : bytes) : bytes :=
  format ([FLit "[CHILD] via fd[0]="; FD r; FLit " received: "] ++ quoted (cstr (l ++ [NUL]))).
Definition c_perror : bytes := perror_line "read" strerror.
Definition c_eof : bytes := format [FLit "[CHILD] EOF received, exiting"; FRaw [x0a]].

Definition parent (s : state) : option state :=
  let go b pr pw p out := Some (mk_state b pr pw (c_r s) (c_w s) p (chi s) (plog s ++ out) (clog s)) in
  match par s with
  | PShow => go (buf s) (p_r s) (p_w s) PCloseR [p_show]
  | PCloseR => go (buf s) false (p_w s) (PWrite msg) []
  | PWrite rest =>
      if negb (p_r s || c_r s) then go (buf s) (p_r s) (p_w s) PKilled []
      else if decide (rest = []) then go (buf s) (p_r s) (p_w s) PSent []
      else
      let n := writable (buf s) rest in
      if n =? 0 then None
      else go (buf s ++ takeZ n rest) (p_r s) (p_w s)
             (if decide (dropZ n rest = []) then PSent else PWrite (dropZ n rest)) []
  | PSent => go (buf s) (p_r s) (p_w s) PCloseW [p_sent]
  | PCloseW => go (buf s) (p_r s) false PWait []
  | PWait => if decide (chi s = CExit) then go (buf s) (p_r s) (p_w s) PDone [] else None
  | PDone | PKilled => None
  end.

(** [char buf[128]; read(fd[0], buf, sizeof(buf) - 1)] *)
Definition child (s : state) : option state :=
  let go b cr cw c out := Some (mk_state b (p_r s) (p_w s) cr cw (par s) c (plog s) (clog s ++ out)) in
  match chi s with
  | CShow => go (buf s) (c_r s) (c_w s) CCloseW [c_show]
  | CCloseW => go (buf s) (c_r s) false CRead []
  | CRead =>
      if decide (buf s = [])
      then if p_w s || c_w s then None else go (buf s) (c_r s) (c_w s) CEof []
      else go (dropZ 127 (buf s)) (c_r s) (c_w s) (CPrint (takeZ 127 (buf s))) []
  | CPrint l => go (buf s) (c_r s) (c_w s) CRead [c_received l]
  | CEof => go (buf s) (c_r s) (c_w s) CCloseR [c_eof]
  | CErr => go (buf s) (c_r s) (c_w s) CCloseR [c_perror]
  | CCloseR => go (buf s) false (c_w s) CExit []
  | CExit => None
  end.

(** [ReadError]: a read of the child fails. *)
Definition step (a : action) (s : state) : option state :=
  match a with
  | Parent => parent s
  | Child => child s
  | ReadError =>
      match chi s with
      | CRead => Some (mk_state (buf s) (p_r s) (p_w s) (c_r s) (c_w s) (par s) CErr (plog s) (clog s))
      | _ => None
      end
  end.

(** Right after [fork]: both processes have both ends. *)
Definition start : state := mk_state [] true true true true PShow CShow [] [].

(** ** Invariant *)

Definition rest_of (p : ppc) : bytes :=
  match p with PShow | PCloseR => msg | PWrite l => l | _ => [] end.
Definition taken (c : cpc) : bytes := match c with CPrint l => l | _ => [] end.

Record inv (s : state) (got : list bytes) : Prop := {
  i_stream : concat got ++ taken (chi s) ++ buf s ++ rest_of (par s) = msg;
  i_chunks : Forall (fun l => l <> []) got;
  i_whole : lenZ msg <= 127 ->
    Forall (fun l => l = [] \/ l = msg) (taken (chi s) :: buf s :: rest_of (par s) :: got);
  i_clog : clog s = match chi s with
                    | CShow => []
                    | CCloseR | CExit => c_show :: (c_received <$> got) ++ [c_eof]
                    | _ => c_show :: (c_received <$> got)
                    end;
  i_plog : plog s = match par s with
                    | PShow => []
                    | PCloseR | PWrite _ | PSent => [p_show]
                    | _ => [p_show; p_sent]
                    end;
  i_pr : p_r s = match par s with PShow | PCloseR => true | _ => false end;
  i_pw : p_w s = match par s with PWait | PDone | PKilled => false | _ => true end;
  i_cr : c_r s = match chi s with CExit => false | _ => true end;
  i_cw : c_w s = match chi s with CShow | CCloseW => true | _ => false end;
  i_alive : par s <> PKilled /\ chi s <> CErr;
  i_print : forall l, chi s = CPrint l -> l <> [];
  i_eof : match chi s with CEof | CCloseR | CExit => buf s = [] /\ p_w s = false | _ => True end;
  i_early : match chi s with CShow | CCloseW => got = [] | _ => True end;
  i_done : par s = PDone -> chi s = CExit;
}.

Lemma anon_inv_start : inv start [].
Proof. split; try done. cbn. intros _. rewrite !Forall_cons. auto 10. Qed.

Lemma writable_nonneg b l : 0 <= writable b l.
Proof. unfold writable. pose proof (lenZ_nonneg l). repeat case_test; zbool; lia. Qed.

Lemma writable_empty l : l <> [] -> writable [] l <> 0.
Proof.
  intros Hl. assert (0 < lenZ l) by (destruct l; [done|unfold lenZ; cbn [length]; lia]).
  unfold writable, PIPE_SIZE, PIPE_BUF. change (lenZ (@nil byte)) with 0.
  repeat case_test; zbool; lia.
Qed.

Lemma split_msg (l k : bytes) : l ++ k ++ msg = msg -> k = [].
Proof. intros H%(f_equal length). rewrite !length_app in H. apply nil_length_inv. lia. Qed.

(** A short message goes into the pipe in one piece. *)
Lemma write_whole pre bf rest :
  lenZ msg <= 127 -> rest <> [] -> rest = [] \/ rest = msg -> pre ++ bf ++ rest = msg ->
  bf ++ takeZ (writable bf rest) rest = msg /\ dropZ (writable bf rest) rest = [].
Proof.
  intros Hm Hr [->| ->] Hst; [done|]. apply split_msg in Hst as ->.
  unfold writable, PIPE_SIZE, PIPE_BUF. change (lenZ (@nil byte)) with 0.
  rewrite !(proj2 (Z.leb_le _ _)) by lia.
  split; [by apply takeZ_all|]. unfold dropZ, lenZ. by rewrite Nat2Z.id, drop_all.
Qed.

Lemma write_inv s got rest p' :
  inv s got -> par s = PWrite rest -> rest <> [] -> c_r s = true ->
  p' = (if decide (dropZ (writable (buf s) rest) rest = []) then PSent
        else PWrite (dropZ (writable (buf s) rest) rest)) ->
  inv (mk_state (buf s ++ takeZ (writable (buf s) rest) rest) (p_r s) (p_w s) (c_r s) (c_w s) p' (chi s)
         (plog s) (clog s)) got.
Proof.
  intros [Hst Hch Hwh Hcl Hpl Hpr Hpw Hcr Hcw [Ha Hb] Hpt Heof Hearly Hd] Ep Hr Hopen Ep'.
  rewrite Ep in *. cbn [rest_of] in *.
  assert (Hrest : rest_of p' = dropZ (writable (buf s) rest) rest) by (subst p'; by case_decide).
  assert (Hpc : p' = PSent \/ exists l, p' = PWrite l) by (subst p'; case_decide; eauto).
  rewrite Hcr in Hopen.
  split; cbn [buf p_r p_w c_r c_w par chi plog clog]; try done.
  - rewrite Hrest, <- (assoc_L (++) (buf s)), takeZ_dropZ. done.
  - rewrite Hrest. intros Hm. specialize (Hwh Hm).
    apply Forall_cons in Hwh as [H1 [H2 [H3 H4]%Forall_cons]%Forall_cons].
    destruct (write_whole (concat got ++ taken (chi s)) (buf s) rest) as [-> ->]; [done..| |].
    2:{ rewrite !Forall_cons. auto 10. }
    by rewrite <- (assoc_L (++)).
  - by destruct Hpc as [->|[l ->]].
  - by destruct Hpc as [->|[l ->]].
  - by destruct Hpc as [->|[l ->]].
  - split; [|done]. by destruct Hpc as [->|[l ->]].
  - rewrite Hpw in *. destruct (chi s); naive_solver.
  - by destruct Hpc as [->|[l ->]].
Qed.

Ltac parent_moves s Hi Hs :=
  let c := fresh "c" in
  let Hst := fresh "Hst" in
  destruct Hi as [Hst ? ? ? ? ? ? ? ? [? ?] ? ? ? ?];
  destruct s as [? ? ? ? ? ? c ? ?]; cbn [buf p_r p_w c_r c_w par chi plog clog] in *;
  subst; cbn [rest_of] in *;
  try (destruct (decide (c = CExit)); [|done]); simplify_eq;
  split; cbn; rewrite ?app_nil_r; rewrite ?app_nil_r in Hst; try done; destruct c; naive_solver.

Lemma parent_inv s s' got : inv s got -> parent s = Some s' -> inv s' got.
Proof.
  intros Hi Hs. unfold parent in Hs.
  destruct (par s) as [| |rest| | | | | ] eqn:Ep; try done.
  3:{ destruct (decide (chi s = CExit)) as [Ec|Hc].
      { pose proof (i_eof _ _ Hi) as He. pose proof (i_pw _ _ Hi) as Hw. rewrite Ec in He. rewrite Ep in Hw.
        destruct He. congruence. }
      assert (Ecr : c_r s = true) by (rewrite (i_cr _ _ Hi); by destruct (chi s)).
      rewrite Ecr, orb_true_r in Hs. cbn [negb] in Hs.
      destruct (decide (rest = [])) as [->|Hr].
      2:{ destruct (Z.eqb_spec (writable (buf s) rest) 0); [done|]. injection Hs as <-. rewrite app_nil_r.
          rewrite <- Ecr. by apply (write_inv s got rest). }
      parent_moves s Hi Hs. }
  all: parent_moves s Hi Hs.
Qed.

Lemma child_inv s s' got : inv s got -> child s = Some s' -> exists got', inv s' got'.
Proof.
  intros [Hst Hch Hwh Hcl Hpl Hpr Hpw Hcr Hcw [Ha Hb] Hpt Heof Hearly Hd] Hs.
  destruct s as [bf pr pw cr cw p c pl cl]. unfold child in Hs.
  cbn [buf p_r p_w c_r c_w par chi plog clog] in *. subst pr cr cw pl cl.
  assert (Hd' : c <> CExit -> p <> PDone) by naive_solver.
  destruct c as [| | |l| | | | ]; cbn [taken] in *; try done.
  - simplify_eq. exists []. split; cbn; try done; try (by destruct p); try (intros ->; by destruct Hd').
  - simplify_eq. exists []. split; cbn; rewrite ?app_nil_r; try done; try (by destruct p); try (intros ->; by destruct Hd').
  - destruct (decide (bf = [])) as [->|Hbf].
    + destruct pw; [done|]. cbn [orb] in Hs. simplify_eq. exists got.
      split; cbn; rewrite ?app_nil_r; try done; try (by destruct p); try (intros ->; by destruct Hd').
    + simplify_eq. exists got. split; cbn -[takeZ dropZ]; rewrite ?app_nil_r; try done; try (by destruct p); try (intros ->; by destruct Hd').
      * rewrite (assoc_L (++) (takeZ _ _)), takeZ_dropZ. done.
      * intros Hm. specialize (Hwh Hm).
        apply Forall_cons in Hwh as [H1 [[H2|H2] [H3 H4]%Forall_cons]%Forall_cons]; [done|].
        rewrite H2, takeZ_all by done. unfold dropZ. rewrite drop_ge by (unfold lenZ in *; lia).
        rewrite !Forall_cons. auto 10.
      * intros l [= <-]. unfold takeZ. by destruct bf.
  - simplify_eq. exists (got ++ [l]). split; cbn; try done; try (by destruct p); try (intros ->; by destruct Hd').
    + rewrite concat_app. cbn. rewrite app_nil_r, <- (assoc_L (++)). done.
    + apply Forall_app. split; [done|]. apply Forall_singleton. by apply Hpt.
    + intros Hm. specialize (Hwh Hm).
      apply Forall_cons in Hwh as [H1 [H2 [H3 H4]%Forall_cons]%Forall_cons].
      rewrite !Forall_cons, Forall_app, Forall_singleton. auto 10.
    + rewrite fmap_app. done.
  - simplify_eq. exists got. split; cbn; try done; try (by destruct p); try (intros ->; by destruct Hd').
  - simplify_eq. exists got. split; cbn; rewrite ?app_nil_r; try done; try (by destruct p); try (intros ->; by destruct Hd').
Qed.

(** ** Progress and termination *)

Definition p_rank (p : ppc) : nat :=
  match p with PShow => 6 | PCloseR => 5 | PWrite _ => 4 | PSent => 3 | PCloseW => 2 | PWait => 1 | _ => 0 end.
Definition c_rank (c : cpc) : nat :=
  match c with CShow => 6 | CCloseW => 5 | CPrint _ => 4 | CRead => 3 | CEof | CErr => 2 | CCloseR => 1 | CExit => 0 end.
Definition work (s : state) : nat :=
  p_rank (par s) + c_rank (chi s) + 3 * length (rest_of (par s)) + 2 * length (buf s).

Lemma length_takeZ_dropZ {A} n (l : list A) : (length (takeZ n l) + length (dropZ n l) = length l)%nat.
Proof. unfold takeZ, dropZ. rewrite length_take, length_drop. lia. Qed.

Lemma work_write bf rest :
  rest <> [] -> writable bf rest <> 0 ->
  (length (dropZ (writable bf rest) rest) < length rest)%nat /\
  (length (takeZ (writable bf rest) rest) + length (dropZ (writable bf rest) rest) = length rest)%nat.
Proof.
  intros Hr Hw. pose proof (writable_nonneg bf rest). split; [|apply length_takeZ_dropZ].
  unfold dropZ. rewrite length_drop. destruct rest; [done|]. cbn [length]. lia.
Qed.

Lemma anon_work_step a s s' : a <> ReadError -> step a s = Some s' -> (work s' < work s)%nat.
Proof.
  intros Ha Hs. unfold work. destruct s as [bf pr pw cr cw p c pl cl].
  destruct a; cbn [step] in Hs; [unfold parent in Hs|unfold child in Hs|done];
    cbn [buf p_r p_w c_r c_w par chi plog clog] in *.
  - destruct p as [| |rest| | | | | ]; inv_step Hs; cbn [p_rank rest_of length]; try lia.
    destruct (work_write bf rest) as [H1 H2]; [done..|]. rewrite length_app.
    destruct (decide (dropZ _ rest = [])) as [E2|E2]; [apply (f_equal length) in E2|]; cbn [p_rank rest_of length] in *; lia.
  - destruct c as [| | |l| | | | ]; inv_step Hs; cbn [c_rank length]; try lia.
    unfold dropZ. rewrite length_drop. destruct bf; [done|]. cbn [length]. lia.
Qed.

Definition finished (s : state) : Prop := par s = PDone /\ chi s = CExit.

Lemma anon_child_moves s got :
  inv s got -> chi s <> CExit -> buf s <> [] \/ p_w s = false \/ chi s <> CRead -> is_Some (child s).
Proof.
  intros Hi Hc Hcase. unfold child. pose proof (i_cw _ _ Hi) as Hcw.
  destruct (chi s); try done. case_decide; [|done].
  destruct Hcase as [|[->|]]; [done| |done]. by rewrite Hcw.
Qed.

Lemma anon_progress s got : inv s got -> finished s \/ is_Some (parent s) \/ is_Some (child s).
Proof.
  intros Hi. unfold finished, parent.
  pose proof (anon_child_moves s got Hi) as Hch. pose proof (i_pw _ _ Hi) as Hpw.
  pose proof (i_alive _ _ Hi) as [Ha _]. pose proof (i_done _ _ Hi) as Hd.
  destruct (par s) as [| |rest| | | | | ] eqn:Ep; try (right; left; done).
  - destruct (decide (chi s = CExit)) as [Ec|Hc].
    { right; left. rewrite (i_cr _ _ Hi), (i_pr _ _ Hi), Ec, Ep. done. }
    destruct (decide (buf s = [])) as [Eb|Hb].
    + right; left. rewrite Eb. destruct (negb _); [done|]. case_decide as Er; [done|].
      pose proof (writable_empty rest Er). by destruct (Z.eqb_spec (writable [] rest) 0).
    + right; right. apply Hch; auto.
  - destruct (decide (chi s = CExit)) as [Ec|Hc]; [by right; left|]. right; right. apply Hch; auto.
  - left. auto.
Qed.

Definition ok_action (a : action) : Prop := a <> ReadError.
#[global] Instance anon_ok_action_dec a : Decision (ok_action a).
Proof. unfold ok_action. apply _. Defined.

Lemma anon_reach sched s :
  Forall ok_action sched -> run step sched start = Some s ->
  (exists got, inv s got) /\ (length sched + work s <= work start)%nat.
Proof.
  apply (run_within step (fun s => exists got, inv s got) work ok_action).
  - intros a s1 s2 [got Hi] Ha Hs. split; [|by eapply anon_work_step].
    destruct a; [|by eapply child_inv|done]. exists got. by eapply parent_inv.
  - exists []. apply anon_inv_start.
Qed.

Lemma anon_delivers sched s :
  Forall ok_action sched -> run step sched start = Some s ->
  (length sched <= 12 + 3 * length msg)%nat /\
  (finished s \/ exists a, ok_action a /\ is_Some (step a s)) /\
  (par s = PDone -> finished s) /\
  (finished s ->
     (exists got, concat got = msg /\ Forall (fun l => l <> []) got /\
        clog s = c_show :: (c_received <$> got) ++ [c_eof]) /\
     plog s = [p_show; p_sent] /\
     p_r s = false /\ p_w s = false /\ c_r s = false /\ c_w s = false /\
     (0 < lenZ msg <= 127 -> clog s = [c_show; c_received msg; c_eof])).
Proof.
  intros Hn Hrun. destruct (anon_reach sched s Hn Hrun) as [[got Hi] Hw]. split_and!.
  - unfold work in Hw at 2. cbn in Hw. lia.
  - destruct (anon_progress s got Hi) as [?|[?|?]]; [by left|right; by exists Parent|right; by exists Child].
  - intros Ep. split; [done|]. by apply (i_done _ _ Hi).
  - intros [Ep Ec]. destruct Hi as [Hst Hch Hwh Hcl Hpl Hpr Hpw Hcr Hcw _ _ Heof _ _].
    rewrite Ec, Ep in *. destruct Heof as [Eb _]. rewrite Eb in *. cbn [taken rest_of] in *.
    rewrite !app_nil_r in Hst. split_and!; try done; [by exists got|].
    intros [Hm1 Hm2]. rewrite Hcl. f_equal.
    apply Forall_cons in Hwh as [_ [_ [_ Hall]%Forall_cons]%Forall_cons]; [|done].
    assert (Hone : got = [msg]); [|by rewrite Hone].
    destruct got as [|l1 [|l2 got]].
    + cbn in Hst. rewrite <- Hst in Hm1. done.
    + cbn in Hst. rewrite app_nil_r in Hst. by subst.
    + exfalso. rewrite !Forall_cons in Hall, Hch.
      destruct Hall as ([?| ->] & [?| ->] & _); try naive_solver.
      apply (f_equal lenZ) in Hst. cbn [concat] in Hst. rewrite !lenZ_app in Hst.
      pose proof (lenZ_nonneg (concat got)). lia.
Qed.
End run.
End Anon.

(** ** Demo 2: [demo_named_pipe]

    [open] of a FIFO registers its end and waits for the other end to have
    been opened; the two processes are taken to be the only users of the FIFO.
    When [mkfifo] finds the name in use the code goes on with what is there: if
    that is a regular file ([reg]), [open] does not wait, the writer writes at
    its start and the reader reads from its start. *)
Module Fifo.

Inductive wpc :=
| WOpen
| WOpening                (* the write end is registered *)
| WWrite
| WSent
| WClose
| WWait                   (* waitpid *)
| WUnlink
| WDone
| WKilled.
Inductive rpc :=
| ROpen
| ROpening
| RRead
| RPrint (l : bytes)
| RClose
| RExit
| RBad.                   (* buf[-1] = NUL: outside the array *)
#[global] Instance fifo_wpc_eq_dec : EqDecision wpc.
Proof. solve_decision. Defined.
#[global] Instance fifo_rpc_eq_dec : EqDecision rpc.
Proof. solve_decision. Defined.

Record state := mk_state {
  buf : bytes;
  r_open : bool;          (* ends registered *)
  w_open : bool;
  r_came : bool;          (* an end was opened, now or before *)
  w_came : bool;
  wfd_ok : bool;          (* the writer's open succeeded *)
  named : bool;           (* the name is in the file system *)
  wr : wpc;
  rd : rpc;
  wlog : list bytes;
  rlog : list bytes;
}.

(** [WOpenFails], [ROpenFails], [RReadFails]: the call returns -1. *)
Inductive action := Writer | Reader | WOpenFails | ROpenFails | RReadFails.
#[global] Instance fifo_action_eq_dec : EqDecision action.
Proof. solve_decision. Defined.

Section run.
Context (reg : bool) (msg : bytes).

Definition quoted (l : bytes) : list fmt := [FRaw [x22]; FS l; FRaw [x22]; FRaw [x0a]].
Definition r_received (l : bytes) : bytes :=
  format (FLit "[READER] FIFO received: " :: quoted (cstr (l ++ [NUL]))).
Definition w_sent : bytes := format (FLit "[WRITER] FIFO sent: " :: quoted msg).

Definition writer (s : state) : option state :=
  let go b wo wc ok nm p out :=
    Some (mk_state b (r_open s) wo (r_came s) wc ok nm p (rd s) (wlog s ++ out) (rlog s)) in
  match wr s with
  | WOpen => go (buf s) true true (wfd_ok s) (named s) WOpening []
  | WOpening => if reg || r_came s then go (buf s) (w_open s) (w_came s) true (named s) WWrite [] else None
  | WWrite =>
      if negb (wfd_ok s) then go (buf s) (w_open s) (w_came s) (wfd_ok s) (named s) WSent []     (* EBADF *)
      else if reg then go (msg ++ dropZ (lenZ msg) (buf s)) (w_open s) (w_came s) (wfd_ok s) (named s) WSent []
      else if negb (r_open s) then go (buf s) (w_open s) (w_came s) (wfd_ok s) (named s) WKilled []
      else if writable (buf s) msg =? lenZ msg
           then go (buf s ++ msg) (w_open s) (w_came s) (wfd_ok s) (named s) WSent [] else None
  | WSent => go (buf s) (w_open s) (w_came s) (wfd_ok s) (named s) WClose [w_sent]
  | WClose => go (buf s) (if wfd_ok s then false else w_open s) (w_came s) (wfd_ok s) (named s) WWait []
  | WWait => if decide (rd s = RExit) then go (buf s) (w_open s) (w_came s) (wfd_ok s) (named s) WUnlink [] else None
  | WUnlink => go (buf s) (w_open s) (w_came s) (wfd_ok s) false WDone []
  | WDone | WKilled => None
  end.

Definition reader (s : state) : option state :=
  let go b ro rc p out :=
    Some (mk_state b ro (w_open s) rc (w_came s) (wfd_ok s) (named s) (wr s) p (wlog s) (rlog s ++ out)) in
  match rd s with
  | ROpen => go (buf s) true true ROpening []
  | ROpening => if reg || w_came s then go (buf s) (r_open s) (r_came s) RRead [] else None
  | RRead =>
      if reg then go (buf s) (r_open s) (r_came s) (RPrint (takeZ 127 (buf s))) []
      else if decide (buf s = [])
      then if w_open s then None else go (buf s) (r_open s) (r_came s) (RPrint []) []
      else go (dropZ 127 (buf s)) (r_open s) (r_came s) (RPrint (takeZ 127 (buf s))) []
  | RPrint l => go (buf s) (r_open s) (r_came s) RClose [r_received l]
  | RClose => go (buf s) false (r_came s) RExit []
  | RExit | RBad => None
  end.

Definition step (a : action) (s : state) : option state :=
  match a with
  | Writer => writer s
  | Reader => reader s
  | WOpenFails =>
      match wr s with
      | WOpen => Some (mk_state (buf s) (r_open s) (w_open s) (r_came s) (w_came s) false (named s)
                         WWrite (rd s) (wlog s) (rlog s))
      | _ => None
      end
  | ROpenFails =>      (* read(-1, ...) then returns -1 too *)
      match rd s with
      | ROpen => Some (mk_state (buf s) (r_open s) (w_open s) (r_came s) (w_came s) (wfd_ok s) (named s)
                         (wr s) RBad (wlog s) (rlog s))
      | _ => None
      end
  | RReadFails =>
      match rd s with
      | RRead => Some (mk_state (buf s) (r_open s) (w_open s) (r_came s) (w_came s) (wfd_ok s) (named s)
                         (wr s) RBad (wlog s) (rlog s))
      | _ => None
      end
  end.

Definition start (old : bytes) : state := mk_state old false false false false false true WOpen ROpen [] [].

(** ** Invariant of the runs over a FIFO in which no call fails *)

Definition delivered (r : rpc) : bool := match r with RPrint _ | RClose | RExit => true | _ => false end.
Definition wrote (p : wpc) : bool :=
  match p with WOpen | WOpening | WWrite | WKilled => false | _ => true end.

Record inv (s : state) : Prop := {
  i_buf : buf s = if wrote (wr s) && negb (delivered (rd s)) then msg else [];
  i_r : r_open s = match rd s with ROpen | RExit => false | _ => true end;
  i_w : w_open s = match wr s with WOpen | WWait | WUnlink | WDone => false | _ => true end;
  i_rc : r_came s = match rd s with ROpen => false | _ => true end;
  i_wc : w_came s = match wr s with WOpen => false | _ => true end;
  i_ok : wfd_ok s = match wr s with WOpen | WOpening => false | _ => true end;
  i_named : named s = match wr s with WDone => false | _ => true end;
  i_rlog : rlog s = match rd s with RClose | RExit => [r_received msg] | _ => [] end;
  i_wlog : wlog s = match wr s with WOpen | WOpening | WWrite | WSent | WKilled => [] | _ => [w_sent] end;
  i_print : match rd s with RPrint l => l = msg | _ => True end;
  i_pair : match wr s, rd s with
           | WOpen, (ROpen | ROpening) => True
           | WOpening, (ROpen | ROpening | RRead) => True
           | WWrite, (ROpening | RRead) => True
           | (WSent | WClose | WWait), (ROpening | RRead | RPrint _ | RClose | RExit) => True
           | (WUnlink | WDone), RExit => True
           | _, _ => False
           end;
}.

Definition w_rank (p : wpc) : nat :=
  match p with WOpen => 7 | WOpening => 6 | WWrite => 5 | WSent => 4 | WClose => 3 | WWait => 2 | WUnlink => 1 | _ => 0 end.
Definition r_rank (r : rpc) : nat :=
  match r with ROpen => 5 | ROpening => 4 | RRead => 3 | RPrint _ => 2 | RClose => 1 | _ => 0 end.
Definition work (s : state) : nat := w_rank (wr s) + r_rank (rd s).
Definition finished (s : state) : Prop := wr s = WDone /\ rd s = RExit.

Lemma fifo_inv_start : inv (start []).
Proof. by split. Qed.

Context (Hfifo : reg = false) (Hlen : 0 < lenZ msg <= 127).

Lemma writable_all : writable [] msg = lenZ msg.
Proof.
  unfold writable, PIPE_SIZE, PIPE_BUF. change (lenZ (@nil byte)) with 0.
  by rewrite !(proj2 (Z.leb_le _ _)) by lia.
Qed.

Lemma read_all : msg <> [] /\ takeZ 127 msg = msg /\ dropZ 127 msg = [].
Proof.
  split_and!.
  - intros E. rewrite E in Hlen. unfold lenZ in Hlen. cbn in Hlen. lia.
  - apply takeZ_all. lia.
  - unfold dropZ. apply drop_ge. unfold lenZ in Hlen. lia.
Qed.

Lemma writer_inv s s' : inv s -> writer s = Some s' -> inv s' /\ (work s' < work s)%nat.
Proof.
  intros [Hb Hr Hw Hrc Hwc Hok Hnm Hrl Hwl Hpr Hpair] Hs.
  unfold writer, work in *. rewrite Hfifo in Hs. destruct s as [bf ro wo rc wc ok nm w r wl rl].
  cbn [buf r_open w_open r_came w_came wfd_ok named wr rd wlog rlog] in *. subst.
  destruct w, r; try done; cbn [wrote delivered andb negb] in *; rewrite ?writable_all, ?Z.eqb_refl in Hs;
    try done; injection Hs as <-; (split; [by split|cbn; lia]).
Qed.

Lemma reader_inv s s' : inv s -> reader s = Some s' -> inv s' /\ (work s' < work s)%nat.
Proof.
  intros [Hb Hr Hw Hrc Hwc Hok Hnm Hrl Hwl Hpr Hpair] Hs. destruct read_all as (Hne & Ht & Hdr).
  unfold reader, work in *. rewrite Hfifo in Hs. destruct s as [bf ro wo rc wc ok nm w r wl rl].
  cbn [buf r_open w_open r_came w_came wfd_ok named wr rd wlog rlog] in *. subst.
  destruct w, r; try done; cbn [wrote delivered andb negb] in *; try (rewrite decide_False in Hs by done);
    try done; injection Hs as <-; (split; [split; cbn -[takeZ dropZ]; by simplify_eq|cbn; lia]).
Qed.

Lemma fifo_progress s : inv s -> finished s \/ is_Some (writer s) \/ is_Some (reader s).
Proof.
  intros [Hb Hr Hw Hrc Hwc Hok Hnm Hrl Hwl Hpr Hpair]. destruct read_all as (Hne & _ & _).
  unfold finished, writer, reader. rewrite Hfifo. destruct s as [bf ro wo rc wc ok nm w r wl rl].
  cbn [buf r_open w_open r_came w_came wfd_ok named wr rd wlog rlog] in *. subst.
  destruct w, r; try done; cbn [wrote delivered andb negb]; rewrite ?writable_all, ?Z.eqb_refl;
    repeat (rewrite decide_False by done); first [by left|by right; left|by right; right].
Qed.

Definition ok_action (a : action) : Prop := a = Writer \/ a = Reader.
#[global] Instance ok_action_dec a : Decision (ok_action a).
Proof. unfold ok_action. apply _. Defined.

Lemma fifo_reach sched s :
  Forall ok_action sched -> run step sched (start []) = Some s -> inv s /\ (length sched + work s <= 12)%nat.
Proof.
  intros Hok Hrun. apply (run_within step inv work ok_action) in Hrun; [done| |apply fifo_inv_start|done].
  intros a s1 s2 Hi [-> | ->]; [by apply writer_inv|by apply reader_inv].
Qed.

Lemma fifo_delivers sched s :
  Forall ok_action sched -> run step sched (start []) = Some s ->
  (length sched <= 12)%nat /\
  (finished s \/ exists a, ok_action a /\ is_Some (step a s)) /\
  (wr s = WDone -> finished s) /\
  (finished s -> rlog s = [r_received msg] /\ wlog s = [w_sent] /\
                 named s = false /\ r_open s = false /\ w_open s = false).
Proof.
  intros Hn Hrun. destruct (fifo_reach sched s Hn Hrun) as [Hi Hw]. split_and!.
  - lia.
  - destruct (fifo_progress s Hi) as [?|[?|?]]; [by left|right; exists Writer|right; exists Reader];
      by (split; [unfold ok_action; auto|]).
  - intros Ew. split; [done|]. pose proof (i_pair _ Hi) as Hp. rewrite Ew in Hp. by destruct (rd s).
  - intros [Ew Er]. destruct Hi as [Hb Hr Hwo Hrc Hwc Hok Hnm Hrl Hwl Hpr Hpair].
    rewrite Ew, Er in *. by split_and!.
Qed.
End run.
End Fifo.

(** ** The demos and [main]

    A call's failure is described by the environment; a demo that forks runs
    its two processes under a schedule, and returns once the parent has
    waited for the child.  Results: the lines the parent printed, the lines
    the child printed, and what is left behind. *)

(** [mkfifo] made the FIFO; or EEXIST: there is a FIFO that nobody else uses,
    or a regular file; or another error. *)
Inductive mkfifo_result := MkCreated | MkFifo | MkFile (old : bytes) | MkFails.
Definition is_fifo (m : mkfifo_result) : bool := match m with MkCreated | MkFifo => true | _ => false end.

Record env := mk_env {
  e_pipe : option (Z * Z);
  e_fork1 : Z;
  e_mkfifo : mkfifo_result;
  e_fork2 : Z;
  e_wfd : Z;                   (* the descriptor of the FIFO's write end *)
  e_error : bytes;             (* the text of errno *)
}.

Definition anon_msg : bytes := bs "Hello from parent via anonymous pipe!".
Definition fifo_msg : bytes := bs "FIFO message from writer!".

(** The descriptors the parent has left open. *)
Definition demo_anon_pipe (e : env) (sched : list Anon.action) : option (list bytes * list bytes * list Z) :=
  let sep := format (separator "Demo 1: Anonymous Pipe (pipe())") in
  match e_pipe e with
  | None => Some ([sep; perror_line "pipe" (e_error e)], [], [])
  | Some (r, w) =>
      if e_fork1 e <? 0 then Some ([sep; perror_line "fork" (e_error e)], [], [r; w])
      else
        s ← run (Anon.step r w anon_msg (e_error e)) sched Anon.start;
        if decide (Anon.par s = Anon.PDone)
        then Some (sep :: Anon.plog s, Anon.clog s,
                   (if Anon.p_r s then [r] else []) ++ (if Anon.p_w s then [w] else []))
        else None
  end.

(** The descriptors the parent has left open, and whether FIFO_PATH is left in
    the file system, where it was ([nm]) or was not before. *)
Definition demo_named_pipe (e : env) (nm : bool) (sched : list Fifo.action) :
    option (list bytes * list bytes * list Z * bool) :=
  let sep := format (separator "Demo 2: Named Pipe / FIFO (mkfifo())") in
  match e_mkfifo e with
  | MkFails => Some ([sep; perror_line "mkfifo" (e_error e)], [], [], nm)
  | m =>
      if e_fork2 e <? 0 then Some ([sep; perror_line "fork" (e_error e)], [], [], true)
      else
        s ← run (Fifo.step (negb (is_fifo m)) fifo_msg) sched
              (Fifo.start (match m with MkFile old => old | _ => [] end));
        if decide (Fifo.wr s = Fifo.WDone)
        then Some (sep :: Fifo.wlog s, Fifo.rlog s, if Fifo.w_open s then [e_wfd e] else [], Fifo.named s)
        else None
  end.

Definition title : bytes := format [FLit "=== Embedded Linux Demo: Pipes & FIFOs ==="; FRaw [x0a]].
Definition done_line : bytes := format [FRaw [x0a]; FLit "[DONE] Pipe demo complete."; FRaw [x0a]].

Definition main (e : env) (nm : bool) (sched1 : list Anon.action) (sched2 : list Fifo.action) :
    option (list bytes * list bytes * list Z * bool) :=
  '(out1, child1, fds1) ← demo_anon_pipe e sched1;
  '(out2, child2, fds2, nm') ← demo_named_pipe e nm sched2;
  Some (title :: out1 ++ out2 ++ [done_line], child1 ++ child2, fds1 ++ fds2, nm').

(** C35: in every interleaving in which no call fails and FIFO_PATH is a FIFO,
    new or used by nobody else, both transfers are bounded and never deadlock:
    while its two processes have not both ended, one of them can move.  When
    [main] returns, the two children together printed exactly the message of
    each demo, whole, in one line each, the first child then the end of file;
    the parent printed its own lines in order, has neither an end of the pipe
    nor of the FIFO left open, and the FIFO's name is gone. *)
Theorem pipe_main e nm r w sched1 sched2 s1 s2 :
  e_pipe e = Some (r, w) -> 0 <= e_fork1 e -> is_fifo (e_mkfifo e) = true -> 0 <= e_fork2 e ->
  Forall Anon.ok_action sched1 -> Forall Fifo.ok_action sched2 ->
  run (Anon.step r w anon_msg (e_error e)) sched1 Anon.start = Some s1 ->
  run (Fifo.step false fifo_msg) sched2 (Fifo.start []) = Some s2 ->
  (length sched1 <= 123 /\ length sched2 <= 12)%nat /\
  (Anon.finished s1 \/ exists a, Anon.ok_action a /\ is_Some (Anon.step r w anon_msg (e_error e) a s1)) /\
  (Fifo.finished s2 \/ exists a, Fifo.ok_action a /\ is_Some (Fifo.step false fifo_msg a s2)) /\
  (Anon.finished s1 -> Fifo.finished s2 -> is_Some (main e nm sched1 sched2)) /\
  (forall out kids fds nm', main e nm sched1 sched2 = Some (out, kids, fds, nm') ->
     out = [title; format (separator "Demo 1: Anonymous Pipe (pipe())"); Anon.p_show r w; Anon.p_sent w anon_msg;
            format (separator "Demo 2: Named Pipe / FIFO (mkfifo())"); Fifo.w_sent fifo_msg; done_line] /\
     kids = [Anon.c_show r w; Anon.c_received r anon_msg; Anon.c_eof; Fifo.r_received fifo_msg] /\
     fds = [] /\ nm' = false).
Proof.
  intros Ep Hf1 Emk Hf2 Hn1 Hn2 Hr1 Hr2.
  destruct (Anon.anon_delivers r w anon_msg (e_error e) sched1 s1 Hn1 Hr1) as (Hl1 & Hp1 & He1 & Hd1).
  destruct (Fifo.fifo_delivers false fifo_msg eq_refl ltac:(split; vm_compute; congruence) sched2 s2 Hn2 Hr2) as (Hl2 & Hp2 & He2 & Hd2).
  assert (Em : main e nm sched1 sched2 =
    if decide (Anon.par s1 = Anon.PDone) then
      if decide (Fifo.wr s2 = Fifo.WDone) then
        Some (title :: (format (separator "Demo 1: Anonymous Pipe (pipe())") :: Anon.plog s1) ++
                (format (separator "Demo 2: Named Pipe / FIFO (mkfifo())") :: Fifo.wlog s2) ++ [done_line],
              Anon.clog s1 ++ Fifo.rlog s2,
              ((if Anon.p_r s1 then [r] else []) ++ (if Anon.p_w s1 then [w] else [])) ++
                (if Fifo.w_open s2 then [e_wfd e] else []), Fifo.named s2)
      else None
    else None).
  { unfold main, demo_anon_pipe, demo_named_pipe. rewrite Ep, Hr1.
    rewrite !(proj2 (Z.ltb_ge _ _)) by done. cbn [mbind option_bind].
    destruct (e_mkfifo e); try done; cbn [is_fifo negb]; rewrite Hr2; cbn [mbind option_bind]; destruct (decide (Anon.par s1 = Anon.PDone)), (decide (Fifo.wr s2 = Fifo.WDone));
      reflexivity. }
  split_and!; [exact Hl1|exact Hl2|exact Hp1|exact Hp2| |].
  - intros [E1 _] [E2 _]. rewrite Em, !decide_True by done. done.
  - intros out kids fds nm' E. rewrite Em in E. do 2 (case_decide; [|done]). simplify_eq.
    destruct (Hd1 (He1 ltac:(done))) as (_ & -> & -> & -> & _ & _ & ->); [|split; vm_compute; congruence].
    destruct (Hd2 (He2 ltac:(done))) as (-> & -> & -> & _ & ->). done.
Qed.

Definition env_ok : env := mk_env (Some (3, 4)) 100 MkCreated 101 3 [].
Definition anon_sched : list Anon.action :=
  greedy (Anon.step 3 4 anon_msg []) [Anon.Parent; Anon.Child] 200 Anon.start.
Definition fifo_sched : list Fifo.action :=
  greedy (Fifo.step false fifo_msg) [Fifo.Writer; Fifo.Reader] 50 (Fifo.start []).
Definition anon_end : Anon.state := default Anon.start (run (Anon.step 3 4 anon_msg []) anon_sched Anon.start).
Definition fifo_end : Fifo.state :=
  default (Fifo.start []) (run (Fifo.step false fifo_msg) fifo_sched (Fifo.start [])).

Lemma pipe_main_witness :
  is_Some (main env_ok true anon_sched fifo_sched) /\ (length anon_sched = 13)%nat /\ (length fifo_sched = 12)%nat.
Proof.
  destruct (pipe_main env_ok true 3 4 anon_sched fifo_sched anon_end fifo_end) as (_ & _ & _ & H & _);
    try (vm_compute; congruence).
  - by_decision.
  - by_decision.
  - split; [|split; vm_compute; reflexivity].
    apply H; vm_compute; split; reflexivity.
Defined.

(** A [read] of the child that fails while the parent has not yet written:
    the child closes the only read end and exits, and the parent's write then
    kills it with SIGPIPE; [main] does not reach Demo 2. *)
Example read_error_kills_parent :
  Anon.par <$> run (Anon.step 3 4 anon_msg [])
    [Anon.Child; Anon.Child; Anon.ReadError; Anon.Child; Anon.Child; Anon.Parent; Anon.Parent; Anon.Parent] Anon.start
  = Some Anon.PKilled.
Proof. vm_compute. reflexivity. Qed.

(** When the writer cannot open the FIFO, it says it has sent the message, and
    neither process can move: the reader waits for a writer in [open], the
    writer for the reader in [waitpid]. *)
Example writer_open_error_deadlocks :
  exists s, run (Fifo.step false fifo_msg)
              [Fifo.WOpenFails; Fifo.Writer; Fifo.Writer; Fifo.Writer; Fifo.Reader] (Fifo.start []) = Some s /\
    Fifo.wlog s = [Fifo.w_sent fifo_msg] /\ Fifo.wr s = Fifo.WWait /\
    Fifo.writer false fifo_msg s = None /\ Fifo.reader false s = None.
Proof. eexists. split; [vm_compute; reflexivity|]. vm_compute. auto. Qed.

(** A reader whose [open] or [read] fails stores its terminator before the
    start of [buf]. *)
Example reader_error_stores_before_buf :
  Fifo.rd <$> run (Fifo.step false fifo_msg) [Fifo.ROpenFails] (Fifo.start []) = Some Fifo.RBad.
Proof. reflexivity. Qed.

(** When [fork] fails the two pipe ends stay open, and the FIFO's name stays
    in the file system. *)
Example fork_failure_leaks :
  exists out, main (mk_env (Some (3, 4)) (-1) MkCreated (-1) 5 []) false [] [] = Some (out, [], [3; 4], true).
Proof. eexists. vm_compute. reflexivity. Qed.

(** When FIFO_PATH is a regular file it is overwritten and removed, and the
    reader can print what was in it before. *)
Example regular_file_destroyed :
  demo_named_pipe (mk_env None 0 (MkFile (bs "old text")) 101 3 []) true
    ([Fifo.Reader; Fifo.Reader; Fifo.Reader] ++ replicate 5 Fifo.Writer ++ [Fifo.Reader; Fifo.Reader; Fifo.Writer; Fifo.Writer])
  = Some ([format (separator "Demo 2: Named Pipe / FIFO (mkfifo())"); Fifo.w_sent fifo_msg],
          [Fifo.r_received (bs "old text")], [], false).
Proof. vm_compute. reflexivity. Qed.
