(* ===== verification/Mq.v ===== *)
(** * POSIX message queues

    src/03_ipc/mq_demo.c.  A queue is the list of its messages in order of
    arrival; [pick] is the message [mq_receive] takes, the oldest of those
    with the highest priority.  Demo 1 runs a sender program that is not part
    of the sources (what it queued before it ended is an argument) and then
    receives three messages; Demo 2 is two processes interleaved call by call
    over one queue, for any number [n] of messages (4 in the source).  Calls
    that fail are described by an environment or are actions of the schedule. *)

From stdpp Require Import sorting.
From S2P Require Import Prelude CLib.

Local Open Scope Z_scope.

Definition MAX_SIZE : Z := 256.
Definition MAX_MSGS : Z := 8.

(** ** The queue *)

Abbreviation msg := (Z * bytes)%type.       (* priority, contents *)

Record mq_attr := mk_attr { mq_maxmsg : Z; mq_msgsize : Z }.
Record mqueue := mk_mqueue { attr : mq_attr; msgs : list msg }.

Definition make_attr : mq_attr := mk_attr MAX_MSGS MAX_SIZE.

Fixpoint pick (q : list msg) : option (msg * list msg) :=
  match q with
  | [] => None
  | m :: q' =>
      match pick q' with
      | None => Some (m, q')
      | Some (b, r) => if b.1 <=? m.1 then Some (m, q') else Some (b, m :: r)
      end
  end.

(** The order in which a queue is emptied: by priority, then by age. *)
Fixpoint put_by_prio (m : msg) (l : list msg) : list msg :=
  match l with
  | [] => [m]
  | b :: l' => if b.1 <=? m.1 then m :: l else b :: put_by_prio m l'
  end.
Definition by_prio (q : list msg) : list msg := foldr put_by_prio [] q.

Lemma pick_None q : pick q = None -> q = [].
Proof. destruct q as [|m q]; [done|]. cbn. destruct (pick q) as [[b r]|]; [case_test|]; done. Qed.

Lemma put_by_prio_head m l : exists b l', put_by_prio m l = b :: l'.
Proof. destruct l; cbn; [|case_test]; eauto. Qed.

Lemma pick_by_prio q m r : pick q = Some (m, r) -> by_prio q = m :: by_prio r.
Proof.
  revert m r. induction q as [|a q IH]; intros m r H; cbn [pick] in H; [done|].
  destruct (pick q) as [[b r']|] eqn:E.
  - specialize (IH b r' eq_refl). unfold by_prio in *. cbn [foldr]. rewrite IH. cbn [put_by_prio].
    destruct (b.1 <=? a.1); simplify_eq; [by rewrite IH|done].
  - apply pick_None in E as ->. by simplify_eq.
Qed.

Lemma pick_is_Some q : q <> [] -> exists m r, pick q = Some (m, r).
Proof. intros Hq. destruct (pick q) as [[m r]|] eqn:E; [eauto|by apply pick_None in E]. Qed.

Lemma put_by_prio_perm m l : put_by_prio m l ≡ₚ m :: l.
Proof. induction l as [|b l IH]; cbn; [done|]. case_test; [done|]. rewrite IH. constructor. Qed.

Lemma by_prio_perm q : by_prio q ≡ₚ q.
Proof. induction q as [|m q IH]; cbn; [done|]. by rewrite put_by_prio_perm, IH. Qed.

Lemma put_by_prio_sorted m l :
  StronglySorted (fun a b => b.1 <= a.1) l -> StronglySorted (fun a b => b.1 <= a.1) (put_by_prio m l).
Proof.
  induction l as [|b l IH]; intros Hs; cbn; [repeat constructor|].
  apply StronglySorted_inv in Hs as [Hs Hb]. case_test; zbool.
  - constructor; [by constructor|]. constructor; [done|]. eapply Forall_impl; [exact Hb|]. cbn. lia.
  - constructor; [by apply IH|]. rewrite put_by_prio_perm. constructor; [lia|done].
Qed.

Lemma by_prio_sorted q : StronglySorted (fun a b => b.1 <= a.1) (by_prio q).
Proof. induction q; cbn; [constructor|by apply put_by_prio_sorted]. Qed.

(** Messages of one priority keep their order. *)
Lemma by_prio_stable q pr : filter (fun m => m.1 = pr) (by_prio q) = filter (fun m => m.1 = pr) q.
Proof.
  assert (Hput : forall m l, filter (fun m => m.1 = pr) (put_by_prio m l) = filter (fun m => m.1 = pr) (m :: l)).
  { intros m l. induction l as [|b l IH]; [done|]. cbn [put_by_prio]. case_test; zbool; [done|].
    rewrite filter_cons. rewrite IH, !filter_cons. repeat case_decide; (done || lia). }
  induction q as [|m q IH]; [done|]. change (by_prio (m :: q)) with (put_by_prio m (by_prio q)).
  by rewrite Hput, !filter_cons, IH.
Qed.

(** ** Demo 1: [demo_basic_mq] *)

Inductive open_result := OpenOk | OpenEEXIST | OpenFails.
Inductive unlink_result := UnlinkOk | UnlinkENOENT | UnlinkFails.

Record env1 := mk_env1 {
  e_open : open_result;
  e_fork1 : Z;
  e_exec : option (list msg);     (* execl fails; or what the program queues before it ends *)
  e_unlink : unlink_result;
  e_error : bytes;                (* the text of errno *)
  e_buf : bytes;                  (* buf, uninitialised *)
}.

Definition recv_line (prio : Z) (text : bytes) : bytes :=
  format [FLit "[RECV] prio="; FD prio; FLit "  "; FRaw [x22]; FS text; FRaw [x22]; FRaw [x0a]].

(** [%s] of the array: the bytes before its first NUL, which has to be there. *)
Definition cstr_of (buf : bytes) : option bytes := if decide (NUL ∈ buf) then Some (cstr buf) else None.

(** How a function ends: it returns, waits for ever in [mq_receive], or ends
    the process with [exit(1)]. *)
Inductive outcome (A : Type) := Ret (a : A) | Waits (a : A) | Exits (a : A).
Arguments Ret {A}.
Arguments Waits {A}.
Arguments Exits {A}.

(** The receive loop with [k] iterations left; [mq] is the queue the
    descriptor refers to, if it is one. *)
Fixpoint recv_loop (k : nat) (mq : option mqueue) (buf : bytes) (log : list bytes) :
    option (outcome (option mqueue * list bytes)) :=
  match k with
  | O => Some (Ret (mq, log))
  | S k =>
      match mq with
      | None => recv_loop k mq buf log                               (* EBADF *)
      | Some q =>
          if MAX_SIZE <? mq_msgsize (attr q) then recv_loop k mq buf log     (* EMSGSIZE *)
          else
          match pick (msgs q) with
          | None => Some (Waits (mq, log))
          | Some (m, r) =>
              buf ← store_bytes buf 0 m.2;
              if 0 <? lenZ m.2 then
                text ← cstr_of buf;
                recv_loop k (Some (mk_mqueue (attr q) r)) buf (log ++ [recv_line m.1 text])
              else recv_loop k (Some (mk_mqueue (attr q) r)) buf log
          end
      end
  end.

Definition sep1 : bytes := format (separator "Demo 1: POSIX MQ — Send / Receive with Priority").
Definition recv_head : bytes := format [FRaw [x0a]; FLit "[RECV order — highest priority first]"; FRaw [x0a]].

(** What the parent printed, what the child printed, and the queue left under
    MQ_NAME. *)
Definition demo1 : Type := list bytes * list bytes * option mqueue.

Definition demo_basic_mq (e : env1) (old : option mqueue) : option (outcome demo1) :=
  match e_open e with
  | OpenFails => Some (Ret ([sep1; perror_line "mq_open" (e_error e)], [], old))
  | o =>
      let mq := match o with OpenOk => Some (default (mk_mqueue make_attr []) old) | _ => None end in
      let named q := match mq with Some _ => q | None => old end in    (* what the name refers to *)
      if e_fork1 e <? 0 then Some (Ret ([sep1; perror_line "fork" (e_error e)], [], named mq))
      else
      let '(mq, kid) := match e_exec e with
                        | None => (mq, [perror_line "execlp" (e_error e)])
                        | Some sent => ((fun q => mk_mqueue (attr q) (msgs q ++ sent)) <$> mq, [])
                        end in
      r ← recv_loop 3 mq (e_buf e) [sep1; recv_head];
      Some match r with
      | Waits (q, log) => Waits (log, kid, named q)
      | Exits (q, log) => Exits (log, kid, named q)
      | Ret (q, log) =>
          match e_unlink e with
          | UnlinkOk => Ret (log, kid, None)
          | UnlinkENOENT => Ret (log ++ [format [FLit "mq_unlink: queue already removed"; FRaw [x0a]]], kid, None)
          | UnlinkFails => Ret (log ++ [perror_line "mq_unlink" (e_error e)], kid, named q)
          end
      end
  end.

(** A message of the queue: not empty, terminated, and no longer than the
    queue allows. *)
Definition wf_msg (q : mq_attr) (m : msg) : Prop := NUL ∈ m.2 /\ lenZ m.2 <= mq_msgsize q.

#[export] Instance wf_msg_dec q m : Decision (wf_msg q m).
Proof. unfold wf_msg. apply _. Defined.

Definition shown (m : msg) : bytes := recv_line m.1 (cstr m.2).

Lemma cstr_prefix_nul l k : NUL ∈ l -> cstr (l ++ k) = cstr l.
Proof.
  intros (l1 & l2 & ->)%list_elem_of_split. by rewrite <- (assoc_L (++)), <- app_comm_cons, !cstr_nul.
Qed.

Lemma recv_loop_spec k a ms buf log :
  mq_msgsize a <= MAX_SIZE -> lenZ buf = MAX_SIZE -> Forall (wf_msg a) ms ->
  exists r, by_prio ms = take k (by_prio ms) ++ by_prio r /\
  recv_loop k (Some (mk_mqueue a ms)) buf log =
    Some ((if decide (k <= length ms)%nat then Ret else Waits)
            (Some (mk_mqueue a r), log ++ (shown <$> take k (by_prio ms)))).
Proof.
  intros Ha. revert ms buf log. induction k as [|k IH]; intros ms buf log Hb Hms; cbn [recv_loop].
  { exists ms. by rewrite decide_True, app_nil_r by lia. }
  cbn [attr msgs]. rewrite (proj2 (Z.ltb_ge _ _)) by done.
  destruct (pick ms) as [[m r]|] eqn:E.
  2:{ apply pick_None in E as ->. exists []. rewrite decide_False by (cbn; lia). cbn. by rewrite app_nil_r. }
  pose proof (pick_by_prio _ _ _ E) as Ebp.
  assert (Hperm : ms ≡ₚ m :: r) by (rewrite <- (by_prio_perm ms), Ebp; f_equiv; apply by_prio_perm).
  rewrite Hperm in Hms. apply Forall_cons in Hms as [[Hnul Hsz] Hr].
  assert (Hpos : 0 < lenZ m.2) by (destruct m.2; [by apply not_elem_of_nil in Hnul|unfold lenZ; cbn [length]; lia]).
  rewrite store_bytes_Some by lia. cbn [mbind option_bind]. rewrite (proj2 (Z.ltb_lt _ _)) by done.
  rewrite takeZ_0, app_nil_l. unfold cstr_of. rewrite decide_True by set_solver. cbn [mbind option_bind].
  rewrite cstr_prefix_nul by done.
  destruct (IH r (m.2 ++ dropZ (0 + lenZ m.2) buf) (log ++ [recv_line m.1 (cstr m.2)])) as (r' & H1 & H2);
    [len|done|].
  exists r'. rewrite Ebp. cbn [take]. rewrite <- app_comm_cons, <- H1. split; [done|].
  rewrite H2. rewrite fmap_cons, <- (assoc_L (++)). f_equal.
  rewrite (Permutation_length Hperm). cbn [length].
  do 2 case_decide; (done || lia).
Qed.

(** ** Demo 2: [demo_multiprocess_mq] *)
Module Two.

Inductive ppc :=
| POpen
| PSend (i : nat)         (* loop head; mq_send *)
| PPrint (i : nat)
| PClose
| PWait                   (* wait(NULL) *)
| PUnlink
| PDone
| PFailed.                (* exit(1) *)
Inductive cpc :=
| COpen
| CRecv (j : nat)         (* loop head; mq_receive *)
| CPrint (j : nat)        (* the message is in buf *)
| CClose
| CExit
| CFailed.                (* exit(1) *)
#[global] Instance mq_ppc_eq_dec : EqDecision ppc.
Proof. solve_decision. Defined.
#[global] Instance mq_cpc_eq_dec : EqDecision cpc.
Proof. solve_decision. Defined.

Record state := mk_state {
  named : option (list msg);  (* the queue under MQ_NAME, with the attributes of make_attr *)
  prod : ppc;
  cons : cpc;
  cbuf : bytes;               (* the consumer's buf *)
  plog : list bytes;
  clog : list bytes;
}.

Inductive action := Producer | Consumer | POpenFails | COpenFails.

Section run.
Context (n : nat) (pid : Z) (error : bytes).

(** [snprintf] into [buf], and the [strlen(buf) + 1] bytes that are sent. *)
Definition message (i : nat) : list fmt :=
  [FLit "Message "; FD (Z.of_nat i); FLit " from PID "; FD pid].
Definition text (i : nat) : bytes := cstr (snprintf MAX_SIZE (message i)).2.
Definition sent (i : nat) : msg := (5, text i ++ [NUL]).

Definition p_line (i : nat) : bytes :=
  format [FLit "[PRODUCER] sent: "; FRaw [x22]; FS (text i); FRaw [x22]; FRaw [x0a]].
Definition c_line (t : bytes) : bytes :=
  format [FLit "[CONSUMER] received: "; FRaw [x22]; FS t; FRaw [x22]; FRaw [x0a]].

Definition opened (q : option (list msg)) : option (list msg) := Some (default [] q).

Definition producer (s : state) : option state :=
  let go q p out := Some (mk_state q p (cons s) (cbuf s) (plog s ++ out) (clog s)) in
  match prod s with
  | POpen => go (opened (named s)) (PSend 0) []
  | PSend i =>
      if (i <? n)%nat then
        q ← named s;
        if lenZ q <? MAX_MSGS then go (Some (q ++ [sent i])) (PPrint i) [] else None
      else go (named s) PClose []
  | PPrint i => go (named s) (PSend (S i)) [p_line i]
  | PClose => go (named s) PWait []
  | PWait => if decide (cons s = CExit \/ cons s = CFailed) then go (named s) PUnlink [] else None
  | PUnlink => go None PDone []
  | PDone | PFailed => None
  end.

Definition consumer (s : state) : option state :=
  let go q c b out := Some (mk_state q (prod s) c b (plog s) (clog s ++ out)) in
  match cons s with
  | COpen => go (opened (named s)) (CRecv 0) (cbuf s) []
  | CRecv j =>
      if (j <? n)%nat then
        q ← named s;
        '(m, r) ← pick q;
        b ← store_bytes (cbuf s) 0 m.2;
        go (Some r) (if 0 <? lenZ m.2 then CPrint j else CRecv (S j)) b []
      else go (named s) CClose (cbuf s) []
  | CPrint j => t ← cstr_of (cbuf s); go (named s) (CRecv (S j)) (cbuf s) [c_line t]
  | CClose => go (named s) CExit (cbuf s) []
  | CExit | CFailed => None
  end.

Definition step (a : action) (s : state) : option state :=
  match a, prod s, cons s with
  | Producer, _, _ => producer s
  | Consumer, _, _ => consumer s
  | POpenFails, POpen, _ =>
      Some (mk_state (named s) PFailed (cons s) (cbuf s) (plog s ++ [perror_line "mq_open(producer)" error]) (clog s))
  | COpenFails, _, COpen =>
      Some (mk_state (named s) (prod s) CFailed (cbuf s) (plog s) (clog s ++ [perror_line "mq_open(consumer)" error]))
  | _, _, _ => None
  end.

(** After [mq_unlink] and [fork]. *)
Definition start (buf : bytes) : state := mk_state None POpen COpen buf [] [].

(** ** Invariant *)

Definition n_sent (p : ppc) : nat :=
  match p with POpen | PFailed => 0 | PSend i => i | PPrint i => S i | _ => n end.
Definition n_shown (p : ppc) : nat :=
  match p with POpen | PFailed => 0 | PSend i | PPrint i => i | _ => n end.
Definition n_got (c : cpc) : nat :=
  match c with COpen | CFailed => 0 | CRecv j => j | CPrint j => S j | _ => n end.
Definition n_printed (c : cpc) : nat :=
  match c with COpen | CFailed => 0 | CRecv j | CPrint j => j | _ => n end.
Definition p_in (p : ppc) : Prop :=
  match p with PSend i => (i <= n)%nat | PPrint i => (i < n)%nat | PFailed => False | _ => True end.
Definition c_in (c : cpc) : Prop :=
  match c with CRecv j => (j <= n)%nat | CPrint j => (j < n)%nat | CFailed => False | _ => True end.

Definition queued (j k : nat) : list msg := sent <$> seq j (k - j).

Record inv (s : state) : Prop := {
  i_named : named s = match prod s, cons s with
                      | POpen, COpen => None
                      | PDone, _ => None
                      | _, _ => Some (queued (n_got (cons s)) (n_sent (prod s)))
                      end;
  i_order : (n_got (cons s) <= n_sent (prod s))%nat;
  i_p : p_in (prod s);
  i_c : c_in (cons s);
  i_wait : prod s = PUnlink \/ prod s = PDone -> cons s = CExit;
  i_buf : lenZ (cbuf s) = MAX_SIZE;
  i_text : match cons s with CPrint j => NUL ∈ cbuf s /\ cstr (cbuf s) = text j | _ => True end;
  i_plog : plog s = p_line <$> seq 0 (n_shown (prod s));
  i_clog : clog s = (fun j => c_line (text j)) <$> seq 0 (n_printed (cons s));
}.

Lemma text_len i : lenZ (text i) < MAX_SIZE.
Proof. by apply snprintf_cstr. Qed.

Lemma text_no_nul i : Forall (fun b => b <> NUL) (text i).
Proof. apply cstr_Forall. Qed.

Lemma pick_queued j k : (j < k)%nat -> pick (queued j k) = Some (sent j, queued (S j) k).
Proof.
  intros Hjk. unfold queued. replace (k - j)%nat with (S (k - S j)) by lia. cbn [seq fmap list_fmap pick].
  destruct (pick _) as [[b r]|] eqn:E; [|done].
  assert (Hb : b ∈ sent <$> seq (S j) (k - S j)).
  { pose proof (by_prio_perm (sent <$> seq (S j) (k - S j))) as Hp. rewrite <- Hp.
    rewrite (pick_by_prio _ _ _ E). constructor. }
  apply list_elem_of_fmap in Hb as (i & -> & _). done.
Qed.

Lemma queued_snoc j k : (j <= k)%nat -> queued j k ++ [sent k] = queued j (S k).
Proof.
  intros Hjk. unfold queued. replace (S k - j)%nat with (S (k - j)) by lia.
  rewrite seq_S, fmap_app. cbn. by replace (j + (k - j))%nat with k by lia.
Qed.

Lemma queued_nil k : queued k k = [].
Proof. unfold queued. by rewrite Nat.sub_diag. Qed.

Lemma lenZ_queued j k : lenZ (queued j k) = Z.of_nat (k - j).
Proof. unfold queued, lenZ. by rewrite length_fmap, length_seq. Qed.

Definition work (s : state) : nat :=
  match prod s with
  | POpen => 2 * n + 5 | PSend i => 2 * (n - i) + 4 | PPrint i => 2 * (n - i) + 3
  | PClose => 3 | PWait => 2 | PUnlink => 1 | _ => 0
  end +
  match cons s with
  | COpen => 2 * n + 3 | CRecv j => 2 * (n - j) + 2 | CPrint j => 2 * (n - j) + 1 | CClose => 1 | _ => 0
  end.

Opaque text.

Ltac mcbn := cbn [named prod cons cbuf plog clog n_sent n_shown n_got n_printed p_in c_in] in *.
Ltac restore :=
  split; [split; mcbn; rewrite ?app_nil_r; try done; try (intros [?|?]; done); try lia
         |unfold work; mcbn; lia].

Lemma producer_inv s s' : inv s -> producer s = Some s' -> inv s' /\ (work s' < work s)%nat.
Proof.
  intros [Hq Hord Hp Hc Hw Hb Ht Hpl Hcl] Hs. unfold producer in *.
  destruct s as [q p c b pl cl]; mcbn. subst q pl cl.
  destruct p as [|i|i| | | | | ]; mcbn; try done.
  - injection Hs as <-. restore. by destruct c.
  - destruct (Nat.ltb_spec i n) as [Hi|Hi]; cbn [mbind option_bind] in Hs.
    + destruct (_ <? MAX_MSGS); [|done]. injection Hs as <-. rewrite queued_snoc by done. restore.
    + injection Hs as <-. assert (i = n) as -> by lia. restore.
  - injection Hs as <-. restore. by rewrite seq_S, fmap_app.
  - injection Hs as <-. restore.
  - case_decide as Hcc; [|done]. injection Hs as <-.
    assert (c = CExit) as -> by (by destruct Hcc as [->| ->]). restore.
  - injection Hs as <-. specialize (Hw ltac:(by left)). subst c. restore.
Qed.

Lemma consumer_inv s s' : inv s -> consumer s = Some s' -> inv s' /\ (work s' < work s)%nat.
Proof.
  intros [Hq Hord Hp Hc Hw Hb Ht Hpl Hcl] Hs. unfold consumer in *.
  destruct s as [q p c b pl cl]; mcbn. subst pl cl.
  assert (Hd : c <> CExit -> p <> PUnlink /\ p <> PDone) by naive_solver.
  destruct c as [|j|j| | | ]; mcbn; try done; destruct (Hd ltac:(done)) as [Hu Hdone].
  { injection Hs as <-. subst q. restore. by destruct p. }
  all: assert (Eq : q = Some (queued _ (n_sent p))) by (rewrite Hq; by destruct p);
    rewrite Eq in Hs |- *; clear Eq Hq q.
  - destruct (Nat.ltb_spec j n) as [Hj|Hj]; cbn [mbind option_bind] in Hs.
    + destruct (decide (j < n_sent p)%nat) as [Hlt|Hge].
      2:{ assert (n_sent p = j) as E by lia. rewrite E in Hs. rewrite queued_nil in Hs. done. }
      rewrite pick_queued in Hs by done. cbn [mbind option_bind] in Hs.
      pose proof (text_len j). pose proof (lenZ_nonneg (text j)).
      assert (Hlen : lenZ (text j ++ [NUL]) = lenZ (text j) + 1) by (rewrite lenZ_app; done).
      cbn [sent snd] in Hs. rewrite store_bytes_Some in Hs by lia. cbn [mbind option_bind] in Hs.
      rewrite (proj2 (Z.ltb_lt _ _)) in Hs by lia. injection Hs as <-.
      restore; [by destruct p|rewrite lenZ_app, lenZ_dropZ by lia; lia|].
      split; [set_solver|]. rewrite <- (assoc_L (++)). by apply cstr_app_nul, text_no_nul.
    + injection Hs as <-. assert (j = n) as -> by lia. restore. by destruct p.
  - destruct Ht as [Hnul Htext]. unfold cstr_of in Hs. rewrite decide_True in Hs by done.
    cbn [mbind option_bind] in Hs. injection Hs as <-. restore; [by destruct p|].
    by rewrite seq_S, fmap_app, Htext.
  - injection Hs as <-. restore. by destruct p.
Qed.

Definition finished (s : state) : Prop := prod s = PDone /\ cons s = CExit.

Lemma producer_moves s :
  inv s -> prod s <> PWait -> prod s <> PDone -> n_got (cons s) = n_sent (prod s) -> is_Some (producer s).
Proof.
  intros [Hq _ Hp _ _ _ _ _ _] Hw Hd Hn. unfold producer.
  destruct (prod s) as [|i|i| | | | | ]; try done. mcbn. rewrite Hn, queued_nil in Hq.
  case_test; [|done].
  assert (named s = Some []) as -> by (rewrite Hq; by destruct (cons s)). done.
Qed.

Lemma consumer_moves s :
  inv s -> cons s <> CExit -> (n_got (cons s) < n_sent (prod s))%nat \/ n_got (cons s) = n -> is_Some (consumer s).
Proof.
  intros [Hq _ Hp Hc Hw Hb Ht _ _] Hex Hn. unfold consumer.
  destruct (cons s) as [|j|j| | | ]; try done; mcbn.
  - destruct (Nat.ltb_spec j n) as [Hj|Hj]; [|done].
    assert (named s = Some (queued j (n_sent (prod s)))) as ->
      by (rewrite Hq; destruct (prod s); naive_solver).
    cbn [mbind option_bind]. rewrite pick_queued by lia. cbn [mbind option_bind sent snd].
    pose proof (text_len j). rewrite store_bytes_Some; [done|lia|].
    rewrite lenZ_app. change (lenZ [NUL]) with 1. lia.
  - unfold cstr_of. by rewrite decide_True by naive_solver.
Qed.

Lemma two_progress s : inv s -> finished s \/ is_Some (producer s) \/ is_Some (consumer s).
Proof.
  intros Hi. pose proof (producer_moves s Hi) as Hpm. pose proof (consumer_moves s Hi) as Hcm.
  destruct Hi as [Hq Hord Hp Hc Hw Hb Ht Hpl Hcl]. unfold finished.
  destruct (decide (cons s = CExit)) as [Ec|Hc'].
  - rewrite Ec in *. mcbn. destruct (prod s) as [|i|i| | | | | ] eqn:Ep; mcbn; try done.
    all: try (right; left; apply Hpm; done || lia).
    + right; left. unfold producer. rewrite Ep, Ec. by rewrite decide_True by auto.
    + by left.
  - right. destruct (decide (n_got (cons s) < n_sent (prod s))%nat) as [Hlt|Hge]; [right; apply Hcm; auto|].
    destruct (decide (prod s = PWait)) as [Ep|Hp']; [rewrite Ep in *; mcbn; right; apply Hcm; auto; right; lia|].
    left. apply Hpm; [done|naive_solver|lia].
Qed.

Definition ok_action (a : action) : Prop := a = Producer \/ a = Consumer.
#[global] Instance two_ok_action_dec a : Decision (ok_action a).
Proof. unfold ok_action. destruct a; [left|left|right|right]; naive_solver. Defined.

Lemma two_delivers buf sched s :
  lenZ buf = MAX_SIZE -> Forall ok_action sched -> run step sched (start buf) = Some s ->
  (length sched <= 4 * n + 8)%nat /\
  (finished s \/ exists a, ok_action a /\ is_Some (step a s)) /\
  (prod s = PDone -> finished s) /\
  (finished s ->
     plog s = p_line <$> seq 0 n /\ clog s = (fun i => c_line (text i)) <$> seq 0 n /\ named s = None).
Proof.
  intros Hb Hok Hrun. apply (run_within step inv work ok_action) in Hrun as [Hi Hlen]; [| | |done].
  2:{ intros a s1 s2 Hi [-> | ->]; [by apply producer_inv|by apply consumer_inv]. }
  2:{ split; cbn; try done; try lia. by intros [?|?]. }
  split_and!.
  - unfold work in Hlen at 2. cbn in Hlen. lia.
  - destruct (two_progress s Hi) as [?|[H|H]]; [by left|right; exists Producer|right; exists Consumer];
      (split; [unfold ok_action; auto|exact H]).
  - intros Ep. split; [done|]. apply (i_wait _ Hi). auto.
  - intros [Ep Ec]. destruct Hi as [Hq _ _ _ _ _ _ Hpl Hcl]. rewrite Ep, Ec in *. done.
Qed.
Transparent text.
End run.
End Two.

(** ** Demo 2 and [main] *)

Record env := mk_env {
  e_1 : env1;
  e_fork2 : Z;
  e_pid : Z;
  e_buf2 : bytes;
}.
Definition N_MSGS : nat := 4.
Definition sep2 : bytes := format (separator "Demo 2: POSIX MQ — Multi-process Producer/Consumer").

(** [None]: the two processes have not ended under this schedule. *)
Definition demo_multiprocess_mq (e : env) (sched : list Two.action) : option (outcome demo1) :=
  if e_fork2 e <? 0 then Some (Ret ([sep2; perror_line "fork" (e_error (e_1 e))], [], None))
  else
    s ← run (Two.step N_MSGS (e_pid e) (e_error (e_1 e))) sched (Two.start (e_buf2 e));
    let res := (sep2 :: Two.plog s, Two.clog s, mk_mqueue make_attr <$> Two.named s) in
    match Two.prod s with
    | Two.PDone => Some (Ret res)
    | Two.PFailed => Some (Exits res)
    | _ => None
    end.

Definition title : bytes := format [FLit "=== Embedded Linux Demo: POSIX Message Queues ==="; FRaw [x0a]].
Definition done_line : bytes := format [FRaw [x0a]; FLit "[DONE] MQ demo complete."; FRaw [x0a]].

Definition main (e : env) (old : option mqueue) (sched : list Two.action) : option (outcome demo1) :=
  r1 ← demo_basic_mq (e_1 e) old;
  match r1 with
  | Waits (o, k, q) => Some (Waits (title :: o, k, q))
  | Exits (o, k, q) => Some (Exits (title :: o, k, q))
  | Ret (o1, k1, _) =>
      r2 ← demo_multiprocess_mq e sched;
      Some match r2 with
      | Ret (o2, k2, q) => Ret (title :: o1 ++ o2 ++ [done_line], k1 ++ k2, q)
      | Waits (o2, k2, q) => Waits (title :: o1 ++ o2, k1 ++ k2, q)
      | Exits (o2, k2, q) => Exits (title :: o1 ++ o2, k1 ++ k2, q)
      end
  end.

(** The queue Demo 1 receives from: what was left under MQ_NAME, if anything,
    and what the sender queued. *)
Definition contents (e : env) (old : option mqueue) : mqueue :=
  let q := default (mk_mqueue make_attr []) old in
  mk_mqueue (attr q) (msgs q ++ default [] (e_exec (e_1 e))).

(** No call fails, arrays have their size, and the queue of Demo 1 has
    messages of at most 256 bytes, each of them a terminated string. *)
Record mq_ok (e : env) (old : option mqueue) : Prop := {
  ok_open : e_open (e_1 e) = OpenOk;
  ok_fork1 : 0 <= e_fork1 (e_1 e);
  ok_exec : is_Some (e_exec (e_1 e));
  ok_unlink : e_unlink (e_1 e) = UnlinkOk;
  ok_fork2 : 0 <= e_fork2 e;
  ok_buf : lenZ (e_buf (e_1 e)) = MAX_SIZE;
  ok_buf2 : lenZ (e_buf2 e) = MAX_SIZE;
  ok_size : mq_msgsize (attr (contents e old)) <= MAX_SIZE;
  ok_msgs : Forall (wf_msg (attr (contents e old))) (msgs (contents e old));
}.

Lemma demo_basic_ok e old :
  mq_ok e old ->
  exists q, demo_basic_mq (e_1 e) old =
    let log := [sep1; recv_head] ++ (shown <$> take 3 (by_prio (msgs (contents e old)))) in
    Some (if decide (3 <= length (msgs (contents e old)))%nat then Ret (log, [], None) else Waits (log, [], Some q)).
Proof.
  intros [Ho Hf [sent He] Hu _ Hb _ Hsz Hms]. unfold demo_basic_mq, contents in *.
  rewrite Ho, He, Hu in *. rewrite (proj2 (Z.ltb_ge _ _)) by done.
  cbn [default fmap option_fmap option_map] in *. change (id sent) with sent in *.
  destruct (recv_loop_spec 3 (attr (default (mk_mqueue make_attr []) old))
    (msgs (default (mk_mqueue make_attr []) old) ++ sent) (e_buf (e_1 e)) [sep1; recv_head]) as (r & _ & Hr);
    [done..|].
  exists (mk_mqueue (attr (default (mk_mqueue make_attr []) old)) r). cbn [attr msgs] in *.
  rewrite Hr. cbn [mbind option_bind]. by destruct (decide _).
Qed.

(** C36: with at least three messages queued, Demo 1 receives exactly the
    first three of the stable order by descending priority of what was in the
    queue (messages left by an earlier run included) followed by what the
    sender queued; with fewer, it prints those and then waits for ever.  In
    every interleaving of Demo 2 in which no call fails, the two processes
    are bounded and never deadlock, and when [main] returns the consumer
    printed messages 0 to 3 once each and in order, the producer's lines are
    complete, and the queue's name is removed. *)
Theorem mq_main e old sched s :
  mq_ok e old -> Forall Two.ok_action sched ->
  run (Two.step N_MSGS (e_pid e) (e_error (e_1 e))) sched (Two.start (e_buf2 e)) = Some s ->
  let order := by_prio (msgs (contents e old)) in
  let log := title :: sep1 :: recv_head :: (shown <$> take 3 order) in
  (order ≡ₚ msgs (contents e old) /\ StronglySorted (fun a b => b.1 <= a.1) order /\
   forall pr, filter (fun m => m.1 = pr) order = filter (fun m => m.1 = pr) (msgs (contents e old))) /\
  (length order < 3 -> exists q, main e old sched = Some (Waits (log, [], Some q)))%nat /\
  (length sched <= 24)%nat /\
  (Two.finished s \/ exists a, Two.ok_action a /\ is_Some (Two.step N_MSGS (e_pid e) (e_error (e_1 e)) a s)) /\
  (3 <= length order -> Two.finished s ->
   main e old sched =
     Some (Ret (log ++ [sep2] ++ (Two.p_line (e_pid e) <$> [0; 1; 2; 3]) ++ [done_line],
                (fun i => Two.c_line (Two.text (e_pid e) i)) <$> [0; 1; 2; 3], None)))%nat.
Proof.
  intros Hok Hsched Hrun order log.
  destruct (Two.two_delivers N_MSGS (e_pid e) (e_error (e_1 e)) (e_buf2 e) sched s (ok_buf2 _ _ Hok) Hsched Hrun)
    as (Hlen & Hprog & _ & Hfin).
  destruct (demo_basic_ok e old Hok) as [q Hq].
  assert (Hn : length order = length (msgs (contents e old))) by (by rewrite <- (by_prio_perm (msgs _))).
  split_and!; try done.
  - apply by_prio_perm.
  - apply by_prio_sorted.
  - apply by_prio_stable.
  - intros Hlt. exists q. unfold main. rewrite Hq. cbn [mbind option_bind]. by rewrite decide_False by lia.
  - intros Hge Hf. unfold main. rewrite Hq. cbn [mbind option_bind]. rewrite decide_True by lia.
    unfold demo_multiprocess_mq. rewrite (proj2 (Z.ltb_ge _ _)) by apply (ok_fork2 _ _ Hok).
    rewrite Hrun. cbn [mbind option_bind]. destruct (Hfin Hf) as (-> & -> & ->).
    destruct Hf as [-> _]. cbn [mbind option_bind]. unfold log. by rewrite <- !app_comm_cons, <- ?(assoc_L (++)).
Qed.

(** ** Witness and boundary cases *)

Definition str (s : string) : bytes := bs s ++ [NUL].
Definition three : list msg := [(1, str "low"); (9, str "high"); (5, str "mid")].
Definition stale : mqueue := mk_mqueue make_attr [(7, str "left over")].
Definition env_mq (exec : option (list msg)) : env :=
  mk_env (mk_env1 OpenOk 100 exec UnlinkOk [] (replicate 256 x41)) 101 4242 (replicate 256 x41).
Definition mq_sched : list Two.action :=
  greedy (Two.step N_MSGS 4242 []) [Two.Producer; Two.Consumer] 60 (Two.start (replicate 256 x41)).
Definition mq_end : Two.state :=
  default (Two.start []) (run (Two.step N_MSGS 4242 []) mq_sched (Two.start (replicate 256 x41))).

Lemma mq_main_witness :
  (shown <$> take 3 (by_prio (msgs (contents (env_mq (Some three)) (Some stale))))) =
    [recv_line 9 (bs "high"); recv_line 7 (bs "left over"); recv_line 5 (bs "mid")] /\
  exists out kids, main (env_mq (Some three)) (Some stale) mq_sched = Some (Ret (out, kids, None)).
Proof.
  split; [vm_compute; reflexivity|].
  destruct (mq_main (env_mq (Some three)) (Some stale) mq_sched mq_end) as (_ & _ & _ & _ & H).
  - split; first [done|by eexists|by_decision].
  - by_decision.
  - vm_compute. reflexivity.
  - eexists _, _. apply H; [vm_compute; lia|vm_compute; split; reflexivity].
Defined.

(** When the sender cannot be started and the queue is new, Demo 1 waits for
    ever in its first [mq_receive]. *)
Example exec_failure_waits :
  exists out q, main (env_mq None) None [] = Some (Waits (out, [perror_line "execlp" []], Some q)) /\ msgs q = [].
Proof. eexists _, _. split; [vm_compute; reflexivity|done]. Qed.

(** When the producer of Demo 2 cannot open the queue it exits, the consumer
    waits for ever and the name stays. *)
Example producer_failure_orphans :
  exists s, run (Two.step N_MSGS 4242 []) [Two.Consumer; Two.POpenFails] (Two.start (replicate 256 x41)) = Some s /\
    Two.prod s = Two.PFailed /\ Two.consumer N_MSGS s = None /\ Two.named s = Some [].
Proof. eexists. split; [vm_compute; reflexivity|]. vm_compute. auto. Qed.

(** A message without a terminator that fills [buf] is printed past its end. *)
Example unterminated_message :
  demo_basic_mq (e_1 (env_mq (Some [(1, replicate 256 x42)]))) None = None.
Proof. vm_compute. reflexivity. Qed.
