(* ===== verification/Udp.v ===== *)
(** * UDP echo between two processes

    src/07_networking/udp_demo.c.  The client (the child) and the server (the
    parent) are interleaved call by call; a datagram that was sent is in
    flight until the network delivers it to the socket's queue or loses it,
    in any order.  Datagrams of strangers and failing receives are actions of
    the schedule too.  [n] is N_MSGS (4 in the source), [pid] the client's
    process id, [me] its address and port as the server sees them. *)

From S2P Require Import Prelude CLib.

Local Open Scope Z_scope.

Definition PORT : Z := 9090.
Definition BUF_SZ : Z := 512.

(** An IPv4 address and a port. *)
Record peer := mk_peer { ip : Z * Z * Z * Z; port : Z }.
Definition inet_ntop (a : Z * Z * Z * Z) : bytes :=
  let '(a, b, c, d) := a in format [FD a; FLit "."; FD b; FLit "."; FD c; FLit "."; FD d].

(** A UDP socket: [socket] failed; made, but [bind] or [connect] failed; bound
    or connected.  The program checks none of these calls. *)
Inductive sock := NoSocket | Bare | Ready.

Inductive cpc :=
| CStart                  (* close(srv), socket, connect *)
| CSend (i : nat)         (* loop head; send *)
| CSent (i : nat)         (* printf *)
| CRecv (i : nat)
| CEcho (i : nat) (d : bytes)   (* d was received into reply *)
| CClose
| CExit.
Inductive spc :=
| SRecv (i : nat)         (* loop head; recvfrom *)
| SShow (i : nat) (p : peer) (d : bytes)   (* d was received into buf *)
| SEcho (i : nat) (p : peer) (d : bytes)
| SErr                    (* perror; break *)
| SWait                   (* waitpid *)
| SClose
| SDone.
#[export] Instance udp_peer_eq_dec : EqDecision peer.
Proof. solve_decision. Defined.
#[export] Instance udp_cpc_eq_dec : EqDecision cpc.
Proof. solve_decision. Defined.
#[export] Instance udp_spc_eq_dec : EqDecision spc.
Proof. solve_decision. Defined.

Record state := mk_state {
  to_s : list (peer * bytes);   (* in flight to the server's port *)
  q_s : list (peer * bytes);    (* queued at the server's socket *)
  to_c : list bytes;
  q_c : list bytes;
  srv : spc;
  cli : cpc;
  slog : list bytes;
  clog : list bytes;
}.

Inductive action :=
| Client | Server
| ArriveS (k : nat) | ArriveC (k : nat)     (* the k-th datagram in flight arrives *)
| LoseS (k : nat) | LoseC (k : nat)
| Stranger (p : peer) (d : bytes)
| CRecvFails | SRecvFails.

Section run.
Context (n : nat) (pid : Z) (me : peer) (error : bytes).
Context (srv_ok cfd_ok : sock).

(** [snprintf] into [msg], and the [strlen(msg) + 1] bytes sent. *)
Definition datagram (i : nat) : list fmt :=
  [FLit "UDP datagram #"; FD (Z.of_nat i); FLit " from PID "; FD pid].
Definition text (i : nat) : bytes := cstr (snprintf BUF_SZ (datagram i)).2.

(** What [recv(fd, buf, sizeof(buf) - 1, 0)] stores of a datagram: the rest is
    discarded. *)
Definition received (d : bytes) : bytes := takeZ (BUF_SZ - 1) d.

Definition quoted (l : bytes) : list fmt := [FRaw [x22]; FS l; FRaw [x22]; FRaw [x0a]].
Definition c_head : bytes := format [FLit "[CLIENT] UDP connected to 127.0.0.1:"; FD PORT; FRaw [x0a]].
Definition c_sent (i : nat) : bytes := format (FLit "[CLIENT] sent: " :: quoted (text i)).
Definition c_echo (t : bytes) : bytes := format (FLit "[CLIENT] got echo: " :: quoted t).
Definition s_from (p : peer) (t : bytes) : bytes :=
  format ([FLit "[SERVER] from "; FS (inet_ntop (ip p)); FLit ":"; FD (port p); FLit ": "] ++ quoted t).
Definition s_done : bytes := format [FRaw [x0a]; FLit "[DONE] UDP demo complete."; FRaw [x0a]].

Definition client (s : state) : option state :=
  let go net q c out := Some (mk_state net (q_s s) (to_c s) q (srv s) c (slog s) (clog s ++ out)) in
  match cli s with
  | CStart => go (to_s s) (q_c s) (CSend 0) [c_head]
  | CSend i =>
      if (i <? n)%nat
      then go (match cfd_ok with Ready => to_s s ++ [(me, text i ++ [NUL])] | _ => to_s s end)   (* EBADF, EDESTADDRREQ *)
              (q_c s) (CSent i) []
      else go (to_s s) (q_c s) CClose []
  | CSent i => go (to_s s) (q_c s) (CRecv i) [c_sent i]
  | CRecv i =>
      match cfd_ok, q_c s with
      | NoSocket, _ => go (to_s s) (q_c s) (CSend (S i)) []
      | _, [] => None
      | _, d :: q =>
          let d := received d in
          go (to_s s) q (if 0 <? lenZ d then CEcho i d else CSend (S i)) []
      end
  | CEcho i d => go (to_s s) (q_c s) (CSend (S i)) [c_echo (cstr (d ++ [NUL]))]
  | CClose => go (to_s s) [] CExit []
  | CExit => None
  end.

Definition server (s : state) : option state :=
  let go q net p out := Some (mk_state (to_s s) q net (q_c s) p (cli s) (slog s ++ out) (clog s)) in
  match srv s with
  | SRecv i =>
      if (i <? n)%nat then
        match srv_ok, q_s s with
        | NoSocket, _ => go (q_s s) (to_c s) SErr []
        | _, [] => None
        | _, (p, d) :: q => go q (to_c s) (SShow i p (received d)) []
        end
      else go (q_s s) (to_c s) SWait []
  | SShow i p d => go (q_s s) (to_c s) (SEcho i p d) [s_from p (cstr (d ++ [NUL]))]
  | SEcho i p d => go (q_s s) (if decide (p = me) then to_c s ++ [d] else to_c s) (SRecv (S i)) []
  | SErr => go (q_s s) (to_c s) SWait [perror_line "recvfrom" error]
  | SWait => if decide (cli s = CExit) then go (q_s s) (to_c s) SClose [] else None
  | SClose => go [] (to_c s) SDone [s_done]
  | SDone => None
  end.

Definition step (a : action) (s : state) : option state :=
  let '(mk_state ts qs tc qc sp cp sl cl) := s in
  match a with
  | Client => client s
  | Server => server s
  | ArriveS k =>
      d ← ts !! k;
      match srv_ok with Ready => Some (mk_state (delete k ts) (qs ++ [d]) tc qc sp cp sl cl) | _ => None end
  | ArriveC k => d ← tc !! k; Some (mk_state ts qs (delete k tc) (qc ++ [d]) sp cp sl cl)
  | LoseS k => _ ← ts !! k; Some (mk_state (delete k ts) qs tc qc sp cp sl cl)
  | LoseC k => _ ← tc !! k; Some (mk_state ts qs (delete k tc) qc sp cp sl cl)
  | Stranger p d =>
      match srv_ok with Ready => Some (mk_state ts (qs ++ [(p, d)]) tc qc sp cp sl cl) | _ => None end
  | CRecvFails => match cp with CRecv i => Some (mk_state ts qs tc qc sp (CSend (S i)) sl cl) | _ => None end
  | SRecvFails =>
      match sp with
      | SRecv i => if (i <? n)%nat then Some (mk_state ts qs tc qc SErr cp sl cl) else None
      | _ => None
      end
  end.

Definition start : state := mk_state [] [] [] [] (SRecv 0) CStart [] [].

(** ** Invariant: one datagram under way at a time *)

Definition wire (i : nat) : bytes := received (text i ++ [NUL]).

(** Where the server is once it has answered [i] datagrams. *)
Definition idle (i : nat) (p : spc) : Prop := p = SRecv i \/ i = n /\ p = SWait.
(** The client has sent datagram [i] and has not got it back. *)
Definition waiting (i : nat) (c : cpc) : Prop := (i < n)%nat /\ (c = CSent i \/ c = CRecv i).

Inductive shape : cpc -> spc -> list (peer * bytes) -> list (peer * bytes) -> list bytes -> list bytes -> Prop :=
| Sh_start p : idle 0 p -> shape CStart p [] [] [] []
| Sh_next i p : (i <= n)%nat -> idle i p -> shape (CSend i) p [] [] [] []
| Sh_out i c : waiting i c -> shape c (SRecv i) [(me, text i ++ [NUL])] [] [] []
| Sh_at_s i c : waiting i c -> shape c (SRecv i) [] [(me, text i ++ [NUL])] [] []
| Sh_show i c : waiting i c -> shape c (SShow i me (wire i)) [] [] [] []
| Sh_echo i c : waiting i c -> shape c (SEcho i me (wire i)) [] [] [] []
| Sh_back i c p : waiting i c -> idle (S i) p -> shape c p [] [] [wire i] []
| Sh_at_c i c p : waiting i c -> idle (S i) p -> shape c p [] [] [] [wire i]
| Sh_got i p : (i < n)%nat -> idle (S i) p -> shape (CEcho i (wire i)) p [] [] [] []
| Sh_close p : idle n p -> shape CClose p [] [] [] []
| Sh_exit p : idle n p \/ p = SClose \/ p = SDone -> shape CExit p [] [] [] [].

Definition exchange (k : nat) : list bytes := [c_sent k; c_echo (text k)].
Definition answered (k : nat) : bytes := s_from me (text k).
Definition c_lines (c : cpc) : list bytes :=
  match c with
  | CStart => []
  | CSend i | CSent i => c_head :: seq 0 i ≫= exchange
  | CRecv i | CEcho i _ => c_head :: (seq 0 i ≫= exchange) ++ [c_sent i]
  | CClose | CExit => c_head :: seq 0 n ≫= exchange
  end.
Definition s_lines (p : spc) : list bytes :=
  match p with
  | SRecv i | SShow i _ _ => answered <$> seq 0 i
  | SEcho i _ _ => answered <$> seq 0 (S i)
  | SDone => (answered <$> seq 0 n) ++ [s_done]
  | _ => answered <$> seq 0 n
  end.

Record inv (s : state) : Prop := {
  i_shape : shape (cli s) (srv s) (to_s s) (q_s s) (to_c s) (q_c s);
  i_clog : clog s = c_lines (cli s);
  i_slog : slog s = s_lines (srv s);
}.

Definition c_rank (c : cpc) : nat :=
  match c with
  | CStart => 4 * n + 3 | CSend i => 4 * (n - i) + 2 | CSent i => 4 * (n - i) + 1
  | CRecv i => 4 * (n - i) | CEcho i _ => 4 * (n - i) - 1 | CClose => 1 | CExit => 0
  end.
Definition s_rank (p : spc) : nat :=
  match p with
  | SRecv i => 3 * (n - i) + 3 | SShow i _ _ => 3 * (n - i) + 2 | SEcho i _ _ => 3 * (n - i) + 1
  | SErr => 3 | SWait => 2 | SClose => 1 | SDone => 0
  end.
Definition work (s : state) : nat :=
  2 * c_rank (cli s) + 2 * s_rank (srv s) + length (to_s s) + length (to_c s).

Lemma text_fits i : lenZ (text i) < BUF_SZ.
Proof. by apply snprintf_cstr. Qed.

(** The receiver prints the text sent, and passes on the same bytes. *)
Lemma wire_text i : cstr (wire i ++ [NUL]) = text i.
Proof.
  pose proof (text_fits i). unfold wire, received.
  assert (Hn : Forall (fun b => b <> NUL) (text i)) by apply cstr_Forall.
  destruct (decide (lenZ (text i) = BUF_SZ - 1)) as [E|E].
  - rewrite <- E, takeZ_app_exact by done. by apply cstr_app_nul.
  - rewrite takeZ_all by (rewrite lenZ_app; change (lenZ [NUL]) with 1; lia).
    rewrite <- (assoc_L (++)). by apply cstr_app_nul.
Qed.

Lemma wire_received i : received (wire i) = wire i.
Proof. unfold wire, received. by rewrite takeZ_takeZ_le by lia. Qed.

Lemma wire_nonempty i : 0 < lenZ (wire i).
Proof.
  unfold wire, received. rewrite lenZ_takeZ_min by (unfold BUF_SZ; lia).
  rewrite lenZ_app. change (lenZ [NUL]) with 1. pose proof (lenZ_nonneg (text i)). unfold BUF_SZ. lia.
Qed.

Context (Hsrv : srv_ok = Ready) (Hcfd : cfd_ok = Ready).
Opaque text.

Ltac ucbn := cbn [to_s q_s to_c q_c srv cli slog clog c_rank s_rank c_lines s_lines length] in *.
Ltac settle :=
  split; [split; ucbn; rewrite ?app_nil_r; try done|unfold work; ucbn; lia].

Ltac reshape := solve [econstructor; unfold waiting, idle in *; naive_solver lia].

Lemma client_inv s s' : inv s -> client s = Some s' -> inv s' /\ (work s' < work s)%nat.
Proof.
  intros [Hsh Hcl Hsl] Hs. destruct s as [ts qs tc qc sp cp sl cl]. unfold client in Hs. ucbn. subst cl sl.
  rewrite Hcfd in Hs.
  destruct Hsh as [p Hp|i p Hi Hp|i c [Hi [->| ->]]|i c [Hi [->| ->]]|i c [Hi [->| ->]]|i c [Hi [->| ->]]
                  |i c p [Hi [->| ->]] Hp|i c p [Hi [->| ->]] Hp|i p Hi Hp|p Hp|p Hp]; ucbn; try done.
  - injection Hs as <-. settle. constructor; [lia|done].
  - destruct (Nat.ltb_spec i n) as [Hlt|Hge].
    + injection Hs as <-. destruct Hp as [->|[-> _]]; [|lia]. settle. constructor. by split; [|left].
    + injection Hs as <-. assert (i = n) as -> by lia. settle. by constructor.
  - injection Hs as <-. settle. reshape.
  - injection Hs as <-. settle. reshape.
  - injection Hs as <-. settle. reshape.
  - injection Hs as <-. settle. reshape.
  - injection Hs as <-. settle. reshape.
  - injection Hs as <-. settle. reshape.
  - rewrite wire_received, (proj2 (Z.ltb_lt _ _)) in Hs by apply wire_nonempty. injection Hs as <-.
    settle. reshape.
  - injection Hs as <-. settle; [reshape|]. by rewrite seq_S, bind_app, wire_text, <- (assoc_L (++)).
  - injection Hs as <-. settle. reshape.
Qed.

(** A server with nothing queued can only leave its loop. *)
Lemma idle_server i p s s' :
  srv s = p -> idle i p -> (i <= n)%nat -> q_s s = [] -> cli s <> CExit -> server s = Some s' ->
  i = n /\ p = SRecv n /\
  s' = mk_state (to_s s) [] (to_c s) (q_c s) SWait (cli s) (slog s) (clog s).
Proof.
  intros Ep Hp Hi Hq Hc Hs. unfold server in Hs. rewrite Ep, Hq, Hsrv, app_nil_r in Hs.
  destruct Hp as [->|[-> ->]].
  - destruct (Nat.ltb_spec i n) as [Hlt|Hge]; [done|]. injection Hs as <-. assert (i = n) as -> by lia. done.
  - by rewrite decide_False in Hs.
Qed.

Lemma server_inv s s' : inv s -> server s = Some s' -> inv s' /\ (work s' < work s)%nat.
Proof.
  intros [Hsh Hcl Hsl] Hs. destruct s as [ts qs tc qc sp cp sl cl].
  cbn [to_s q_s to_c q_c srv cli slog clog] in *. subst cl sl.
  destruct Hsh as [p Hp|i p Hi Hp|i c [Hi Hc]|i c [Hi Hc]|i c [Hi Hc]|i c [Hi Hc]
                  |i c p [Hi Hc] Hp|i c p [Hi Hc] Hp|i p Hi Hp|p Hp|p Hp].
  1,2,7,8,9,10: match type of Hs with server ?s = _ =>
      destruct (idle_server _ p s s' eq_refl Hp ltac:(lia) eq_refl ltac:(cbn [cli]; naive_solver) Hs) as (Ei & -> & ->)
    end; settle; reshape.
  all: unfold server in Hs; ucbn; rewrite ?Hsrv in Hs.
  - rewrite (proj2 (Nat.ltb_lt _ _)) in Hs by done. done.
  - rewrite (proj2 (Nat.ltb_lt _ _)) in Hs by done. injection Hs as <-. settle. reshape.
  - injection Hs as <-. settle; [reshape|]. by rewrite wire_text, seq_S, fmap_app.
  - rewrite decide_True in Hs by done. injection Hs as <-. settle. reshape.
  - destruct Hp as [[->|[_ ->]]|[->| ->]]; ucbn; try done.
    + rewrite Nat.ltb_irrefl in Hs. injection Hs as <-. settle. reshape.
    + rewrite decide_True in Hs by done. injection Hs as <-. settle. reshape.
    + injection Hs as <-. settle. reshape.
Qed.

Definition ok_action (a : action) : Prop :=
  match a with Client | Server | ArriveS _ | ArriveC _ => True | _ => False end.
#[global] Instance udp_ok_action_dec a : Decision (ok_action a).
Proof. destruct a; cbn; apply _. Defined.

Lemma udp_step_inv a s s' : inv s -> ok_action a -> step a s = Some s' -> inv s' /\ (work s' < work s)%nat.
Proof.
  intros Hi Ha Hs. destruct a as [| |k|k| | | | | ]; try done.
  - apply client_inv; [done|]. by destruct s.
  - apply server_inv; [done|]. by destruct s.
  - destruct Hi as [Hsh Hcl Hsl]. destruct s as [ts qs tc qc sp cp sl cl]. cbn [step] in Hs. ucbn. subst cl sl.
    rewrite Hsrv in Hs. destruct (ts !! k) as [d|] eqn:E; [|done]. cbn in Hs. injection Hs as <-.
    destruct Hsh; try done. destruct k; [|done]. cbn in E. injection E as <-. cbn [delete list_delete app]. settle. reshape.
  - destruct Hi as [Hsh Hcl Hsl]. destruct s as [ts qs tc qc sp cp sl cl]. cbn [step] in Hs. ucbn. subst cl sl.
    destruct (tc !! k) as [d|] eqn:E; [|done]. cbn in Hs. injection Hs as <-.
    destruct Hsh; try done. destruct k; [|done]. cbn in E. injection E as <-. cbn [delete list_delete app]. settle. reshape.
Qed.

Definition finished (s : state) : Prop := srv s = SDone /\ cli s = CExit.

Lemma udp_progress s : inv s -> finished s \/ exists a, ok_action a /\ is_Some (step a s).
Proof.
  intros [Hsh _ _]. unfold finished. destruct s as [ts qs tc qc sp cp sl cl]. ucbn.
  destruct Hsh as [p Hp|i p Hi Hp|i c [Hi Hc]|i c [Hi Hc]|i c [Hi Hc]|i c [Hi Hc]
                  |i c p [Hi Hc] Hp|i c p [Hi Hc] Hp|i p Hi Hp|p Hp|p Hp].
  - right. by exists Client.
  - right. exists Client. split; [done|]. unfold step, client. ucbn. by destruct (i <? n)%nat.
  - right. exists (ArriveS 0). split; [done|]. unfold step. ucbn. by rewrite Hsrv.
  - right. exists Server. split; [done|]. unfold step, server. ucbn. by rewrite (proj2 (Nat.ltb_lt _ _)), Hsrv.
  - right. by exists Server.
  - right. by exists Server.
  - right. by exists (ArriveC 0).
  - right. exists Client. split; [done|]. unfold step, client. ucbn. rewrite Hcfd. by destruct Hc as [->| ->].
  - right. by exists Client.
  - right. by exists Client.
  - destruct Hp as [[->|[_ ->]]|[->| ->]]; [| | |by left]; right; exists Server; (split; [done|]);
      unfold step, server; ucbn; rewrite ?Nat.ltb_irrefl; done.
Qed.

Lemma udp_exchange sched s :
  Forall ok_action sched -> run step sched start = Some s ->
  (length sched <= 14 * n + 12)%nat /\
  (finished s \/ exists a, ok_action a /\ is_Some (step a s)) /\
  (srv s = SDone -> finished s) /\
  (finished s ->
     clog s = c_head :: seq 0 n ≫= exchange /\ slog s = (answered <$> seq 0 n) ++ [s_done] /\
     to_s s = [] /\ q_s s = [] /\ to_c s = [] /\ q_c s = []).
Proof.
  intros Hok Hrun. apply (run_within step inv work ok_action) in Hrun as [Hi Hlen]; [| | |done].
  2:{ apply udp_step_inv. }
  2:{ split; try done. constructor. by left. }
  split_and!.
  - unfold work in Hlen at 2. cbn in Hlen. lia.
  - by apply udp_progress.
  - intros Ep. split; [done|]. destruct Hi as [Hsh _ _]. rewrite Ep in Hsh.
    inversion Hsh; subst; unfold idle in *; naive_solver.
  - intros [Ep Ec]. destruct Hi as [Hsh -> ->]. rewrite Ep, Ec in *. inversion Hsh; subst; try done;
      unfold waiting in *; naive_solver.
Qed.
Transparent text.
End run.

(** ** [main] *)

Record env := mk_env { e_srv : sock; e_cfd : sock; e_fork : Z; e_pid : Z; e_me : peer; e_error : bytes }.
Definition N_MSGS : nat := 4.

Definition head_lines : list bytes :=
  [format [FLit "=== Embedded Linux Demo: UDP ==="; FRaw [x0a; x0a]];
   format [FLit "[SERVER] UDP socket bound to port "; FD PORT; FRaw [x0a]]].

(** The parent's status and lines, and the child's lines; [None] when the
    parent has not ended under this schedule. *)
Definition main (e : env) (sched : list action) : option (Z * list bytes * list bytes) :=
  if e_fork e <? 0 then Some (1, head_lines ++ [perror_line "fork" (e_error e)], [])
  else
    s ← run (step N_MSGS (e_pid e) (e_me e) (e_error e) (e_srv e) (e_cfd e)) sched start;
    if decide (srv s = SDone) then Some (0, head_lines ++ slog s, clog s) else None.


(** ** Witness and boundary cases *)

Definition localhost : peer := mk_peer (127, 0, 0, 1) 40001.
Definition env_udp : env := mk_env Ready Ready 300 300 localhost [].
Definition udp_step : action -> state -> option state := step N_MSGS 300 localhost [] Ready Ready.
Definition udp_sched : list action := greedy udp_step [Client; Server; ArriveS 0; ArriveC 0] 80 start.
Definition udp_end : state := default start (run udp_step udp_sched start).


(** One lost datagram, and both processes wait for ever. *)
Example lost_datagram_deadlocks :
  exists s, run udp_step [Client; Client; Client; LoseS 0] start = Some s /\
    Forall (fun a => udp_step a s = None) [Client; Server; ArriveS 0; ArriveC 0].
Proof. eexists. split; [vm_compute; reflexivity|]. repeat constructor. Qed.

(** The port is taken: the program says "bound" all the same, the datagram
    goes to whoever has the port, and both processes wait for ever. *)
Example port_taken_deadlocks :
  let st := step N_MSGS 300 localhost [] Bare Ready in
  exists s, run st [Client; Client; Client; LoseS 0] start = Some s /\ srv s = SRecv 0 /\
    Forall (fun a => st a s = None) [Client; Server; ArriveS 0; ArriveC 0; Stranger localhost []].
Proof. eexists. split; [vm_compute; reflexivity|]. split; [done|repeat constructor]. Qed.

(** A datagram of a stranger counts as one of the four: the server leaves its
    loop with the client's last datagram unanswered, and the client waits for
    its echo while the server waits for the client. *)
Definition stranger_sched : list action :=
  Stranger (mk_peer (10, 0, 0, 9) 5) [x41] :: greedy udp_step [Client; Server; ArriveS 0; ArriveC 0] 80
    (default start (udp_step (Stranger (mk_peer (10, 0, 0, 9) 5) [x41]) start)).
Example stranger_deadlocks :
  exists s, run udp_step stranger_sched start = Some s /\ srv s = SWait /\ cli s = CRecv 3 /\
    Forall (fun a => udp_step a s = None) [Client; Server; ArriveS 0; ArriveC 0].
Proof. eexists. split; [vm_compute; reflexivity|]. split_and!; [done|done|repeat constructor]. Qed.
