(* ===== verification/Timers.v ===== *)
(** * Timers: clocks, interval timers and timerfd

    src/08_timers/timer_demo.c.  Clock readings are arguments.  The two demos
    that count signals of a periodic timer are one machine ([Tick]) in which
    the timer may expire between any two steps of the program, inside the
    handler too; SIGALRM is not queued, so an expiration that finds it pending
    is lost, while a POSIX timer counts it as an overrun.  The timerfd demo
    ([Tfd]) has its own: expirations accumulate in the descriptor until they
    are read, and an edge-triggered epoll set reports each arrival once. *)

From S2P Require Import Prelude CLib.

Local Open Scope Z_scope.

Definition line (f : list fmt) : bytes := format (f ++ [FRaw [x0a]]).

(** ** Demo 1: clocks *)

Record timespec := mk_timespec { tv_sec : Z; tv_nsec : Z }.

(** [now_ns], of the reading of the clock. *)
Definition now_ns (ts : timespec) : Z :=
  wrapU 64 (wrapU 64 (wrapU 64 (tv_sec ts) * 1000000000) + wrapU 64 (tv_nsec ts)).

(** [%09ld] *)
Definition pad9 (z : Z) : fmt := FRaw (replicate (9 - length (itoa z)) x30 ++ itoa z).

(** [f2] renders [%.2f] of a number of nanoseconds divided by 1e6. *)
Definition demo_clock_nanosleep (f2 : Z -> bytes) (real mono t0 t1 : timespec) : list bytes :=
  let elapsed := wrapU 64 (now_ns t1 - now_ns t0) in
  [format (separator "Demo 1: clock_gettime() + nanosleep()");
   line [FLit "CLOCK_REALTIME : "; FD (tv_sec real); FLit "."; pad9 (tv_nsec real); FLit " s"];
   line [FLit "CLOCK_MONOTONIC: "; FD (tv_sec mono); FLit "."; pad9 (tv_nsec mono); FLit " s"];
   line [FLit "nanosleep(100ms) actual: "; FD elapsed; FLit " ns ("; FRaw (f2 elapsed); FLit " ms)"]].

(** What a clock returns: a reading whose nanoseconds are below one second,
    within 500 years of its epoch. *)
Definition wf_time (ts : timespec) : Prop := 0 <= tv_sec ts < 2 ^ 34 /\ 0 <= tv_nsec ts < 1000000000.
Definition nanos (ts : timespec) : Z := tv_sec ts * 1000000000 + tv_nsec ts.

Lemma now_ns_exact ts : wf_time ts -> now_ns ts = nanos ts.
Proof.
  intros [Hs Hn]. unfold now_ns, nanos.
  rewrite (wrapU_small 64 (tv_sec ts)), (wrapU_small 64 (tv_nsec ts)) by lia.
  rewrite (wrapU_small 64 (tv_sec ts * _)) by lia. apply wrapU_small. lia.
Qed.

(** The two readings of the monotonic clock give the time between them. *)
Lemma elapsed_exact t0 t1 :
  wf_time t0 -> wf_time t1 -> nanos t0 <= nanos t1 -> wrapU 64 (now_ns t1 - now_ns t0) = nanos t1 - nanos t0.
Proof.
  intros H0 H1 Hle. rewrite !now_ns_exact by done. apply wrapU_small.
  unfold wf_time, nanos in *. lia.
Qed.

(** ** Demos 2 and 3: counting the signals of a periodic timer *)
Module Tick.

Inductive mode := Itimer | Posix.

(** struct itimerval and itimerspec, in microseconds and nanoseconds.  A timer
    runs while its [it_value] is not 0; when it expires that is reloaded from
    [it_interval]. *)
Record itimer := mk_itimer { it_interval : Z; it_value : Z }.
Definition itimer_0 : itimer := mk_itimer 0 0.
Definition runs (t : itimer) : bool := negb (it_value t =? 0).
Definition reload (t : itimer) : itimer := mk_itimer (it_interval t) (it_interval t).

Inductive pc :=
| Install                 (* sigaction *)
| Create                  (* timer_create *)
| Arm
| Say
| Check                   (* while (count < 5) *)
| Enter                   (* about to call pause: a tick that comes here does not end it *)
| Pause
| Disarm
| Finish                  (* sigaction(old), timer_delete *)
| Report
| Done
| Failed                  (* timer_create failed: perror, return *)
| Killed.                 (* by the default action of the signal *)
#[global] Instance tick_pc_eq_dec : EqDecision pc.
Proof. solve_decision. Defined.

Record state := mk_state {
  at_ : pc;
  installed : bool;       (* the handler is *)
  timer : itimer;         (* as the kernel has it *)
  pending : option Z;     (* the signal is pending, with so many overruns *)
  handler : option Z;     (* the handler runs; what timer_getoverrun returns *)
  count : Z;              (* g_alarm_count, g_posix_count *)
  fires : nat;            (* expirations so far *)
  log : list bytes;
}.

Inductive action := Cpu | Fire | CreateFails.
#[global] Instance tick_action_eq_dec : EqDecision action.
Proof. solve_decision. Defined.

Section run.
Context (md : mode) (error : bytes).

Definition head_line : bytes :=
  format (separator match md with
                    | Itimer => "Demo 2: setitimer() / SIGALRM"
                    | Posix => "Demo 3: timer_create() with SIGEV_SIGNAL"
                    end).
Definition wait_line : bytes :=
  line [FLit match md with
             | Itimer => "Waiting for 5 SIGALRM ticks…"
             | Posix => "Waiting for 5 POSIX timer expirations…"
             end].
Definition got_line (c : Z) : bytes :=
  line [FLit "Got "; FD c; FLit match md with Itimer => " SIGALRM signals ✓" | Posix => " timer expirations ✓" end].

(** [sigalrm_handler], [posix_timer_handler]: the overflow of an int is
    undefined. *)
Definition handle (over c : Z) : option Z :=
  let c' := c + match md with Itimer => 1 | Posix => 1 + over end in
  if c' <? 2 ^ 31 then Some c' else None.

(** [itv] and [its] as the demos set them to arm the timer: 100 ms; and to
    disarm it, with [memset] in Demo 2, by [it_value] alone in Demo 3. *)
Definition period : itimer :=
  match md with Itimer => mk_itimer 100000 100000 | Posix => mk_itimer 100000000 100000000 end.
Definition disarm : itimer :=
  match md with Itimer => itimer_0 | Posix => mk_itimer (it_interval period) 0 end.

(** One statement of the demo. *)
Definition stmt (s : state) : option state :=
  let go p i a out := Some (mk_state p i a (pending s) (handler s) (count s) (fires s) (log s ++ out)) in
  match at_ s with
  | Install => go (match md with Itimer => Arm | Posix => Create end) true (timer s) [head_line]
  | Create => go Arm (installed s) (timer s) []
  | Arm => go Say (installed s) period []
  | Say => go Check (installed s) (timer s) [wait_line]
  | Check => go (if count s <? 5 then Enter else Disarm) (installed s) (timer s) []
  | Enter => go Pause (installed s) (timer s) []
  | Pause => None
  | Disarm => go Finish (installed s) disarm []
  | Finish => go Report (match md with Itimer => false | Posix => installed s end) (timer s) []
  | Report => go Done (installed s) (timer s) [got_line (count s)]
  | Done | Failed | Killed => None
  end.

(** The processor: the handler first, then a pending signal, then the next
    statement.  A handled signal ends [pause]. *)
Definition cpu (s : state) : option state :=
  match handler s, pending s with
  | Some over, _ =>
      c ← handle over (count s);
      Some (mk_state (match at_ s with Pause => Check | p => p end) (installed s) (timer s) (pending s) None c
              (fires s) (log s))
  | None, Some over =>
      if installed s
      then Some (mk_state (at_ s) (installed s) (timer s) None (Some over) (count s) (fires s) (log s))
      else Some (mk_state Killed (installed s) itimer_0 None None (count s) (fires s) (log s))
  | None, None => stmt s
  end.

(** The timer expires. *)
Definition fire (s : state) : option state :=
  if runs (timer s) then
    let p := match pending s with
             | None => 0
             | Some over => match md with Itimer => 0 | Posix => over + 1 end
             end in
    Some (mk_state (at_ s) (installed s) (reload (timer s)) (Some p) (handler s) (count s) (S (fires s)) (log s))
  else None.

Definition step (a : action) (s : state) : option state :=
  match a with
  | Cpu => cpu s
  | Fire => fire s
  | CreateFails =>
      match at_ s with
      | Create => Some (mk_state Failed (installed s) (timer s) (pending s) (handler s) (count s) (fires s)
                          (log s ++ [perror_line "timer_create" error]))
      | _ => None
      end
  end.

(** The counters are static and start at 0. *)
Definition start : state := mk_state Install false itimer_0 None None 0 0 [].

(** ** Invariant *)

Definition due (o : option Z) : Z := match o with None => 0 | Some over => 1 + over end.
Definition timer_at (p : pc) : itimer :=
  match p with
  | Say | Check | Enter | Pause | Disarm => period
  | Finish | Report | Done => disarm
  | _ => itimer_0
  end.
Definition is_installed (p : pc) : bool :=
  match p with
  | Install | Killed => false
  | Report | Done => match md with Itimer => false | Posix => true end
  | _ => true
  end.
Definition lines (p : pc) (c : Z) : list bytes :=
  match p with
  | Install => []
  | Create | Arm | Say => [head_line]
  | Done => [head_line; wait_line; got_line c]
  | Failed => [head_line; perror_line "timer_create" error]
  | _ => [head_line; wait_line]
  end.

Record inv (s : state) : Prop := {
  i_alive : at_ s <> Killed;
  i_armed : timer s = timer_at (at_ s);
  i_installed : installed s = is_installed (at_ s);
  i_enough : match at_ s with Disarm | Finish | Report | Done => 5 <= count s | _ => 0 <= count s end;
  i_over : (forall o, pending s = Some o \/ handler s = Some o -> 0 <= o /\ (md = Itimer -> o = 0));
  i_sum : count s + due (handler s) + due (pending s) <= Z.of_nat (fires s);
  i_exact : md = Posix -> count s + due (handler s) + due (pending s) = Z.of_nat (fires s);
  i_quiet : match at_ s with Report | Done | Install | Create | Arm | Failed => pending s = None /\ handler s = None | _ => True end;
  i_log : log s = lines (at_ s) (count s);
  i_posix : match at_ s with Create | Failed => md = Posix | _ => True end;
}.

Definition rank (p : pc) : nat :=
  match p with
  | Install => 10 | Create => 9 | Arm => 8 | Say => 7 | Check => 6 | Enter => 5 | Pause => 4 | Disarm => 3 | Finish => 2
  | Report => 1 | _ => 0
  end.
Definition work (s : state) : nat :=
  rank (at_ s) + match handler s with Some _ => 3 | None => 0 end + match pending s with Some _ => 4 | None => 0 end.
Definition cost (a : action) : nat := match a with Fire => 5 | _ => 0 end.

Lemma stmt_inv s s' :
  inv s -> pending s = None -> handler s = None -> stmt s = Some s' -> inv s' /\ (work s' < work s)%nat.
Proof.
  intros [Ha Har Hin He Ho Hs Hx Hq Hl Hpx] Ep Eh E. unfold stmt, work in *.
  destruct s as [p i a pd h c f l]. cbn [at_ installed timer pending handler count fires log] in *. subst.
  destruct p; try done; injection E as <-;
    [destruct md eqn:Emd| | | |destruct (Z.ltb_spec c 5)| | | | ];
    (split; [split; cbn; rewrite ?app_nil_r; try done|cbn; lia]).
  all: rewrite ?Emd; naive_solver.
Qed.

Lemma handle_range over c c' :
  0 <= over -> 0 <= c -> handle over c = Some c' -> c < c' <= c + 1 + over /\ (md = Posix -> c' = c + 1 + over).
Proof.
  intros Ho Hc E. unfold handle in E. destruct md; inv_step E; (split; [lia|done || lia]).
Qed.

Lemma tick_cpu_inv s s' : inv s -> cpu s = Some s' -> inv s' /\ (work s' < work s)%nat.
Proof.
  intros Hi E. unfold cpu in E. destruct (handler s) as [over|] eqn:Eh; [|destruct (pending s) as [over|] eqn:Ep].
  3:{ by apply stmt_inv. }
  - destruct Hi as [Ha Har Hin He Ho Hs Hx Hq Hl Hpx]. destruct (handle over (count s)) as [c'|] eqn:Ec; [|done].
    cbn in E. injection E as <-.
    assert (Hc : 0 <= count s) by (destruct (at_ s); lia).
    destruct (Ho over) as [Ho1 Ho2]; [by right|]. destruct (handle_range _ _ _ Ho1 Hc Ec) as [Hr Hr'].
    unfold work. rewrite Eh in *. cbn [due] in *. split.
    + split; cbn [at_ installed timer pending handler count fires log due]; try done.
      * by destruct (at_ s).
      * by destruct (at_ s).
      * by destruct (at_ s).
      * destruct (at_ s); lia.
      * intros o [H|H]; [|done]. apply Ho. by left.
      * lia.
      * intros Hm. specialize (Hx Hm). specialize (Hr' Hm). lia.
      * destruct (at_ s); naive_solver.
      * rewrite Hl. destruct (at_ s); naive_solver.
      * by destruct (at_ s).
    + cbn. destruct (at_ s); cbn; lia.
  - destruct Hi as [Ha Har Hin He Ho Hs Hx Hq Hl Hpx]. unfold work. rewrite Eh, Ep in *.
    destruct (installed s) eqn:Ei.
    + injection E as <-. split; [|cbn; lia].
      split; cbn [at_ installed timer pending handler count fires log due] in *; try done; try lia.
      * intros o [H|H]; [done|]. apply Ho. left. congruence.
      * intros Hm. specialize (Hx Hm). lia.
      * destruct (at_ s); naive_solver.
    + exfalso. destruct (at_ s); naive_solver.
Qed.

Lemma period_runs : runs period = true.
Proof. unfold period. by destruct md. Qed.

(** A timer that runs is periodic. *)
Lemma timer_reload p : runs (timer_at p) = true -> reload (timer_at p) = timer_at p.
Proof. unfold timer_at, period, disarm. by destruct md, p. Qed.

Lemma fire_inv s s' : inv s -> fire s = Some s' -> inv s' /\ (work s' < work s + 5)%nat.
Proof.
  intros [Ha Har Hin He Ho Hs Hx Hq Hl Hpx] E. unfold fire in E. destruct (runs (timer s)) eqn:Ea; [|done].
  injection E as <-. unfold work.
  assert (Hp : forall o, pending s = Some o -> 0 <= o /\ (md = Itimer -> o = 0)) by naive_solver.
  split; [|cbn; destruct (pending s); lia].
  split; cbn [at_ installed timer pending handler count fires log due] in *; try done.
  - rewrite Har in *. by apply timer_reload.
  - intros o [H|H]; [|apply Ho; by right]. injection H as <-.
    destruct (pending s) as [o|]; [|done]. destruct (Hp o eq_refl). destruct md; naive_solver lia.
  - destruct (pending s) as [o|]; cbn [due] in *; [|lia]. destruct (Hp o eq_refl). destruct md; lia.
  - intros Hm. specialize (Hx Hm). destruct (pending s) as [o|]; cbn [due] in *; [|lia]. rewrite Hm. lia.
  - rewrite Har in Ea. unfold timer_at, disarm in Ea. by destruct md, (at_ s).
Qed.

Lemma tick_step_inv a s s' : inv s -> step a s = Some s' -> inv s' /\ (work s' < work s + cost a)%nat.
Proof.
  intros Hi E. destruct a; cbn [step cost] in *.
  - rewrite Nat.add_0_r. by apply tick_cpu_inv.
  - by apply fire_inv.
  - destruct Hi as [Ha Har Hin He Ho Hs Hx Hq Hl Hpx]. destruct (at_ s) eqn:Eat; try done. injection E as <-.
    split; [split; cbn [at_ installed timer pending handler count fires log] in *; try done|].
    + by rewrite Hl.
    + unfold work. rewrite Eat. cbn. lia.
Qed.

Definition ended (s : state) : Prop := at_ s = Done \/ at_ s = Failed.

Lemma tick_progress s :
  inv s -> Z.of_nat (fires s) < 2 ^ 31 -> ended s \/ is_Some (cpu s) \/ at_ s = Pause /\ is_Some (fire s).
Proof.
  intros [Ha Har Hin He Ho Hs Hx Hq Hl Hpx] Hb. unfold cpu, ended.
  destruct (handler s) as [over|] eqn:Eh; [|destruct (pending s) as [over|] eqn:Ep].
  - right; left. destruct (Ho over) as [Ho1 Ho2]; [by right|].
    assert (0 <= due (pending s)) by (destruct (pending s) eqn:E; cbn; [|lia]; pose proof (Ho z ltac:(by left)); lia).
    unfold handle. cbn [due] in Hs. destruct md; rewrite (proj2 (Z.ltb_lt _ _)) by lia; done.
  - right; left. by destruct (installed s).
  - unfold stmt, fire. rewrite Har.
    destruct (at_ s); cbn [timer_at]; rewrite ?period_runs; first [done|by left; left|by left; right|by right; left|by right; right].
Qed.

Lemma tick_run sched s :
  run step sched start = Some s -> inv s /\ (length sched <= 10 + sum_list_with cost sched)%nat.
Proof.
  intros Hrun. apply (run_cost step inv work cost) in Hrun as [Hi Hl]; [|apply tick_step_inv|by split; naive_solver].
  split; [done|]. unfold work in Hl at 2. cbn in Hl. lia.
Qed.
End run.
End Tick.

(** ** Demo 4: timerfd and epoll *)
Module Tfd.

Inductive pc :=
| Say
| Head                    (* while (fire_count < 5) *)
| Wait                    (* epoll_wait *)
| Read
| CloseEp
| CloseT
| Report
| Done.
#[global] Instance tfd_pc_eq_dec : EqDecision pc.
Proof. solve_decision. Defined.

Record state := mk_state {
  at_ : pc;
  ticks : Z;              (* expirations not read yet *)
  edge : bool;            (* the epoll set has the descriptor on its ready list *)
  fire_count : Z;
  fires : nat;            (* expirations so far *)
  fds : list Z;           (* open descriptors of the demo *)
  log : list bytes;
}.

(** [Timeout]: epoll_wait returns 0, or -1 when interrupted. *)
Inductive action := Cpu | Fire | Timeout.
#[global] Instance tfd_action_eq_dec : EqDecision action.
Proof. solve_decision. Defined.

Section run.
Context (tfd epfd : Z) (error : bytes).

Definition say_line : bytes := line [FLit "timerfd firing every 100ms — waiting for 5 expirations…"].
Definition fired_line (exp total : Z) : bytes :=
  line [FLit "  timerfd fired "; FD 1; FLit ", exp="; FD exp; FLit ", total="; FD total].
Definition done_line : bytes := line [FLit "timerfd demo done ✓"].

Definition close (fd : Z) (l : list Z) : list Z := filter (fun x => x <> fd) l.

(** A ready descriptor is reported only if it is readable then.  [fire_count +=
    (int)exp]: the overflow of the sum is undefined. *)
Definition cpu (s : state) : option state :=
  let go p t e c l out := Some (mk_state p t e c (fires s) l (log s ++ out)) in
  match at_ s with
  | Say => go Head (ticks s) (edge s) (fire_count s) (fds s) [say_line]
  | Head => go (if fire_count s <? 5 then Wait else CloseEp) (ticks s) (edge s) (fire_count s) (fds s) []
  | Wait =>
      if edge s then go (if 0 <? ticks s then Read else Wait) (ticks s) false (fire_count s) (fds s) [] else None
  | Read =>
      if 0 <? ticks s then
        let total := fire_count s + wrapS 32 (ticks s) in
        if (- 2 ^ 31 <=? total) && (total <? 2 ^ 31)
        then go Head 0 (edge s) total (fds s) [fired_line (ticks s) total] else None
      else go Head (ticks s) (edge s) (fire_count s) (fds s) [perror_line "read timerfd" error]    (* EAGAIN *)
  | CloseEp => go CloseT (ticks s) (edge s) (fire_count s) (close epfd (fds s)) []
  | CloseT => go Report (ticks s) (edge s) (fire_count s) (close tfd (fds s)) []
  | Report => go Done (ticks s) (edge s) (fire_count s) (fds s) [done_line]
  | Done => None
  end.

Definition step (a : action) (s : state) : option state :=
  match a with
  | Cpu => cpu s
  | Fire =>
      if decide (tfd ∈ fds s)
      then Some (mk_state (at_ s) (ticks s + 1) true (fire_count s) (S (fires s)) (fds s) (log s)) else None
  | Timeout =>
      match at_ s with
      | Wait => Some (mk_state Head (ticks s) (edge s) (fire_count s) (fires s) (fds s) (log s))
      | _ => None
      end
  end.

(** Armed and added to the epoll set; [k] expirations have come since. *)
Definition start (k : nat) : state :=
  mk_state Say (Z.of_nat k) (bool_decide (0 < k)%nat) 0 k [epfd; tfd] [].

(** ** Invariant *)

(** The lines for the counts read, with the running total. *)
Fixpoint fired_lines (total : Z) (exps : list Z) : list bytes :=
  match exps with
  | [] => []
  | x :: exps => fired_line x (total + x) :: fired_lines (total + x) exps
  end.
Definition sum (l : list Z) : Z := foldr Z.add 0 l.

Lemma fired_lines_snoc total exps x :
  fired_lines total (exps ++ [x]) = fired_lines total exps ++ [fired_line x (total + sum exps + x)].
Proof.
  revert total. induction exps as [|y exps IH]; intros total; cbn; [by rewrite Z.add_0_r|].
  rewrite IH. by rewrite (Z.add_assoc total).
Qed.

Lemma sum_nonneg l : Forall (fun x => 0 < x) l -> 0 <= sum l.
Proof.
  induction 1 as [|x l Hx _ IH]; [done|]. change (sum (x :: l)) with (x + sum l). lia.
Qed.

Lemma sum_snoc l x : sum (l ++ [x]) = sum l + x.
Proof.
  induction l as [|y l IH]; [cbn; lia|].
  change (sum ((y :: l) ++ [x])) with (y + sum (l ++ [x])). change (sum (y :: l)) with (y + sum l). lia.
Qed.

Record inv (s : state) (exps : list Z) : Prop := {
  i_total : fire_count s = sum exps;
  i_pos : Forall (fun x => 0 < x) exps;
  i_last : forall l x, exps = l ++ [x] -> sum l < 5;
  i_fires : fire_count s + ticks s = Z.of_nat (fires s);
  i_ticks : 0 <= ticks s;
  i_edge : match at_ s with Say | Head | Wait => 0 < ticks s -> edge s = true | _ => True end;
  i_read : at_ s = Read -> 0 < ticks s /\ fire_count s < 5;
  i_wait : at_ s = Wait -> fire_count s < 5;
  i_enough : match at_ s with CloseEp | CloseT | Report | Done => 5 <= fire_count s | _ => True end;
  i_fds : fds s = match at_ s with CloseT => [tfd] | Report | Done => [] | _ => [epfd; tfd] end;
  i_log : log s = match at_ s with
                  | Say => []
                  | Done => say_line :: fired_lines 0 exps ++ [done_line]
                  | _ => say_line :: fired_lines 0 exps
                  end;
  i_say : at_ s = Say -> exps = [];
}.

Definition rank (p : pc) : nat :=
  match p with
  | Read => 7 | Say => 6 | Head => 5 | Wait => 4 | CloseEp => 3 | CloseT => 2 | Report => 1 | Done => 0
  end.
Definition work (s : state) : nat := rank (at_ s) + if edge s then 4 else 0.
Definition cost (a : action) : nat := match a with Cpu => 0 | Fire => 5 | Timeout => 2 end.

Context (Hne : epfd <> tfd).

Ltac tcbn := cbn [at_ ticks edge fire_count fires fds log] in *.
Ltac settle := split; tcbn; rewrite ?app_nil_r; try done; try lia.

(** Reading the ticks adds them to the total and prints a line. *)
Lemma read_inv s s' exps :
  inv s exps -> at_ s = Read -> Z.of_nat (fires s) < 2 ^ 31 -> cpu s = Some s' ->
  inv s' (exps ++ [ticks s]).
Proof.
  intros [Ht Hp Hl Hf Hk He Hr Hw Hn Hfd Hlog Hs] Ea Hb E. unfold cpu in E. rewrite Ea in *.
  destruct Hr as [Hr1 Hr2]; [done|]. rewrite (proj2 (Z.ltb_lt _ _)) in E by done.
  pose proof (sum_nonneg exps Hp) as Hsum.
  rewrite wrapS_small in E by lia.
  rewrite (proj2 (Z.leb_le _ _)), (proj2 (Z.ltb_lt _ _)) in E by lia. cbn [andb] in E. injection E as <-.
  split; tcbn; try done; try lia.
  - rewrite sum_snoc. lia.
  - apply Forall_app. split; [done|]. by apply Forall_singleton.
  - intros l x [-> _]%app_inj_tail. lia.
  - rewrite Hlog, fired_lines_snoc. by rewrite Z.add_0_l, <- Ht.
Qed.

Lemma tfd_cpu_inv s s' exps :
  inv s exps -> Z.of_nat (fires s) < 2 ^ 31 -> cpu s = Some s' ->
  exists exps', inv s' exps'.
Proof.
  intros Hi Hb E. destruct (decide (at_ s = Read)) as [Ea|Ea]; [eauto using read_inv|].
  exists exps. destruct Hi as [Ht Hp Hl Hf Hk He Hr Hw Hn Hfd Hlog Hs]. unfold cpu in E.
  destruct s as [p t e c f l lg]. tcbn. subst l lg.
  destruct p; try done.
  - injection E as <-. settle. by rewrite Hs.
  - destruct (Z.ltb_spec c 5); injection E as <-; settle.
  - destruct e; [|done]. injection E as <-. destruct (Z.ltb_spec 0 t); settle. naive_solver.
  - injection E as <-. settle. unfold close. by rewrite filter_cons_False, filter_cons_True by naive_solver.
  - injection E as <-. settle. unfold close. by rewrite filter_cons_False by naive_solver.
  - injection E as <-. settle.
Qed.

Lemma tfd_step_inv a s s' :
  (Z.of_nat (fires s) < 2 ^ 31 -> exists exps, inv s exps) -> step a s = Some s' ->
  (Z.of_nat (fires s') < 2 ^ 31 -> exists exps, inv s' exps).
Proof.
  intros Hi E Hb. destruct a; cbn [step] in E.
  - assert (Ef : fires s' = fires s) by (unfold cpu in E; by inv_step E).
    rewrite Ef in Hb. destruct (Hi Hb) as [exps H]. by eapply tfd_cpu_inv.
  - case_decide; [|done]. injection E as <-. tcbn. destruct Hi as [exps H0]; [lia|]. exists exps.
    destruct H0 as [Ht Hp Hl Hf Hk He Hr Hw Hn Hfd Hlog Hs].
    split; tcbn; try done; try lia; [by destruct (at_ s)|intros Ea; destruct (Hr Ea); lia].
  - destruct (at_ s) eqn:Ea; try done. injection E as <-. tcbn. destruct (Hi Hb) as [exps H0]. exists exps.
    destruct H0 as [Ht Hp Hl Hf Hk He Hr Hw Hn Hfd Hlog Hs]. rewrite Ea in *. by split.
Qed.

Lemma tfd_work_step a s s' : step a s = Some s' -> (work s' < work s + cost a)%nat.
Proof.
  intros E. unfold work. destruct s as [p t e c f l lg]. destruct a; cbn [step cost] in *; unfold cpu in *; tcbn.
  all: try destruct p; inv_step E; repeat case_match; cbn; lia.
Qed.

Lemma tfd_progress s exps :
  inv s exps -> Z.of_nat (fires s) < 2 ^ 31 ->
  at_ s = Done \/ is_Some (cpu s) \/ at_ s = Wait /\ tfd ∈ fds s.
Proof.
  intros [Ht Hp Hl Hf Hk He Hr Hw Hn Hfd Hlog Hs] Hb. unfold cpu. pose proof (sum_nonneg exps Hp).
  destruct (at_ s) eqn:Ea; try (by left); try (by right; left).
  - right; right. split; [done|]. rewrite Hfd. set_solver.
  - right; left. destruct Hr as [Hr1 Hr2]; [done|]. rewrite (proj2 (Z.ltb_lt _ _)) by done.
    rewrite wrapS_small by lia. rewrite (proj2 (Z.leb_le _ _)), (proj2 (Z.ltb_lt _ _)) by lia. done.
Qed.

Lemma tfd_run k sched s :
  run step sched (start k) = Some s -> Z.of_nat (fires s) < 2 ^ 31 ->
  (exists exps, inv s exps) /\ (length sched <= 10 + sum_list_with cost sched)%nat.
Proof.
  intros Hrun Hb. split.
  - revert Hb. revert Hrun. apply (run_invariant step (fun s => Z.of_nat (fires s) < 2 ^ 31 -> exists exps, inv s exps)).
    { intros a x y Hx Hy. by apply (tfd_step_inv a x). }
    intros _. exists []. split; cbn; try done; try lia; [by intros [] ?|]. intros Hk. by rewrite bool_decide_true by lia.
  - apply (run_cost step (fun _ => True) work cost) in Hrun as [_ Hl]; [| |done].
    + assert (Hs : (work (start k) <= 10)%nat) by (unfold work; cbn; destruct (bool_decide _); lia). lia.
    + intros a x y _ E. split; [done|]. by apply tfd_work_step.
Qed.
End run.
End Tfd.

(** ** The demos and [main] *)

Record env := mk_env {
  e_real : timespec; e_mono : timespec; e_t0 : timespec; e_t1 : timespec;
  e_f2 : Z -> bytes;
  e_tfd : Z;                  (* timerfd_create *)
  e_settime : bool;
  e_epfd : Z;                 (* epoll_create1 *)
  e_ctl : bool;
  e_early : nat;              (* expirations between timerfd_settime and epoll_ctl's return *)
  e_error : bytes;
}.

(** [demo_setitimer] and [demo_posix_timer]: what is printed, and whether the
    signal's handler stays installed.  [None]: not ended under this schedule. *)
Definition demo_tick (md : Tick.mode) (e : env) (sched : list Tick.action) : option (list bytes * bool) :=
  s ← run (Tick.step md (e_error e)) sched Tick.start;
  if decide (Tick.at_ s = Tick.Done \/ Tick.at_ s = Tick.Failed)
  then Some (Tick.log s, Tick.installed s) else None.
Definition demo_setitimer : env -> list Tick.action -> option (list bytes * bool) := demo_tick Tick.Itimer.
Definition demo_posix_timer : env -> list Tick.action -> option (list bytes * bool) := demo_tick Tick.Posix.

(** [demo_timerfd]: what is printed, and the descriptors left open. *)
Definition demo_timerfd (e : env) (sched : list Tfd.action) : option (list bytes * list Z) :=
  let sep := format (separator "Demo 4: timerfd_create() + epoll") in
  let tfd := e_tfd e in
  let epfd := e_epfd e in
  if tfd <? 0 then Some ([sep; perror_line "timerfd_create" (e_error e)], [])
  else if negb (e_settime e) then Some ([sep; perror_line "timerfd_settime" (e_error e)], Tfd.close tfd [tfd])
  else if epfd <? 0 then Some ([sep; perror_line "epoll_create1" (e_error e)], Tfd.close tfd [tfd])
  else if negb (e_ctl e)
       then Some ([sep; perror_line "epoll_ctl" (e_error e)], Tfd.close tfd (Tfd.close epfd [epfd; tfd]))
  else
    s ← run (Tfd.step tfd epfd (e_error e)) sched (Tfd.start tfd epfd (e_early e));
    if decide (Tfd.at_ s = Tfd.Done) then Some (sep :: Tfd.log s, Tfd.fds s) else None.

Definition title : bytes := line [FLit "=== Embedded Linux Demo: Timers ==="].
Definition end_line : bytes := line [FRaw [x0a]; FLit "[DONE] Timer demo complete."].

(** The lines printed, whether the handlers of SIGALRM and of SIGRTMIN stay
    installed, and the descriptors left open. *)
Definition main (e : env) (sched2 sched3 : list Tick.action) (sched4 : list Tfd.action) :
    option (list bytes * bool * bool * list Z) :=
  let out1 := demo_clock_nanosleep (e_f2 e) (e_real e) (e_mono e) (e_t0 e) (e_t1 e) in
  '(out2, h2) ← demo_setitimer e sched2;
  '(out3, h3) ← demo_posix_timer e sched3;
  '(out4, fds) ← demo_timerfd e sched4;
  Some (title :: out1 ++ out2 ++ out3 ++ out4 ++ [end_line], h2, h3, fds).

(** Demos 2 and 3 under one schedule. *)
Lemma demo_tick_spec md e sched s :
  run (Tick.step md (e_error e)) sched Tick.start = Some s ->
  (length sched <= 10 + sum_list_with Tick.cost sched)%nat /\
  Tick.at_ s <> Tick.Killed /\
  (Z.of_nat (Tick.fires s) < 2 ^ 31 ->
     Tick.ended s \/ is_Some (Tick.cpu md s) \/ Tick.at_ s = Tick.Pause /\ is_Some (Tick.fire md s)) /\
  (forall out h, demo_tick md e sched = Some (out, h) ->
     (Tick.at_ s = Tick.Done /\ 5 <= Tick.count s <= Z.of_nat (Tick.fires s) /\
      (md = Tick.Posix -> Tick.count s = Z.of_nat (Tick.fires s)) /\
      out = [Tick.head_line md; Tick.wait_line md; Tick.got_line md (Tick.count s)] /\
      h = match md with Tick.Itimer => false | Tick.Posix => true end) \/
     (md = Tick.Posix /\ out = [Tick.head_line md; perror_line "timer_create" (e_error e)] /\ h = true)).
Proof.
  intros Hrun. destruct (Tick.tick_run md (e_error e) sched s Hrun) as [Hi Hl].
  split_and!; [done|apply Hi|intros Hb; by eapply Tick.tick_progress|].
  intros out h E. unfold demo_tick in E. rewrite Hrun in E. cbn [mbind option_bind] in E.
  case_decide as Hend; [|done]. injection E as <- <-.
  destruct Hi as [Ha Har Hin He Ho Hs Hx Hq Hlog Hpx].
  destruct Hend as [Ed|Ed]; rewrite Ed in *; cbn [Tick.lines Tick.is_installed] in *;
    destruct Hq as [Ep Eh]; rewrite Ep, Eh in *; cbn [Tick.due] in *.
  - left. split_and!; try done; try lia. intros Hm. specialize (Hx Hm). lia.
  - right. done.
Qed.

(** Demo 4 under one schedule, and its error returns. *)
Lemma demo_timerfd_spec e sched s :
  0 <= e_tfd e -> 0 <= e_epfd e -> e_tfd e <> e_epfd e ->
  run (Tfd.step (e_tfd e) (e_epfd e) (e_error e)) sched (Tfd.start (e_tfd e) (e_epfd e) (e_early e)) = Some s ->
  Z.of_nat (Tfd.fires s) < 2 ^ 31 ->
  (length sched <= 10 + sum_list_with Tfd.cost sched)%nat /\
  (Tfd.at_ s = Tfd.Done \/ is_Some (Tfd.cpu (e_tfd e) (e_epfd e) (e_error e) s) \/
   Tfd.at_ s = Tfd.Wait /\ e_tfd e ∈ Tfd.fds s) /\
  (forall out fds, e_settime e = true -> e_ctl e = true -> demo_timerfd e sched = Some (out, fds) ->
     fds = [] /\ exists exps, Forall (fun x => 0 < x) exps /\ 5 <= Tfd.sum exps <= Z.of_nat (Tfd.fires s) /\
     (forall l x, exps = l ++ [x] -> Tfd.sum l < 5) /\
     out = format (separator "Demo 4: timerfd_create() + epoll") :: Tfd.say_line ::
             Tfd.fired_lines 0 exps ++ [Tfd.done_line]).
Proof.
  intros Ht Hep Hne Hrun Hb.
  destruct (Tfd.tfd_run _ _ _ (not_eq_sym Hne) _ sched s Hrun Hb) as [[exps Hi] Hl]. split_and!; [done| |].
  - by eapply Tfd.tfd_progress.
  - intros out fds Hst Hct E. unfold demo_timerfd in E.
    rewrite (proj2 (Z.ltb_ge (e_tfd e) 0)), (proj2 (Z.ltb_ge (e_epfd e) 0)), Hst, Hct, Hrun in E by done.
    cbn [negb mbind option_bind] in E. case_decide as Hd; [|done]. injection E as <- <-.
    destruct Hi as [Htot Hp Hlast Hf Hk He Hr Hw Hn Hfd Hlog Hs]. rewrite Hd in *. split; [done|].
    exists exps. split_and!; try done; try lia. by rewrite Hlog.
Qed.

Lemma demo_timerfd_closes e sched out fds :
  e_tfd e <> e_epfd e -> e_tfd e < 0 \/ e_settime e = false \/ e_epfd e < 0 \/ e_ctl e = false ->
  demo_timerfd e sched = Some (out, fds) -> fds = [].
Proof.
  intros Hne Hbad E. unfold demo_timerfd in E.
  destruct (Z.ltb_spec (e_tfd e) 0); [by injection E|]. destruct (e_settime e); cbn [negb] in E.
  2:{ injection E as _ <-. unfold Tfd.close. by rewrite filter_cons_False by naive_solver. }
  destruct (Z.ltb_spec (e_epfd e) 0).
  { injection E as _ <-. unfold Tfd.close. by rewrite filter_cons_False by naive_solver. }
  destruct (e_ctl e); cbn [negb] in E.
  { destruct Hbad as [?|[?|[?|?]]]; (lia || done). }
  injection E as _ <-. unfold Tfd.close.
  rewrite (filter_cons_False _ (e_epfd e)), filter_cons_True by naive_solver.
  by rewrite filter_nil, filter_cons_False by naive_solver.
Qed.

Definition bounded2 (sched : list Tick.action) : Prop := (length sched <= 10 + sum_list_with Tick.cost sched)%nat.
Definition moves (md : Tick.mode) (s : Tick.state) : Prop :=
  Tick.ended s \/ is_Some (Tick.cpu md s) \/ Tick.at_ s = Tick.Pause /\ is_Some (Tick.fire md s).

(** Once the three demos have ended [main] returns. *)
Lemma timers_returns e sched2 sched3 sched4 s2 s3 s4 :
  0 <= e_tfd e -> 0 <= e_epfd e -> e_settime e = true -> e_ctl e = true ->
  run (Tick.step Tick.Itimer (e_error e)) sched2 Tick.start = Some s2 ->
  run (Tick.step Tick.Posix (e_error e)) sched3 Tick.start = Some s3 ->
  run (Tfd.step (e_tfd e) (e_epfd e) (e_error e)) sched4 (Tfd.start (e_tfd e) (e_epfd e) (e_early e)) = Some s4 ->
  Tick.ended s2 -> Tick.ended s3 -> Tfd.at_ s4 = Tfd.Done -> is_Some (main e sched2 sched3 sched4).
Proof.
  intros Ht Hep Hst Hct R2 R3 R4 E2 E3 E4.
  unfold main, demo_setitimer, demo_posix_timer, demo_tick, demo_timerfd.
  rewrite (proj2 (Z.ltb_ge (e_tfd e) 0)), (proj2 (Z.ltb_ge (e_epfd e) 0)), Hst, Hct, R2, R3, R4 by done.
  cbn [negb mbind option_bind]. do 3 (rewrite decide_True by done; cbn [mbind option_bind]). done.
Qed.

(** C38: whenever the timers expire, up to 2^31 times.  Every run is bounded by
    its expirations and timeouts, and always either the program or, while it
    waits, an armed timer can move; SIGALRM never finds its default action
    back in place and kills the process.  When [main] returns: the elapsed
    time printed is the difference of the two clock readings; Demo 2 counted
    at least 5 ticks and at most the expirations; Demo 3, unless its timer
    could not be created, counted exactly the expirations, at least 5; Demo 4
    printed each count it read with the right running total, stopping as soon
    as that reached 5; all descriptors are closed, SIGALRM's handler is
    removed and SIGRTMIN's is not. *)
Theorem timers_main e sched2 sched3 sched4 s2 s3 s4 :
  wf_time (e_t0 e) -> wf_time (e_t1 e) -> nanos (e_t0 e) <= nanos (e_t1 e) ->
  0 <= e_tfd e -> 0 <= e_epfd e -> e_tfd e <> e_epfd e -> e_settime e = true -> e_ctl e = true ->
  run (Tick.step Tick.Itimer (e_error e)) sched2 Tick.start = Some s2 ->
  run (Tick.step Tick.Posix (e_error e)) sched3 Tick.start = Some s3 ->
  run (Tfd.step (e_tfd e) (e_epfd e) (e_error e)) sched4 (Tfd.start (e_tfd e) (e_epfd e) (e_early e)) = Some s4 ->
  Z.of_nat (Tick.fires s2) < 2 ^ 31 -> Z.of_nat (Tick.fires s3) < 2 ^ 31 -> Z.of_nat (Tfd.fires s4) < 2 ^ 31 ->
  (bounded2 sched2 /\ bounded2 sched3 /\ length sched4 <= 10 + sum_list_with Tfd.cost sched4)%nat /\
  (moves Tick.Itimer s2 /\ moves Tick.Posix s3 /\
   (Tfd.at_ s4 = Tfd.Done \/ is_Some (Tfd.cpu (e_tfd e) (e_epfd e) (e_error e) s4) \/
    Tfd.at_ s4 = Tfd.Wait /\ e_tfd e ∈ Tfd.fds s4)) /\
  (Tick.at_ s2 <> Tick.Killed /\ Tick.at_ s3 <> Tick.Killed) /\
  (Tick.ended s2 -> Tick.ended s3 -> Tfd.at_ s4 = Tfd.Done -> is_Some (main e sched2 sched3 sched4)) /\
  (forall out h2 h3 fds, main e sched2 sched3 sched4 = Some (out, h2, h3, fds) ->
     h2 = false /\ h3 = true /\ fds = [] /\
     exists c2 out3 exps,
       5 <= c2 <= Z.of_nat (Tick.fires s2) /\
       (out3 = [Tick.head_line Tick.Posix; Tick.wait_line Tick.Posix;
                Tick.got_line Tick.Posix (Z.of_nat (Tick.fires s3))] /\ (5 <= Tick.fires s3)%nat \/
        out3 = [Tick.head_line Tick.Posix; perror_line "timer_create" (e_error e)]) /\
       Forall (fun x => 0 < x) exps /\ 5 <= Tfd.sum exps <= Z.of_nat (Tfd.fires s4) /\
       (forall l x, exps = l ++ [x] -> Tfd.sum l < 5) /\
       out = [title; format (separator "Demo 1: clock_gettime() + nanosleep()");
              line [FLit "CLOCK_REALTIME : "; FD (tv_sec (e_real e)); FLit "."; pad9 (tv_nsec (e_real e)); FLit " s"];
              line [FLit "CLOCK_MONOTONIC: "; FD (tv_sec (e_mono e)); FLit "."; pad9 (tv_nsec (e_mono e)); FLit " s"];
              line [FLit "nanosleep(100ms) actual: "; FD (nanos (e_t1 e) - nanos (e_t0 e)); FLit " ns (";
                    FRaw (e_f2 e (nanos (e_t1 e) - nanos (e_t0 e))); FLit " ms)"]] ++
             [Tick.head_line Tick.Itimer; Tick.wait_line Tick.Itimer; Tick.got_line Tick.Itimer c2] ++ out3 ++
             (format (separator "Demo 4: timerfd_create() + epoll") :: Tfd.say_line ::
                Tfd.fired_lines 0 exps ++ [Tfd.done_line]) ++ [end_line]).
Proof.
  intros W0 W1 Hle Ht Hep Hne Hst Hct R2 R3 R4 B2 B3 B4.
  destruct (demo_tick_spec _ _ _ _ R2) as (L2 & K2 & P2 & D2).
  destruct (demo_tick_spec _ _ _ _ R3) as (L3 & K3 & P3 & D3).
  destruct (demo_timerfd_spec _ _ _ Ht Hep Hne R4 B4) as (L4 & P4 & D4).
  split_and!; try done; [by apply P2|by apply P3|intros; by apply (timers_returns e _ _ _ s2 s3 s4)|].
  intros out h2 h3 fds E. unfold main in E.
  destruct (demo_setitimer e sched2) as [[o2 i2]|] eqn:E2; [|done]. cbn [mbind option_bind] in E.
  destruct (demo_posix_timer e sched3) as [[o3 i3]|] eqn:E3; [|done]. cbn [mbind option_bind] in E.
  destruct (demo_timerfd e sched4) as [[o4 f4]|] eqn:E4; [|done]. cbn [mbind option_bind] in E.
  injection E as <- <- <- <-.
  destruct (D2 _ _ E2) as [(_ & Hc2 & _ & -> & ->)|(? & _)]; [|done].
  destruct (D4 _ _ Hst Hct eq_refl) as (-> & exps & Hp & Hs & Hlast & ->).
  unfold demo_clock_nanosleep. rewrite elapsed_exact by done.
  assert (Hi3 : i3 = true) by (destruct (D3 _ _ E3) as [(_ & _ & _ & _ & ->)|(_ & _ & ->)]; done).
  split_and!; [done..|]. exists (Tick.count s2), o3, exps. split_and!; try done; try lia.
  destruct (D3 _ _ E3) as [(_ & Hc3 & Hx & -> & _)|(_ & -> & _)]; [left|by right].
  rewrite (Hx eq_refl) in *. split; [done|lia].
Qed.

(** ** Witness and boundary cases *)

(** Each timer expires when the program waits for it, Demo 3's once more while
    its handler runs; the timerfd has two expirations before the first wait. *)
Definition env_timers : env :=
  mk_env (mk_timespec 1700000000 5) (mk_timespec 5000 999999999) (mk_timespec 5000 999999999)
    (mk_timespec 5001 100100000) (fun _ => bs "100.10") 3 true 4 true 2 [].
Definition sched_2 : list Tick.action :=
  greedy (Tick.step Tick.Itimer []) [Tick.Cpu; Tick.Fire] 100 Tick.start.
Definition sched_3 : list Tick.action :=
  let first := [Tick.Cpu; Tick.Cpu; Tick.Cpu; Tick.Cpu; Tick.Cpu; Tick.Cpu; Tick.Fire; Tick.Fire; Tick.Cpu; Tick.Fire] in
  first ++ greedy (Tick.step Tick.Posix []) [Tick.Cpu; Tick.Fire] 100
    (default Tick.start (run (Tick.step Tick.Posix []) first Tick.start)).
Definition sched_4 : list Tfd.action :=
  greedy (Tfd.step 3 4 []) [Tfd.Cpu; Tfd.Fire] 100 (Tfd.start 3 4 2).
Definition end_2 : Tick.state := default Tick.start (run (Tick.step Tick.Itimer []) sched_2 Tick.start).
Definition end_3 : Tick.state := default Tick.start (run (Tick.step Tick.Posix []) sched_3 Tick.start).
Definition end_4 : Tfd.state := default (Tfd.start 3 4 2) (run (Tfd.step 3 4 []) sched_4 (Tfd.start 3 4 2)).

Lemma timers_main_witness :
  exists out, main env_timers sched_2 sched_3 sched_4 = Some (out, false, true, []) /\ length out = 19%nat.
Proof.
  destruct (main env_timers sched_2 sched_3 sched_4) as [[[[out h2] h3] fds]|] eqn:E; [|vm_compute in E; discriminate E].
  destruct (timers_main env_timers sched_2 sched_3 sched_4 end_2 end_3 end_4) as (_ & _ & _ & _ & H);
    try (vm_compute; congruence); try (split; vm_compute; split; congruence); try (vm_compute; reflexivity).
  destruct (H out h2 h3 fds E) as (-> & -> & -> & _). exists out. split; [reflexivity|].
  vm_compute in E. injection E as <-. reflexivity.
Defined.

(** Expirations that find SIGALRM pending are lost: eight of them, five
    counted. *)
Example sigalrm_coalesces :
  exists s, run (Tick.step Tick.Itimer [])
    (replicate 3 Tick.Cpu ++ replicate 4 Tick.Fire ++
     greedy (Tick.step Tick.Itimer []) [Tick.Cpu; Tick.Fire] 100
       (default Tick.start (run (Tick.step Tick.Itimer []) (replicate 3 Tick.Cpu ++ replicate 4 Tick.Fire) Tick.start)))
    Tick.start = Some s /\ Tick.fires s = 8%nat /\ Tick.count s = 5.
Proof. eexists. split; [vm_compute; reflexivity|]. split; reflexivity. Qed.

(** When [timer_create] fails, the handler of SIGRTMIN is left installed. *)
Example failed_timer_leaves_handler :
  exists out, demo_posix_timer env_timers [Tick.Cpu; Tick.CreateFails] = Some (out, true).
Proof. eexists. vm_compute. reflexivity. Qed.

(** A tick between the test and [pause] is counted but does not end [pause]:
    the program sleeps until the next one. *)
Example tick_before_pause :
  exists s, run (Tick.step Tick.Itimer [])
    (replicate 4 Tick.Cpu ++ [Tick.Fire; Tick.Cpu; Tick.Cpu; Tick.Cpu]) Tick.start = Some s /\
    Tick.at_ s = Tick.Pause /\ Tick.count s = 1 /\ Tick.cpu Tick.Itimer s = None.
Proof. eexists. split; [vm_compute; reflexivity|]. split_and!; reflexivity. Qed.
