(* ===== verification/MemMap.v ===== *)
(** * Address space, mappings and alignment

    src/05_memory/memory_demo.c, Demos 1 to 4 and [main] (Demo 5, the
    leak-tracking allocator, is MemTrack.v).  The process state is that of
    Files.v extended by the mapped regions and the heap, which is that of
    MemTrack.v and shared by all the demos: a store outside a region or to one that is not writable is stuck, and a store to a
    shared file mapping goes to the file.  The addresses chosen by the
    allocators, the text of pointers and the contents of /proc/self/maps are
    arguments. *)

From S2P Require Import Prelude CLib MemTrack Files.

Local Open Scope Z_scope.

(** ** Mapped memory *)

Inductive backing := Anon (data : bytes) | Shared (ino : Z).
Record region := mk_region { r_len : Z; r_write : bool; r_back : backing }.
Record space := mk_space {
  regions : gmap Z region;
  blocks : gmap Z cell;         (* heap blocks not freed *)
}.
Definition P := kproc space.

Definition PAGE : Z := 4096.
Definition page_up (n : Z) : Z := (n + PAGE - 1) / PAGE * PAGE.

Definition with_space (s : space) : ST P unit := st_modify (with_kext s).
Definition set_region (a : Z) (r : region) : ST P unit :=
  p ← st_get; with_space (mk_space (<[a := r]> (regions (kext p))) (blocks (kext p))).

(** [mmap]: [ans] is the address chosen, or MAP_FAILED. *)
Definition mmap_anon (ans : option Z) (len : Z) : ST P (option Z) :=
  match ans with
  | None => mret None
  | Some a => set_region a (mk_region len true (Anon (replicate (Z.to_nat len) NUL))) ;; mret (Some a)
  end.
Definition mmap_shared (ans : option Z) (len fd : Z) : ST P (option Z) :=
  f ← getf fd;
  match f, ans with
  | Some f, Some a =>
      match o_obj f with
      | OFile ino => set_region a (mk_region len true (Shared ino)) ;; mret (Some a)
      | _ => mret None
      end
  | _, _ => mret None
  end.
Definition mprotect (a : Z) (write ok : bool) : ST P Z :=
  p ← st_get;
  match regions (kext p) !! a with
  | Some r => if ok then set_region a (mk_region (r_len r) write (r_back r)) ;; mret 0 else mret (-1)
  | None => mret (-1)
  end.
Definition munmap (a : Z) : ST P Z :=
  p ← st_get;
  match regions (kext p) !! a with
  | Some _ => with_space (mk_space (delete a (regions (kext p))) (blocks (kext p))) ;; mret 0
  | None => mret (-1)
  end.

(** The bytes that can be read at [a]: of a file, up to the end of its last
    page, past its end zeros. *)
Definition load_map (a : Z) : ST P bytes :=
  p ← st_get;
  match regions (kext p) !! a with
  | Some r => mret match r_back r with
                   | Anon d => d
                   | Shared ino =>
                       let c := contents p ino in
                       takeZ (r_len r) (c ++ replicate (Z.to_nat (page_up (lenZ c) - lenZ c)) NUL)
                   end
  | None => st_stuck
  end.

(** A store of [l] at the start of the region.  What lies past the end of the
    file in its last page does not reach the file. *)
Definition store_map (a : Z) (l : bytes) : ST P unit :=
  p ← st_get;
  match regions (kext p) !! a with
  | Some r =>
      if r_write r && (lenZ l <=? r_len r) then
        match r_back r with
        | Anon d => set_region a (mk_region (r_len r) true (Anon (l ++ dropZ (lenZ l) d)))
        | Shared ino =>
            let c := contents p ino in
            if lenZ l <=? page_up (lenZ c)
            then st_modify (with_inodes (<[ino := takeZ (lenZ c) l ++ dropZ (lenZ l) c]> (inodes p)))
            else st_stuck                                              (* SIGBUS *)
        end
      else st_stuck                                                    (* SIGSEGV *)
  | None => st_stuck
  end.

(** ** Files and heap *)

(** [ftruncate] to a larger or smaller size, and [pwrite] at offset 0. *)
Definition ftruncate (fd len : Z) (ok : bool) : ST P Z :=
  f ← getf fd;
  match f with
  | Some f =>
      match o_obj f with
      | OFile ino =>
          if ok then
            p ← st_get;
            let c := contents p ino in
            st_modify (with_inodes
              (<[ino := takeZ len c ++ replicate (Z.to_nat (len - lenZ c)) NUL]> (inodes p))) ;; mret 0
          else mret (-1)
      | _ => mret (-1)
      end
  | None => mret (-1)
  end.
Definition pwrite0 (fd : Z) (l : bytes) : ST P Z :=
  f ← getf fd;
  match f with
  | Some f =>
      match o_obj f with
      | OFile ino => file_write ino 0 l ;; mret (lenZ l)
      | _ => mret (-1)
      end
  | None => mret (-1)
  end.

(** Heap operations of MemTrack.v on the heap of the process. *)
Definition with_blocks (h : gmap Z cell) : ST P unit :=
  p ← st_get; with_space (mk_space (regions (kext p)) h).
Definition alloc (ans : option Z) (size : Z) : ST P Z :=
  match ans with
  | None => mret NULL
  | Some a => p ← st_get; with_blocks (<[a := Block size]> (blocks (kext p))) ;; mret a
  end.
Definition dealloc (a : Z) : ST P unit :=
  if a =? NULL then mret tt
  else p ← st_get;
       match blocks (kext p) !! a with
       | Some _ => with_blocks (delete a (blocks (kext p)))
       | None => st_stuck
       end.

(** [fgets(line, n, f)]: up to and with the next newline, at most [n - 1]
    bytes. *)
Fixpoint fgets (n : nat) (s : bytes) : bytes * bytes :=
  match n, s with
  | S (S n), b :: s => if decide (b = x0a) then ([b], s) else let '(l, r) := fgets (S n) s in (b :: l, r)
  | _, _ => ([], s)
  end.

(** ** The demos *)

Record mm_env := mk_mm_env {
  ptr : Z -> bytes;                                (* %p *)
  hex : Z -> bytes;                                (* %lx *)
  a_text : Z; a_rodata : Z; a_data : Z; a_bss : Z; a_stack : Z;
  e_heap : option Z;                               (* malloc *)
  e_maps : option bytes;                           (* /proc/self/maps, if it can be opened *)
  e_anon : option Z;
  e_prot : bool;
  e_open : bool;
  e_trunc : bool;
  e_map : option Z;
  e_reopen : bool;
  e_align64 : option Z;
  e_page : option Z;
  e_text : bytes;                                  (* the text of errno *)
  e_leak : list (option Z);                        (* the six addresses of Demo 5 *)
}.

Definition rodata_var : Z := 100.
Definition data_var : Z := 42.
Definition bss_var : Z := 0.

Fixpoint maps_loop (i : nat) (s : bytes) : ST P unit :=
  match i with
  | O => mret tt
  | S i =>
      if decide (s = []) then mret tt
      else let '(line, rest) := fgets 256 s in
           kprintf [FLit "    "; FS line] ;; maps_loop i rest
  end.

Definition layout_lines (e : mm_env) (heap_var : Z) : list fmt :=
  [FLit "  .text  (code)    : "; FRaw (hex e (a_text e)); FLit "  (function address)"; FRaw [x0a];
   FLit "  .rodata          : "; FRaw (ptr e (a_rodata e)); FLit "  (const value="; FD rodata_var; FLit ")"; FRaw [x0a];
   FLit "  .data  (init'd)  : "; FRaw (ptr e (a_data e)); FLit "  (value="; FD data_var; FLit ")"; FRaw [x0a];
   FLit "  .bss   (zero)    : "; FRaw (ptr e (a_bss e)); FLit "  (value="; FD bss_var; FLit ")"; FRaw [x0a];
   FLit "  heap             : "; FRaw (ptr e heap_var); FRaw [x0a];
   FLit "  stack            : "; FRaw (ptr e (a_stack e)); FRaw [x0a];
   FRaw [x0a]; FLit "  /proc/self/maps (first 8 lines):"; FRaw [x0a]].

Definition demo_address_layout (e : mm_env) : ST P unit :=
  kprintf (separator "Demo 1: Address Space Layout") ;;
  heap_var ← alloc (e_heap e) 4;
  if heap_var =? NULL then st_stuck                       (* *heap_var = 7 *)
  else
  kprintf (layout_lines e heap_var) ;;
  match e_maps e with
  | Some s =>
      f ← install (mk_ofile OOther RDONLY false 0);
      maps_loop 8 s ;;
      kclose f ;;
      dealloc heap_var
  | None => dealloc heap_var
  end.

Definition size2 : Z := 4 * 4096.
Definition demo_anon_mmap (e : mm_env) : ST P unit :=
  kprintf (separator "Demo 2: mmap() — Anonymous Mapping") ;;
  m ← mmap_anon (e_anon e) size2;
  match m with
  | None => kperror "mmap" (e_text e)
  | Some mem =>
      kprintf [FLit "mmap'd "; FD size2; FLit " bytes at "; FRaw (ptr e mem); FRaw [x0a]] ;;
      store_map mem (replicate (Z.to_nat size2) xab) ;;
      kprintf [FLit "Wrote 0xAB pattern across "; FD size2; FLit " bytes"; FRaw [x0a]] ;;
      r ← mprotect mem false (e_prot e);
      (if r =? 0 then kprintf [FLit "mprotect → PROT_READ (write now would SIGSEGV)"; FRaw [x0a]] else mret tt) ;;
      mprotect mem true true ;;
      munmap mem ;;
      kprintf [FLit "munmap complete"; FRaw [x0a]]
  end.

Definition path3 : string := "/tmp/mmap_demo_file.bin".
Definition content3 : bytes := bs "Embedded Linux mmap file demo!".
Definition modified3 : bytes := bs "MODIFIED via mmap!".
Definition fsize : Z := 4096.

(** [%s] of memory without a NUL runs past its end. *)
Definition as_string (l : bytes) : ST P bytes := if decide (NUL ∈ l) then mret (cstr l) else st_stuck.

Definition demo_file_mmap (e : mm_env) : ST P unit :=
  kprintf (separator "Demo 3: mmap() — File-backed Mapping") ;;
  fd ← kopen path3 true true RDWR (e_open e);
  if fd <? 0 then kperror "open" (e_text e)
  else
  ftruncate fd fsize (e_trunc e) ;;
  pwrite0 fd content3 ;;
  m ← mmap_shared (e_map e) fsize fd;
  kclose fd ;;
  match m with
  | None => kperror "mmap" (e_text e)
  | Some map =>
      l ← load_map map;
      s ← as_string l;
      kprintf [FLit "File content via mmap: "; FRaw [x22]; FS s; FRaw [x22]; FRaw [x0a]] ;;
      store_map map (modified3 ++ replicate (Z.to_nat (fsize - lenZ modified3)) NUL) ;;   (* strncpy *)
      fd ← kopen path3 false false RDONLY (e_reopen e);
      r ← kread fd (64 - 1);
      let verify := default [] r ++ replicate (64 - length (default [] r)) NUL in
      kclose fd ;;
      kprintf [FLit "File content after mmap write: "; FRaw [x22]; FS verify; FRaw [x22]; FRaw [x0a]] ;;
      munmap map ;;
      kunlink path3 ;;
      mret tt
  end.

Definition yes_no (b : bool) : fmt := FLit (if b then "YES ✓" else "NO ✗").

Definition demo_alignment (e : mm_env) : ST P unit :=
  kprintf (separator "Demo 4: Aligned Memory Allocation") ;;
  match e_align64 e with
  | None => kperror "posix_memalign" (e_text e)
  | Some _ =>
      buf ← alloc (e_align64 e) 1024;
      kprintf [FLit "posix_memalign(64): "; FRaw (ptr e buf); FLit "  (aligned: "; yes_no (buf mod 64 =? 0);
               FLit ")"; FRaw [x0a]] ;;
      dealloc buf ;;
      buf ← alloc (e_page e) 4096;
      kprintf [FLit "aligned_alloc(4096): "; FRaw (ptr e buf); FLit "  (aligned: "; yes_no (buf mod 4096 =? 0);
               FLit ")"; FRaw [x0a]] ;;
      dealloc buf
  end.

(** Demo 5 on the heap of the process, with the static variables of the
    tracker, which nothing before it uses, at their initial values. *)
Definition demo5 (e : mm_env) : ST P unit :=
  match e_leak e with
  | [a; ra; b; rb; c; rc] =>
      p ← st_get;
      match demo_leak_tracking (ptr e) a ra b rb c rc (boot (blocks (kext p))) with
      | Some (_, m) =>
          with_blocks (heap m) ;;
          st_modify (with_io (kout p ++ out m) (kerr p ++ err m) (kfaults p))
      | None => st_stuck
      end
  | _ => st_stuck
  end.

Definition main (e : mm_env) : ST P Z :=
  kprintf [FLit "=== Embedded Linux Demo: Memory Management ==="; FRaw [x0a]] ;;
  demo_address_layout e ;;
  demo_anon_mmap e ;;
  demo_file_mmap e ;;
  demo_alignment e ;;
  demo5 e ;;
  kprintf [FRaw [x0a]; FLit "[DONE] Memory demo complete."; FRaw [x0a]] ;;
  mret 0.

(** ** What the operations do *)

Section effects.
Implicit Types (p : P).

Lemma wp_alloc (a n : Z) (Q : Z -> P -> Prop) p :
  Q a (with_kext (mk_space (regions (kext p)) (<[a := Block n]> (blocks (kext p)))) p) ->
  st_wp (alloc (Some a) n) Q p.
Proof. done. Qed.

Lemma wp_dealloc (a : Z) (Q : unit -> P -> Prop) p :
  a <> NULL -> is_Some (blocks (kext p) !! a) ->
  Q tt (with_kext (mk_space (regions (kext p)) (delete a (blocks (kext p)))) p) -> st_wp (dealloc a) Q p.
Proof.
  intros Ha [c Hc] HQ. unfold dealloc. destruct (Z.eqb_spec a NULL); [done|]. wp_step. wp_step.
  by rewrite Hc.
Qed.

Lemma wp_mmap_anon a len (Q : option Z -> P -> Prop) p :
  Q (Some a) (with_kext (mk_space (<[a := mk_region len true (Anon (replicate (Z.to_nat len) NUL))]>
                (regions (kext p))) (blocks (kext p))) p) ->
  st_wp (mmap_anon (Some a) len) Q p.
Proof. done. Qed.

Lemma wp_mmap_shared a len fd ino acc nb off (Q : option Z -> P -> Prop) p :
  kfds p !! fd = Some (mk_ofile (OFile ino) acc nb off) ->
  Q (Some a) (with_kext (mk_space (<[a := mk_region len true (Shared ino)]> (regions (kext p))) (blocks (kext p))) p) ->
  st_wp (mmap_shared (Some a) len fd) Q p.
Proof. intros H HQ. unfold mmap_shared. wp_step. by apply (wp_getf _ _ _ _ H). Qed.

Lemma wp_mmap_failed len fd f (Q : option Z -> P -> Prop) p :
  kfds p !! fd = Some f -> Q None p -> st_wp (mmap_shared None len fd) Q p.
Proof. intros H HQ. unfold mmap_shared. wp_step. by apply (wp_getf _ _ _ _ H). Qed.

Lemma wp_mprotect a w (ok : bool) r (Q : Z -> P -> Prop) p :
  regions (kext p) !! a = Some r ->
  Q (if ok then 0 else -1)
    (if ok
     then with_kext (mk_space (<[a := mk_region (r_len r) w (r_back r)]> (regions (kext p))) (blocks (kext p))) p
     else p) ->
  st_wp (mprotect a w ok) Q p.
Proof. intros H HQ. unfold mprotect. wp_step. wp_step. rewrite H. by destruct ok. Qed.

Lemma wp_munmap a r (Q : Z -> P -> Prop) p :
  regions (kext p) !! a = Some r ->
  Q 0 (with_kext (mk_space (delete a (regions (kext p))) (blocks (kext p))) p) -> st_wp (munmap a) Q p.
Proof. intros H HQ. unfold munmap. wp_step. wp_step. by rewrite H. Qed.

Lemma wp_store_anon a len d l (Q : unit -> P -> Prop) p :
  regions (kext p) !! a = Some (mk_region len true (Anon d)) -> lenZ l <= len ->
  Q tt (with_kext (mk_space (<[a := mk_region len true (Anon (l ++ dropZ (lenZ l) d))]> (regions (kext p)))
          (blocks (kext p))) p) ->
  st_wp (store_map a l) Q p.
Proof.
  intros H Hl HQ. unfold store_map. wp_step. wp_step. rewrite H. cbn [r_write r_len r_back].
  by rewrite (proj2 (Z.leb_le _ _)).
Qed.

(** A file of one page, mapped whole. *)
Lemma wp_load_page a ino c (Q : bytes -> P -> Prop) p :
  regions (kext p) !! a = Some (mk_region PAGE true (Shared ino)) -> inodes p !! ino = Some c -> lenZ c = PAGE ->
  Q c p -> st_wp (load_map a) Q p.
Proof.
  intros H Hc Hl HQ. unfold load_map. wp_step. wp_step. rewrite H. wp_step. cbn [r_back r_len].
  unfold contents. rewrite Hc. cbn [default]. change (id c) with c. rewrite Hl.
  change (Z.to_nat (page_up PAGE - PAGE)) with 0%nat. cbn [replicate]. by rewrite app_nil_r, takeZ_all by lia.
Qed.

Lemma wp_store_page a ino c l (Q : unit -> P -> Prop) p :
  regions (kext p) !! a = Some (mk_region PAGE true (Shared ino)) -> inodes p !! ino = Some c -> lenZ c = PAGE ->
  lenZ l = PAGE -> Q tt (with_inodes (<[ino := l]> (inodes p)) p) -> st_wp (store_map a l) Q p.
Proof.
  intros H Hc Hl Hlen HQ. unfold store_map. wp_step. wp_step. rewrite H. cbn [r_write r_len r_back].
  rewrite Hlen, Z.leb_refl. cbn [andb]. unfold contents. rewrite Hc. cbn [default]. change (id c) with c. rewrite Hl.
  change (PAGE <=? page_up PAGE) with true. cbv iota.
  rewrite takeZ_all by lia. unfold dropZ. rewrite drop_ge by (unfold lenZ in Hl; lia). by rewrite app_nil_r.
Qed.

Lemma wp_ftruncate fd acc off ino c len (Q : Z -> P -> Prop) p :
  Q 0 (put fd acc off ino (takeZ len c ++ replicate (Z.to_nat (len - lenZ c)) NUL) p) ->
  st_wp (ftruncate fd len true) Q (put fd acc off ino c p).
Proof.
  intros HQ. unfold ftruncate. wp_step. apply (wp_getf _ _ _ _ (put_lookup _ _ _ _ _ _)). cbn [o_obj].
  wp_step. wp_step. wp_step. wp_step. wp_step. rewrite put_contents. unfold put, with_inodes in *. cbn in *.
  by rewrite insert_insert_eq.
Qed.

Lemma wp_pwrite0 fd acc off ino c l (Q : Z -> P -> Prop) p :
  Q (lenZ l) (put fd acc off ino (pwritten c 0 l) p) -> st_wp (pwrite0 fd l) Q (put fd acc off ino c p).
Proof.
  intros HQ. unfold pwrite0. wp_step. apply (wp_getf _ _ _ _ (put_lookup _ _ _ _ _ _)). cbn [o_obj].
  wp_step. unfold file_write. wp_step. wp_step. wp_step. wp_step. rewrite put_contents.
  unfold put, with_inodes in *. cbn in *. by rewrite insert_insert_eq.
Qed.
End effects.

(** ** What each demo does *)

Ltac mcbn :=
  cbn [kfds inodes names pipes epolls kout kerr kfaults kext with_fds with_inodes with_names with_kext
       with_io regions blocks r_len r_write r_back] in *.

(** Descriptors, regions and the count of bad descriptors are as before, the
    heap is [h], and [o] was printed. *)
Record leaves (o : bytes) (h : gmap Z cell) (p p' : P) : Prop := {
  k_fds : kfds p' = kfds p;
  k_faults : kfaults p' = kfaults p;
  k_regions : regions (kext p') = regions (kext p);
  k_blocks : blocks (kext p') = h;
  k_out : kout p' = kout p ++ o;
}.

(** The heap too is as before. *)
Definition kept (o : bytes) (p : P) : P -> Prop := leaves o (blocks (kext p)) p.

Lemma leaves_trans o1 o2 h1 h2 p1 p2 p3 :
  leaves o1 h1 p1 p2 -> leaves o2 h2 p2 p3 -> leaves (o1 ++ o2) h2 p1 p3.
Proof. intros [] []. split; try congruence. rewrite (assoc_L (++)). congruence. Qed.

Lemma kept_trans o1 o2 p1 p2 p3 : kept o1 p1 p2 -> kept o2 p2 p3 -> kept (o1 ++ o2) p1 p3.
Proof.
  unfold kept. intros H1 H2. rewrite <- (k_blocks _ _ _ _ H1). by eapply leaves_trans.
Qed.

(** A line of /proc/self/maps that fits the buffer. *)
Definition map_line (l : bytes) : Prop :=
  exists b, l = b ++ [x0a] /\ Forall (fun c => c <> x0a /\ c <> NUL) b /\ (length b < 255)%nat.

Lemma fgets_line n b s :
  Forall (fun c => c <> x0a /\ c <> NUL) b -> (length b + 1 < n)%nat -> fgets n ((b ++ [x0a]) ++ s) = (b ++ [x0a], s).
Proof.
  intros Hb. revert n. induction Hb as [|c b [Hc _] _ IH]; intros n Hn; cbn [length] in Hn;
    destruct n as [|[|n]]; try lia; cbn [fgets app]; [done|].
  rewrite decide_False by done. by rewrite IH by lia.
Qed.

Lemma maps_loop_wp i ls (Q : unit -> P -> Prop) p :
  Forall map_line ls ->
  Q tt (with_io (kout p ++ concat ((fun l => bs "    " ++ l) <$> take i ls)) (kerr p) (kfaults p) p) ->
  st_wp (maps_loop i (concat ls)) Q p.
Proof.
  intros Hls. revert ls p Hls. induction i as [|i IH]; intros ls p Hls HQ; cbn [maps_loop].
  { wp_step. cbn in HQ. rewrite app_nil_r in HQ. by destruct p. }
  destruct Hls as [|l ls (b & -> & Hb & Hn) Hls].
  { rewrite decide_True by done. wp_step. cbn in HQ. rewrite app_nil_r in HQ. by destruct p. }
  cbn [concat]. rewrite decide_False by (by destruct b). rewrite fgets_line by (done || lia).
  wp_step. apply wp_kprintf. apply IH; [done|].
  assert (E : format [FLit "    "; FS (b ++ [x0a])] = bs "    " ++ b ++ [x0a]).
  { unfold format, fmt_piece. rewrite app_nil_r, cstr_no_nul; [done|]. apply Forall_app. split; [|by repeat constructor].
    eapply Forall_impl; [exact Hb|]. naive_solver. }
  rewrite E. cbn [take fmap list_fmap concat] in HQ. rewrite !(assoc_L (++)) in HQ. rewrite !(assoc_L (++)). exact HQ.
Qed.

Definition out1 (e : mm_env) (a : Z) (ls : list bytes) : bytes :=
  format (separator "Demo 1: Address Space Layout") ++ format (layout_lines e a) ++
  match e_maps e with Some _ => concat ((fun l => bs "    " ++ l) <$> take 8 ls) | None => [] end.

Lemma mm_demo1_wp e a ls p :
  e_heap e = Some a -> a <> NULL -> blocks (kext p) !! a = None ->
  Forall map_line ls -> (forall s, e_maps e = Some s -> s = concat ls) ->
  st_wp (demo_address_layout e) (fun _ p' => kept (out1 e a ls) p p' /\ names p' = names p) p.
Proof.
  intros Ha H0 Hn Hls Hm. unfold demo_address_layout, out1. rewrite Ha. wp_step. apply wp_kprintf.
  wp_step. apply wp_alloc. destruct (Z.eqb_spec a NULL); [done|]. wp_step. apply wp_kprintf.
  assert (Hb' : delete a (<[a := Block 4]> (blocks (kext p))) = blocks (kext p)) by (by apply delete_insert_id).
  destruct (e_maps e) as [s|] eqn:Em.
  - rewrite (Hm s eq_refl). wp_step. apply wp_install. intros f Hf Hff. wp_step. apply maps_loop_wp; [done|].
    wp_step. eapply wp_kclose; [apply lookup_insert_eq|]. apply wp_dealloc; [done|cbn; by rewrite lookup_insert_eq|].
    split; [split; cbn -[format]; try done|done].
    + by rewrite delete_insert_id.
    + by rewrite <- !(assoc_L (++)).
  - apply wp_dealloc; [done|cbn; by rewrite lookup_insert_eq|].
    split; [split; cbn -[format]; try done|done]. by rewrite app_nil_r, <- !(assoc_L (++)).
Qed.

Definition out2 (e : mm_env) : bytes :=
  format (separator "Demo 2: mmap() — Anonymous Mapping") ++
  match e_anon e with
  | None => []
  | Some a =>
      format [FLit "mmap'd "; FD size2; FLit " bytes at "; FRaw (ptr e a); FRaw [x0a]] ++
      format [FLit "Wrote 0xAB pattern across "; FD size2; FLit " bytes"; FRaw [x0a]] ++
      (if e_prot e then format [FLit "mprotect → PROT_READ (write now would SIGSEGV)"; FRaw [x0a]] else []) ++
      format [FLit "munmap complete"; FRaw [x0a]]
  end.

Lemma mm_demo2_wp e p :
  (forall a, e_anon e = Some a -> regions (kext p) !! a = None) ->
  st_wp (demo_anon_mmap e) (fun _ p' => kept (out2 e) p p' /\ names p' = names p) p.
Proof.
  intros Hf. unfold demo_anon_mmap, out2. wp_step. apply wp_kprintf. wp_step.
  destruct (e_anon e) as [a|].
  2:{ apply wp_ret, wp_kperror. split; [split; cbn -[format]; try done; by rewrite app_nil_r|done]. }
  specialize (Hf a eq_refl). apply wp_mmap_anon. wp_step. apply wp_kprintf.
  wp_step. eapply wp_store_anon; [apply lookup_insert_eq| |].
  { rewrite lenZ_replicate. unfold size2. lia. }
  generalize (replicate (Z.to_nat size2) xab ++ dropZ (lenZ (replicate (Z.to_nat size2) xab))
    (replicate (Z.to_nat size2) NUL)) as d. intros d.
  wp_step. apply wp_kprintf. wp_step. eapply wp_mprotect; [apply lookup_insert_eq|]. mcbn.
  destruct (e_prot e); cbn [Z.eqb]; wp_step; [apply wp_kprintf|apply wp_ret];
    wp_step; (eapply wp_mprotect; [apply lookup_insert_eq|]); mcbn;
    wp_step; (eapply wp_munmap; [apply lookup_insert_eq|]); mcbn; apply wp_kprintf; mcbn;
    (split; [split; mcbn; try done|done]).
  1,3: by rewrite !insert_insert_eq, delete_insert_id.
  all: by rewrite ?app_nil_l, <- !(assoc_L (++)).
Qed.

Definition page3 : bytes := content3 ++ replicate 4066 NUL.
Definition new3 : bytes := modified3 ++ replicate (Z.to_nat (fsize - lenZ modified3)) NUL.

Lemma page3_written : pwritten (takeZ fsize [] ++ replicate (Z.to_nat (fsize - lenZ (@nil byte))) NUL) 0 content3 = page3.
Proof. vm_compute. reflexivity. Qed.

Lemma page3_string (Q : bytes -> P -> Prop) p : Q content3 p -> st_wp (as_string page3) Q p.
Proof.
  intros HQ. unfold as_string. rewrite decide_True by (apply elem_of_app; right; apply elem_of_replicate; done).
  apply wp_ret. unfold page3. change (replicate 4066 NUL) with (NUL :: replicate 4065 NUL).
  rewrite cstr_app_nul; [done|]. by_decision.
Qed.

Lemma page3_len : lenZ page3 = PAGE /\ lenZ new3 = PAGE.
Proof. split; vm_compute; reflexivity. Qed.

Definition verify3 : bytes :=
  takeZ (64 - 1) (dropZ 0 new3) ++ replicate (64 - length (takeZ (64 - 1) (dropZ 0 new3))) NUL.
Lemma verify3_text : cstr verify3 = modified3.
Proof. vm_compute. reflexivity. Qed.

Definition out3 (e : mm_env) : bytes :=
  format (separator "Demo 3: mmap() — File-backed Mapping") ++
  match e_open e, e_map e with
  | true, Some _ =>
      format [FLit "File content via mmap: "; FRaw [x22]; FRaw content3; FRaw [x22]; FRaw [x0a]] ++
      format [FLit "File content after mmap write: "; FRaw [x22]; FRaw modified3; FRaw [x22]; FRaw [x0a]]
  | _, _ => []
  end.

(** The file is removed again, unless its mapping failed. *)
Definition names3 (e : mm_env) (p p' : P) : Prop :=
  match e_open e, e_map e with
  | false, _ => names p' = names p
  | true, Some _ => names p' = delete path3 (names p)
  | true, None => exists ino, names p' = <[path3 := ino]> (names p)
  end.

Lemma mm_demo3_wp e p :
  (forall a, e_map e = Some a -> regions (kext p) !! a = None) -> e_trunc e = true -> e_reopen e = true ->
  st_wp (demo_file_mmap e) (fun _ p' => kept (out3 e) p p' /\ names3 e p p') p.
Proof.
  intros Hf Ht Hr. unfold demo_file_mmap, out3, names3. rewrite Ht, Hr. wp_step. apply wp_kprintf. wp_step.
  destruct (e_open e).
  2:{ apply wp_ret. cbn [Z.ltb]. apply wp_kperror. split; [split; mcbn; try done; by rewrite app_nil_r|done]. }
  apply wp_put_open. intros fd ino Hfd Hfree _. destruct (Z.ltb_spec fd 0); [lia|].
  wp_step. apply wp_ftruncate. wp_step. apply wp_pwrite0. rewrite page3_written.
  destruct page3_len as [Hl1 Hl2].
  wp_step. destruct (e_map e) as [a|].
  2:{ eapply wp_mmap_failed; [apply put_lookup|]. wp_step. apply wp_put_close; [done|]. apply wp_kperror.
      split; [split; mcbn; try done; by rewrite app_nil_r|]. exists ino. done. }
  specialize (Hf a eq_refl). eapply wp_mmap_shared; [apply put_lookup|].
  wp_step. eapply wp_kclose; [apply lookup_insert_eq|].
  wp_step. eapply wp_load_page; [apply lookup_insert_eq|apply lookup_insert_eq|done|].
  wp_step. apply page3_string. wp_step. apply wp_kprintf.
  wp_step. eapply wp_store_page; [apply lookup_insert_eq|apply lookup_insert_eq|done|exact Hl2|]. fold new3.
  wp_step. eapply wp_kopen_existing; [apply lookup_insert_eq|]. intros fd' Hfd' Hfree'. unfold put in *. mcbn.
  rewrite delete_insert_id in * by done.
  wp_step. eapply wp_kread_file; [apply lookup_insert_eq|done|]. unfold file_read, contents. mcbn.
  rewrite !lookup_insert_eq. cbv zeta. cbn [from_option]. unfold id. fold verify3.
  wp_step. eapply wp_kclose; [apply lookup_insert_eq|]. mcbn.
  wp_step. apply wp_kprintf. mcbn. wp_step. eapply wp_munmap; [apply lookup_insert_eq|]. mcbn.
  wp_step. eapply wp_kunlink; [apply lookup_insert_eq|]. mcbn. wp_step.
  split; [split; mcbn; try done|].
  - by rewrite insert_insert_eq, delete_insert_id.
  - by rewrite delete_insert_id.
  - unfold format. cbn [fmt_piece]. rewrite verify3_text. change (cstr content3) with content3.
    by rewrite <- !(assoc_L (++)).
  - by rewrite delete_insert_eq.
Qed.

Definition out4 (e : mm_env) : bytes :=
  format (separator "Demo 4: Aligned Memory Allocation") ++
  match e_align64 e with
  | None => []
  | Some a =>
      format [FLit "posix_memalign(64): "; FRaw (ptr e a); FLit "  (aligned: YES ✓)"; FRaw [x0a]] ++
      format [FLit "aligned_alloc(4096): "; FRaw (ptr e (default 0 (e_page e))); FLit "  (aligned: YES ✓)"; FRaw [x0a]]
  end.

Lemma mm_demo4_wp e p :
  (forall a, e_align64 e = Some a -> a mod 64 = 0 /\ a <> NULL /\ blocks (kext p) !! a = None) ->
  (forall a, e_page e = Some a -> a mod 4096 = 0 /\ a <> NULL /\ blocks (kext p) !! a = None) ->
  st_wp (demo_alignment e) (fun _ p' => kept (out4 e) p p' /\ names p' = names p) p.
Proof.
  intros H1 H2. unfold demo_alignment, out4. wp_step. apply wp_kprintf.
  destruct (e_align64 e) as [a|].
  2:{ apply wp_kperror. split; [split; mcbn; try done; by rewrite app_nil_r|done]. }
  destruct (H1 a eq_refl) as (Ha & Ha0 & Hab).
  wp_step. apply wp_alloc. wp_step. apply wp_kprintf. mcbn. rewrite Ha, Z.eqb_refl.
  wp_step. apply wp_dealloc; [done|mcbn; by rewrite lookup_insert_eq|]. mcbn. rewrite delete_insert_id by done. wp_step.
  destruct (e_page e) as [b|]; cbn [default].
  - destruct (H2 b eq_refl) as (Hm & Hb0 & Hbb). apply wp_alloc. mcbn. wp_step. apply wp_kprintf. mcbn.
    rewrite Hm, Z.eqb_refl. apply wp_dealloc; [done|mcbn; by rewrite lookup_insert_eq|]. mcbn. rewrite delete_insert_id by done.
    split; [split; mcbn; try done|done]. by rewrite <- !(assoc_L (++)).
  - apply wp_ret. wp_step. apply wp_kprintf. mcbn. apply wp_ret.
    split; [split; mcbn; try done|done]. by rewrite <- !(assoc_L (++)).
Qed.

Definition out5 (e : mm_env) (c : Z) : bytes :=
  format (separator "Demo 5: Custom Malloc Wrapper (Leak Tracking)") ++
  format [FLit "After freeing a and b (64-byte allocation is leaked):"; FRaw [x0a];
          FLit "LEAKS DETECTED:"; FRaw [x0a];
          FLit "  "; FRaw (ptr e c); FLit "  64 bytes"; FRaw [x0a];
          FLit "Total leaked: 64 bytes"; FRaw [x0a]].

(** The heap with the block that is not freed and its record. *)
Definition leaked (c rc : Z) (h : gmap Z cell) : gmap Z cell :=
  <[rc := Rec c 64 NULL]> (<[c := Block 64]> h).

Lemma mm_demo5_wp e a ra b rb c rc p :
  e_leak e = Some <$> [a; ra; b; rb; c; rc] -> demo_fresh (blocks (kext p)) a ra b rb c rc ->
  st_wp (demo5 e) (fun _ p' => leaves (out5 e c) (leaked c rc (blocks (kext p))) p p' /\ names p' = names p) p.
Proof.
  intros He Hf. unfold demo5. rewrite He. cbn [fmap list_fmap]. wp_step. wp_step.
  destruct (demo_leak_spec _ (ptr e) a ra b rb c rc Hf) as (m & Hm & [[Hh _ _ _ _] _] & He' & Ho).
  change addr with Z in Hm. rewrite Hm.
  wp_step. unfold with_blocks, with_space. do 3 wp_step. rewrite He', Ho, Hh.
  split; [split; mcbn; done|done].
Qed.

(** What is assumed: the calls whose result is not checked succeed; the
    allocators return addresses that are not in use and, as documented,
    aligned; the lines of /proc/self/maps fit the buffer. *)
Record mm_ok (e : mm_env) (h : Z) (ls : list bytes) (a ra b rb c rc : Z) (p : P) : Prop := {
  ok_heap : e_heap e = Some h /\ h <> NULL /\ blocks (kext p) !! h = None;
  ok_maps : Forall map_line ls /\ forall s, e_maps e = Some s -> s = concat ls;
  ok_anon : forall x, e_anon e = Some x -> regions (kext p) !! x = None;
  ok_map : forall x, e_map e = Some x -> regions (kext p) !! x = None;
  ok_file : e_trunc e = true /\ e_reopen e = true;
  ok_align64 : forall x, e_align64 e = Some x -> x mod 64 = 0 /\ x <> NULL /\ blocks (kext p) !! x = None;
  ok_page : forall x, e_page e = Some x -> x mod 4096 = 0 /\ x <> NULL /\ blocks (kext p) !! x = None;
  ok_leak : e_leak e = Some <$> [a; ra; b; rb; c; rc] /\ demo_fresh (blocks (kext p)) a ra b rb c rc;
}.

Definition transcript (e : mm_env) (h : Z) (ls : list bytes) (c : Z) : bytes :=
  format [FLit "=== Embedded Linux Demo: Memory Management ==="; FRaw [x0a]] ++
  out1 e h ls ++ out2 e ++ out3 e ++ out4 e ++ out5 e c ++
  format [FRaw [x0a]; FLit "[DONE] Memory demo complete."; FRaw [x0a]].

(** C39: whichever checked call fails, the memory demo returns 0 without a
    store outside a mapping or to a read-only one, provided the calls it does
    not check succeed ([mm_ok]).  It leaves descriptors and mappings as they
    were, and on the heap one 64-byte block and its record more than before,
    the leak of Demo 5; the file is removed unless mapping it failed.  What is
    printed is exact: of /proc/self/maps the first eight lines, from the mapped
    file what was written to it before, and from the file what was stored
    through the mapping; both allocations are reported as aligned, and the leak
    report names the one block left. *)
Theorem memory_main e h ls a ra b rb c rc p :
  mm_ok e h ls a ra b rb c rc p ->
  exists p', main e p = Some (0, p') /\
    leaves (transcript e h ls c) (leaked c rc (blocks (kext p))) p p' /\ names3 e p p'.
Proof.
  intros [(Hh & Hh0 & Hhb) [Hls Hm] Han Hmp [Ht Hr] Hal Hpg (Hlk & Hfr)].
  assert (H : st_wp (main e) (fun r p' => r = 0 /\
    leaves (transcript e h ls c) (leaked c rc (blocks (kext p))) p p' /\ names3 e p p') p).
  2:{ apply wp_run in H as (r & p' & Hrun & -> & H). by exists p'. }
  unfold main. wp_step. apply wp_kprintf.
  set (title := format _). set (p0 := with_io _ _ _ _).
  assert (K0 : kept title p p0) by by split.
  wp_step. eapply wp_mono; [by apply (mm_demo1_wp e h ls)|]. intros [] p1 [K1 N1].
  wp_step. eapply wp_mono; [apply mm_demo2_wp|]; [by rewrite (k_regions _ _ _ _ K1)|]. intros [] p2 [K2 N2].
  pose proof (kept_trans _ _ _ _ _ K0 (kept_trans _ _ _ _ _ K1 K2)) as K02.
  wp_step. eapply wp_mono; [apply mm_demo3_wp; [by rewrite (k_regions _ _ _ _ K02)|done|done]|]. intros [] p3 [K3 N3].
  pose proof (kept_trans _ _ _ _ _ K02 K3) as K03.
  wp_step. eapply wp_mono; [apply mm_demo4_wp; rewrite (k_blocks _ _ _ _ K03); done|]. intros [] p4 [K4 N4].
  pose proof (kept_trans _ _ _ _ _ K03 K4) as K04. pose proof (k_blocks _ _ _ _ K04) as B4.
  wp_step. eapply wp_mono; [apply (mm_demo5_wp e a ra b rb c rc); [done|by rewrite B4]|]. intros [] p5 [K5 N5].
  rewrite B4 in K5. pose proof (leaves_trans _ _ _ _ _ _ _ K04 K5) as K05.
  wp_step. apply wp_kprintf. wp_step. split_and!; [done| |].
  - destruct K05 as [F A R B O]. split; mcbn; try done. rewrite O. unfold transcript.
    by rewrite <- !(assoc_L (++)).
  - unfold names3 in *. mcbn. rewrite N5, N4. rewrite N2, N1 in N3. done.
Qed.

(** ** Witness and boundary cases *)

Definition mm_sunny : mm_env :=
  mk_mm_env hex_ptr utoa 4096 8192 12288 16384 999999 (Some 32) (Some (bs "a-b r--p" ++ [x0a])) (Some 65536) true
    true true (Some 131072) true (Some 64) (Some 8192) [] (Some <$> [16; 32; 48; 64; 80; 96]).
Definition tty : ofile := mk_ofile OOther RDWR false 0.
Definition mm_boot : P :=
  mk_kproc {[ 0 := tty; 1 := tty; 2 := tty ]} ∅ ∅ ∅ ∅ [] [] 0%nat (mk_space ∅ ∅).

Lemma mm_sunny_ok : mm_ok mm_sunny 32 [bs "a-b r--p" ++ [x0a]] 16 32 48 64 80 96 mm_boot.
Proof.
  split; try (split_and!; by_decision); try (intros ? [= <-]; split_and!; by_decision); try done.
  - split.
    + repeat constructor. exists (bs "a-b r--p"). split_and!; [done|by_decision|cbn; lia].
    + intros s [= <-]. done.
  - split; [done|]. split; [by_decision|done].
Qed.

Lemma memory_main_witness :
  exists p', main mm_sunny mm_boot = Some (0, p') /\ names p' = ∅ /\
    kext p' = mk_space ∅ {[ 80 := Block 64; 96 := Rec 80 64 NULL ]}.
Proof.
  destruct (memory_main mm_sunny 32 [bs "a-b r--p" ++ [x0a]] 16 32 48 64 80 96 mm_boot mm_sunny_ok)
    as (p' & Hm & K & N).
  exists p'. split; [exact Hm|]. split; [exact N|].
  pose proof (k_regions _ _ _ _ K) as R. pose proof (k_blocks _ _ _ _ K) as B.
  destruct (kext p') as [r b]. cbn in R, B. rewrite R, B. vm_compute. reflexivity.
Defined.

(** A failed [malloc] in Demo 1 is written through. *)
Definition no_heap (e : mm_env) : mm_env :=
  mk_mm_env (ptr e) (hex e) (a_text e) (a_rodata e) (a_data e) (a_bss e) (a_stack e) None (e_maps e) (e_anon e)
    (e_prot e) (e_open e) (e_trunc e) (e_map e) (e_reopen e) (e_align64 e) (e_page e) (e_text e) (e_leak e).
Example null_heap_crash : demo_address_layout (no_heap mm_sunny) mm_boot = None.
Proof. vm_compute. reflexivity. Qed.

(** [aligned_alloc] failing is reported as an aligned allocation. *)
Definition no_page (e : mm_env) : mm_env :=
  mk_mm_env (ptr e) (hex e) (a_text e) (a_rodata e) (a_data e) (a_bss e) (a_stack e) (e_heap e) (e_maps e) (e_anon e)
    (e_prot e) (e_open e) (e_trunc e) (e_map e) (e_reopen e) (e_align64 e) None (e_text e) (e_leak e).
Example null_is_aligned :
  exists p', demo_alignment (no_page mm_sunny) mm_boot = Some (tt, p') /\
    kout p' = format (separator "Demo 4: Aligned Memory Allocation") ++
      format [FLit "posix_memalign(64): 0x64  (aligned: YES ✓)"; FRaw [x0a];
              FLit "aligned_alloc(4096): 0x0  (aligned: YES ✓)"; FRaw [x0a]].
Proof. eexists. split; [vm_compute; reflexivity|]. vm_compute. reflexivity. Qed.

(** A store to the mapping while it is read-only faults. *)
Example store_read_only :
  (a ← mmap_anon (Some 65536) 4096; mprotect 65536 false true ;; store_map 65536 [x41]) mm_boot = None.
Proof. vm_compute. reflexivity. Qed.
