(* ===== verification/Processes.v ===== *)
(** * Processes: fork, exec, wait, vfork

    src/01_processes/process_demo.c.  A demo that waits for its child is the
    machine [Waiter]: parent and child interleaved line by line, a child that
    may also be killed at any point, and [waitpid] collecting its status.  The
    polling demo is [Nohang].  What an executed program prints and exits with,
    the results of calls that may fail and the process ids are arguments. *)

From S2P Require Import Prelude CLib Files.

Local Open Scope Z_scope.

Definition line (f : list fmt) : bytes := format (f ++ [FRaw [x0a]]).

(** A child: the lines it has still to print; then a zombie with the status it
    left, an exit code or none when a signal killed it; then collected. *)
Inductive kid := Running (l : list bytes) | Zombie (st : option Z) | Reaped (st : option Z).

Definition kid_step (code : Z) (k : kid) (log : list bytes) : option (kid * list bytes) :=
  match k with
  | Running (x :: l) => Some (Running l, log ++ [x])
  | Running [] => Some (Zombie (Some code), log)
  | _ => None
  end.
Definition kid_killed (k : kid) : option kid :=
  match k with Running _ => Some (Zombie None) | _ => None end.

Inductive action := Parent | Child | Kill | PollFails | Other.
#[export] Instance proc_action_eq_dec : EqDecision action.
Proof. solve_decision. Defined.

(** What a child has printed, and how much is left of it. *)
Definition kid_ok (lines : list bytes) (code : Z) (k : kid) (log : list bytes) : Prop :=
  match k with
  | Running l => log ++ l = lines
  | Zombie st | Reaped st =>
      log `prefix_of` lines /\ (st = None \/ st = Some code /\ log = lines)
  end.
Definition kid_rank (k : kid) : nat := match k with Running l => S (length l) | _ => 0 end.

Lemma kid_step_ok lines code k log k' log' :
  kid_ok lines code k log -> kid_step code k log = Some (k', log') ->
  kid_ok lines code k' log' /\ (kid_rank k' < kid_rank k)%nat.
Proof.
  intros Hk Hs. unfold kid_step in Hs. destruct k as [[|x l]| | ]; try done; simplify_eq; cbn [kid_ok kid_rank] in *.
  - rewrite app_nil_r in Hk. subst. split; [|lia]. split; [done|]. by right.
  - rewrite <- (assoc_L (++)). split; [done|cbn; lia].
Qed.

Lemma kid_killed_ok lines code k log k' :
  kid_ok lines code k log -> kid_killed k = Some k' ->
  kid_ok lines code k' log /\ (kid_rank k' < kid_rank k)%nat.
Proof.
  intros Hk Hs. unfold kid_killed in Hs. destruct k; try done; simplify_eq; cbn [kid_ok kid_rank] in *.
  split; [|lia]. split; [|by left]. subst. by apply prefix_app_r.
Qed.

(** ** A parent that waits

    [waitpid(pid)] collects the child of the demo; [wait(NULL)] ([any])
    collects whichever child has ended, one that an earlier demo left
    uncollected ([others]) too. *)
Module Waiter.

Inductive pc :=
| Say (l : list bytes)      (* lines before the wait *)
| Wait
| Report (l : list bytes)   (* lines after it *)
| Done.
#[global] Instance waiter_pc_eq_dec : EqDecision pc.
Proof. solve_decision. Defined.

Record state := mk_state {
  at_ : pc; child : kid; others : list Z; plog : list bytes; klog : list bytes
}.

Section run.
Context (any : bool) (before lines : list bytes) (code : Z) (after : option Z -> list bytes).

Definition parent (s : state) : option state :=
  let go p out := Some (mk_state p (child s) (others s) (plog s ++ out) (klog s)) in
  match at_ s with
  | Say (x :: l) => go (Say l) [x]
  | Say [] => go Wait []
  | Wait =>
      match child s with
      | Zombie st => Some (mk_state (Report (after st)) (Reaped st) (others s) (plog s) (klog s))
      | _ => None
      end
  | Report (x :: l) => go (Report l) [x]
  | Report [] => go Done []
  | Done => None
  end.

(** The wait returns for one of the other children. *)
Definition collect_other (s : state) : option state :=
  match at_ s, others s with
  | Wait, _ :: l =>
      if any then Some (mk_state (Report (after None)) (child s) l (plog s) (klog s)) else None
  | _, _ => None
  end.

Definition step (a : action) (s : state) : option state :=
  match a with
  | Parent => parent s
  | Child => '(k, log) ← kid_step code (child s) (klog s); Some (mk_state (at_ s) k (others s) (plog s) log)
  | Kill => k ← kid_killed (child s); Some (mk_state (at_ s) k (others s) (plog s) (klog s))
  | Other => collect_other s
  | PollFails => None
  end.

Definition start (others : list Z) : state := mk_state (Say before) (Running lines) others [] [].

(** A child that is not killed ends with its code. *)
Lemma unkilled sched s0 s :
  Kill ∉ sched -> (forall st, child s0 = Zombie st \/ child s0 = Reaped st -> st = Some code) ->
  run step sched s0 = Some s -> forall st, child s = Zombie st \/ child s = Reaped st -> st = Some code.
Proof.
  revert s0. induction sched as [|a sched IH]; intros s0 Hn H0 Hrun; cbn [run] in Hrun; [by simplify_eq|].
  apply not_elem_of_cons in Hn as [Ha Hn]. destruct (step a s0) as [s1|] eqn:E; [|done].
  apply (IH s1 Hn); [|done]. clear IH Hrun. destruct s0 as [p k ot pl kl].
  destruct a; cbn [step at_ child others plog klog] in *; try done.
  - unfold parent in E. cbn [at_ child others plog klog] in E. inv_step E; naive_solver.
  - unfold kid_step in E. inv_step E; naive_solver.
  - unfold collect_other in E. cbn [at_ child others plog klog] in E. inv_step E; naive_solver.
Qed.

(** A wait for any child when the demo's own is the only one. *)
Context (left : list Z) (Hleft : any = false \/ left = []).

Record inv (s : state) : Prop := {
  i_kid : kid_ok lines code (child s) (klog s);
  i_others : others s = left;
  i_pc : match at_ s with
         | Say l => plog s ++ l = before /\ forall st, child s <> Reaped st
         | Wait => plog s = before /\ forall st, child s <> Reaped st
         | Report l => exists st, child s = Reaped st /\ plog s ++ l = before ++ after st
         | Done => exists st, child s = Reaped st /\ plog s = before ++ after st
         end;
}.
Definition m : nat := Nat.max (length (after None)) (length (after (Some code))).
Definition rank (p : pc) : nat :=
  match p with Say l => length l + m + 4 | Wait => m + 3 | Report l => length l + 1 | Done => 0 end.
Definition work (s : state) : nat := rank (at_ s) + kid_rank (child s).

Lemma no_other s : others s = left -> collect_other s = None.
Proof.
  intros Ho. unfold collect_other. rewrite Ho.
  destruct Hleft as [E|E]; rewrite E; by destruct (at_ s), left.
Qed.

Lemma waiter_parent_inv s s' : inv s -> parent s = Some s' -> inv s' /\ (work s' < work s)%nat.
Proof.
  intros [Hk Ho Hp] E. unfold work. destruct s as [p k ot pl kl]. unfold parent in E.
  cbn [at_ child others plog klog] in *. subst ot.
  destruct p as [[|x l]| |[|x l]| ]; try done.
  - injection E as <-. destruct Hp as [Hp Hr]. rewrite app_nil_r in Hp.
    split; [by split; cbn; rewrite ?app_nil_r|cbn; lia].
  - injection E as <-. destruct Hp as [Hp Hr].
    split; [split; cbn; [done|done|by rewrite <- (assoc_L (++))]|cbn; lia].
  - destruct k as [|st|]; try done. injection E as <-. destruct Hp as [Hp _]. split.
    + split; cbn; [done|done|]. exists st. by rewrite Hp.
    + cbn. destruct Hk as [_ [->|[-> _]]]; unfold m; lia.
  - injection E as <-. destruct Hp as (st & Hst & Hp). rewrite app_nil_r in Hp.
    split; [split; cbn; rewrite ?app_nil_r; eauto|cbn; lia].
  - injection E as <-. destruct Hp as (st & Hst & Hp).
    split; [split; cbn; [done|done|]; exists st; by rewrite <- (assoc_L (++))|cbn; lia].
Qed.

Lemma waiter_inv a s s' : inv s -> step a s = Some s' -> inv s' /\ (work s' < work s)%nat.
Proof.
  intros Hi E. pose proof Hi as [Hk Ho Hp]. destruct a; cbn [step] in E.
  - by eapply waiter_parent_inv.
  - unfold work. destruct s as [p k ot pl kl]. cbn [at_ child others plog klog] in *.
    destruct (kid_step code k kl) as [[k' kl']|] eqn:Ek; [|done]. cbn in E. injection E as <-.
    destruct (kid_step_ok _ _ _ _ _ _ Hk Ek) as [Hk' Hlt]. split; [|cbn; lia].
    split; cbn; [done|done|]. unfold kid_step in Ek.
    destruct k as [[|x l]| | ]; try done; simplify_eq; destruct p; naive_solver.
  - unfold work. destruct s as [p k ot pl kl]. cbn [at_ child others plog klog] in *.
    destruct (kid_killed k) as [k'|] eqn:Ek; [|done]. cbn in E. injection E as <-.
    destruct (kid_killed_ok _ _ _ _ _ Hk Ek) as [Hk' Hlt]. split; [|cbn; lia].
    split; cbn; [done|done|]. unfold kid_killed in Ek. destruct k; try done. destruct p; naive_solver.
  - done.
  - by rewrite no_other in E.
Qed.

Lemma waiter_progress s : inv s -> at_ s = Done \/ is_Some (parent s) \/ is_Some (step Child s).
Proof.
  intros [Hk _ Hp]. destruct s as [p k ot pl kl]. unfold parent. cbn [step at_ child plog klog] in *.
  destruct p as [[|x l]| |[|x l]| ]; try (by left); try (by right; left).
  destruct k as [[|x l]|st|st]; try (by right; right); try (by right; left). naive_solver.
Qed.

(** When the parent is done, the child has been collected, with its code and
    all its lines printed unless it was killed. *)
Lemma waiter_run sched s :
  run step sched (start left) = Some s ->
  (length sched <= length before + length lines + m + 5)%nat /\
  (at_ s = Done \/ is_Some (parent s) \/ is_Some (step Child s)) /\
  (at_ s = Done -> exists st, child s = Reaped st /\ others s = left /\ plog s = before ++ after st /\
     klog s `prefix_of` lines /\ (st = None \/ st = Some code /\ klog s = lines)) /\
  (Kill ∉ sched -> at_ s = Done -> child s = Reaped (Some code)).
Proof.
  intros Hrun.
  assert (H0 : inv (start left)) by (split; cbn; done).
  pose proof (run_measure step inv work (fun a x y => waiter_inv a x y) _ _ _ H0 Hrun) as Hl.
  assert (Hi : inv s).
  { revert Hrun. apply (run_invariant step inv); [|done]. intros a x y Hx Hy. by apply (waiter_inv a x). }
  split_and!.
  - unfold work in Hl at 2. cbn in Hl. lia.
  - by apply waiter_progress.
  - intros Ed. destruct Hi as [Hk Ho Hp]. rewrite Ed in Hp. destruct Hp as (st & Hst & Hp). rewrite Hst in Hk.
    exists st. by destruct Hk.
  - intros Hn Ed. destruct Hi as [_ _ Hp]. rewrite Ed in Hp. destruct Hp as (st & Hst & _). rewrite Hst.
    rewrite (unkilled sched (start left) s Hn) with (st := st); [done| |done|by right]. cbn. naive_solver.
Qed.
End run.
End Waiter.

(** ** A parent that polls: [demo_waitpid_nohang] *)
Module Nohang.

Inductive pc :=
| Poll (i : nat)            (* loop head; waitpid(pid, &status, WNOHANG) *)
| SayRunning (i : nat)
| SayExited (st : option Z)
| SayError
| Done.
#[global] Instance nohang_pc_eq_dec : EqDecision pc.
Proof. solve_decision. Defined.

Record state := mk_state { at_ : pc; child : kid; plog : list bytes; klog : list bytes }.

Section run.
(** [garb] is WIFEXITED of [status], which has no value before the child is
    collected. *)
Context (pid : Z) (garb : Z) (error : bytes) (lines : list bytes) (code : Z).

Definition running_line (i : nat) : bytes :=
  line [FLit "[PARENT] child still running (poll "; FD (Z.of_nat i + 1); FLit "),status="; FD garb].
(** WEXITSTATUS is 0 for a child that a signal killed. *)
Definition exited_line (st : option Z) : bytes :=
  line [FLit "[PARENT] child pid="; FD pid; FLit ", exited, code="; FD (default 0 st)].
Definition error_line : bytes := perror_line "waitpid" error.

Definition parent (s : state) : option state :=
  let go p out := Some (mk_state p (child s) (plog s ++ out) (klog s)) in
  match at_ s with
  | Poll i =>
      if (i <? 6)%nat then
        match child s with
        | Running _ => go (SayRunning i) []
        | Zombie st => Some (mk_state (SayExited st) (Reaped st) (plog s) (klog s))
        | Reaped _ => go SayError []                             (* ECHILD *)
        end
      else go Done []
  | SayRunning i => go (Poll (S i)) [running_line i]
  | SayExited st => go Done [exited_line st]
  | SayError => go Done [error_line]
  | Done => None
  end.

Definition step (a : action) (s : state) : option state :=
  match a with
  | Parent => parent s
  | Child => '(k, log) ← kid_step code (child s) (klog s); Some (mk_state (at_ s) k (plog s) log)
  | Kill => k ← kid_killed (child s); Some (mk_state (at_ s) k (plog s) (klog s))
  | PollFails =>
      match at_ s with
      | Poll i => if (i <? 6)%nat then Some (mk_state SayError (child s) (plog s) (klog s)) else None
      | _ => None
      end
  | Other => None
  end.

Definition start : state := mk_state (Poll 0) (Running lines) [] [].

(** Polls that found the child running, and how the loop was left. *)
Definition polls (k : nat) : list bytes := running_line <$> seq 0 k.

Record inv (s : state) : Prop := {
  i_kid : kid_ok lines code (child s) (klog s);
  i_pc : match at_ s with
         | Poll i => (i <= 6)%nat /\ plog s = polls i /\ forall st, child s <> Reaped st
         | SayRunning i => (i < 6)%nat /\ plog s = polls i /\ forall st, child s <> Reaped st
         | SayExited st => child s = Reaped st /\ exists k, (k < 6)%nat /\ plog s = polls k
         | SayError => (forall st, child s <> Reaped st) /\ exists k, (k < 6)%nat /\ plog s = polls k
         | Done => (exists st k, child s = Reaped st /\ (k < 6)%nat /\ plog s = polls k ++ [exited_line st]) \/
                   (forall st, child s <> Reaped st) /\
                   (plog s = polls 6 \/ exists k, (k < 6)%nat /\ plog s = polls k ++ [error_line])
         end;
}.
Definition rank (p : pc) : nat :=
  match p with
  | Poll i => 2 * (6 - i) + 2 | SayRunning i => 2 * (6 - i) + 1 | SayExited _ | SayError => 1 | Done => 0
  end.
Definition work (s : state) : nat := rank (at_ s) + kid_rank (child s).

Ltac ncbn := cbn [at_ child plog klog].

(** The child moved, and is not collected. *)
Ltac kid_moves p Hp :=
  destruct p;
    [destruct Hp as (? & ? & _); by split_and!|destruct Hp as (? & ? & _); by split_and!|by destruct Hp
    |destruct Hp as [_ ?]; by split|destruct Hp as [(? & ? & ? & _)|[_ ?]]; [done|right; by split]].

Lemma nohang_inv a s s' : inv s -> step a s = Some s' -> inv s' /\ (work s' < work s)%nat.
Proof.
  intros [Hk Hp] E. unfold work. destruct s as [p k pl kl]. destruct a; cbn [step at_ child plog klog] in *.
  - unfold parent in E. cbn [at_ child plog klog] in E. destruct p as [i|i|st| | ]; try done.
    + destruct Hp as (Hi & Hl & Hr). destruct (Nat.ltb_spec i 6) as [Hlt|Hge].
      * destruct k as [l|st|st]; [| |naive_solver]; injection E as <-;
          (split; [split; ncbn; rewrite ?app_nil_r; eauto|cbn; lia]).
      * injection E as <-. assert (i = 6)%nat as -> by lia.
        split; [split; ncbn; rewrite ?app_nil_r; [done|]; right; eauto|cbn; lia].
    + destruct Hp as (Hi & Hl & Hr). injection E as <-. split; [split; ncbn; [done|]|cbn; lia].
      split_and!; [lia| |done]. rewrite Hl. unfold polls. by rewrite seq_S, fmap_app.
    + destruct Hp as (Hc & j & Hj & Hl). injection E as <-. split; [split; ncbn; [done|]|cbn; lia].
      left. exists st, j. by rewrite Hl.
    + destruct Hp as (Hc & j & Hj & Hl). injection E as <-. split; [split; ncbn; [done|]|cbn; lia].
      right. split; [done|]. right. exists j. by rewrite Hl.
  - destruct (kid_step code k kl) as [[k' kl']|] eqn:Ek; [|done]. cbn in E. injection E as <-.
    destruct (kid_step_ok _ _ _ _ _ _ Hk Ek) as [Hk' Hlt]. split; [|cbn; lia].
    split; ncbn; [done|]. unfold kid_step in Ek. destruct k as [[|x l]| | ]; try done; injection Ek as <- <-; kid_moves p Hp.
  - destruct (kid_killed k) as [k'|] eqn:Ek; [|done]. cbn in E. injection E as <-.
    destruct (kid_killed_ok _ _ _ _ _ Hk Ek) as [Hk' Hlt]. split; [|cbn; lia].
    split; ncbn; [done|]. unfold kid_killed in Ek. destruct k; try done. injection Ek as <-. kid_moves p Hp.
  - destruct p as [i| | | | ]; try done. destruct (Nat.ltb_spec i 6) as [Hi|Hi]; [|done]. injection E as <-.
    destruct Hp as (_ & Hl & Hr). split; [split; ncbn; eauto|cbn; lia].
  - done.
Qed.

Lemma nohang_run sched s :
  run step sched start = Some s ->
  (length sched <= length lines + 15)%nat /\
  (at_ s = Done \/ is_Some (parent s)) /\
  (at_ s = Done ->
     (exists st k, child s = Reaped st /\ (k < 6)%nat /\ plog s = polls k ++ [exited_line st] /\
        (st = None \/ st = Some code /\ klog s = lines)) \/
     (forall st, child s <> Reaped st) /\
     (plog s = polls 6 \/ exists k, (k < 6)%nat /\ plog s = polls k ++ [error_line])).
Proof.
  intros Hrun.
  assert (H0 : inv start) by (split; cbn; [done|]; split_and!; [lia|done..]).
  pose proof (run_measure step inv work (fun a x y => nohang_inv a x y) _ _ _ H0 Hrun) as Hl.
  assert (Hi : inv s).
  { revert Hrun. apply (run_invariant step inv); [|done]. intros a x y Hx Hy. by apply (nohang_inv a x). }
  split_and!.
  - unfold work in Hl at 2. cbn in Hl. lia.
  - unfold parent. destruct (at_ s) as [i| | | | ]; try (by right); [|by left].
    right. destruct (i <? 6)%nat; [|done]. by destruct (child s).
  - intros Ed. destruct Hi as [Hk Hp]. rewrite Ed in Hp. destruct Hp as [(st & j & Hst & Hj & Hlog)|Hp]; [left|by right].
    exists st, j. rewrite Hst in Hk. by destruct Hk.
Qed.
End run.
End Nohang.

(** ** The demos *)

Record env := mk_env {
  self : Z;                       (* getpid() of main *)
  e_fork1 : Z; e_fork2 : Z; e_vfork : Z; e_fork5 : Z; e_fork3 : Z; e_wrap : Z; e_fork4 : Z;
  e_ls : option (list bytes * Z); (* execl of /bin/ls: what it prints and exits with *)
  e_shm : option (Z * bytes);     (* shm_open: its descriptor and the contents of /test *)
  e_trunc : bool;
  e_ls2 : option (list bytes * Z);  (* execlp of ls: its writes to standard output, its status *)
  e_write : bool;                 (* the vfork child's write *)
  e_dup2 : bool;
  e_mmap : bool;
  e_garb : Z;
  e_init : Z;                     (* the process that adopts orphans *)
  e_any : nat;                    (* which child waitpid(-1) collects *)
  e_forked : bool;                (* whether a wrapper that is killed has forked before *)
  e_error : bytes;                (* the text of errno *)
}.

(** Of a demo: what the parent prints, what its children print, and the
    children not collected. *)
Definition result : Type := list bytes * list bytes * list Z.

(** A child is left uncollected unless a wait collected it. *)
Definition left_behind (pid : Z) (k : kid) : list Z := match k with Reaped _ => [] | _ => [pid] end.

Definition perr (who : string) (e : env) : bytes := perror_line who (e_error e).

(** *** Demo 1.  [inr]: the process exits with EXIT_FAILURE. *)

Definition sep1 : bytes := format (separator "Demo 1: fork() + wait()").
Definition before1 (e : env) : list bytes :=
  [line [FLit "[PARENT] PID="; FD (self e); FLit ", child PID="; FD (e_fork1 e); FLit " — waiting…"]].
Definition lines1 (e : env) : list bytes :=
  [line [FLit "[CHILD ] PID="; FD (e_fork1 e); FLit ", PPID="; FD (self e); FLit " — doing work…"];
   line [FLit "[CHILD ] exiting with code 42"]].
Definition after1 (e : env) (st : option Z) : list bytes :=
  match st with
  | Some c => [line [FLit "[PARENT] child "; FD (e_fork1 e); FLit " exited normally, code="; FD c]]
  | None => []
  end.
Definition step1 (e : env) : action -> Waiter.state -> option Waiter.state := Waiter.step false 42 (after1 e).
Definition start1 (e : env) : Waiter.state := Waiter.start (before1 e) (lines1 e) [].

Definition demo_fork_wait (e : env) (sched : list action) : option (result + list bytes) :=
  if e_fork1 e <? 0 then Some (inr [sep1; perr "fork" e])
  else
    s ← run (step1 e) sched (start1 e);
    if decide (Waiter.at_ s = Waiter.Done)
    then Some (inl (sep1 :: Waiter.plog s, Waiter.klog s, left_behind (e_fork1 e) (Waiter.child s)))
    else None.

(** *** Demo 2.  [left] are the children not collected before. *)

Definition sep2 : bytes := format (separator "Demo 2: fork() + execl()").
Definition lines2 (e : env) : list bytes :=
  line [FLit "[CHILD ] about to execl /bin/ls …"] ::
  match e_ls e with Some (out, _) => out | None => [perr "execl" e] end.
Definition code2 (e : env) : Z := match e_ls e with Some (_, c) => c | None => 1 end.
Definition after2 (st : option Z) : list bytes := [line [FLit "[PARENT] exec child finished"]].
Definition step2 (e : env) : action -> Waiter.state -> option Waiter.state := Waiter.step true (code2 e) after2.
Definition start2 (e : env) (left : list Z) : Waiter.state := Waiter.start [] (lines2 e) left.

Definition demo_exec (e : env) (left : list Z) (sched : list action) : option result :=
  if e_fork2 e <? 0 then Some ([sep2; perr "fork" e], [], left)
  else
    s ← run (step2 e) sched (start2 e left);
    if decide (Waiter.at_ s = Waiter.Done)
    then Some (sep2 :: Waiter.plog s, Waiter.klog s, Waiter.others s ++ left_behind (e_fork2 e) (Waiter.child s))
    else None.

(** *** Demo 6.  The parent is suspended until the child executes [ls] (which
    the child is taken to reach), and then waits for any child while [ls]
    writes.  [shm]: the object left under /test.  [%s] needs a NUL in the 4096
    bytes mapped. *)

Definition sep6 : bytes := format (separator "Demo 6: vfork() — Shared Memory with Parent Until exec/_exit").
Definition vfork_log (e : env) : list fmt :=
  [FLit "Child PID="; FD (e_vfork e); FLit ", PPID="; FD (self e);
   FLit " — writing to shared memory before exec()…"; FRaw [x0a]].
(** [ftruncate(fd, 4096)] *)
Definition sized (c : bytes) : bytes := takeZ 4096 c ++ replicate (Z.to_nat (4096 - lenZ c)) NUL.

(** Returns the descriptors left open as well. *)
Definition close (fd : Z) (l : list Z) : list Z := filter (fun x => x <> fd) l.

(** What [ls] writes, one element for each [write], and its status. *)
Definition writes6 (e : env) : list bytes := match e_ls2 e with Some (l, _) => l | None => [] end.
Definition code6 (e : env) : Z := match e_ls2 e with Some (_, c) => c | None => 1 end.
Definition step6 (e : env) : action -> Waiter.state -> option Waiter.state :=
  Waiter.step true (code6 e) (fun _ => []).
Definition start6 (e : env) (left : list Z) : Waiter.state := Waiter.start [] (writes6 e) left.

(** The object left, the descriptors left open, the children not collected. *)
Definition demo_vfork (e : env) (left : list Z) (sched : list action) :
    option (list bytes * list bytes * option bytes * list Z * list Z) :=
  let head := [sep6; line [FLit "parent PID="; FD (self e)]] in
  match e_shm e with
  | None => Some (head ++ [perr "ftruncate" e], [], None, [], left)
  | Some (fd, c) =>
      if negb (e_trunc e) then Some (head ++ [perr "ftruncate" e], [], Some c, close fd [fd], left)
      else
      let c := sized c in
      if e_vfork e <? 0 then Some (head ++ [perr "vfork" e], [], Some c, close fd [fd], left)
      else
      log ← store_bytes (replicate 128 NUL) 0 (format (vfork_log e) ++ [NUL]);     (* sprintf *)
      let kid := [if e_write e then cstr log else perr "write" e] ++
                 (if e_dup2 e then [] else [perr "dup2" e]) ++
                 match e_ls2 e with Some _ => [] | None => [perr "execlp ls" e] end in
      s ← run (step6 e) sched (start6 e left);
      if decide (Waiter.at_ s <> Waiter.Done) then None
      else
      let left := Waiter.others s ++ left_behind (e_vfork e) (Waiter.child s) in
      let '(c, kid) := if e_dup2 e then (pwritten c 0 (concat (Waiter.klog s)), kid)
                       else (c, kid ++ Waiter.klog s) in         (* on the old standard output *)
      if negb (e_mmap e) then Some (head ++ [perr "mmap" e], kid, Some c, close fd [fd], left)
      else
      text ← (if decide (NUL ∈ takeZ 4096 c) then Some (cstr c) else None);
      Some (head ++ [format [FLit "[PARENT] read from shared memory (child's output):"; FRaw [x0a]; FS text];
                     line [FLit "[PARENT] vfork child finished"]], kid, None, close fd [fd], left)
  end.

(** *** Demo 5 *)

Definition sep5 : bytes := format (separator "Demo 5: waitpid() with WNOHANG").
Definition lines5 (e : env) : list bytes :=
  [line [FLit "[CHILD ] PID="; FD (e_fork5 e); FLit " exiting after 2s"]].
Definition step5 (e : env) : action -> Nohang.state -> option Nohang.state :=
  Nohang.step (e_fork5 e) (e_garb e) (e_error e) 7.
Definition start5 (e : env) : Nohang.state := Nohang.start (lines5 e).

Definition demo_waitpid_nohang (e : env) (sched : list action) : option result :=
  if e_fork5 e <? 0 then Some ([sep5; perr "fork" e], [], [])
  else
    s ← run (step5 e) sched (start5 e);
    if decide (Nohang.at_ s = Nohang.Done)
    then Some (sep5 :: Nohang.plog s, Nohang.klog s,
               left_behind (e_fork5 e) (Nohang.child s))
    else None.

(** *** Demo 3 *)

Definition demo_zombie (e : env) : result :=
  let head := [format (separator "Demo 3: Zombie Process");
               format [FLit "Tip: run  ps aux | grep Z in another terminal to see the zombie"; FRaw [x0a; x0a]]] in
  if e_fork3 e <? 0 then (head ++ [perr "fork" e], [], [])
  else
    (head ++ [line [FLit "[PARENT] PID="; FD (self e); FLit " NOT calling wait() for 10 s — child is zombie!"]],
     [line [FLit "[CHILD ] PID="; FD (e_fork3 e); FLit " exiting immediately — becoming zombie…"]],
     [e_fork3 e]).

(** *** Demo 4, in the wrapper process that [main] waits for: what the wrapper
    prints, and what the orphan does once it is adopted. *)

Definition demo_orphan (e : env) : list bytes * list bytes :=
  let head := format (separator "Demo 4: Orphan Process") in
  if e_fork4 e <? 0 then ([head; perr "fork" e], [])
  else
    ([head; line [FLit "[PARENT] PID="; FD (e_wrap e); FLit " exiting — child "; FD (e_fork4 e); FLit " becomes orphan"]],
     [line [FLit "[ORPHAN] PID="; FD (e_fork4 e); FLit ", PPID="; FD (e_init e); FLit " (adopted by init/systemd=1)"]]).

(** The orphan's lines, if the wrapper came to fork it. *)
Definition wrapper_left (e : env) (k : kid) : list bytes :=
  match k with
  | Reaped (Some _) => (demo_orphan e).2
  | _ => if e_forked e then (demo_orphan e).2 else []
  end.

Definition step4 : action -> Waiter.state -> option Waiter.state := Waiter.step false 0 (fun _ => []).
Definition start4 (e : env) : Waiter.state := Waiter.start [] (demo_orphan e).1 [].

(** ** [main] *)

Record outcome := mk_outcome {
  status : Z;
  printed : list bytes;           (* by main *)
  kids : list bytes;              (* by its children, demo by demo *)
  orphan : list bytes;
  unreaped : list Z;
  shm : option bytes;
  fds : list Z;
}.

Definition title (e : env) : list bytes :=
  [line [FLit "=== Embedded Linux Demo: Processes ==="]; line [FLit "Parent PID: "; FD (self e)]].
Definition done_line : bytes := line [FRaw [x0a]; FLit "[DONE] Process demo complete."].

Definition main (e : env) (s1 s2 s6 s5 s4 : list action) : option outcome :=
  r1 ← demo_fork_wait e s1;
  match r1 with
  | inr out => Some (mk_outcome 1 (title e ++ out) [] [] [] (snd <$> e_shm e) [])
  | inl (o1, k1, u1) =>
      '(o2, k2, u2) ← demo_exec e u1 s2;
      '(o6, k6, shm, fds, u6) ← demo_vfork e u2 s6;
      '(o5, k5, u5) ← demo_waitpid_nohang e s5;
      let '(o3, k3, u3) := demo_zombie e in
      let out := title e ++ o1 ++ o2 ++ o6 ++ o5 ++ o3 in
      let ks := k1 ++ k2 ++ k6 ++ k5 ++ k3 in
      if e_wrap e <? 0
      then (* waitpid(-1): any child *)
        Some (mk_outcome 0 (out ++ [done_line]) ks [] (delete (e_any e) (u6 ++ u5 ++ u3)) shm fds)
      else
        w ← run step4 s4 (start4 e);
        if decide (Waiter.at_ w = Waiter.Done)
        then Some (mk_outcome 0 (out ++ [done_line]) (ks ++ Waiter.klog w) (wrapper_left e (Waiter.child w))
                     (u6 ++ u5 ++ u3 ++ left_behind (e_wrap e) (Waiter.child w)) shm fds)
        else None
  end.

(** ** What the demos do *)

Lemma vfork_log_fits e :
  0 <= self e < 2 ^ 31 -> 0 <= e_vfork e < 2 ^ 31 -> lenZ (format (vfork_log e)) <= 127.
Proof.
  intros H1 H2. unfold vfork_log. cbn [format fmt_piece]. rewrite !lenZ_app.
  pose proof (itoa_length (self e) 9 ltac:(lia)). pose proof (itoa_length (e_vfork e) 9 ltac:(lia)).
  change (lenZ (bs "Child PID=")) with 10. change (lenZ (bs ", PPID=")) with 7.
  change (lenZ (bs " — writing to shared memory before exec()…")) with 46.
  change (lenZ [x0a]) with 1. change (lenZ (@nil byte)) with 0. lia.
Qed.

Lemma vfork_log_no_nul e : Forall (fun b => b <> NUL) (format (vfork_log e)).
Proof.
  unfold vfork_log. cbn [format fmt_piece]. rewrite !Forall_app.
  split_and!; try apply itoa_no_nul; by_decision.
Qed.

Lemma sized_new : sized [] = replicate (Z.to_nat 4096) NUL.
Proof. vm_compute. reflexivity. Qed.

Lemma drop_replicate_cons {A} (x : A) n k :
  (k < n)%nat -> drop k (replicate n x) = x :: replicate (n - S k) x.
Proof. intros H. rewrite drop_replicate. by replace (n - k)%nat with (S (n - S k)) by lia. Qed.

(** The object is new and the output shorter than a page: it is read back. *)
Lemma shm_text text :
  Forall (fun b => b <> NUL) text -> lenZ text < 4096 ->
  NUL ∈ takeZ 4096 (pwritten (sized []) 0 text) /\ cstr (pwritten (sized []) 0 text) = text.
Proof.
  intros Hn Hl. rewrite sized_new. unfold pwritten, takeZ, dropZ. rewrite Z.add_0_l.
  assert (Hk : (Z.to_nat (lenZ text) < Z.to_nat 4096)%nat) by (apply Z2Nat.inj_lt; [apply lenZ_nonneg|lia|done]).
  rewrite (drop_replicate_cons _ _ _ Hk). change (Z.to_nat 0) with 0%nat. rewrite take_0, app_nil_l.
  split; [|by apply cstr_app_nul].
  rewrite take_app. apply elem_of_app. right. unfold lenZ in Hk. rewrite Nat2Z.id in Hk.
  destruct (Z.to_nat 4096 - length text)%nat eqn:E; [lia|]. constructor.
Qed.

Definition out6 (e : env) (text : bytes) : list bytes :=
  [sep6; line [FLit "parent PID="; FD (self e)];
   format [FLit "[PARENT] read from shared memory (child's output):"; FRaw [x0a]; FRaw text];
   line [FLit "[PARENT] vfork child finished"]].

(** [ls] wrote [concat (Waiter.klog w)] and was collected. *)
Lemma demo_vfork_spec e fd sched w :
  0 <= self e < 2 ^ 31 -> 0 <= e_vfork e < 2 ^ 31 ->
  e_shm e = Some (fd, []) -> e_trunc e = true -> e_mmap e = true -> is_Some (e_ls2 e) ->
  e_write e = true -> e_dup2 e = true ->
  run (step6 e) sched (start6 e []) = Some w -> Waiter.at_ w = Waiter.Done ->
  Forall (fun b => b <> NUL) (concat (Waiter.klog w)) -> lenZ (concat (Waiter.klog w)) < 4096 ->
  demo_vfork e [] sched =
    Some (out6 e (concat (Waiter.klog w)), [format (vfork_log e)], None, [],
          Waiter.others w ++ left_behind (e_vfork e) (Waiter.child w)).
Proof.
  intros Hs Hv Hshm Ht Hm [ls Hls] Hw Hd Hrun Hdone Hn Hl. unfold demo_vfork.
  rewrite Hshm, Ht, Hm, Hls, Hw, Hd. cbn [negb].
  rewrite (proj2 (Z.ltb_ge _ _)) by lia.
  pose proof (vfork_log_fits e Hs Hv). pose proof (lenZ_nonneg (format (vfork_log e))).
  rewrite store_bytes_Some; [|lia|].
  2:{ rewrite lenZ_app, lenZ_replicate. change (lenZ [NUL]) with 1. lia. }
  destruct (shm_text _ Hn Hl) as [Hin Hc]. cbn [mbind option_bind].
  rewrite takeZ_0, app_nil_l, <- (assoc_L (++)).
  assert (Ek : forall k, cstr (format (vfork_log e) ++ [NUL] ++ k) = format (vfork_log e))
    by (intros k; apply cstr_app_nul, vfork_log_no_nul).
  rewrite Ek, Hrun. cbn [mbind option_bind]. rewrite decide_False by (by intros []).
  rewrite decide_True by done. cbn [mbind option_bind]. rewrite Hc. unfold out6, close.
  rewrite filter_cons_False by naive_solver. repeat f_equal.
  unfold format. cbn [fmt_piece]. by rewrite cstr_no_nul.
Qed.

(** No call fails, and [ls] writes less than a page, without NUL, into an
    object that is new. *)
Record proc_ok (e : env) (fd : Z) (ls : list bytes) : Prop := {
  ok_self : 0 <= self e < 2 ^ 31;
  ok_vfork : 0 <= e_vfork e < 2 ^ 31;
  ok_forks : 0 <= e_fork1 e /\ 0 <= e_fork2 e /\ 0 <= e_fork5 e /\ 0 <= e_fork3 e /\ 0 <= e_wrap e /\ 0 <= e_fork4 e;
  ok_shm : e_shm e = Some (fd, []) /\ e_trunc e = true /\ e_mmap e = true;
  ok_child : e_write e = true /\ e_dup2 e = true;
  ok_ls2 : is_Some (e_ls2 e) /\ writes6 e = ls;
  ok_text : Forall (fun b => b <> NUL) (concat ls) /\ lenZ (concat ls) < 4096;
}.

(** The same for what a killed [ls] had written. *)
Lemma part_ok (l ls : list bytes) :
  l `prefix_of` ls -> Forall (fun b => b <> NUL) (concat ls) /\ lenZ (concat ls) < 4096 ->
  Forall (fun b => b <> NUL) (concat l) /\ lenZ (concat l) < 4096.
Proof.
  intros [k ->] [Hn Hl]. rewrite concat_app in *. apply Forall_app in Hn as [Hn _].
  rewrite lenZ_app in Hl. pose proof (lenZ_nonneg (concat k)). split; [done|lia].
Qed.

(** What a finished polling demo printed, and whom it left behind. *)
Definition polled (e : env) (o : list bytes) (u : list Z) : Prop :=
  exists k, (k <= 6)%nat /\
    ((k < 6)%nat /\ u = [] /\ (exists st, (st = None \/ st = Some 7) /\
        o = Nohang.polls (e_garb e) k ++ [Nohang.exited_line (e_fork5 e) st]) \/
     u = [e_fork5 e] /\ (k = 6%nat /\ o = Nohang.polls (e_garb e) k \/
        (k < 6)%nat /\ o = Nohang.polls (e_garb e) k ++ [Nohang.error_line (e_error e)])).

Lemma demo_nohang_spec e s5 w5 o k u :
  0 <= e_fork5 e -> run (step5 e) s5 (start5 e) = Some w5 ->
  demo_waitpid_nohang e s5 = Some (o, k, u) -> exists o', o = sep5 :: o' /\ polled e o' u.
Proof.
  intros Hf Hrun E. unfold demo_waitpid_nohang in E. rewrite (proj2 (Z.ltb_ge _ _)), Hrun in E by done.
  cbn [mbind option_bind] in E. case_decide as Hd; [|done]. injection E as <- <- <-.
  destruct (Nohang.nohang_run _ _ _ _ _ _ _ Hrun) as (_ & _ & H). eexists. split; [done|].
  destruct (H Hd) as [(st & j & Hc & Hj & Hl & Hst)|(Hc & [Hl|(j & Hj & Hl)])].
  - exists j. split; [lia|]. left. rewrite Hc. split_and!; try done. exists st. naive_solver.
  - exists 6%nat. split; [lia|]. right. split; [destruct (Nohang.child w5); naive_solver|]. by left.
  - exists j. split; [lia|]. right. split; [destruct (Nohang.child w5); naive_solver|]. by right.
Qed.

(** The whole of [main] when every wait is over. *)
Lemma process_result e fd ls s1 s2 s6 s5 s4 w1 w2 w6 w4 o5 k5 u5 :
  proc_ok e fd ls ->
  run (step1 e) s1 (start1 e) = Some w1 -> run (step2 e) s2 (start2 e []) = Some w2 ->
  run (step6 e) s6 (start6 e []) = Some w6 -> run step4 s4 (start4 e) = Some w4 ->
  demo_waitpid_nohang e s5 = Some (o5, k5, u5) ->
  Waiter.at_ w1 = Waiter.Done -> Waiter.at_ w2 = Waiter.Done -> Waiter.at_ w6 = Waiter.Done ->
  Waiter.at_ w4 = Waiter.Done ->
  left_behind (e_fork1 e) (Waiter.child w1) = [] ->
  Waiter.others w2 ++ left_behind (e_fork2 e) (Waiter.child w2) = [] ->
  Waiter.klog w6 `prefix_of` ls ->
  let '(o3, k3, u3) := demo_zombie e in
  exists ks,
  main e s1 s2 s6 s5 s4 = Some (mk_outcome 0
    ((title e ++ (sep1 :: Waiter.plog w1) ++ (sep2 :: Waiter.plog w2) ++ out6 e (concat (Waiter.klog w6)) ++ o5 ++ o3) ++ [done_line])
    ks (wrapper_left e (Waiter.child w4))
    ((Waiter.others w6 ++ left_behind (e_vfork e) (Waiter.child w6)) ++ u5 ++ u3 ++ left_behind (e_wrap e) (Waiter.child w4))
    None []).
Proof.
  intros [Hs Hv (F1 & F2 & F5 & F3 & Fw & F4) (Hshm & Ht & Hm) (Hwr & Hdup) (Hls & Hw6) Htx]
    R1 R2 R6 R4 E5 D1 D2 D6 D4 L1 L2 Hpre.
  destruct (part_ok _ _ Hpre Htx) as [Hn Hl].
  destruct (demo_zombie e) as [[o3 k3] u3] eqn:E3. eexists.
  unfold main, demo_fork_wait, demo_exec.
  rewrite (proj2 (Z.ltb_ge (e_fork1 e) 0)), (proj2 (Z.ltb_ge (e_fork2 e) 0)), (proj2 (Z.ltb_ge (e_wrap e) 0)) by done.
  rewrite R1. cbn [mbind option_bind]. rewrite decide_True by done. rewrite L1. cbn [mbind option_bind].
  rewrite R2. cbn [mbind option_bind]. rewrite decide_True by done. rewrite L2. cbn [mbind option_bind].
  rewrite (demo_vfork_spec e fd s6 w6) by done. cbn [mbind option_bind].
  rewrite E5. cbn [mbind option_bind]. rewrite E3, R4. cbn [mbind option_bind].
  by rewrite decide_True.
Qed.

Lemma nohang_returns e s5 w5 :
  0 <= e_fork5 e -> run (step5 e) s5 (start5 e) = Some w5 -> Nohang.at_ w5 = Nohang.Done ->
  demo_waitpid_nohang e s5 = Some (sep5 :: Nohang.plog w5, Nohang.klog w5, left_behind (e_fork5 e) (Nohang.child w5)).
Proof.
  intros F5 R5 D5. unfold demo_waitpid_nohang. rewrite (proj2 (Z.ltb_ge _ _)), R5 by done. cbn [mbind option_bind].
  by rewrite decide_True.
Qed.

(** [main] returns only when its waits are over. *)
Lemma process_waits_over e fd ls s1 s2 s6 s5 s4 w1 w2 w6 w5 w4 r :
  proc_ok e fd ls ->
  run (step1 e) s1 (start1 e) = Some w1 -> run (step2 e) s2 (start2 e []) = Some w2 ->
  run (step6 e) s6 (start6 e []) = Some w6 -> run (step5 e) s5 (start5 e) = Some w5 ->
  run step4 s4 (start4 e) = Some w4 ->
  left_behind (e_fork1 e) (Waiter.child w1) = [] \/ Waiter.at_ w1 <> Waiter.Done ->
  Waiter.others w2 ++ left_behind (e_fork2 e) (Waiter.child w2) = [] \/ Waiter.at_ w2 <> Waiter.Done ->
  main e s1 s2 s6 s5 s4 = Some r ->
  Waiter.at_ w1 = Waiter.Done /\ Waiter.at_ w2 = Waiter.Done /\ Waiter.at_ w6 = Waiter.Done /\
  Nohang.at_ w5 = Nohang.Done /\ Waiter.at_ w4 = Waiter.Done.
Proof.
  intros [Hs Hv (F1 & F2 & F5 & F3 & Fw & F4) (Hshm & Ht & Hm) (Hwr & Hdup) (Hls & Hw6) Htx]
    R1 R2 R6 R5 R4 L1 L2 E. unfold main, demo_fork_wait, demo_exec in E.
  rewrite (proj2 (Z.ltb_ge (e_fork1 e) 0)), (proj2 (Z.ltb_ge (e_fork2 e) 0)) in E by done.
  rewrite R1 in E. cbn [mbind option_bind] in E. case_decide as D1; [|done]. destruct L1 as [L1|]; [|done].
  rewrite L1 in E. cbn [mbind option_bind] in E. rewrite R2 in E. cbn [mbind option_bind] in E.
  case_decide as D2; [|done]. destruct L2 as [L2|]; [|done]. rewrite L2 in E. cbn [mbind option_bind] in E.
  destruct (demo_vfork e [] s6) as [[[[[o6 k6] sh] fd6] u6]|] eqn:E6; [|done]. cbn [mbind option_bind] in E.
  assert (D6 : Waiter.at_ w6 = Waiter.Done).
  { unfold demo_vfork in E6. rewrite Hshm, Ht in E6. cbn [negb] in E6. rewrite (proj2 (Z.ltb_ge _ _)) in E6 by lia.
    destruct (store_bytes _ _ _); [|done]. cbn [mbind option_bind] in E6. rewrite R6 in E6.
    cbn [mbind option_bind] in E6. case_decide as D6; [done|]. by destruct (decide (Waiter.at_ w6 = Waiter.Done)). }
  unfold demo_waitpid_nohang in E. rewrite (proj2 (Z.ltb_ge (e_fork5 e) 0)), R5 in E by done.
  cbn [mbind option_bind] in E. case_decide as D5; [|done]. cbn [mbind option_bind] in E.
  destruct (demo_zombie e) as [[o3 k3] u3]. rewrite (proj2 (Z.ltb_ge (e_wrap e) 0)), R4 in E by done.
  cbn [mbind option_bind] in E. case_decide as D4; [|done]. done.
Qed.

(** Every wait is bounded and, until it is over, can move. *)
Lemma process_moves e fd ls s1 s2 s6 s5 s4 w1 w2 w6 w5 w4 :
  proc_ok e fd ls ->
  run (step1 e) s1 (start1 e) = Some w1 -> run (step2 e) s2 (start2 e []) = Some w2 ->
  run (step6 e) s6 (start6 e []) = Some w6 -> run (step5 e) s5 (start5 e) = Some w5 ->
  run step4 s4 (start4 e) = Some w4 ->
  (length s1 <= 9 /\ length s2 <= length (lines2 e) + 6 /\ length s6 <= length ls + 5 /\
   length s5 <= 16 /\ length s4 <= 7)%nat /\
  (Waiter.at_ w1 = Waiter.Done \/ is_Some (step1 e Parent w1) \/ is_Some (step1 e Child w1)) /\
  (Waiter.at_ w2 = Waiter.Done \/ is_Some (step2 e Parent w2) \/ is_Some (step2 e Child w2)) /\
  (Waiter.at_ w6 = Waiter.Done \/ is_Some (step6 e Parent w6) \/ is_Some (step6 e Child w6)) /\
  (Nohang.at_ w5 = Nohang.Done \/ is_Some (step5 e Parent w5)) /\
  (Waiter.at_ w4 = Waiter.Done \/ is_Some (step4 Parent w4) \/ is_Some (step4 Child w4)).
Proof.
  intros [_ _ (F1 & F2 & F5 & F3 & Fw & F4) _ _ (_ & Hw6) _] R1 R2 R6 R5 R4.
  destruct (Waiter.waiter_run _ _ _ _ _ _ (or_introl eq_refl) _ _ R1) as (L1 & P1 & _).
  destruct (Waiter.waiter_run _ _ _ _ _ _ (or_intror eq_refl) _ _ R2) as (L2 & P2 & _).
  destruct (Waiter.waiter_run _ _ _ _ _ _ (or_intror eq_refl) _ _ R6) as (L6 & P6 & _).
  destruct (Waiter.waiter_run _ _ _ _ _ _ (or_introl eq_refl) _ _ R4) as (L4 & P4 & _).
  destruct (Nohang.nohang_run _ _ _ _ _ _ _ R5) as (L5 & P5 & _).
  split_and!; try done.
  - change (Waiter.m (code2 e) after2) with 1%nat in L2. simpl length in L2 at 2. lia.
  - change (Waiter.m (code6 e) (fun _ => [])) with 0%nat in L6. rewrite Hw6 in L6. simpl length in L6 at 2. lia.
  - unfold start4, demo_orphan in L4. rewrite (proj2 (Z.ltb_ge _ _)) in L4 by done. exact L4.
Qed.


(** ** Witness and boundary cases *)

Definition env_proc : env :=
  mk_env 100 101 102 103 104 105 106 107 (Some ([line [FLit "total 0"]], 0)) (Some (3, [])) true
    (Some ([bs "bin etc "; bs "usr" ++ [x0a]], 0)) true true true 0 1 0 true [].
Definition acts : list action := [Child; Parent].
Definition w_s1 : list action := greedy (step1 env_proc) acts 50 (start1 env_proc).
Definition w_s2 : list action := greedy (step2 env_proc) acts 50 (start2 env_proc []).
Definition w_s6 : list action := greedy (step6 env_proc) acts 50 (start6 env_proc []).
Definition w_s5 : list action := [Parent; Parent] ++ greedy (step5 env_proc) acts 50
  (default (start5 env_proc) (run (step5 env_proc) [Parent; Parent] (start5 env_proc))).
Definition w_s4 : list action := greedy step4 acts 50 (start4 env_proc).
Definition w_1 : Waiter.state := default (start1 env_proc) (run (step1 env_proc) w_s1 (start1 env_proc)).
Definition w_2 : Waiter.state := default (start2 env_proc []) (run (step2 env_proc) w_s2 (start2 env_proc [])).
Definition w_6 : Waiter.state := default (start6 env_proc []) (run (step6 env_proc) w_s6 (start6 env_proc [])).
Definition w_5 : Nohang.state := default (start5 env_proc) (run (step5 env_proc) w_s5 (start5 env_proc)).
Definition w_4 : Waiter.state := default (start4 env_proc) (run step4 w_s4 (start4 env_proc)).


(** With a child left over from before, [wait(NULL)] can collect that one, and
    the demo's own child stays behind. *)
Example wait_any_collects_other :
  exists o k, demo_exec env_proc [99] [Parent; Other; Parent; Parent] = Some (o, k, [102]).
Proof. eexists _, _. vm_compute. reflexivity. Qed.

(** A child that a signal kills while it is polled for is reported as exited
    with code 0. *)
Example killed_reported_as_exit :
  exists s, run (step5 env_proc) [Kill; Parent; Parent] (start5 env_proc) = Some s /\
    Nohang.child s = Reaped None /\ Nohang.plog s = [Nohang.exited_line 104 (Some 0)].
Proof. eexists. split; [vm_compute; reflexivity|]. split; vm_compute; reflexivity. Qed.

(** A child that outlives the six polls is left behind. *)
Example slow_child_left :
  exists o k, demo_waitpid_nohang env_proc (replicate 13 Parent) = Some (o, k, [104]).
Proof. eexists _, _. vm_compute. reflexivity. Qed.

(** An [ls] that writes 4096 bytes or more leaves no NUL in the mapping, and
    printing it runs past its end. *)
Definition big_ls : env :=
  mk_env 100 101 102 103 104 105 106 107 None (Some (3, [])) true (Some ([replicate 4096 x41], 0)) true true true 0 1 0 true [].
(** One write, and the wait. *)
Definition ls_runs : list action := [Child; Child; Parent; Parent; Parent].
Example ls_overruns_mapping :
  is_Some (run (step6 big_ls) ls_runs (start6 big_ls [])) /\ demo_vfork big_ls [] ls_runs = None.
Proof. split; [vm_compute; by eexists|vm_compute; reflexivity]. Qed.

(** What an earlier run left in the object shows after a shorter output. *)
Definition stale_shm : env :=
  mk_env 100 101 102 103 104 105 106 107 None (Some (3, bs "old contents")) true (Some ([bs "new"], 0)) true true true 0 1 0 true [].
Example stale_contents_shown :
  exists o k, demo_vfork stale_shm [] ls_runs = Some (o, k, None, [], []) /\
    o !! 2%nat = Some (format [FLit "[PARENT] read from shared memory (child's output):"; FRaw [x0a];
                               FLit "new contents"]).
Proof. eexists _, _. split; vm_compute; reflexivity. Qed.

(** When the mapping fails the object is not removed. *)
Definition no_map : env :=
  mk_env 100 101 102 103 104 105 106 107 None (Some (3, [])) true (Some ([bs "x"], 0)) true true false 0 1 0 true [].
Example failed_map_leaves_object :
  exists o k c, demo_vfork no_map [] ls_runs = Some (o, k, Some c, [], []) /\ cstr c = bs "x".
Proof. eexists _, _, _. split; vm_compute; reflexivity. Qed.

(** When [dup2] fails [ls] writes to the terminal, and the parent prints an
    empty text as the child's output. *)
Definition no_dup : env :=
  mk_env 100 101 102 103 104 105 106 107 None (Some (3, [])) true (Some ([bs "x"], 0)) true false true 0 1 0 true [].
Example failed_dup2_empty_output :
  exists o k, demo_vfork no_dup [] ls_runs = Some (o, k, None, [], []) /\ k !! 2%nat = Some (bs "x") /\
    o !! 2%nat = Some (format [FLit "[PARENT] read from shared memory (child's output):"; FRaw [x0a]]).
Proof. eexists _, _. split_and!; vm_compute; reflexivity. Qed.
